(* ===== verification/_CoqProject ===== *)
-Q . S2P
Prelude.v
Uuid.v
Money.v
Account.v
Transfer.v
Ledger.v
Json.v
Database.v
CircuitBreaker.v
Observability.v
Effects.v
Ports.v
Adapters.v
AdapterSpecs.v
Saga.v
Command.v
Http.v
Worker.v
Services.v
Delivery.v
Calls.v
Drain.v
EventLog.v
Concurrency.v
System.v
Auditing.v
Guarantees.v
Closed.v
Sequential.v
Refinement.v
Recovery.v
Pipeline.v
Creation.v
Middleware.v
Queries.v
Retries.v
Books.v
Solvency.v
Acks.v
Balances.v
Bank.v
Testbed.v
Races.v
Witnesses.v
