(* ===== verification/Prelude.v ===== *)
(** * flip-style-transfer-engine: verification library

    ** The program

    A money transfer engine in four Go binaries around one PostgreSQL
    database, a Redis cache and a NATS stream. [cmd/api] serves HTTP: it
    creates transfers (state PENDING) under an idempotency key and answers
    queries. Creating a transfer, and every later step of it, appends an event
    and an outbox message. [cmd/outbox-relay] publishes outbox rows to the
    stream; [cmd/worker] consumes the stream and runs one step of the saga per
    message: reserve the debit, call the bank (behind a circuit breaker), post
    the credit, complete; or compensate and fail. [cmd/reconciler] adds the
    ledger up.

    ** Model and code

    Every operation is translated call by call. A Go function without I/O is a
    function; one with I/O is a program of type [Effects.prog], whose nodes
    are the calls to the outside, each atomic: a statement or commit
    of PostgreSQL, a command of Redis or NATS, a critical section of the
    breaker, a bank call, a clock reading, a fresh UUID. [Effects.run] executes
    one program alone in an environment ([Env]: clock, UUIDs, faults); a fault
    loses a call before or after its effect, or is a context that has ended,
    with which no call succeeds. [Effects.step] interleaves any number of
    programs, starts new ones and kills running ones between any two calls.

    A bank in timeout mode receives from [ctx.Done()]: its answer is [None] while
    the caller's context lives, and [step] never lets such a call return
    ([Effects.waits]). The worker's context has no deadline, so its run of the
    saga then has no end ([Effects.hangs]); as [run] is a function, it goes on
    with an arbitrary answer of the environment. Safety theorems hold whatever
    that answer is; theorems about how a transfer ends assume another mode, and
    [execute_implements_spec] says what happens in this one.

    - [Prelude]: int64 wrap-around, Go errors with [%w] chains and [errors.Is],
      the result type, quoting, sums, tactics and hint databases;
    - [Uuid]: google/uuid as an interface with laws, and an instance;
    - [Money], [Account], [Transfer], [Ledger]: the packages of
      [internal/domain], one file each;
    - [Json]: [encoding/json] as the program uses it;
    - [Database]: the tables and constraints of [migrations/] and the SQL
      statements of the repositories and the relay;
    - [CircuitBreaker]: [internal/infrastructure/circuitbreaker], with the two
      critical sections of [Call] as [acquire] and [release];
    - [Effects]: programs, their execution, the mock bank
      ([internal/infrastructure/bankmock/bank_gateway.go]), Redis and NATS as
      interfaces with laws, rely-guarantee reasoning;
    - [Ports]: the interfaces of [internal/application/port], as records;
    - [Adapters]: [internal/infrastructure/postgres], [redis], [nats], and
      [bankmock/circuit_bank.go]; [AdapterSpecs]: what they promise;
    - [Saga]: [internal/application/saga/transfer_saga.go];
    - [Command]: [internal/application/command/create_transfer.go];
    - [Http]: [internal/interfaces/http]: router, middleware, handlers; a
      handler ends with the calls it makes on its [ResponseWriter], which the
      server's writer and the middleware's wrapper interpret;
    - [Worker]: the loop bodies of [cmd/worker], [cmd/outbox-relay] and
      [cmd/reconciler];
    - [Services]: [main] and [run] of the four binaries: connecting, the polling
      loops and [Consumer.Subscribe] over the events that wake them, stopping,
      the exit status;
    - [Observability]: contexts, loggers, trace ids and the metric declarations
      of [internal/infrastructure/observability].
    The other files hold theorems; [Calls] the properties of programs that
    follow from those of their calls.

    ** Theorems

    - Domain: [Transfer.transfer_lifecycle], [Ledger.NewPosting_correct],
      [Ledger.Reversal_undoes], [Money.Add_Sub_cancel].
    - Sequential correctness of the saga ([Sequential], [Refinement]): an
      abstract specification gives for each state what one call of [Execute]
      changes in the transfer, the balances and the log
      ([execute_implements_spec]); four calls take a pending transfer to
      an end that is all or nothing ([saga_all_or_nothing]). [Recovery]: from
      any configuration of the system, four deliveries without faults end any
      transfer. All of this and [Pipeline] is of transfers whose accounts exist,
      with a clearing account of the currency that is neither the source nor
      the destination ([accounts_ready]; [clearing_transfer_never_credited] has
      the others), and of a bank that answers.
    - Creation ([Creation], [Retries]): what a command without faults leaves,
      when it is accepted, the replay of a retry while the system goes on, and
      what becomes of a retry when the cached response is gone.
    - HTTP ([Middleware], [Queries]): the idempotency gate of the /v1 routes and
      the access log through the whole middleware; the two queries in full, the
      shape of the answers; a transfer that was created is served.
    - Balances ([Balances], [Books]): the SQL sum against the domain's
      [SignedAmount]; in a serial history without faults, every balance is
      what the transfers' states say has been moved.
    - Solvency ([Solvency]): in serial histories, with lost calls and with
      processes that die anywhere ([Effects.run_for]), no customer's account is
      overdrawn; [Races] has the two interleaved debits that do overdraw one.
    - Safety of the whole system ([Concurrency], [System], [Guarantees],
      [Auditing]): in every configuration reached with any interleaving,
      faults, crashes and redeliveries, the ledger grows by balanced postings,
      transfer rows move along the state machine one version at a time and
      are not compensated once they record the bank's acceptance, the event log only grows
      and by true events, transfers to a clearing account are never credited,
      keys are unique, published rows were sent, the audit passes.
    - Acknowledgements ([Acks]): whatever calls are lost, a delivery that is
      acknowledged has moved its transfer on and left the next message.
    - Delivery ([Delivery], [Drain], [EventLog], [Pipeline]): what a poll sends,
      that polling empties an outbox the stream can take, what the event store
      gives back; relay and worker taking turns drive any number of transfers
      whose messages wait to their ends, on shared accounts too.
    - The breaker and the bank ([CircuitBreaker], [Bank]): when the breaker
      opens whatever the interleaving of its callers, what it lets through, what
      the saga does while it is open, and the bank that fails its first calls
      behind it.
    - The binaries ([Services]): faults end none of them once started.
    - What does not hold ([Races], [Delivery], [Closed]): concurrent debits can
      overdraw an account; a crash between two transactions of a step can
      repeat a posting or the bank call or lose an event, two relays send a
      row twice;
      the message of the command is not understood by the worker, so that the
      closed system never starts a transfer created over HTTP; rows on unbound
      subjects starve the relay.
    - [Testbed] has concrete services and a small world; [Witnesses] applies
      every theorem that has hypotheses to it.

    ** Bounds

    Amounts, totals and the bank's call counter wrap at their width; the
    version columns are 32 bits. The sequential theorems speak of the calls up
    to a horizon [lim], counted in calls of the run, below which the
    environment's UUIDs are distinct and not yet in the database: UUIDs are
    finitely many, so no environment can promise this for ever; [lim] is
    arbitrary. The parser of JSON takes as fuel one more than the length of the
    text, proved enough for every text the program writes. There is no other
    fuel: loops are structural over lists of rows; the endless loops of the
    binaries are, in [Services], structural over the events that wake them, and
    in the concurrent system the repeated starts of [Effects.step].

    ** Not modelled

    Log lines other than the access log, and the values of the metrics, which
    the program declares and never updates; the indexes of the schema, the column [published_at] of the outbox, which
    nothing reads, and the table [processed_events], which nothing uses; the length of timer intervals and timeouts,
    which decides nothing here; the servers and client libraries themselves,
    which are parameters with their documented laws (google/uuid, Redis, NATS,
    the chi router's matching and own answers, promhttp, opening connections) or, for PostgreSQL, the
    statements the program sends; read-committed isolation is
    the atomicity of each statement, and a transaction's inserts become visible
    at its commit. That a context, once ended, stays so is not built into the
    environments, which choose a fault for every call: what holds for all of
    them holds for the real ones. Texts are sequences of bytes taken to be valid UTF-8 without
    NUL, metadata objects have distinct keys, and times are nanoseconds since
    1970 in UTC. The middleware that turns panics into 500 is left out: no
    modelled operation panics except [Must], which the program does not call.
    The redelivery policy of the stream is the scheduler's: any message
    may be handed to a worker any number of times. Liveness is proved of
    processes taking turns ([Recovery], [Drain], [Pipeline]), not of arbitrary
    interleavings: that takes a fair scheduler and an end of the faults, and
    nothing in the program provides for either. *)
From Stdlib Require Export Ascii.
From stdpp Require Export base option list strings gmap pretty sorting.
From Stdlib Require Export ZArith Lia ZifyBool ZifyN.

#[export] Set Default Goal Selector "!".
#[export] Set Warnings "-clear-no-such-hyp".

Open Scope Z_scope.

(** ** Automation

    [flip] holds the resolution hints of the library, [flip_rw] its rewriting: each
    component adds the lemmas that close its common cases. *)
Create HintDb flip.
Create Rewrite HintDb flip_rw.

(** Proves a closed decidable proposition by running its decision. *)
Ltac decide_vm := refine (proj1 (bool_decide_eq_true _) _); vm_compute; reflexivity.

(** ** Machine integers: Go's [int64] and PostgreSQL's [BIGINT]/[INT] *)
Definition int64_min : Z := - 2 ^ 63.
Definition int64_max : Z := 2 ^ 63 - 1.
Definition in_int64 (z : Z) : Prop := int64_min <= z <= int64_max.
#[export] Instance in_int64_dec z : Decision (in_int64 z) := _.

(** Two's complement wrap-around of an [int64] result. *)
Definition wrap64 (z : Z) : Z := (z + 2 ^ 63) mod 2 ^ 64 - 2 ^ 63.

Definition int32_max : Z := 2 ^ 31 - 1.
Definition in_int32 (z : Z) : Prop := - 2 ^ 31 <= z <= int32_max.
#[export] Instance in_int32_dec z : Decision (in_int32 z) := _.

Lemma wrap64_in z : in_int64 (wrap64 z).
Proof.
  unfold in_int64, wrap64, int64_min, int64_max.
  pose proof (Z.mod_pos_bound (z + 2 ^ 63) (2 ^ 64)). lia.
Qed.

Lemma wrap64_id z : in_int64 z → wrap64 z = z.
Proof.
  unfold in_int64, wrap64, int64_min, int64_max. intros H.
  rewrite Z.mod_small; lia.
Qed.

Lemma wrap64_small z : - 2 ^ 63 <= z < 2 ^ 63 → wrap64 z = z.
Proof. intros H. apply wrap64_id. unfold in_int64, int64_min, int64_max. lia. Qed.

Lemma wrap64_mod z : (wrap64 z) mod 2 ^ 64 = z mod 2 ^ 64.
Proof.
  unfold wrap64.
  rewrite Zminus_mod_idemp_l.
  f_equal. lia.
Qed.

(** Wrapping depends only on the value modulo [2 ^ 64]. *)
Lemma wrap64_eq a b : a mod 2 ^ 64 = b mod 2 ^ 64 → wrap64 a = wrap64 b.
Proof.
  intros H. unfold wrap64. f_equal.
  rewrite Z.add_mod, H, <- Z.add_mod; lia.
Qed.

Lemma wrap64_add_l a b : wrap64 (wrap64 a + b) = wrap64 (a + b).
Proof.
  apply wrap64_eq.
  rewrite Z.add_mod, wrap64_mod, <- Z.add_mod; lia.
Qed.

Lemma wrap64_add_r a b : wrap64 (a + wrap64 b) = wrap64 (a + b).
Proof. rewrite Z.add_comm, wrap64_add_l, Z.add_comm. done. Qed.

Lemma wrap64_idemp a : wrap64 (wrap64 a) = wrap64 a.
Proof. apply wrap64_id, wrap64_in. Qed.

(** A wrapped value is zero exactly at the multiples of [2 ^ 64]. *)
Lemma wrap64_zero z : wrap64 z = 0 ↔ (2 ^ 64 | z).
Proof.
  rewrite <- Z.mod_divide by lia. split; intros H.
  - rewrite <- wrap64_mod, H. done.
  - rewrite (wrap64_eq z 0); [done|]. rewrite H. done.
Qed.

#[export] Hint Resolve wrap64_in wrap64_id : flip.
#[export] Hint Rewrite wrap64_add_l wrap64_add_r wrap64_idemp : flip_rw.

(** ** Errors

    A Go [error] value is one of the package-level sentinels (compared by
    identity through [errors.Is]), a leaf error known by its text, or the
    result of [fmt.Errorf] with a [%w] verb: its rendered text and the error
    it wraps. *)
Inductive sentinel :=
  | ErrNegativeAmount | ErrCurrencyMismatch | ErrInsufficientFunds
  | ErrAccountNotFound | ErrAccountNotTransactable
  | ErrDoubleEntryViolation
  | ErrTransferNotFound | ErrInvalidStateTransition | ErrIdempotencyKeyRequired
  | ErrIdempotencyKeyReused | ErrTransferAlreadyCompleted
  | ErrBankGatewayUnavailable | ErrCircuitOpen
  | ErrNoRows (* pgx.ErrNoRows *)
  | ErrContextDone (* ctx.Err() of a finished context *).

#[export] Instance sentinel_eq_dec : EqDecision sentinel.
Proof. solve_decision. Defined.

Definition sentinel_text (s : sentinel) : string :=
  match s with
  | ErrNegativeAmount => "amount must be non-negative"
  | ErrCurrencyMismatch => "currency mismatch"
  | ErrInsufficientFunds => "insufficient funds"
  | ErrAccountNotFound => "account not found"
  | ErrAccountNotTransactable => "account cannot transact"
  | ErrDoubleEntryViolation => "ledger entries do not sum to zero"
  | ErrTransferNotFound => "transfer not found"
  | ErrInvalidStateTransition => "invalid state transition"
  | ErrIdempotencyKeyRequired => "idempotency key is required"
  | ErrIdempotencyKeyReused => "idempotency_key_reused_with_different_payload"
  | ErrTransferAlreadyCompleted => "transfer already completed"
  | ErrBankGatewayUnavailable => "bank gateway unavailable"
  | ErrCircuitOpen => "circuit breaker is open"
  | ErrNoRows => "no rows in result set"
  | ErrContextDone => "context canceled"
  end%string.

Inductive error :=
  | Sentinel (s : sentinel)
  | NewError (text : string)
  | Wrapped (text : string) (inner : error).

#[export] Instance error_eq_dec : EqDecision error.
Proof. solve_decision. Defined.

(** [err.Error()] *)
Definition Error (e : error) : string :=
  match e with
  | Sentinel s => sentinel_text s
  | NewError t | Wrapped t _ => t
  end.

(** [errors.Is(err, target)] for a sentinel target. *)
Fixpoint errors_Is (e : error) (s : sentinel) : bool :=
  match e with
  | Sentinel s' => bool_decide (s' = s)
  | NewError _ => false
  | Wrapped _ e' => errors_Is e' s
  end.

(** [fmt.Errorf(prefix + "%w", err)] and [fmt.Errorf("%w" + suffix, err)] *)
Definition errorf_w (prefix : string) (e : error) : error :=
  Wrapped (prefix +:+ Error e) e.
Definition errorf_w_suffix (e : error) (suffix : string) : error :=
  Wrapped (Error e +:+ suffix) e.

Lemma errors_Is_errorf_w p e s : errors_Is (errorf_w p e) s = errors_Is e s.
Proof. done. Qed.
#[export] Hint Rewrite errors_Is_errorf_w : flip_rw.

(** ** Results: a Go pair [(v, err)], or a bare [err] at type [res unit] *)
Inductive res (A : Type) :=
  | Ok (a : A)
  | Err (e : error).
Arguments Ok {_} _.
Arguments Err {_} _.

#[export] Instance res_eq_dec `{EqDecision A} : EqDecision (res A).
Proof. solve_decision. Defined.

Definition is_ok {A} (r : res A) : bool := match r with Ok _ => true | Err _ => false end.

Definition res_bind {A B} (m : res A) (k : A → res B) : res B :=
  match m with Ok a => k a | Err e => Err e end.
Definition res_wrap {A} (f : error → error) (m : res A) : res A :=
  match m with Ok a => Ok a | Err e => Err (f e) end.

Declare Scope go_scope.
Delimit Scope go_scope with go.
(** Pure code of the shape [x, err := m; if err != nil { return f err }]. *)
Notation "'let?' x ':=' m 'orelse' f 'in' k" := (res_bind (res_wrap f m) (λ x, k))
  (at level 10, x name, m at level 100, f at level 100, k at level 200) : go_scope.
Notation "'let?' x ':=' m 'in' k" := (res_bind m (λ x, k))
  (at level 10, x name, m at level 100, k at level 200) : go_scope.

Lemma Ok_inj {A} (a b : A) : Ok a = Ok b → a = b.
Proof. by intros [= ->]. Qed.

Lemma res_bind_ok {A B} (m : res A) (k : A → res B) b :
  res_bind m k = Ok b → ∃ a, m = Ok a ∧ k a = Ok b.
Proof. destruct m; simpl; eauto; done. Qed.

Lemma res_wrap_ok {A} f (m : res A) a : res_wrap f m = Ok a ↔ m = Ok a.
Proof. destruct m; simpl; naive_solver. Qed.

(** ** Text: [strconv.Quote], the [%q] verb, on ASCII text

    Bytes from 0x80 on are copied (the runes Go considers printable are). *)
Definition hex_digit (n : N) : ascii :=
  ascii_of_N (if (n <? 10)%N then 48 + n else 87 + n)%N.

Definition quote_char (c : ascii) : string :=
  let n := N_of_ascii c in
  if ((n =? 34) || (n =? 92))%N then "\" +:+ String c ""
  else if (n =? 7)%N then "\a" else if (n =? 8)%N then "\b"
  else if (n =? 12)%N then "\f" else if (n =? 10)%N then "\n"
  else if (n =? 13)%N then "\r" else if (n =? 9)%N then "\t"
  else if (n =? 11)%N then "\v"
  else if ((n <? 32) || (n =? 127))%N then
    "\x" +:+ String (hex_digit (n / 16)) (String (hex_digit (n mod 16)) "")
  else String c "".

Fixpoint quote_body (s : string) : string :=
  match s with
  | EmptyString => EmptyString
  | String c s' => quote_char c +:+ quote_body s'
  end.
Definition double_quote : string := String (ascii_of_N 34) EmptyString.
Definition quote (s : string) : string := double_quote +:+ quote_body s +:+ double_quote.

Example quote_1 : quote ("a\b" +:+ double_quote) = double_quote +:+ "a\\b\" +:+ double_quote +:+ double_quote.
Proof. vm_compute. reflexivity. Qed.

(** ** Sums over lists, used by every balance *)
Fixpoint sumZ {A} (f : A → Z) (l : list A) : Z :=
  match l with
  | [] => 0
  | x :: l' => f x + sumZ f l'
  end.

Lemma sumZ_app {A} (f : A → Z) l1 l2 : sumZ f (l1 ++ l2) = sumZ f l1 + sumZ f l2.
Proof. induction l1 as [|x l1 IH]; simpl; [done | rewrite IH; lia]. Qed.

Lemma sumZ_ext {A} (f g : A → Z) l :
  (∀ x, x ∈ l → f x = g x) → sumZ f l = sumZ g l.
Proof.
  induction l as [|x l IH]; intros H; simpl; [done|].
  rewrite (H x) by set_solver. rewrite IH; [done | set_solver].
Qed.

Lemma sumZ_add {A} (f g : A → Z) l :
  sumZ (λ x, f x + g x) l = sumZ f l + sumZ g l.
Proof. induction l as [|x l IH]; simpl; [done | rewrite IH; lia]. Qed.

Lemma sumZ_zero {A} (f : A → Z) l : (∀ x, x ∈ l → f x = 0) → sumZ f l = 0.
Proof.
  induction l as [|x l IH]; intros H; simpl; [done|].
  rewrite (H x) by set_solver. rewrite IH; [done | set_solver].
Qed.

Lemma sumZ_abs {A} (f g : A → Z) l :
  (∀ x, x ∈ l → Z.abs (f x) <= g x) → Z.abs (sumZ f l) <= sumZ g l.
Proof.
  induction l as [|x l IH]; intros H; simpl; [lia|].
  assert (Z.abs (f x) <= g x) by (apply H; by left).
  assert (Z.abs (sumZ f l) <= sumZ g l) by (apply IH; intros y Hy; apply H; by right). lia.
Qed.

Lemma sumZ_concat {A} (f : A → Z) ls :
  sumZ f (concat ls) = sumZ (sumZ f) ls.
Proof. induction ls as [|l ls IH]; simpl; [done | rewrite sumZ_app, IH; done]. Qed.

#[export] Instance sumZ_Permutation {A} (f : A → Z) :
  Proper ((≡ₚ) ==> (=)) (sumZ f).
Proof. intros l1 l2 H. induction H; simpl; lia. Qed.

#[export] Hint Rewrite @sumZ_app : flip_rw.

Lemma NoDup_map_inj {A B} (f : A → B) l x y :
  NoDup (map f l) → x ∈ l → y ∈ l → f x = f y → x = y.
Proof.
  induction l as [|z l IH]; intros Hn Hx Hy E; [by apply elem_of_nil in Hx|].
  simpl in Hn. apply NoDup_cons in Hn as [Hz Hn].
  apply elem_of_cons in Hx as [->|Hx], Hy as [->|Hy]; [done | | |by apply IH];
    exfalso; apply Hz; [rewrite E | rewrite <- E]; by apply list_elem_of_fmap_2.
Qed.

(** ** Strings *)
Section strings.
#[local] Arguments String.append !_ _ /.
Lemma str_app_assoc (a b c : string) : (a +:+ b) +:+ c = a +:+ (b +:+ c).
Proof. induction a as [|x a IH]; simpl; [done | by rewrite IH]. Qed.
Lemma str_app_nil_r (a : string) : a +:+ "" = a.
Proof. induction a as [|x a IH]; simpl; [done | by rewrite IH]. Qed.
Lemma str_app_length (a b : string) :
  String.length (a +:+ b) = (String.length a + String.length b)%nat.
Proof. induction a as [|x a IH]; simpl; [done | by rewrite IH]. Qed.
End strings.
#[export] Hint Rewrite str_app_assoc str_app_length : flip_rw.
