(* ===== verification/Uuid.v ===== *)
(** * Identifiers

    The interface of [github.com/google/uuid] as the program uses it (parsing,
    printing, the zero value), with the documented behaviour the code relies
    on as laws, and a concrete instance on canonical 36-character texts. *)
From S2P Require Import Prelude.

(** ** The library's interface *)
Class UUIDLib := {
  UUID : Type;
  UUID_eq_dec :: EqDecision UUID;
  UUID_countable :: Countable UUID;
  uuid_Nil : UUID; (* the zero value [16]byte{} *)
  uuid_Parse : string → res UUID;
  uuid_String : UUID → string;
}.

Definition lower_hex (c : ascii) : bool :=
  let n := N_of_ascii c in
  ((48 <=? n) && (n <=? 57) || (97 <=? n) && (n <=? 102))%N.

(** The canonical text form [xxxxxxxx-xxxx-xxxx-xxxx-xxxxxxxxxxxx]. *)
Fixpoint canonical_from (i : nat) (s : string) : bool :=
  match s with
  | EmptyString => (i =? 36)%nat
  | String c s' =>
      (if bool_decide (i ∈ [8; 13; 18; 23]%nat) then bool_decide (c = "-"%char) else lower_hex c)
      && canonical_from (S i) s'
  end.
Definition canonical (s : string) : bool := canonical_from 0 s.

Class UUIDLaws (U : UUIDLib) := {
  uuid_Parse_String u : uuid_Parse (uuid_String u) = Ok u;
  uuid_Parse_canonical s :
    canonical s = true → ∃ u, uuid_Parse s = Ok u ∧ uuid_String u = s;
  uuid_Parse_length s :
    String.length s ∉ [32; 36; 38; 45]%nat → ∃ e, uuid_Parse s = Err e;
  uuid_Parse_error s e k : uuid_Parse s = Err e → errors_Is e k = false;
  uuid_String_Nil : uuid_String uuid_Nil = "00000000-0000-0000-0000-000000000000"%string;
}.

(** [uuid.MustParse]; it panics where this returns the zero value, which
    [uuid_MustParse_canonical] rules out for the literals of the program. *)
Definition uuid_MustParse `{UUIDLib} (s : string) : UUID :=
  match uuid_Parse s with Ok u => u | Err _ => uuid_Nil end.

Section laws.
Context {U : UUIDLib} {L : UUIDLaws U}.

#[export] Instance uuid_String_inj : Inj (=) (=) uuid_String.
Proof.
  intros u v H.
  assert (Ok u = Ok v) as [= ->]; [|done].
  rewrite <- !uuid_Parse_String, H. done.
Qed.

Lemma uuid_MustParse_canonical s :
  canonical s = true → uuid_String (uuid_MustParse s) = s.
Proof.
  intros (u & Hp & Hs)%uuid_Parse_canonical.
  unfold uuid_MustParse. rewrite Hp. done.
Qed.
End laws.

(** ** A concrete instance *)
Definition CanonUUID : Type := dsig (λ s, Is_true (canonical s)).

Definition canon_parse (s : string) : res CanonUUID :=
  match decide (Is_true (canonical s)) with
  | left H => Ok (dexist s H)
  | right _ => Err (NewError "invalid UUID length or format")
  end.

Definition canon_uuid : UUIDLib := {|
  UUID := CanonUUID;
  uuid_Nil := dexist "00000000-0000-0000-0000-000000000000" I;
  uuid_Parse := canon_parse;
  uuid_String := proj1_sig;
|}.

Lemma canonical_from_length s i : canonical_from i s = true → (i + String.length s = 36)%nat.
Proof.
  revert i. induction s as [|c s IH]; intros i; simpl.
  - intros H%Nat.eqb_eq. lia.
  - intros [_ H%IH]%andb_true_iff. lia.
Qed.

Lemma canon_uuid_laws : UUIDLaws canon_uuid.
Proof.
  split.
  - intros u. simpl. unfold canon_parse. destruct (decide _) as [H|H].
    + f_equal. apply dsig_eq. done.
    + destruct H. apply (proj2_dsig u).
  - intros s Hs. simpl. unfold canon_parse. destruct (decide _) as [H|H].
    + eexists. split; done.
    + destruct H. rewrite Hs. exact I.
  - intros s Hs. simpl. unfold canon_parse. destruct (decide _) as [H|H]; [|eauto].
    exfalso. apply Hs.
    apply Is_true_true, canonical_from_length in H. simpl in H. rewrite H. set_solver.
  - intros s e k. simpl. unfold canon_parse. destruct (decide _); [done|]. by intros [= <-].
  - done.
Qed.

(** Distinct concrete identifiers, for examples: [test_uuid n] prints [n] in
    the last twelve digits. *)
Fixpoint hex_fixed (width : nat) (n : N) (acc : string) : string :=
  match width with
  | O => acc
  | S w => hex_fixed w (n / 16)%N (String (hex_digit (n mod 16)%N) acc)
  end.
Definition test_uuid (n : nat) : @UUID canon_uuid :=
  @uuid_MustParse canon_uuid ("7e570000-0000-4000-8000-" +:+ hex_fixed 12 (N.of_nat n) "").

Example test_uuid_prints : @uuid_String canon_uuid (test_uuid 300) = "7e570000-0000-4000-8000-00000000012c"%string.
Proof. vm_compute. reflexivity. Qed.
