(* ===== verification/Money.v ===== *)
(** * Package [money]: the Money value object ([internal/domain/money]) *)
From S2P Require Import Prelude.

(** [type Currency string] *)
Abbreviation Currency := string (only parsing).
Definition CurrencyIDR : Currency := "IDR".
Definition CurrencyUSD : Currency := "USD".

Record Money := mkMoney { m_Amount : Z (* int64 *); m_Currency : Currency }.

#[export] Instance Money_eq_dec : EqDecision Money.
Proof. solve_decision. Defined.

Module Money.

Definition New (amount : Z) (currency : Currency) : res Money :=
  if amount <? 0 then Err (Sentinel ErrNegativeAmount)
  else Ok (mkMoney amount currency).

(** [None] is the panic. *)
Definition Must (amount : Z) (currency : Currency) : option Money :=
  match New amount currency with Ok m => Some m | Err _ => None end.

Definition mismatch (m other : Money) : error :=
  errorf_w_suffix (Sentinel ErrCurrencyMismatch)
    (": " +:+ m_Currency m +:+ " vs " +:+ m_Currency other).

Definition Add (m other : Money) : res Money :=
  if bool_decide (m_Currency m ≠ m_Currency other) then Err (mismatch m other)
  else Ok (mkMoney (wrap64 (m_Amount m + m_Amount other)) (m_Currency m)).

Definition Sub (m other : Money) : res Money :=
  if bool_decide (m_Currency m ≠ m_Currency other) then Err (mismatch m other)
  else if m_Amount m <? m_Amount other then Err (Sentinel ErrInsufficientFunds)
  else Ok (mkMoney (wrap64 (m_Amount m - m_Amount other)) (m_Currency m)).

Definition IsZero (m : Money) : bool := m_Amount m =? 0.
Definition Equals (m o : Money) : bool :=
  (m_Amount m =? m_Amount o) && bool_decide (m_Currency m = m_Currency o).
Definition toString (m : Money) : string := m_Currency m +:+ " " +:+ pretty (m_Amount m).

Definition Validate (m : Money) : res unit :=
  if m_Amount m <? 0 then Err (Sentinel ErrNegativeAmount)
  else if bool_decide (m_Currency m = "") then Err (NewError "currency is required")
  else Ok tt.

End Money.

(** ** Well-formed values *)
Definition money_wf (m : Money) : Prop := 0 <= m_Amount m <= int64_max.

Lemma Validate_ok m u :
  Money.Validate m = Ok u ↔ 0 <= m_Amount m ∧ m_Currency m ≠ "".
Proof.
  unfold Money.Validate. destruct u.
  destruct (Z.ltb_spec (m_Amount m) 0); [|case_bool_decide];
    (split; [intros ?; simplify_eq | intros []]); done || lia.
Qed.

Lemma New_ok a c m : Money.New a c = Ok m ↔ 0 <= a ∧ m = mkMoney a c.
Proof.
  unfold Money.New. destruct (Z.ltb_spec a 0); split; [done | lia | |].
  - by intros [= <-].
  - by intros [_ ->].
Qed.
Lemma New_err a c e : Money.New a c = Err e → a < 0.
Proof. unfold Money.New. destruct (Z.ltb_spec a 0); done. Qed.
#[export] Hint Unfold money_wf : flip.

Lemma wf_in_int64 m : money_wf m → in_int64 (m_Amount m).
Proof. unfold money_wf, in_int64, int64_min. lia. Qed.
#[export] Hint Resolve wf_in_int64 : flip.

(** Subtraction of well-formed amounts never wraps: it fails or is exact. *)
Lemma Sub_exact m o r :
  money_wf m → money_wf o → Money.Sub m o = Ok r →
  m_Amount r = m_Amount m - m_Amount o ∧ m_Currency r = m_Currency m ∧ money_wf r.
Proof.
  unfold Money.Sub, money_wf. intros Hm Ho H.
  case_bool_decide; [done|].
  destruct (Z.ltb_spec (m_Amount m) (m_Amount o)); [done|].
  injection H as <-. simpl.
  rewrite wrap64_small by (unfold int64_max in *; lia).
  unfold int64_max in *. split_and!; [done | done | lia..].
Qed.

(** C26: adding two non-negative amounts of one currency either is exact, and
    then subtracting undoes it, or overflows, and then the result is negative.
    *)
Theorem Add_Sub_cancel m o r :
  money_wf m → money_wf o → Money.Add m o = Ok r →
  (m_Amount m + m_Amount o <= int64_max ∧ money_wf r ∧ Money.Sub r o = Ok m)
  ∨ (int64_max < m_Amount m + m_Amount o ∧ m_Amount r < 0).
Proof.
  unfold Money.Add, money_wf. intros Hm Ho H. case_bool_decide as Hc; [done|].
  injection H as <-. simpl.
  destruct (decide (m_Amount m + m_Amount o <= int64_max)) as [Hle|Hgt].
  - left. unfold int64_max in *. rewrite wrap64_small by lia. split_and!; [lia..|].
    unfold Money.Sub. simpl. rewrite bool_decide_false by (intros Hn; by apply Hn).
    destruct (Z.ltb_spec (m_Amount m + m_Amount o) (m_Amount o)); [lia|].
    rewrite wrap64_small by lia. destruct m; simpl. do 2 f_equal. lia.
  - right. unfold int64_max in *. split; [lia|].
    rewrite (wrap64_eq _ (m_Amount m + m_Amount o - 2 ^ 64)).
    + rewrite wrap64_small; lia.
    + rewrite <- (Z_mod_plus_full (m_Amount m + m_Amount o - 2 ^ 64) 1 (2 ^ 64)).
      f_equal. lia.
Qed.
