(* ===== verification/Account.v ===== *)
(** * Package [account]: the Account aggregate ([internal/domain/account]) *)
From S2P Require Import Prelude Uuid Money.

Section account.
Context {U : UUIDLib}.

(** [type AccountID struct{ uuid.UUID }] *)
Record AccountID := mkAccountID { aid_UUID : UUID }.

#[export] Instance AccountID_eq_dec : EqDecision AccountID.
Proof. solve_decision. Defined.
#[export] Instance AccountID_countable : Countable AccountID.
Proof. refine (inj_countable' aid_UUID mkAccountID _). by intros []. Defined.

Definition NewAccountID (fresh : UUID) : AccountID := mkAccountID fresh.
Definition AccountID_String (a : AccountID) : string := uuid_String (aid_UUID a).

Definition ParseAccountID (s : string) : res AccountID :=
  match uuid_Parse s with
  | Err e => Err (errorf_w ("invalid account ID " +:+ quote s +:+ ": ") e)
  | Ok id => Ok (mkAccountID id)
  end.

(** The system clearing accounts; a Go map index of an absent key yields the
    zero value, [FloatAccount]. *)
Definition FloatAccounts : gmap Currency AccountID :=
  <[CurrencyIDR := mkAccountID (uuid_MustParse "00000000-0000-0000-0000-000000000001")]>
  (<[CurrencyUSD := mkAccountID (uuid_MustParse "00000000-0000-0000-0000-000000000002")]> ∅).

Definition FloatAccount (c : Currency) : AccountID :=
  default (mkAccountID uuid_Nil) (FloatAccounts !! c).

(** [type Status string]: the three constants, or any other text. *)
Inductive Status := StatusActive | StatusFrozen | StatusClosed | StatusOther (s : string).

#[export] Instance Status_eq_dec : EqDecision Status.
Proof. solve_decision. Defined.

Definition Status_text (s : Status) : string :=
  match s with
  | StatusActive => "ACTIVE" | StatusFrozen => "FROZEN" | StatusClosed => "CLOSED"
  | StatusOther t => t
  end.
Definition Status_of (t : string) : Status :=
  if bool_decide (t = "ACTIVE") then StatusActive
  else if bool_decide (t = "FROZEN") then StatusFrozen
  else if bool_decide (t = "CLOSED") then StatusClosed
  else StatusOther t.

Record Account := mkAccount {
  a_ID : AccountID;
  a_OwnerName : string;
  a_Currency : Currency;
  a_Status : Status;
  a_CreatedAt : Z; (* time.Time: nanoseconds since the Unix epoch *)
  a_UpdatedAt : Z;
}.

Definition Account_New (now : Z) (id : AccountID) (ownerName : string) (currency : Currency)
    : res Account :=
  if bool_decide (ownerName = "") then Err (NewError "owner name is required")
  else Ok (mkAccount id ownerName currency StatusActive now now).

Definition CanTransact (a : Account) : res unit :=
  match a_Status a with
  | StatusActive => Ok tt
  | _ => Err (errorf_w_suffix (Sentinel ErrAccountNotTransactable)
           (": account " +:+ AccountID_String (a_ID a) +:+
            " has status " +:+ Status_text (a_Status a)))
  end.

Lemma CanTransact_ok a u : CanTransact a = Ok u ↔ a_Status a = StatusActive.
Proof. unfold CanTransact. destruct u, (a_Status a); naive_solver. Qed.

Lemma CanTransact_err a e :
  CanTransact a = Err e → errors_Is e ErrAccountNotTransactable = true.
Proof. unfold CanTransact. destruct (a_Status a); naive_solver. Qed.

Lemma Status_text_of s : Status_text (Status_of s) = s.
Proof. unfold Status_of. repeat (case_bool_decide; [done|]). done. Qed.
End account.

#[export] Hint Rewrite @Status_text_of : flip_rw.

(** Texts determine identifiers. *)
Section laws.
Context {U : UUIDLib} {L : UUIDLaws U}.

Lemma ParseAccountID_String a : ParseAccountID (AccountID_String a) = Ok a.
Proof. destruct a as [u]. unfold ParseAccountID, AccountID_String. simpl. by rewrite uuid_Parse_String. Qed.

#[export] Instance AccountID_String_inj : Inj (=) (=) AccountID_String.
Proof. intros [u] [v] H. f_equal. by apply (inj uuid_String). Qed.

Lemma FloatAccount_IDR :
  AccountID_String (FloatAccount CurrencyIDR) = "00000000-0000-0000-0000-000000000001"%string.
Proof. apply uuid_MustParse_canonical. reflexivity. Qed.

Lemma FloatAccount_USD :
  AccountID_String (FloatAccount CurrencyUSD) = "00000000-0000-0000-0000-000000000002"%string.
Proof. apply uuid_MustParse_canonical. reflexivity. Qed.

(** A currency without a clearing account gets the nil identifier. *)
Lemma FloatAccount_other c :
  c ≠ CurrencyIDR → c ≠ CurrencyUSD → FloatAccount c = mkAccountID uuid_Nil.
Proof.
  intros H1 H2. unfold FloatAccount, FloatAccounts.
  by rewrite !lookup_insert_ne, lookup_empty by done.
Qed.
End laws.
#[export] Hint Rewrite @ParseAccountID_String : flip_rw.
