(* ===== verification/Transfer.v ===== *)
(** * Package [transfer]: the Transfer aggregate and its state machine
    ([internal/domain/transfer]) *)
From S2P Require Import Prelude Uuid Money Account.

Section transfer.
Context {U : UUIDLib}.

Record TransferID := mkTransferID { tid_UUID : UUID }.
#[export] Instance TransferID_eq_dec : EqDecision TransferID.
Proof. solve_decision. Defined.

Definition NewTransferID (fresh : UUID) : TransferID := mkTransferID fresh.
Definition TransferID_String (t : TransferID) : string := uuid_String (tid_UUID t).
Definition ParseTransferID (s : string) : res TransferID :=
  match uuid_Parse s with
  | Err e => Err (errorf_w ("invalid transfer ID " +:+ quote s +:+ ": ") e)
  | Ok id => Ok (mkTransferID id)
  end.
End transfer.

(** [type State string]: the seven constants, or any other text. *)
Inductive State :=
  | StatePending | StateDebited | StateBankCalled | StateCredited
  | StateCompleted | StateFailed | StateCompensating
  | StateOther (s : string).

#[export] Instance State_eq_dec : EqDecision State.
Proof. solve_decision. Defined.

Definition State_text (s : State) : string :=
  match s with
  | StatePending => "PENDING" | StateDebited => "DEBITED"
  | StateBankCalled => "BANK_CALLED" | StateCredited => "CREDITED"
  | StateCompleted => "COMPLETED" | StateFailed => "FAILED"
  | StateCompensating => "COMPENSATING" | StateOther t => t
  end.

Definition State_consts : list State :=
  [StatePending; StateDebited; StateBankCalled; StateCredited; StateCompleted;
   StateFailed; StateCompensating].

Definition State_of (t : string) : State :=
  default (StateOther t) (list_find (λ s, State_text s = t) State_consts ≫= λ p, Some p.2).

Definition validTransitions (s : State) : list State :=
  match s with
  | StatePending => [StateDebited; StateFailed]
  | StateDebited => [StateBankCalled; StateCompensating]
  | StateBankCalled => [StateCredited; StateCompensating]
  | StateCredited => [StateCompleted; StateCompensating]
  | StateCompensating => [StateFailed]
  | _ => [] (* absent from the map: terminal *)
  end.

(** [type EventType string] *)
Inductive EventType :=
  | EventTransferRequested | EventTransferDebited | EventTransferBankCalled
  | EventTransferCredited | EventTransferCompleted | EventTransferFailed
  | EventOther (s : string).

#[export] Instance EventType_eq_dec : EqDecision EventType.
Proof. solve_decision. Defined.

Definition EventType_text (e : EventType) : string :=
  match e with
  | EventTransferRequested => "transfer.requested"
  | EventTransferDebited => "transfer.debited"
  | EventTransferBankCalled => "transfer.bank_called"
  | EventTransferCredited => "transfer.credited"
  | EventTransferCompleted => "transfer.completed"
  | EventTransferFailed => "transfer.failed"
  | EventOther t => t
  end.
Definition EventType_consts : list EventType :=
  [EventTransferRequested; EventTransferDebited; EventTransferBankCalled;
   EventTransferCredited; EventTransferCompleted; EventTransferFailed].
Definition EventType_of (t : string) : EventType :=
  default (EventOther t) (list_find (λ s, EventType_text s = t) EventType_consts ≫= λ p, Some p.2).

Section aggregate.
Context {U : UUIDLib}.

Record Transfer := mkTransfer {
  t_ID : TransferID;
  t_IdempotencyKey : string;
  t_SourceAccountID : AccountID;
  t_DestAccountID : AccountID;
  t_Amount : Money;
  t_State : State;
  t_ExternalRef : string;
  t_FailureReason : string;
  t_DebitPosted : bool;
  t_CreditPosted : bool;
  t_CreatedAt : Z;
  t_UpdatedAt : Z;
  t_Version : Z; (* int *)
}.

#[export] Instance Transfer_eq_dec : EqDecision Transfer.
Proof. solve_decision. Defined.

(** The field assignments of the saga steps. *)
Definition set_state (s : State) (now v : Z) (t : Transfer) : Transfer :=
  mkTransfer (t_ID t) (t_IdempotencyKey t) (t_SourceAccountID t) (t_DestAccountID t)
    (t_Amount t) s (t_ExternalRef t) (t_FailureReason t) (t_DebitPosted t)
    (t_CreditPosted t) (t_CreatedAt t) now v.
Definition set_external_ref (r : string) (t : Transfer) : Transfer :=
  mkTransfer (t_ID t) (t_IdempotencyKey t) (t_SourceAccountID t) (t_DestAccountID t)
    (t_Amount t) (t_State t) r (t_FailureReason t) (t_DebitPosted t)
    (t_CreditPosted t) (t_CreatedAt t) (t_UpdatedAt t) (t_Version t).
Definition set_failure_reason (r : string) (t : Transfer) : Transfer :=
  mkTransfer (t_ID t) (t_IdempotencyKey t) (t_SourceAccountID t) (t_DestAccountID t)
    (t_Amount t) (t_State t) (t_ExternalRef t) r (t_DebitPosted t)
    (t_CreditPosted t) (t_CreatedAt t) (t_UpdatedAt t) (t_Version t).
Definition set_debit_posted (b : bool) (t : Transfer) : Transfer :=
  mkTransfer (t_ID t) (t_IdempotencyKey t) (t_SourceAccountID t) (t_DestAccountID t)
    (t_Amount t) (t_State t) (t_ExternalRef t) (t_FailureReason t) b
    (t_CreditPosted t) (t_CreatedAt t) (t_UpdatedAt t) (t_Version t).
Definition set_credit_posted (b : bool) (t : Transfer) : Transfer :=
  mkTransfer (t_ID t) (t_IdempotencyKey t) (t_SourceAccountID t) (t_DestAccountID t)
    (t_Amount t) (t_State t) (t_ExternalRef t) (t_FailureReason t) (t_DebitPosted t)
    b (t_CreatedAt t) (t_UpdatedAt t) (t_Version t).

(** The loop over [validTransitions[t.State]]; an error leaves [t] as it is. *)
Fixpoint transition_loop (allowed : list State) (now : Z) (t : Transfer) (next : State)
    : res Transfer :=
  match allowed with
  | [] => Err (errorf_w_suffix (Sentinel ErrInvalidStateTransition)
            (": " +:+ State_text (t_State t) +:+ " → " +:+ State_text next))
  | a :: rest =>
      if bool_decide (a = next) then Ok (set_state next now (wrap64 (t_Version t + 1)) t)
      else transition_loop rest now t next
  end.
Definition Transition (now : Z) (t : Transfer) (next : State) : res Transfer :=
  transition_loop (validTransitions (t_State t)) now t next.

Definition Transfer_New (now : Z) (id : TransferID) (idempotencyKey : string)
    (src dst : AccountID) (amount : Money) : res Transfer :=
  if bool_decide (idempotencyKey = "") then Err (Sentinel ErrIdempotencyKeyRequired) else
  match Money.Validate amount with
  | Err e => Err (errorf_w "invalid amount: " e)
  | Ok _ =>
      if Money.IsZero amount then Err (NewError "transfer amount must be non-zero")
      else if bool_decide (src = dst) then
        Err (NewError "source and destination accounts must differ")
      else Ok (mkTransfer id idempotencyKey src dst amount StatePending "" "" false false
                 now now 1)
  end.

(** [TransferEvent]; its metadata is the empty map everywhere in the code. *)
Record TransferEvent := mkEvent {
  e_EventID : string;
  e_TransferID : TransferID;
  e_Type : EventType;
  e_State : State;
  e_Amount : Money;
  e_OccurredAt : Z;
  e_Metadata : list (string * string);
}.

Definition NewEvent (fresh : UUID) (now : Z) (t : Transfer) (typ : EventType) : TransferEvent :=
  mkEvent (TransferID_String (NewTransferID fresh)) (t_ID t) typ (t_State t) (t_Amount t) now [].
End aggregate.

(** ** Texts of states and events *)
Lemma State_of_text s : s ∈ State_consts → State_of (State_text s) = s.
Proof.
  unfold State_consts. rewrite !elem_of_cons, elem_of_nil.
  intros; destruct_or?; by subst.
Qed.

Lemma State_text_of t : State_text (State_of t) = t.
Proof.
  unfold State_of. destruct (list_find _ _) as [[i s]|] eqn:E; simpl; [|done].
  by apply list_find_Some in E as (_ & ? & _).
Qed.

Lemma EventType_of_const s : s ∈ EventType_consts → EventType_of (EventType_text s) = s.
Proof.
  unfold EventType_consts. rewrite !elem_of_cons, elem_of_nil.
  intros; destruct_or?; by subst.
Qed.

Lemma EventType_text_of t : EventType_text (EventType_of t) = t.
Proof.
  unfold EventType_of. destruct (list_find _ _) as [[i s]|] eqn:E; simpl; [|done].
  by apply list_find_Some in E as (_ & ? & _).
Qed.

Definition valid_state_text (t : string) : bool :=
  bool_decide (t ∈ map State_text State_consts).

Lemma State_of_valid t : valid_state_text t = true → State_of t ∈ State_consts.
Proof.
  intros H%bool_decide_eq_true_1%list_elem_of_fmap_1.
  destruct H as (s & -> & Hs). by rewrite State_of_text.
Qed.
Lemma valid_state_text_of s : s ∈ State_consts → valid_state_text (State_text s) = true.
Proof. intros H. apply bool_decide_eq_true_2, list_elem_of_fmap_2, H. Qed.
#[export] Hint Rewrite @State_text_of @EventType_text_of : flip_rw.

(** ** The transition graph *)
Definition edge (s s' : State) : Prop := s' ∈ validTransitions s.
#[export] Instance edge_dec s s' : Decision (edge s s').
Proof. unfold edge. apply _. Defined.
Definition terminal (s : State) : bool :=
  match validTransitions s with [] => true | _ => false end.

(** The number of transitions that may still follow. *)
Definition rank (s : State) : nat :=
  match s with
  | StatePending => 5 | StateDebited => 4 | StateBankCalled => 3
  | StateCredited => 2 | StateCompensating => 1 | _ => 0
  end.

Lemma edge_rank s s' : edge s s' → (rank s' < rank s)%nat.
Proof.
  unfold edge. destruct s; simpl; rewrite ?elem_of_cons, ?elem_of_nil;
    intros H; destruct_or?; subst; simpl; done || lia.
Qed.

Lemma edge_consts s s' : edge s s' → s ∈ State_consts ∧ s' ∈ State_consts.
Proof.
  unfold edge. intros H. destruct s; simpl in H;
    rewrite ?elem_of_cons, ?elem_of_nil in H; destruct_or?; subst;
    done || (split; by eapply bool_decide_unpack).
Qed.

Lemma terminal_edge s : terminal s = true ↔ ∀ s', ¬ edge s s'.
Proof.
  unfold terminal, edge. destruct (validTransitions s) as [|s1 l] eqn:E.
  - set_solver.
  - split; [done|]. intros H. destruct (H s1). set_solver.
Qed.

Section facts.
Context {U : UUIDLib}.
Implicit Types t : Transfer.

Lemma transition_loop_spec l now t next r :
  transition_loop l now t next = r →
  (next ∈ l ∧ r = Ok (set_state next now (wrap64 (t_Version t + 1)) t))
  ∨ (¬ (next ∈ l) ∧ ∃ e, r = Err e ∧ errors_Is e ErrInvalidStateTransition = true).
Proof.
  intros <-. induction l as [|a l IH]; simpl.
  - right. split; [set_solver|]. eexists. by split.
  - case_bool_decide as Ha; [set_solver|].
    destruct IH as [[Hin ->]|[Hin IH]]; [left|right]; set_solver.
Qed.

Lemma Transition_ok now t next t' :
  Transition now t next = Ok t' ↔
  edge (t_State t) next ∧ t' = set_state next now (wrap64 (t_Version t + 1)) t.
Proof.
  unfold Transition, edge.
  destruct (transition_loop_spec (validTransitions (t_State t)) now t next _ eq_refl)
    as [[Hin ->]|[Hin (e & -> & _)]]; naive_solver.
Qed.

Lemma Transition_edge now t next :
  edge (t_State t) next →
  Transition now t next = Ok (set_state next now (wrap64 (t_Version t + 1)) t).
Proof. intros H. by apply Transition_ok. Qed.

(** Everything but the lifecycle fields. *)
Definition same_request t t' : Prop :=
  t_ID t' = t_ID t ∧ t_IdempotencyKey t' = t_IdempotencyKey t ∧
  t_SourceAccountID t' = t_SourceAccountID t ∧ t_DestAccountID t' = t_DestAccountID t ∧
  t_Amount t' = t_Amount t ∧ t_CreatedAt t' = t_CreatedAt t.

#[export] Instance same_request_preorder : PreOrder same_request.
Proof. split; [done|]. unfold same_request. intros x y z. naive_solver (congruence). Qed.

(** One successful call of [Transition], to any state at any time. *)
Definition advances t t' : Prop := ∃ now next, Transition now t next = Ok t'.

Lemma advances_inv t t' :
  advances t t' →
  edge (t_State t) (t_State t') ∧ t_Version t' = wrap64 (t_Version t + 1) ∧ same_request t t'.
Proof. intros (now & next & [He ->]%Transition_ok). done. Qed.

Lemma advances_rank n t t' :
  nsteps advances n t t' →
  (rank (t_State t') + n <= rank (t_State t))%nat ∧ same_request t t'.
Proof.
  induction 1 as [t|n t1 t2 t3 (He%edge_rank & _ & Hr)%advances_inv _ [IH Hr']].
  - split; [lia | done].
  - split; [lia | by etrans].
Qed.

Lemma advances_version n t t' :
  nsteps advances n t t' → 0 <= t_Version t < 2 ^ 63 - Z.of_nat n →
  t_Version t' = t_Version t + Z.of_nat n.
Proof.
  induction 1 as [t|n t1 t2 t3 (_ & Hv & _)%advances_inv _ IH]; intros Hb; [lia|].
  rewrite wrap64_small in Hv by lia. lia.
Qed.

Lemma advances_consts n t t' :
  nsteps advances n t t' → t_State t ∈ State_consts → t_State t' ∈ State_consts.
Proof.
  induction 1 as [|n t1 t2 t3 (He & _)%advances_inv _ IH]; [done|].
  intros _. apply IH. by apply edge_consts in He as [_ ?].
Qed.

Lemma Transfer_New_ok now id key src dst amount t :
  Transfer_New now id key src dst amount = Ok t ↔
  key ≠ "" ∧ 0 < m_Amount amount ∧ m_Currency amount ≠ "" ∧ src ≠ dst ∧
  t = mkTransfer id key src dst amount StatePending "" "" false false now now 1.
Proof.
  unfold Transfer_New, Money.IsZero. case_bool_decide as Hk; [naive_solver|].
  destruct (Money.Validate amount) as [u|e] eqn:Hv.
  - apply Validate_ok in Hv as [Ha Hc].
    destruct (Z.eqb_spec (m_Amount amount) 0) as [Hz|Hz].
    { split; [done|]. intros (_ & ? & _). lia. }
    case_bool_decide; [naive_solver|].
    split; [intros [= <-]; split_and!; done || lia | naive_solver].
  - split; [done|]. intros (_ & Ha & Hc & _).
    assert (Money.Validate amount = Ok tt) as Hv'; [|congruence].
    apply Validate_ok. split; [lia|done].
Qed.
Lemma Transfer_New_err now id key src dst amount e :
  Transfer_New now id key src dst amount = Err e →
  ¬ (key ≠ "" ∧ 0 < m_Amount amount ∧ m_Currency amount ≠ "" ∧ src ≠ dst).
Proof.
  intros He (Hk & Ha & Hc & Hd).
  pose proof (Transfer_New_ok now id key src dst amount
    (mkTransfer id key src dst amount StatePending "" "" false false now now 1)) as [_ H].
  rewrite H in He; done.
Qed.

End facts.

Section lifecycle.
Context {U : UUIDLib}.

(** C11: a transfer that [New] accepts makes at most five transitions; after
    [n] of them its version is [1 + n] and its request is unchanged, its state
    is one of the seven, terminal exactly when COMPLETED or FAILED, and a
    terminal transfer refuses every further transition with
    ErrInvalidStateTransition. *)
Theorem transfer_lifecycle now id key src dst amount t n t' :
  Transfer_New now id key src dst amount = Ok t →
  nsteps advances n t t' →
  (n <= 5)%nat ∧ t_Version t' = 1 + Z.of_nat n ∧ same_request t t' ∧
  t_State t' ∈ State_consts ∧
  (terminal (t_State t') = true ↔ t_State t' = StateCompleted ∨ t_State t' = StateFailed) ∧
  (∀ now' next, terminal (t_State t') = true →
     ∃ e, Transition now' t' next = Err e ∧ errors_Is e ErrInvalidStateTransition = true).
Proof.
  intros (_ & _ & _ & _ & ->)%Transfer_New_ok Hn.
  pose proof (advances_rank _ _ _ Hn) as [Hk Hr].
  pose proof (advances_consts _ _ _ Hn) as Hc.
  pose proof (advances_version _ _ _ Hn) as Hv. simpl in *.
  assert (t_State t' ∈ State_consts) as Hst by (apply Hc; by eapply bool_decide_unpack).
  split_and!; [lia | rewrite Hv; lia | done | done | |].
  - unfold State_consts in Hst. rewrite !elem_of_cons, elem_of_nil in Hst.
    destruct_or?; rewrite Hst; naive_solver.
  - intros now' next Ht. rewrite terminal_edge in Ht.
    destruct (transition_loop_spec (validTransitions (t_State t')) now' t' next _ eq_refl) as [[Hin _]|[_ He]]; [|exact He].
    by destruct (Ht next).
Qed.
End lifecycle.
