(* ===== verification/Ledger.v ===== *)
(** * Package [ledger]: entries and balanced postings ([internal/domain/ledger]) *)
From S2P Require Import Prelude Uuid Money Account.

(** [type EntryType string] *)
Inductive EntryType := EntryTypeDebit | EntryTypeCredit | EntryTypeOther (s : string).
#[export] Instance EntryType_eq_dec : EqDecision EntryType.
Proof. solve_decision. Defined.

Definition EntryType_text (t : EntryType) : string :=
  match t with
  | EntryTypeDebit => "DEBIT" | EntryTypeCredit => "CREDIT" | EntryTypeOther s => s
  end.
Definition EntryType_of (s : string) : EntryType :=
  if bool_decide (s = "DEBIT") then EntryTypeDebit
  else if bool_decide (s = "CREDIT") then EntryTypeCredit
  else EntryTypeOther s.

Lemma EntryType_text_of s : EntryType_text (EntryType_of s) = s.
Proof. unfold EntryType_of. repeat (case_bool_decide; [done|]). done. Qed.

Section ledger.
Context {U : UUIDLib}.

Record LedgerEntryID := mkLedgerEntryID { leid_UUID : UUID }.
Record TransactionID := mkTransactionID { txid_UUID : UUID }.
#[export] Instance LedgerEntryID_eq_dec : EqDecision LedgerEntryID.
Proof. solve_decision. Defined.
#[export] Instance TransactionID_eq_dec : EqDecision TransactionID.
Proof. solve_decision. Defined.

Definition NewLedgerEntryID (fresh : UUID) : LedgerEntryID := mkLedgerEntryID fresh.
Definition ParseLedgerEntryID (s : string) : res LedgerEntryID :=
  match uuid_Parse s with
  | Err e => Err (errorf_w ("invalid ledger entry ID " +:+ quote s +:+ ": ") e)
  | Ok id => Ok (mkLedgerEntryID id)
  end.
Definition NewTransactionID (fresh : UUID) : TransactionID := mkTransactionID fresh.
Definition ParseTransactionID (s : string) : res TransactionID :=
  match uuid_Parse s with
  | Err e => Err (errorf_w ("invalid transaction ID " +:+ quote s +:+ ": ") e)
  | Ok id => Ok (mkTransactionID id)
  end.

Record LedgerEntry := mkLedgerEntry {
  le_ID : LedgerEntryID;
  le_TransactionID : TransactionID;
  le_AccountID : AccountID;
  le_Type : EntryType;
  le_Amount : Money;
  le_Description : string;
  le_CreatedAt : Z;
}.
#[export] Instance LedgerEntry_eq_dec : EqDecision LedgerEntry.
Proof. solve_decision. Defined.

Definition SignedAmount (e : LedgerEntry) : Z :=
  if bool_decide (le_Type e = EntryTypeDebit) then wrap64 (- m_Amount (le_Amount e))
  else m_Amount (le_Amount e).

Record Posting := mkPosting {
  p_TransactionID : TransactionID;
  p_Debit : LedgerEntry;
  p_Credit : LedgerEntry;
}.

(** [id1], [id2] and [now] are what [uuid.New] and [time.Now] return here. *)
Definition NewPosting (id1 id2 : UUID) (now : Z) (txID : TransactionID)
    (src dst : AccountID) (amount : Money) (description : string) : res Posting :=
  match Money.Validate amount with
  | Err e => Err (errorf_w "posting amount invalid: " e)
  | Ok _ =>
      if Money.IsZero amount then Err (NewError "posting amount must be non-zero")
      else if bool_decide (src = dst) then
        Err (NewError "source and destination accounts must differ")
      else
        let debit := mkLedgerEntry (NewLedgerEntryID id1) txID src EntryTypeDebit amount
                       description now in
        let credit := mkLedgerEntry (NewLedgerEntryID id2) txID dst EntryTypeCredit amount
                        description now in
        if negb (wrap64 (SignedAmount debit + SignedAmount credit) =? 0)
        then Err (Sentinel ErrDoubleEntryViolation)
        else Ok (mkPosting txID debit credit)
  end.

Definition Entries (p : Posting) : list LedgerEntry := [p_Debit p; p_Credit p].

Definition Reversal (id1 id2 : UUID) (now : Z) (p : Posting) (newTxID : TransactionID)
    : res Posting :=
  NewPosting id1 id2 now newTxID
    (le_AccountID (p_Credit p)) (le_AccountID (p_Debit p)) (le_Amount (p_Debit p))
    ("REVERSAL of tx " +:+ uuid_String (txid_UUID (p_TransactionID p))).

(** ** Balances over domain entries *)
Definition entry_for (a : AccountID) (c : Currency) (e : LedgerEntry) : Z :=
  if bool_decide (le_AccountID e = a ∧ m_Currency (le_Amount e) = c) then SignedAmount e else 0.
Definition entries_balance (a : AccountID) (c : Currency) (es : list LedgerEntry) : Z :=
  sumZ (entry_for a c) es.
Definition currency_total (c : Currency) (es : list LedgerEntry) : Z :=
  sumZ (λ e, if bool_decide (m_Currency (le_Amount e) = c) then SignedAmount e else 0) es.

Lemma entries_balance_app a c es1 es2 :
  entries_balance a c (es1 ++ es2) = entries_balance a c es1 + entries_balance a c es2.
Proof. apply sumZ_app. Qed.

(** What moving [amount] from [src] to [dst] does to the balance of [a]. *)
Definition movement (src dst a : AccountID) (amount : Z) : Z :=
  (if bool_decide (a = dst) then amount else 0) - (if bool_decide (a = src) then amount else 0).

(** The shape of every posting the constructor returns. *)
Definition posting_of (txID : TransactionID) (src dst : AccountID) (amount : Money)
    (desc : string) (id1 id2 : UUID) (now : Z) : Posting :=
  mkPosting txID
    (mkLedgerEntry (mkLedgerEntryID id1) txID src EntryTypeDebit amount desc now)
    (mkLedgerEntry (mkLedgerEntryID id2) txID dst EntryTypeCredit amount desc now).

Lemma NewPosting_valid id1 id2 now txID src dst amount desc :
  money_wf amount → 0 < m_Amount amount → m_Currency amount ≠ "" → src ≠ dst →
  NewPosting id1 id2 now txID src dst amount desc =
    Ok (posting_of txID src dst amount desc id1 id2 now).
Proof.
  unfold NewPosting, Money.IsZero, money_wf. intros Hw Ha Hc Hd.
  destruct (Money.Validate amount) as [u|e] eqn:Hv.
  2:{ enough (Money.Validate amount = Ok tt) by congruence.
      apply Validate_ok. split; [lia|done]. }
  destruct (Z.eqb_spec (m_Amount amount) 0); [lia|].
  rewrite bool_decide_false by done.
  unfold SignedAmount. simpl.
  rewrite (wrap64_small (- _)) by (unfold int64_max in *; lia).
  rewrite Z.add_opp_diag_l. done.
Qed.

Lemma NewPosting_inv id1 id2 now txID src dst amount desc p :
  NewPosting id1 id2 now txID src dst amount desc = Ok p →
  0 < m_Amount amount ∧ m_Currency amount ≠ "" ∧ src ≠ dst ∧
  p = posting_of txID src dst amount desc id1 id2 now.
Proof.
  unfold NewPosting, Money.IsZero.
  destruct (Money.Validate amount) as [u|e] eqn:Hv; [|done].
  apply Validate_ok in Hv as [Ha Hc].
  destruct (Z.eqb_spec (m_Amount amount) 0); [done|].
  case_bool_decide; [done|]. case_match; [done|].
  intros [= <-]. split_and!; (done || lia).
Qed.

Lemma posting_balance id1 id2 now txID src dst amount desc a c :
  money_wf amount → src ≠ dst →
  entries_balance a c (Entries (posting_of txID src dst amount desc id1 id2 now)) =
    if bool_decide (m_Currency amount = c) then movement src dst a (m_Amount amount) else 0.
Proof.
  intros Hw Hd. unfold entries_balance, entry_for, movement, SignedAmount. simpl.
  rewrite (wrap64_small (- _)) by (unfold money_wf, int64_max in *; lia).
  repeat case_bool_decide; naive_solver lia.
Qed.
End ledger.

Section theorems.
Context {U : UUIDLib}.

(** C12: [NewPosting] on a non-negative amount succeeds exactly on a positive
    amount with a currency between two different accounts; the posting's
    entries sum to zero in every currency and move the amount from source to
    destination and touch no other balance. ErrDoubleEntryViolation is
    unreachable. *)
Theorem NewPosting_correct id1 id2 now txID src dst amount desc :
  money_wf amount →
  match NewPosting id1 id2 now txID src dst amount desc with
  | Ok p =>
      (0 < m_Amount amount ∧ m_Currency amount ≠ "" ∧ src ≠ dst) ∧
      (∀ c, currency_total c (Entries p) = 0) ∧
      (∀ a c, entries_balance a c (Entries p) =
         if bool_decide (m_Currency amount = c) then movement src dst a (m_Amount amount) else 0)
  | Err e =>
      (m_Amount amount = 0 ∨ m_Currency amount = "" ∨ src = dst) ∧
      errors_Is e ErrDoubleEntryViolation = false
  end.
Proof.
  intros Hw.
  destruct (decide (0 < m_Amount amount ∧ m_Currency amount ≠ "" ∧ src ≠ dst)) as [(Ha & Hc & Hd)|Hn].
  - rewrite NewPosting_valid by done. split_and!; [done..| |].
    + intros c. unfold currency_total, SignedAmount. simpl.
      rewrite (wrap64_small (- _)) by (unfold money_wf, int64_max in *; lia).
      case_bool_decide; lia.
    + intros a c. by apply posting_balance.
  - destruct (NewPosting _ _ _ _ _ _ _ _) as [p|e] eqn:E.
    { apply NewPosting_inv in E as (? & ? & ? & _). naive_solver. }
    split.
    + unfold money_wf in Hw. destruct (decide (m_Currency amount = "")); [tauto|].
      destruct (decide (src = dst)); [tauto|]. left.
      destruct (decide (0 < m_Amount amount)); [|lia]. naive_solver.
    + unfold NewPosting in E. destruct (Money.Validate amount) as [u|e'] eqn:Hv.
      * destruct (Money.IsZero amount) eqn:Hz; [by simplify_eq|].
        case_bool_decide; [by simplify_eq|].
        unfold Money.IsZero in Hz. apply Z.eqb_neq in Hz.
        apply Validate_ok in Hv as []. exfalso. apply Hn. split_and!; (done || lia).
      * simplify_eq/=. unfold Money.Validate in Hv. repeat case_match; by simplify_eq.
Qed.

(** C13: the reversal of a posting always exists, goes from destination to
    source, and the two together leave every balance as it was. *)
Theorem Reversal_undoes id1 id2 now txID src dst amount desc p r1 r2 rnow newTx :
  money_wf amount →
  NewPosting id1 id2 now txID src dst amount desc = Ok p →
  ∃ r, Reversal r1 r2 rnow p newTx = Ok r ∧
    le_AccountID (p_Debit r) = dst ∧ le_AccountID (p_Credit r) = src ∧
    ∀ a c, entries_balance a c (Entries p ++ Entries r) = 0.
Proof.
  intros Hw (Ha & Hc & Hd & ->)%NewPosting_inv.
  eexists. split_and!.
  - apply NewPosting_valid; done.
  - done.
  - done.
  - intros a c. rewrite entries_balance_app, !posting_balance by done.
    unfold movement. cbn. repeat case_bool_decide; lia.
Qed.
End theorems.
