(* ===== verification/Json.v ===== *)
(** * JSON texts as [encoding/json] writes and reads them

    [render] is [json.Marshal] on a value tree (compact form, HTML-safe
    escapes); [Unmarshal] reads a whole document, [Decode] the first value of
    a stream. Strings are the program's Go strings; they are taken to be valid
    UTF-8 without U+2028/U+2029 (bytes from 0x80 on are copied both ways),
    which every string the program marshals is. *)
From S2P Require Import Prelude.

#[local] Set Warnings "-register-all".
Inductive json :=
  | JNull
  | JBool (b : bool)
  | JNum (literal : string)
  | JStr (s : string)
  | JArr (l : list json)
  | JObj (l : list (string * json)).

Abbreviation code := N_of_ascii (only parsing).
Definition chr (n : N) : string := String (ascii_of_N n) EmptyString.
Definition is_code (n : N) (c : ascii) : bool := (code c =? n)%N.

(** ** Writing *)
Definition unicode_escape (n : N) : string :=
  "\u00" +:+ String (hex_digit (n / 16)) (String (hex_digit (n mod 16)) "").

Definition escape_char (c : ascii) : string :=
  let n := code c in
  if is_code 34 c then "\" +:+ chr 34
  else if is_code 92 c then "\\"
  else if is_code 8 c then "\b" else if is_code 12 c then "\f"
  else if is_code 10 c then "\n" else if is_code 13 c then "\r"
  else if is_code 9 c then "\t"
  else if ((n <? 32) || (n =? 60) || (n =? 62) || (n =? 38))%N then unicode_escape n
  else String c "".

Fixpoint escape (s : string) : string :=
  match s with
  | EmptyString => EmptyString
  | String c s' => escape_char c +:+ escape s'
  end.

Definition render_string (s : string) : string := chr 34 +:+ escape s +:+ chr 34.

Fixpoint render (j : json) : string :=
  match j with
  | JNull => "null"
  | JBool true => "true"
  | JBool false => "false"
  | JNum lit => lit
  | JStr s => render_string s
  | JArr l => "[" +:+ String.concat "," (map render l) +:+ "]"
  | JObj l =>
      "{" +:+ String.concat "," (map (λ '(k, v), render_string k +:+ ":" +:+ render v) l) +:+ "}"
  end.

(** An integer field. *)
Definition JInt (z : Z) : json := JNum (pretty z).

(** *** [time.Time.MarshalJSON]: RFC 3339 with nanoseconds, in UTC *)
Definition civil_from_days (days : Z) : Z * Z * Z :=
  let z := days + 719468 in
  let era := z / 146097 in
  let doe := z - era * 146097 in
  let yoe := (doe - doe / 1460 + doe / 36524 - doe / 146096) / 365 in
  let doy := doe - (365 * yoe + yoe / 4 - yoe / 100) in
  let mp := (5 * doy + 2) / 153 in
  let d := doy - (153 * mp + 2) / 5 + 1 in
  let m := if mp <? 10 then mp + 3 else mp - 9 in
  (yoe + era * 400 + (if m <=? 2 then 1 else 0), m, d).

Fixpoint digits_fixed (width : nat) (z : Z) (acc : string) : string :=
  match width with
  | O => acc
  | S w => digits_fixed w (z / 10) (String (ascii_of_N (48 + Z.to_N (z mod 10))) acc)
  end.
Definition pad (width : nat) (z : Z) : string := digits_fixed width z "".

(** The fraction of a second without trailing zeros, [""] when it is zero. *)
Fixpoint trim_zeros (width : nat) (nanos : Z) : nat * Z :=
  match width with
  | O => (O, 0)
  | S w => if nanos mod 10 =? 0 then trim_zeros w (nanos / 10) else (width, nanos)
  end.
Definition fraction (nanos : Z) : string :=
  let '(w, n) := trim_zeros 9 nanos in
  if (w =? 0)%nat then "" else "." +:+ pad w n.

Definition time_json (t : Z) : res json :=
  let secs := t / 1000000000 in
  let '(y, m, d) := civil_from_days (secs / 86400) in
  let sod := secs mod 86400 in
  if (0 <=? y) && (y <=? 9999) then
    Ok (JStr (pad 4 y +:+ "-" +:+ pad 2 m +:+ "-" +:+ pad 2 d +:+ "T" +:+
      pad 2 (sod / 3600) +:+ ":" +:+ pad 2 (sod / 60 mod 60) +:+ ":" +:+ pad 2 (sod mod 60) +:+
      fraction (t mod 1000000000) +:+ "Z"))
  else Err (NewError "json: error calling MarshalJSON for type time.Time: Time.MarshalJSON: year outside of range [0,9999]").

Example time_json_epoch : time_json 0 = Ok (JStr "1970-01-01T00:00:00Z").
Proof. vm_compute. reflexivity. Qed.
Example time_json_leap :
  time_json (951868799 * 1000000000 + 120000000) = Ok (JStr "2000-02-29T23:59:59.12Z").
Proof. vm_compute. reflexivity. Qed.

(** ** Reading *)
Definition is_ws (c : ascii) : bool :=
  is_code 32 c || is_code 9 c || is_code 10 c || is_code 13 c.
Fixpoint skip_ws (s : string) : string :=
  match s with
  | String c s' => if is_ws c then skip_ws s' else s
  | EmptyString => s
  end.

Definition hex_value (c : ascii) : option N :=
  let n := code c in
  if ((48 <=? n) && (n <=? 57))%N then Some (n - 48)%N
  else if ((97 <=? n) && (n <=? 102))%N then Some (n - 87)%N
  else if ((65 <=? n) && (n <=? 70))%N then Some (n - 55)%N
  else None.
Definition hex4 (a b c d : ascii) : option N :=
  match hex_value a, hex_value b, hex_value c, hex_value d with
  | Some x, Some y, Some z, Some w => Some (((x * 16 + y) * 16 + z) * 16 + w)%N
  | _, _, _, _ => None
  end.

(** UTF-8 encoding of a rune. *)
Definition utf8 (n : N) : string :=
  if (n <? 128)%N then chr n
  else if (n <? 2048)%N then chr (192 + n / 64) +:+ chr (128 + n mod 64)
  else if (n <? 65536)%N then
    chr (224 + n / 4096) +:+ chr (128 + n / 64 mod 64) +:+ chr (128 + n mod 64)
  else
    chr (240 + n / 262144) +:+ chr (128 + n / 4096 mod 64) +:+
    chr (128 + n / 64 mod 64) +:+ chr (128 + n mod 64).

Definition is_high_surrogate (n : N) : bool := ((55296 <=? n) && (n <? 56320))%N.
Definition is_low_surrogate (n : N) : bool := ((56320 <=? n) && (n <? 57344))%N.
Definition replacement : string := utf8 65533.

Definition simple_escape (c : ascii) : option string :=
  if is_code 34 c then Some (chr 34) else if is_code 92 c then Some (chr 92)
  else if is_code 47 c then Some (chr 47) else if is_code 98 c then Some (chr 8)
  else if is_code 102 c then Some (chr 12) else if is_code 110 c then Some (chr 10)
  else if is_code 114 c then Some (chr 13) else if is_code 116 c then Some (chr 9)
  else None.

Definition prepend (p : string) (r : option (string * string)) : option (string * string) :=
  match r with Some (s, rest) => Some (p +:+ s, rest) | None => None end.

(** The body of a string literal, after its opening quote: the text and what
    follows the closing quote. *)
Fixpoint read_string (s : string) : option (string * string) :=
  match s with
  | EmptyString => None
  | String c s1 =>
      if is_code 34 c then Some ("", s1)
      else if is_code 92 c then
        match s1 with
        | EmptyString => None
        | String e s2 =>
            match simple_escape e with
            | Some t => prepend t (read_string s2)
            | None =>
                if is_code 117 e then
                  match s2 with
                  | String a (String b (String c0 (String d s3))) =>
                      match hex4 a b c0 d with
                      | None => None
                      | Some n =>
                          if is_high_surrogate n then
                            match s3 with
                            | String x (String y (String a' (String b' (String c' (String d' s4))))) =>
                                match (if is_code 92 x && is_code 117 y
                                       then hex4 a' b' c' d' else None) with
                                | Some m =>
                                    if is_low_surrogate m then
                                      prepend (utf8 (65536 + (n - 55296) * 1024 + (m - 56320)))
                                        (read_string s4)
                                    else prepend replacement (read_string s3)
                                | None => prepend replacement (read_string s3)
                                end
                            | _ => prepend replacement (read_string s3)
                            end
                          else if is_low_surrogate n then prepend replacement (read_string s3)
                          else prepend (utf8 n) (read_string s3)
                      end
                  | _ => None
                  end
                else None
            end
        end
      else if (code c <? 32)%N then None
      else prepend (String c "") (read_string s1)
  end.

(** Number literals: [-? (0 | [1-9][0-9]* ) (. [0-9]+)? ([eE] [+-]? [0-9]+)?]. *)
Definition is_digit (c : ascii) : bool := ((48 <=? code c) && (code c <=? 57))%N.
Fixpoint read_digits (s : string) : string * string :=
  match s with
  | String c s' =>
      if is_digit c then let '(ds, rest) := read_digits s' in (String c ds, rest) else ("", s)
  | EmptyString => ("", s)
  end%string.

Definition read_int_part (s : string) : option (string * string) :=
  match s with
  | String c s' =>
      if is_code 48 c then Some (String c "", s')
      else if is_digit c then Some (read_digits s)
      else None
  | EmptyString => None
  end.
Definition read_fraction (s : string) : option (string * string) :=
  match s with
  | String c s' =>
      if is_code 46 c then
        let '(ds, rest) := read_digits s' in
        if bool_decide (ds = "") then None else Some (String c ds, rest)
      else Some ("", s)
  | EmptyString => Some ("", s)
  end%string.
Definition read_exponent (s : string) : option (string * string) :=
  match s with
  | String c s' =>
      if is_code 101 c || is_code 69 c then
        let '(sign, s'') :=
          match s' with
          | String d t => if is_code 43 d || is_code 45 d then (String d "", t) else ("", s')
          | EmptyString => ("", s')
          end in
        let '(ds, rest) := read_digits s'' in
        if bool_decide (ds = "") then None else Some (String c (sign +:+ ds), rest)
      else Some ("", s)
  | EmptyString => Some ("", s)
  end%string.
Definition read_number (s : string) : option (string * string) :=
  let '(sign, s0) :=
    match s with
    | String c s' => if is_code 45 c then (String c "", s') else ("", s)
    | EmptyString => ("", s)
    end in
  match read_int_part s0 with
  | None => None
  | Some (i, s1) =>
      match read_fraction s1 with
      | None => None
      | Some (f, s2) =>
          match read_exponent s2 with
          | None => None
          | Some (e, s3) => Some (sign +:+ i +:+ f +:+ e, s3)
          end
      end
  end%string.

Fixpoint strip_prefix (p s : string) : option string :=
  match p, s with
  | EmptyString, _ => Some s
  | String a p', String b s' => if Ascii.eqb a b then strip_prefix p' s' else None
  | _, _ => None
  end.
Definition literal (p : string) (j : json) (s : string) : option (json * string) :=
  match strip_prefix p s with Some rest => Some (j, rest) | None => None end.

(** A value; [fuel] bounds the nesting and the number of elements, and the
    length of the text is always enough. *)
Fixpoint read_value (fuel : nat) (s : string) : option (json * string) :=
  match fuel with
  | O => None
  | S fuel' =>
      let s := skip_ws s in
      match s with
      | EmptyString => None
      | String c s1 =>
          if is_code 34 c then
            match read_string s1 with Some (t, rest) => Some (JStr t, rest) | None => None end
          else if is_code 123 c then
            match skip_ws s1 with
            | String d rest =>
                if is_code 125 d then Some (JObj [], rest)
                else match read_members fuel' s1 with
                     | Some (l, rest') => Some (JObj l, rest') | None => None end
            | EmptyString => None
            end
          else if is_code 91 c then
            match skip_ws s1 with
            | String d rest =>
                if is_code 93 d then Some (JArr [], rest)
                else match read_elements fuel' s1 with
                     | Some (l, rest') => Some (JArr l, rest') | None => None end
            | EmptyString => None
            end
          else if is_code 116 c then literal "true" (JBool true) s
          else if is_code 102 c then literal "false" (JBool false) s
          else if is_code 110 c then literal "null" JNull s
          else match read_number s with
               | Some (lit, rest) => Some (JNum lit, rest) | None => None end
      end
  end
with read_members (fuel : nat) (s : string) : option (list (string * json) * string) :=
  match fuel with
  | O => None
  | S fuel' =>
      match skip_ws s with
      | String q s1 =>
          if is_code 34 q then
            match read_string s1 with
            | None => None
            | Some (k, s2) =>
                match skip_ws s2 with
                | String col s3 =>
                    if is_code 58 col then
                      match read_value fuel' s3 with
                      | None => None
                      | Some (v, s4) =>
                          match skip_ws s4 with
                          | String d s5 =>
                              if is_code 125 d then Some ([(k, v)], s5)
                              else if is_code 44 d then
                                match read_members fuel' s5 with
                                | Some (l, rest) => Some ((k, v) :: l, rest)
                                | None => None
                                end
                              else None
                          | EmptyString => None
                          end
                      end
                    else None
                | EmptyString => None
                end
            end
          else None
      | EmptyString => None
      end
  end
with read_elements (fuel : nat) (s : string) : option (list json * string) :=
  match fuel with
  | O => None
  | S fuel' =>
      match read_value fuel' s with
      | None => None
      | Some (v, s1) =>
          match skip_ws s1 with
          | String d s2 =>
              if is_code 93 d then Some ([v], s2)
              else if is_code 44 d then
                match read_elements fuel' s2 with
                | Some (l, rest) => Some (v :: l, rest)
                | None => None
                end
              else None
          | EmptyString => None
          end
      end
  end.

Definition syntax_error : error := NewError "invalid character in JSON input".

(** The first value of a text ([json.Decoder.Decode]). *)
Definition Decode (s : string) : res json :=
  match read_value (S (String.length s)) s with
  | Some (j, _) => Ok j
  | None => Err syntax_error
  end.
(** A whole document ([json.Unmarshal]). *)
Definition Unmarshal (s : string) : res json :=
  match read_value (S (String.length s)) s with
  | Some (j, rest) => if bool_decide (skip_ws rest = "") then Ok j else Err syntax_error
  | None => Err syntax_error
  end.

Example unmarshal_1 :
  Unmarshal (render (JObj [("a", JInt (-12)); ("b<", JArr [JBool true; JNull; JStr ("x\" +:+ chr 10 +:+ chr 34)]); ("c", JObj [])]))
  = Ok (JObj [("a", JInt (-12)); ("b<", JArr [JBool true; JNull; JStr ("x\" +:+ chr 10 +:+ chr 34)]); ("c", JObj [])]).
Proof. vm_compute. reflexivity. Qed.

(** ** Reading back what was written *)

(** The number literals the program writes are decimal integers. *)
Inductive wf_json : json → Prop :=
  | wf_null : wf_json JNull
  | wf_bool b : wf_json (JBool b)
  | wf_int z : wf_json (JInt z)
  | wf_str s : wf_json (JStr s)
  | wf_arr l : Forall wf_json l → wf_json (JArr l)
  | wf_obj l : Forall (λ p, wf_json p.2) l → wf_json (JObj l).
#[export] Hint Constructors wf_json : flip.

Section wf_induction.
Variable P : json → Prop.
Hypothesis Hnull : P JNull.
Hypothesis Hbool : ∀ b, P (JBool b).
Hypothesis Hint : ∀ z, P (JInt z).
Hypothesis Hstr : ∀ s, P (JStr s).
Hypothesis Harr : ∀ l, Forall wf_json l → Forall P l → P (JArr l).
Hypothesis Hobj : ∀ l, Forall (λ p, wf_json p.2) l → Forall (λ p, P p.2) l → P (JObj l).

Fixpoint wf_json_rect' (j : json) (H : wf_json j) {struct H} : P j.
Proof.
  destruct H as [|b|z|s|l Hl|l Hl].
  - apply Hnull.
  - apply Hbool.
  - apply Hint.
  - apply Hstr.
  - apply Harr; [exact Hl|]. induction Hl; constructor; [by apply wf_json_rect'|done].
  - apply Hobj; [exact Hl|]. induction Hl; constructor; [by apply wf_json_rect'|done].
Qed.
End wf_induction.

#[local] Arguments String.append !_ _ /.

(** *** Strings *)
Lemma read_string_escape_char c s :
  read_string (escape_char c +:+ s) = prepend (String c "") (read_string s).
Proof. destruct c as [[] [] [] [] [] [] [] []]; reflexivity. Qed.

Lemma read_string_escape t s :
  read_string (escape t +:+ chr 34 +:+ s) = Some (t, s).
Proof.
  induction t as [|c t IH]; simpl escape; [done|].
  rewrite str_app_assoc, read_string_escape_char, IH. done.
Qed.

(** *** Numbers *)
Definition number_end (rest : string) : bool :=
  match rest with
  | EmptyString => true
  | String c _ => negb (is_digit c || is_code 46 c || is_code 101 c || is_code 69 c)
  end.

Fixpoint all_digits (s : string) : bool :=
  match s with EmptyString => true | String c s' => is_digit c && all_digits s' end.

Lemma read_digits_all ds rest :
  all_digits ds = true → number_end rest = true →
  read_digits (ds +:+ rest) = (ds, rest).
Proof.
  intros Hd Hr. induction ds as [|c ds IH]; simpl in *.
  - destruct rest as [|c r]; simpl in *; [done|].
    destruct (is_digit c); [done|]. done.
  - apply andb_true_iff in Hd as [-> Hd]. by rewrite IH.
Qed.

Lemma pretty_N_char_digit (n : N) : (n < 10)%N → is_digit (pretty_N_char n) = true.
Proof.
  intros H. assert (n ∈ [0;1;2;3;4;5;6;7;8;9])%N as Hin.
  { assert (∀ k : nat, (k < 10)%nat → N.of_nat k ∈ [0;1;2;3;4;5;6;7;8;9]%N) as Hk.
    { intros k Hk. do 10 (destruct k as [|k]; [by eapply bool_decide_unpack|]). lia. }
    rewrite <- (N2Nat.id n). apply Hk. lia. }
  rewrite !elem_of_cons, elem_of_nil in Hin. destruct_or?; by subst.
Qed.

Lemma pretty_N_go_digits (n : N) s :
  all_digits s = true →
  all_digits (pretty_N_go n s) = true ∧
  ((0 < n)%N → ∃ c s', pretty_N_go n s = String c s' ∧ is_digit c = true ∧ is_code 48 c = false).
Proof.
  revert s. induction (N.lt_wf_0 n) as [n _ IH]; intros s Hs.
  destruct (decide (n = 0)%N) as [->|Hn]; [by rewrite pretty_N_go_0|].
  rewrite pretty_N_go_step by lia.
  assert (n / 10 < n)%N as Hlt by (apply N.div_lt; lia).
  assert (n mod 10 < 10)%N as Hm by (apply N.mod_lt; lia).
  destruct (IH _ Hlt (String (pretty_N_char (n mod 10)) s)) as [Hd Hh].
  { simpl. by rewrite pretty_N_char_digit, Hs. }
  split; [done|]. intros _.
  destruct (decide (n / 10 = 0)%N) as [H0|H0]; [|by apply Hh, N.neq_0_lt_0].
  rewrite H0, pretty_N_go_0. do 2 eexists. split_and!; [done|by apply pretty_N_char_digit|].
  assert (n < 10)%N as H10 by (apply N.div_small_iff in H0; lia).
  rewrite N.mod_small by done. clear -Hn H10.
  assert (∀ k : nat, (0 < k < 10)%nat → is_code 48 (pretty_N_char (N.of_nat k)) = false) as Hk.
  { intros k Hk. do 10 (destruct k as [|k]; [by (lia || reflexivity)|]). lia. }
  rewrite <- (N2Nat.id n). apply Hk. lia.
Qed.

Lemma pretty_N_reads (n : N) rest :
  number_end rest = true → read_int_part (pretty n +:+ rest) = Some (pretty n, rest).
Proof.
  intros Hr. unfold pretty, pretty_N. destruct (decide _) as [->|Hn]; [done|].
  destruct (pretty_N_go_digits n "" eq_refl) as [Hd Hh].
  destruct Hh as (c & s' & E & Hc & H0); [lia|].
  pose proof (read_digits_all (pretty_N_go n "") rest Hd Hr) as Hrd.
  rewrite E in *. simpl in *. rewrite H0, Hc in *. by rewrite Hrd.
Qed.

Lemma pretty_N_head (n : N) : ∃ c s, pretty n = String c s ∧ is_digit c = true.
Proof.
  unfold pretty, pretty_N. destruct (decide _) as [->|Hn]; [by eexists _, _|].
  destruct (pretty_N_go_digits n "" eq_refl) as [_ (c & s & E & Hc & _)]; [lia|].
  eauto.
Qed.

Lemma digit_code c n :
  is_digit c = true → ((n <? 48) || (57 <? n) = true)%N → is_code n c = false.
Proof. unfold is_digit, is_code. intros H1 H2. apply N.eqb_neq. lia. Qed.

Lemma read_number_pretty (z : Z) rest :
  number_end rest = true → read_number (pretty z +:+ rest) = Some (pretty z, rest).
Proof.
  intros Hr.
  assert (read_fraction rest = Some ("", rest) ∧ read_exponent rest = Some ("", rest)) as [Hf He].
  { destruct rest as [|c r]; [done|]. simpl in *. revert Hr.
    destruct (is_digit c), (is_code 46 c), (is_code 101 c), (is_code 69 c); done. }
  destruct z as [|p|p].
  - unfold read_number. simpl. by rewrite Hf, He.
  - pose proof (pretty_N_reads (N.pos p) rest Hr) as Hp.
    change (pretty (Z.pos p)) with (pretty (N.pos p)).
    destruct (pretty_N_head (N.pos p)) as (c & s & E & Hc). rewrite E in *.
    unfold read_number. cbn [String.append] in *. rewrite (digit_code c 45) by done.
    rewrite Hp, Hf, He. simpl. by rewrite str_app_nil_r.
  - pose proof (pretty_N_reads (N.pos p) rest Hr) as Hp.
    change (pretty (Z.neg p)) with ("-" +:+ pretty (N.pos p)).
    unfold read_number. simpl. rewrite Hp, Hf, He. simpl. by rewrite str_app_nil_r.
Qed.

(** *** Values *)
Fixpoint json_fuel (j : json) : nat :=
  match j with
  | JArr l => S (foldr (λ v n, S (json_fuel v `max` n)) 0%nat l)
  | JObj l => S (foldr (λ p n, S (json_fuel p.2 `max` n)) 0%nat l)
  | _ => 1
  end.

(** The first character of a rendered value is not one the reader of lists
    and objects looks for. *)
Definition value_head (c : ascii) : bool :=
  negb (is_ws c || is_code 93 c || is_code 125 c).

Lemma render_head j : wf_json j → ∃ c s, render j = String c s ∧ value_head c = true.
Proof.
  destruct 1 as [|[]|z|s|l|l]; try by eexists _, _.
  destruct z as [|p|p]; [by eexists _, _| |by eexists _, _].
  destruct (pretty_N_head (N.pos p)) as (c & s & E & Hc).
  exists c, s. split; [done|].
  unfold value_head, is_ws. by rewrite !(digit_code c) by done.
Qed.

Definition reads_back (j : json) : Prop :=
  ∀ fuel rest, (json_fuel j <= fuel)%nat → number_end rest = true →
    read_value fuel (render j +:+ rest) = Some (j, rest).

Lemma skip_ws_head c s : is_ws c = false → skip_ws (String c s) = String c s.
Proof. intros H. simpl. by rewrite H. Qed.

Lemma reads_back_int z : reads_back (JInt z).
Proof.
  intros [|fuel] rest Hf Hr; simpl in Hf; [lia|].
  destruct (render_head (JInt z)) as (c & s & E & Hc); [constructor|].
  pose proof (read_number_pretty z rest Hr) as Hn.
  assert (is_digit c || is_code 45 c = true) as Hd.
  { destruct z as [|p|p]; [by injection E as <- _| |by injection E as <- _].
    destruct (pretty_N_head (N.pos p)) as (c' & s' & E' & Hc').
    simpl in E. change (pretty (Z.pos p)) with (pretty (N.pos p)) in E.
    rewrite E' in E. injection E as -> _. by rewrite Hc'. }
  assert (∀ n, ((n <? 48) || (57 <? n) = true)%N → n ≠ 45%N → is_code n c = false) as Hcode.
  { intros n Hn1 Hn2. unfold is_digit, is_code in *. apply N.eqb_neq. lia. }
  assert (is_ws c = false) as Hws by (unfold is_ws; by rewrite !Hcode by done).
  simpl render in *. rewrite E in *.
  cbn [read_value String.append]. rewrite skip_ws_head by done.
  rewrite !Hcode by done. simpl in Hn. rewrite Hn. unfold JInt. by rewrite E.
Qed.

(** Runs the reader over characters that are known. *)
Ltac read_step :=
  repeat (cbn [String.append skip_ws];
    repeat match goal with
    | |- context [is_ws (ascii_of_N ?n)] =>
        let b := eval vm_compute in (is_ws (ascii_of_N n)) in
        change (is_ws (ascii_of_N n)) with b
    | |- context [is_ws (Ascii ?a ?b ?c ?d ?e ?f ?g ?h)] =>
        let x := eval vm_compute in (is_ws (Ascii a b c d e f g h)) in
        change (is_ws (Ascii a b c d e f g h)) with x
    | |- context [is_code ?m (ascii_of_N ?n)] =>
        let b := eval vm_compute in (is_code m (ascii_of_N n)) in
        change (is_code m (ascii_of_N n)) with b
    | |- context [is_code ?m (Ascii ?a ?b ?c ?d ?e ?f ?g ?h)] =>
        let x := eval vm_compute in (is_code m (Ascii a b c d e f g h)) in
        change (is_code m (Ascii a b c d e f g h)) with x
    end; progress cbv iota).

Definition member_text (p : string * json) : string :=
  let '(k, v) := p in render_string k +:+ ":" +:+ render v.
Definition members_text (l : list (string * json)) : string :=
  String.concat "," (map member_text l).
Definition elements_text (l : list json) : string := String.concat "," (map render l).

Lemma concat_rest x l :
  String.concat "," (x :: l) =
    x +:+ match l with [] => "" | _ => "," +:+ String.concat "," l end.
Proof. destruct l; simpl; [by rewrite str_app_nil_r | done]. Qed.

Lemma render_obj l : render (JObj l) = "{" +:+ members_text l +:+ "}".
Proof. done. Qed.
Lemma render_arr l : render (JArr l) = "[" +:+ elements_text l +:+ "]".
Proof. done. Qed.

Lemma reads_back_members l :
  Forall (λ p, reads_back p.2) l → l ≠ [] →
  ∀ fuel rest, (foldr (λ p n, S (json_fuel p.2 `max` n)) 0%nat l <= fuel)%nat →
  read_members fuel (members_text l +:+ "}" +:+ rest) = Some (l, rest).
Proof.
  unfold members_text.
  induction l as [|[k v] l IH]; [done|]. intros Hb _ fuel rest Hf.
  apply Forall_cons in Hb as [Hbv Hb].
  destruct fuel as [|fuel]; [simpl in Hf; lia|]. simpl in Hf, Hbv.
  cbn [map]. rewrite concat_rest. unfold member_text at 1, render_string.
  rewrite !str_app_assoc. cbn [read_members skip_ws].
  change (chr 34) with (String (ascii_of_N 34) "") at 1.
  read_step. rewrite read_string_escape. read_step.
  rewrite Hbv; [|lia|by destruct l].
  destruct l as [|p l]; [by read_step|]. cbn [map String.append] in IH |- *. read_step.
  rewrite IH; [done|done|done|]. simpl in *. lia.
Qed.

Lemma reads_back_elements l :
  Forall reads_back l → l ≠ [] →
  ∀ fuel rest, (foldr (λ v n, S (json_fuel v `max` n)) 0%nat l <= fuel)%nat →
  read_elements fuel (elements_text l +:+ "]" +:+ rest) = Some (l, rest).
Proof.
  unfold elements_text.
  induction l as [|v l IH]; [done|]. intros Hb _ fuel rest Hf.
  apply Forall_cons in Hb as [Hbv Hb].
  destruct fuel as [|fuel]; [simpl in Hf; lia|]. simpl in Hf.
  cbn [map]. rewrite concat_rest. rewrite !str_app_assoc. cbn [read_elements].
  rewrite Hbv; [|lia|by destruct l].
  destruct l as [|p l]; [by read_step|]. cbn [map String.append] in IH |- *. read_step.
  rewrite IH; [done|done|done|]. simpl in *. lia.
Qed.

Lemma render_reads_back j : wf_json j → reads_back j.
Proof.
  intros Hj. induction Hj as [|b|z|s|l Hw IH|l Hw IH] using wf_json_rect'.
  - intros [|fuel] rest Hf _; [simpl in Hf; lia | done].
  - intros [|fuel] rest Hf _; [simpl in Hf; lia | by destruct b].
  - apply reads_back_int.
  - intros [|fuel] rest Hf _; [simpl in Hf; lia|].
    cbn [render read_value]. unfold render_string. rewrite !str_app_assoc.
    change (chr 34) with (String (ascii_of_N 34) "") at 1. read_step.
    by rewrite read_string_escape.
  - intros [|fuel] rest Hf Hr; [simpl in Hf; lia|].
    rewrite render_arr, !str_app_assoc. cbn [read_value]. read_step.
    destruct l as [|v l]; [done|].
    apply Forall_cons in Hw as [Hv _].
    destruct (render_head v Hv) as (c & t & E & Hc).
    assert (∃ t', elements_text (v :: l) +:+ String "]" rest = String c t') as [t' Et].
    { unfold elements_text. cbn [map]. rewrite concat_rest, str_app_assoc, E.
      eexists. reflexivity. }
    unfold value_head in Hc. apply negb_true_iff in Hc.
    apply orb_false_iff in Hc as [[Hc1 Hc2]%orb_false_iff Hc3].
    rewrite Et, skip_ws_head, Hc2, <- Et by done.
    apply reads_back_elements with (fuel := fuel) (rest := rest) in IH;
      [| done | simpl in *; lia].
    cbn [String.append] in IH. by rewrite IH.
  - intros [|fuel] rest Hf Hr; [simpl in Hf; lia|].
    rewrite render_obj, !str_app_assoc. cbn [read_value]. read_step.
    destruct l as [|[k v] l]; [done|].
    assert (∃ t', members_text ((k, v) :: l) +:+ String "}" rest
      = String (ascii_of_N 34) t') as [t' Et].
    { unfold members_text. cbn [map]. rewrite concat_rest, str_app_assoc.
      unfold member_text, render_string at 1. rewrite !str_app_assoc. eexists. reflexivity. }
    rewrite Et. read_step. rewrite <- Et.
    apply reads_back_members with (fuel := fuel) (rest := rest) in IH;
      [| done | simpl in *; lia].
    cbn [String.append] in IH. by rewrite IH.
Qed.

(** The length of the text is enough fuel. *)
Lemma concat_fuel {A} (text : A → string) (f : A → nat) (l : list A) :
  Forall (λ x, (f x <= String.length (text x))%nat) l →
  (foldr (λ x n, S (f x `max` n)) 0%nat l <= S (String.length (String.concat "," (map text l))))%nat.
Proof.
  induction 1 as [|x l Hx Hl IH]; cbn [map]; [simpl; lia|].
  rewrite concat_rest, str_app_length. cbn [foldr].
  destruct l as [|y l]; [simpl in *; lia|]. cbn [map] in IH |- *.
  rewrite str_app_length. simpl in *. lia.
Qed.

Lemma json_fuel_length j : wf_json j → (json_fuel j <= String.length (render j))%nat.
Proof.
  intros Hj. induction Hj as [|b|z|s|l Hw IH|l Hw IH] using wf_json_rect'.
  - simpl. lia.
  - destruct b; simpl; lia.
  - destruct (render_head (JInt z)) as (c & t & E & _); [constructor|].
    rewrite E. simpl. lia.
  - simpl. lia.
  - rewrite render_arr, !str_app_length. apply concat_fuel in IH.
    unfold elements_text. simpl in *. lia.
  - rewrite render_obj, !str_app_length.
    assert (Forall (λ p, (json_fuel p.2 <= String.length (member_text p))%nat) l) as IH'.
    { eapply Forall_impl; [exact IH|]. intros [k v] H. unfold member_text.
      rewrite !str_app_length. simpl in *. lia. }
    apply concat_fuel in IH'. unfold members_text. simpl in *. lia.
Qed.

Lemma read_value_render j rest :
  wf_json j → number_end rest = true →
  read_value (S (String.length (render j +:+ rest))) (render j +:+ rest) = Some (j, rest).
Proof.
  intros Hj Hr. apply render_reads_back; [done| |done].
  rewrite str_app_length. pose proof (json_fuel_length j Hj). lia.
Qed.

Lemma Unmarshal_render j : wf_json j → Unmarshal (render j) = Ok j.
Proof.
  intros Hj. pose proof (read_value_render j "" Hj eq_refl) as H.
  rewrite str_app_nil_r in H. unfold Unmarshal. by rewrite H.
Qed.
Lemma Decode_render j : wf_json j → Decode (render j) = Ok j.
Proof.
  intros Hj. pose proof (read_value_render j "" Hj eq_refl) as H.
  rewrite str_app_nil_r in H. unfold Decode. by rewrite H.
Qed.

(** ** Decoding into struct fields

    A member sets the field whose name it equals up to case folding, which for
    these names means ASCII case, U+017F for s and U+212A for k; unknown
    members are ignored, the last one wins, [null] leaves the field alone, and
    a value of the wrong type is an error reported once the text is read. *)
Definition to_lower (c : ascii) : ascii :=
  let n := code c in
  if ((65 <=? n) && (n <=? 90))%N then ascii_of_N (n + 32) else c.
Fixpoint fold_name (s : string) : string :=
  match s with
  | EmptyString => ""
  | String c s1 =>
      match s1 with
      | EmptyString => String (to_lower c) ""
      | String c2 s2 =>
          if (code c =? 197)%N && (code c2 =? 191)%N then String "s" (fold_name s2) else
          match s2 with
          | String c3 s3 =>
              if (code c =? 226)%N && (code c2 =? 132)%N && (code c3 =? 170)%N
              then String "k" (fold_name s3) else String (to_lower c) (fold_name s1)
          | EmptyString => String (to_lower c) (fold_name s1)
          end
      end
  end.
Definition key_matches (name key : string) : bool :=
  bool_decide (fold_name key = fold_name name).

Definition type_error (name : string) : error :=
  NewError ("json: cannot unmarshal value into Go struct field " +:+ name).

(** [set] decodes one value into the field: [None] is a type error. *)
Fixpoint get_field {A} (set : json → A → option A) (name : string)
    (l : list (string * json)) (v : A) : res A :=
  match l with
  | [] => Ok v
  | (k, j) :: l' =>
      if key_matches name k then
        match set j v with
        | Some v' => get_field set name l' v'
        | None => Err (type_error name)
        end
      else get_field set name l' v
  end.

Definition set_string (j : json) (v : string) : option string :=
  match j with JStr s => Some s | JNull => Some v | _ => None end.
Definition set_bool (j : json) (v : bool) : option bool :=
  match j with JBool b => Some b | JNull => Some v | _ => None end.

(** [strconv.ParseInt(lit, 10, 64)] on a JSON number literal. *)
Fixpoint parse_digits (s : string) (acc : Z) : option Z :=
  match s with
  | EmptyString => Some acc
  | String c s' =>
      if is_digit c then parse_digits s' (acc * 10 + (Z.of_N (code c) - 48)) else None
  end.
Definition parse_int64 (lit : string) : option Z :=
  let parsed :=
    match lit with
    | String c s' => if is_code 45 c then Z.opp <$> parse_digits s' 0 else parse_digits lit 0
    | EmptyString => None
    end in
  match parsed with
  | Some z => if bool_decide (in_int64 z) then Some z else None
  | None => None
  end.
Definition set_int64 (j : json) (v : Z) : option Z :=
  match j with JNum lit => parse_int64 lit | JNull => Some v | _ => None end.

(** The members of a document decoded into a struct. *)
Definition members (j : json) : res (list (string * json)) :=
  match j with
  | JObj l => Ok l
  | JNull => Ok []
  | _ => Err (type_error "")
  end.

Definition string_field (name : string) (l : list (string * json)) : res string :=
  get_field set_string name l "".
Definition bool_field (name : string) (l : list (string * json)) : res bool :=
  get_field set_bool name l false.
Definition int64_field (name : string) (l : list (string * json)) : res Z :=
  get_field set_int64 name l 0.

Lemma get_field_ok {A} (P : A → Prop) set name l (v v' : A) :
  (∀ j a a', set j a = Some a' → P a → P a') → get_field set name l v = Ok v' → P v → P v'.
Proof.
  intros Hset. revert v. induction l as [|[k j] l IH]; intros v H Hv; simpl in *.
  - by simplify_eq.
  - destruct (key_matches name k); [|by eapply IH].
    destruct (set j v) as [a|] eqn:E; [|done]. eapply IH; eauto.
Qed.
Lemma int64_field_in name l z : int64_field name l = Ok z → in_int64 z.
Proof.
  intros H. apply (get_field_ok in_int64 set_int64 name l 0 z); [|exact H|done].
  clear. intros j a a' Hset Ha. unfold set_int64, parse_int64 in Hset.
  destruct j; simplify_eq; [done|]. repeat case_match; simplify_eq;
    by eapply bool_decide_eq_true_1.
Qed.

(** Decodes fields whose names are known. *)
Ltac field_step :=
  unfold string_field, bool_field, int64_field;
  repeat (cbn [members get_field res_bind res_wrap app set_string set_bool];
    repeat match goal with
    | |- context [key_matches ?a ?b] =>
        let x := eval vm_compute in (key_matches a b) in
        change (key_matches a b) with x
    end; progress cbv iota);
  cbn [members get_field res_bind res_wrap app set_string set_bool].
