(* ===== verification/Database.v ===== *)
(** * The PostgreSQL schema and statements

    The tables of [migrations/], their constraints, and the SQL statements the
    repositories of [internal/infrastructure/postgres] and the outbox relay
    execute, each as a function on the database. A row holds what its columns
    hold: identifiers and enumerations as texts, [BIGINT]s as integers,
    [CHAR(3)] blank padded, timestamps to the microsecond. A statement that
    violates a constraint fails and leaves the database as it was. *)
From S2P Require Import Prelude.

(** ** Column types *)

(** [CHAR(3)] counts characters, a byte [10xxxxxx] of UTF-8 belonging to the
    character before it: shorter texts are padded with blanks, longer ones are
    refused unless only blanks are lost. *)
Definition continues (c : ascii) : bool := (128 <=? N_of_ascii c)%N && (N_of_ascii c <? 192)%N.
Fixpoint blanks (n : nat) : string :=
  match n with O => "" | S n' => String " "%char (blanks n') end.
Fixpoint all_blank (s : string) : bool :=
  match s with EmptyString => true | String c s' => bool_decide (c = " "%char) && all_blank s' end.
Fixpoint char_n (n : nat) (s : string) : option string :=
  match s with
  | EmptyString => Some (blanks n)
  | String c s' =>
      if continues c then String c <$> char_n n s' else
      match n with
      | O => if all_blank s then Some "" else None
      | S n' => String c <$> char_n n' s'
      end
  end.
Definition char3 (s : string) : option string := char_n 3 s.

(** [TIMESTAMPTZ] keeps microseconds. *)
Definition timestamptz (t : Z) : Z := t / 1000 * 1000.

Definition pg_error (msg : string) : error := NewError ("ERROR: " +:+ msg).
Definition too_long : error := pg_error "value too long for type character(3) (SQLSTATE 22001)".
Definition violates (constraint : string) (state : string) : error :=
  pg_error (constraint +:+ " (SQLSTATE " +:+ state +:+ ")").

(** ** Rows *)
Record account_row := mkAccountRow {
  acc_id : string; acc_owner_name : string; acc_currency : string; acc_status : string;
  acc_created_at : Z; acc_updated_at : Z;
}.
Record entry_row := mkEntryRow {
  ent_id : string; ent_transaction_id : string; ent_account_id : string; ent_entry_type : string;
  ent_amount : Z; ent_currency : string; ent_description : string; ent_created_at : Z;
}.
Record transfer_row := mkTransferRow {
  tr_id : string; tr_idempotency_key : string;
  tr_source_account_id : string; tr_dest_account_id : string;
  tr_amount : Z; tr_currency : string; tr_state : string;
  tr_external_ref : string; tr_failure_reason : string;
  tr_debit_posted : bool; tr_credit_posted : bool;
  tr_created_at : Z; tr_updated_at : Z; tr_version : Z;
}.
Record event_row := mkEventRow {
  ev_id : string; ev_transfer_id : string; ev_event_type : string; ev_state : string;
  ev_amount : Z; ev_currency : string; ev_occurred_at : Z; ev_metadata : string;
}.
Inductive outbox_status := PENDING | PUBLISHED.
#[export] Instance outbox_status_eq_dec : EqDecision outbox_status.
Proof. solve_decision. Defined.
Record outbox_row := mkOutboxRow {
  ob_id : Z; ob_subject : string; ob_payload : string; ob_status : outbox_status;
  ob_created_at : Z;
}.

(** [accounts] and [transfers] are keyed by their primary key; the append-only
    tables are lists in insertion order. *)
Record DB := mkDB {
  accounts : gmap string account_row;
  ledger_entries : list entry_row;
  transfers : gmap string transfer_row;
  transfer_events : list event_row;
  outbox : list outbox_row;
  outbox_seq : Z; (* the BIGSERIAL sequence: the last id given *)
}.

Definition set_accounts x (d : DB) := mkDB x (ledger_entries d) (transfers d) (transfer_events d) (outbox d) (outbox_seq d).
Definition set_ledger_entries x (d : DB) := mkDB (accounts d) x (transfers d) (transfer_events d) (outbox d) (outbox_seq d).
Definition set_transfers x (d : DB) := mkDB (accounts d) (ledger_entries d) x (transfer_events d) (outbox d) (outbox_seq d).
Definition set_transfer_events x (d : DB) := mkDB (accounts d) (ledger_entries d) (transfers d) x (outbox d) (outbox_seq d).
Definition set_outbox x s (d : DB) := mkDB (accounts d) (ledger_entries d) (transfers d) (transfer_events d) x s.

(** ** [accounts] *)
Definition status_texts : list string := ["ACTIVE"; "FROZEN"; "CLOSED"].

Definition select_account (id : string) (d : DB) : option account_row := accounts d !! id.

(** [INSERT ... ON CONFLICT (id) DO UPDATE SET owner_name, status, updated_at] *)
Definition upsert_account (r : account_row) (d : DB) : res unit * DB :=
  match char3 (acc_currency r) with
  | None => (Err too_long, d)
  | Some cur =>
      if bool_decide (acc_status r ∈ status_texts) then
        let row :=
          match accounts d !! acc_id r with
          | None => mkAccountRow (acc_id r) (acc_owner_name r) cur (acc_status r)
                      (timestamptz (acc_created_at r)) (timestamptz (acc_updated_at r))
          | Some old => mkAccountRow (acc_id old) (acc_owner_name r) (acc_currency old)
                      (acc_status r) (acc_created_at old) (timestamptz (acc_updated_at r))
          end in
        (Ok tt, set_accounts (<[acc_id r := row]> (accounts d)) d)
      else (Err (violates "accounts_status_check" "23514"), d)
  end.

(** ** [ledger_entries] *)
Definition entry_type_texts : list string := ["DEBIT"; "CREDIT"].

(** One [INSERT INTO ledger_entries] of a transaction whose earlier inserts are
    [pending]: the row to add, or the violated constraint. *)
Definition insert_entry (pending : list entry_row) (r : entry_row) (d : DB) : res entry_row :=
  match char3 (ent_currency r) with
  | None => Err too_long
  | Some cur =>
      if negb (bool_decide (ent_entry_type r ∈ entry_type_texts)) then
        Err (violates "ledger_entries_entry_type_check" "23514")
      else if ent_amount r <? 0 then Err (violates "ledger_entries_amount_check" "23514")
      else if bool_decide (ent_id r ∈ map ent_id (ledger_entries d ++ pending)) then
        Err (violates "ledger_entries_pkey" "23505")
      else if bool_decide (is_Some (accounts d !! ent_account_id r)) then
        Ok (mkEntryRow (ent_id r) (ent_transaction_id r) (ent_account_id r) (ent_entry_type r)
              (ent_amount r) cur (ent_description r) (timestamptz (ent_created_at r)))
      else Err (violates "ledger_entries_account_id_fkey" "23503")
  end.

(** [COMMIT]: the pending rows become visible together; a key inserted by
    another transaction meanwhile aborts it. *)
Definition commit_entries (pending : list entry_row) (d : DB) : res unit * DB :=
  if bool_decide (Forall (λ r, ¬ ent_id r ∈ map ent_id (ledger_entries d)) pending) then
    (Ok tt, set_ledger_entries (ledger_entries d ++ pending) d)
  else (Err (violates "ledger_entries_pkey" "23505"), d).

(** [SUM(CASE WHEN entry_type = 'CREDIT' THEN amount ELSE -amount END)] over
    the rows of one account and currency; blanks do not count in a [CHAR(3)]
    comparison. A sum of [BIGINT]s is a [NUMERIC]: it does not wrap. *)
Definition row_signed (r : entry_row) : Z :=
  if bool_decide (ent_entry_type r = "CREDIT") then ent_amount r else - ent_amount r.
Definition row_for (acct : string) (cur : option string) (r : entry_row) : bool :=
  bool_decide (ent_account_id r = acct) && bool_decide (Some (ent_currency r) = cur).
Definition row_balance (acct : string) (cur : option string) (r : entry_row) : Z :=
  if row_for acct cur r then row_signed r else 0.
Definition sum_entries (acct cur : string) (d : DB) : Z :=
  sumZ (row_balance acct (char3 cur)) (ledger_entries d).

(** [SELECT ... FROM ledger_entries ORDER BY created_at] *)
Definition created_before (r1 r2 : entry_row) : Prop := ent_created_at r1 <= ent_created_at r2.
#[export] Instance created_before_dec r1 r2 : Decision (created_before r1 r2).
Proof. unfold created_before. apply _. Defined.
Definition select_all_entries (d : DB) : list entry_row :=
  merge_sort created_before (ledger_entries d).

(** ** [transfers] *)
Definition transfer_state_texts : list string :=
  ["PENDING"; "DEBITED"; "BANK_CALLED"; "CREDITED"; "COMPLETED"; "FAILED"; "COMPENSATING"].

Definition select_transfer (id : string) (d : DB) : option transfer_row := transfers d !! id.
Definition select_transfer_by_key (key : string) (d : DB) : option transfer_row :=
  snd <$> list_find (λ r, tr_idempotency_key r = key) (snd <$> map_to_list (transfers d)).

Definition insert_transfer (r : transfer_row) (d : DB) : res unit * DB :=
  match char3 (tr_currency r) with
  | None => (Err too_long, d)
  | Some cur =>
      if tr_amount r <=? 0 then (Err (violates "transfers_amount_check" "23514"), d)
      else if negb (bool_decide (tr_state r ∈ transfer_state_texts)) then
        (Err (violates "transfers_state_check" "23514"), d)
      else if negb (bool_decide (in_int32 (tr_version r))) then
        (Err (pg_error "integer out of range (SQLSTATE 22003)"), d)
      else if bool_decide (is_Some (transfers d !! tr_id r)) then
        (Err (violates "transfers_pkey" "23505"), d)
      else if bool_decide (map_Exists (λ _ r', tr_idempotency_key r' = tr_idempotency_key r) (transfers d)) then
        (Err (violates "transfers_idempotency_key_key" "23505"), d)
      else if negb (bool_decide (is_Some (accounts d !! tr_source_account_id r))) then
        (Err (violates "transfers_source_account_id_fkey" "23503"), d)
      else if negb (bool_decide (is_Some (accounts d !! tr_dest_account_id r))) then
        (Err (violates "transfers_dest_account_id_fkey" "23503"), d)
      else
        let row := mkTransferRow (tr_id r) (tr_idempotency_key r) (tr_source_account_id r)
          (tr_dest_account_id r) (tr_amount r) cur (tr_state r) (tr_external_ref r)
          (tr_failure_reason r) (tr_debit_posted r) (tr_credit_posted r)
          (timestamptz (tr_created_at r)) (timestamptz (tr_updated_at r)) (tr_version r) in
        (Ok tt, set_transfers (<[tr_id r := row]> (transfers d)) d)
  end.

(** The row as its columns keep it. *)
Definition inserted_row (cur : string) (r : transfer_row) : transfer_row :=
  mkTransferRow (tr_id r) (tr_idempotency_key r) (tr_source_account_id r)
    (tr_dest_account_id r) (tr_amount r) cur (tr_state r) (tr_external_ref r)
    (tr_failure_reason r) (tr_debit_posted r) (tr_credit_posted r)
    (timestamptz (tr_created_at r)) (timestamptz (tr_updated_at r)) (tr_version r).

Lemma insert_transfer_inv r d :
  (∃ e, insert_transfer r d = (Err e, d)) ∨
  (∃ cur, insert_transfer r d =
      (Ok tt, set_transfers (<[tr_id r := inserted_row cur r]> (transfers d)) d) ∧
    char3 (tr_currency r) = Some cur ∧ transfers d !! tr_id r = None ∧
    map_Forall (λ _ r', tr_idempotency_key r' ≠ tr_idempotency_key r) (transfers d) ∧
    is_Some (accounts d !! tr_source_account_id r) ∧ is_Some (accounts d !! tr_dest_account_id r)).
Proof.
  unfold insert_transfer. destruct (char3 _) as [cur|]; [|eauto].
  destruct (_ <=? _); [eauto|]. destruct (negb _); [eauto|]. destruct (negb _); [eauto|].
  case_bool_decide as Hid; [eauto|]. case_bool_decide as Hk; [eauto|].
  case_bool_decide as Hs; [|eauto]. case_bool_decide as Hd; [|eauto]. simpl.
  right. exists cur. split_and!; [done | done | by apply eq_None_not_Some | | done | done].
  intros k r' Hr' E. apply Hk. by exists k, r'.
Qed.

(** And the insert that violates nothing succeeds. *)
Lemma insert_transfer_succeeds r d cur :
  char3 (tr_currency r) = Some cur → 0 < tr_amount r → tr_state r ∈ transfer_state_texts →
  in_int32 (tr_version r) → transfers d !! tr_id r = None →
  map_Forall (λ _ r', tr_idempotency_key r' ≠ tr_idempotency_key r) (transfers d) →
  is_Some (accounts d !! tr_source_account_id r) → is_Some (accounts d !! tr_dest_account_id r) →
  (insert_transfer r d).1 = Ok tt.
Proof.
  intros Hcur Ha Hst Hv Hid Hk Hs Hd. unfold insert_transfer. rewrite Hcur.
  destruct (Z.leb_spec (tr_amount r) 0); [lia|].
  rewrite (bool_decide_true _ Hst), (bool_decide_true _ Hv), (bool_decide_true _ Hs),
    (bool_decide_true _ Hd), Hid. simpl.
  rewrite bool_decide_false; [done|]. intros (k & r' & Hr' & E). by apply (Hk k r').
Qed.

(** The parameters [$1 .. $9] of the [UPDATE transfers] statement. *)
Record transfer_update := mkTransferUpdate {
  up_state : string; up_external_ref : string; up_failure_reason : string;
  up_debit_posted : bool; up_credit_posted : bool;
  up_updated_at : Z; up_version : Z; up_id : string; up_old_version : Z;
}.

Definition updated_row (u : transfer_update) (r : transfer_row) : transfer_row :=
  mkTransferRow (tr_id r) (tr_idempotency_key r) (tr_source_account_id r)
    (tr_dest_account_id r) (tr_amount r) (tr_currency r) (up_state u) (up_external_ref u)
    (up_failure_reason u) (up_debit_posted u) (up_credit_posted u)
    (tr_created_at r) (timestamptz (up_updated_at u)) (up_version u).

(** The number of affected rows: [WHERE id = $8 AND version = $9]. *)
Definition update_transfer (u : transfer_update) (d : DB) : res Z * DB :=
  if negb (bool_decide (in_int32 (up_version u)) && bool_decide (in_int32 (up_old_version u))) then
    (Err (NewError "failed to encode args: value out of range for int4"), d)
  else
  match transfers d !! up_id u with
  | None => (Ok 0, d)
  | Some r =>
      if tr_version r =? up_old_version u then
        if bool_decide (up_state u ∈ transfer_state_texts) then
          (Ok 1, set_transfers (<[up_id u := updated_row u r]> (transfers d)) d)
        else (Err (violates "transfers_state_check" "23514"), d)
      else (Ok 0, d)
  end.

(** ** [transfer_events] *)
Definition insert_event (r : event_row) (d : DB) : res unit * DB :=
  match char3 (ev_currency r) with
  | None => (Err too_long, d)
  | Some cur =>
      if bool_decide (ev_id r ∈ map ev_id (transfer_events d)) then
        (Err (violates "transfer_events_pkey" "23505"), d)
      else if negb (bool_decide (is_Some (transfers d !! ev_transfer_id r))) then
        (Err (violates "transfer_events_transfer_id_fkey" "23503"), d)
      else
        let row := mkEventRow (ev_id r) (ev_transfer_id r) (ev_event_type r) (ev_state r)
          (ev_amount r) cur (timestamptz (ev_occurred_at r)) (ev_metadata r) in
        (Ok tt, set_transfer_events (transfer_events d ++ [row]) d)
  end.

Definition occurred_before (r1 r2 : event_row) : Prop := ev_occurred_at r1 <= ev_occurred_at r2.
#[export] Instance occurred_before_dec r1 r2 : Decision (occurred_before r1 r2).
Proof. unfold occurred_before. apply _. Defined.
Definition select_events (transfer_id : string) (d : DB) : list event_row :=
  merge_sort occurred_before (filter (λ r, ev_transfer_id r = transfer_id) (transfer_events d)).

(** ** [outbox] *)
(** The sequence advances even when the insert fails; a nil payload is [NULL]. *)
Definition insert_outbox (subject : string) (payload : option string) (created_at : Z) (d : DB)
    : res unit * DB :=
  let id := outbox_seq d + 1 in
  match payload with
  | None => (Err (violates "null value in column payload" "23502"), set_outbox (outbox d) id d)
  | Some p =>
      (Ok tt, set_outbox (outbox d ++ [mkOutboxRow id subject p PENDING (timestamptz created_at)])
                id d)
  end.

(** [WHERE status = 'PENDING' ORDER BY id LIMIT $1]; ids grow with insertion. *)
Definition select_pending (limit : nat) (d : DB) : list outbox_row :=
  take limit (filter (λ r, ob_status r = PENDING) (outbox d)).

Definition mark_row (id : Z) (r : outbox_row) : outbox_row :=
  if bool_decide (ob_id r = id) then
    mkOutboxRow (ob_id r) (ob_subject r) (ob_payload r) PUBLISHED (ob_created_at r)
  else r.
Definition mark_published (id : Z) (d : DB) : res unit * DB :=
  (Ok tt, set_outbox (map (mark_row id) (outbox d)) (outbox_seq d) d).
