(* ===== verification/CircuitBreaker.v ===== *)
(** * The circuit breaker ([internal/infrastructure/circuitbreaker]) and the
    mock bank behind it ([internal/infrastructure/bankmock])

    [Call] has two critical sections, before and after the protected function;
    each is one definition here ([acquire], [release]), so that calls of
    several goroutines interleave at the mutex as they do in the code. *)
From S2P Require Import Prelude.

Module CB.

(** [type State int] *)
Inductive CState := StateClosed | StateOpen | StateHalfOpen | StateUnknown (n : Z).
#[export] Instance CState_eq_dec : EqDecision CState.
Proof. solve_decision. Defined.

Definition CState_String (s : CState) : string :=
  match s with
  | StateClosed => "CLOSED" | StateOpen => "OPEN" | StateHalfOpen => "HALF_OPEN"
  | StateUnknown _ => "UNKNOWN"
  end.

Record CircuitBreaker := mkCB {
  state : CState;
  consecutiveFails : Z;
  maxFailures : Z;
  resetTimeout : Z; (* time.Duration: nanoseconds *)
  openedAt : Z;
}.

(** The zero [time.Time], January 1 of year 1. *)
Definition zero_time : Z := -62135596800 * 1000000000.

Definition New (maxFailures resetTimeout : Z) : CircuitBreaker :=
  mkCB StateClosed 0 maxFailures resetTimeout zero_time.

(** [time.Since]: the difference saturates at the bounds of a [Duration]. *)
Definition Since (now t : Z) : Z := int64_min `max` ((now - t) `min` int64_max).

(** The section before [fn()]; [false] is the early return of [ErrCircuitOpen]. *)
Definition acquire (now : Z) (cb : CircuitBreaker) : bool * CircuitBreaker :=
  match state cb with
  | StateOpen =>
      if resetTimeout cb <=? Since now (openedAt cb) then
        (true, mkCB StateHalfOpen (consecutiveFails cb) (maxFailures cb) (resetTimeout cb)
                 (openedAt cb))
      else (false, cb)
  | _ => (true, cb)
  end.

Definition onFailure (now : Z) (cb : CircuitBreaker) : CircuitBreaker :=
  let fails := wrap64 (consecutiveFails cb + 1) in
  if bool_decide (state cb = StateHalfOpen) || (maxFailures cb <=? fails) then
    mkCB StateOpen 0 (maxFailures cb) (resetTimeout cb) now
  else mkCB (state cb) fails (maxFailures cb) (resetTimeout cb) (openedAt cb).

Definition onSuccess (cb : CircuitBreaker) : CircuitBreaker :=
  mkCB StateClosed 0 (maxFailures cb) (resetTimeout cb) (openedAt cb).

(** The section after [fn()]. *)
Definition release (now : Z) (ok : bool) (cb : CircuitBreaker) : CircuitBreaker :=
  if ok then onSuccess cb else onFailure now cb.

(** A whole [Call] that nothing interleaves with; [fn] is the protected
    function's result, used only when the call is admitted. *)
Definition Call {A} (now1 now2 : Z) (fn : res A) (cb : CircuitBreaker) : res A * CircuitBreaker :=
  let '(admitted, cb1) := acquire now1 cb in
  if admitted then (fn, release now2 (is_ok fn) cb1)
  else (Err (Sentinel ErrCircuitOpen), cb1).

Definition CurrentState (cb : CircuitBreaker) : CState := state cb.

(** ** Goroutines at the mutex *)
Inductive event := Acquire (now : Z) | Release (now : Z) (ok : bool).

Definition apply (e : event) (cb : CircuitBreaker) : CircuitBreaker :=
  match e with
  | Acquire now => (acquire now cb).2
  | Release now ok => release now ok cb
  end.
Definition run (es : list event) (cb : CircuitBreaker) : CircuitBreaker :=
  fold_left (λ cb e, apply e cb) es cb.

Definition config_of (cb : CircuitBreaker) : Z * Z := (maxFailures cb, resetTimeout cb).

Definition wf (cb : CircuitBreaker) : Prop :=
  0 < maxFailures cb <= int64_max ∧ 0 <= consecutiveFails cb < maxFailures cb ∧
  0 <= resetTimeout cb <= int64_max ∧ (∀ n, state cb ≠ StateUnknown n).

Lemma apply_wf e cb : wf cb → wf (apply e cb) ∧ config_of (apply e cb) = config_of cb.
Proof.
  unfold wf, config_of. intros (Hm & Hf & Hr & Hs).
  destruct e as [now|now [|]]; simpl.
  - unfold acquire. destruct (state cb) eqn:E; [ |case_match | |]; simpl; split_and!;
      try lia; try done; rewrite ?E; done.
  - split_and!; try lia; done.
  - unfold onFailure. rewrite wrap64_small by (unfold int64_max in *; lia).
    destruct (bool_decide _ || _) eqn:Ho; simpl; split_and!; try lia; try done.
Qed.

Lemma run_wf es cb : wf cb → wf (run es cb) ∧ config_of (run es cb) = config_of cb.
Proof.
  revert cb. induction es as [|e es IH]; intros cb Hwf; simpl; [done|].
  destruct (apply_wf e cb Hwf) as [Hwf' Hc]. destruct (IH _ Hwf') as [H1 H2].
  split; [done|]. by rewrite H2.
Qed.

Lemma run_app es1 es2 cb : run (es1 ++ es2) cb = run es2 (run es1 cb).
Proof. apply fold_left_app. Qed.

Lemma New_wf max reset :
  0 < max <= int64_max → 0 <= reset <= int64_max → wf (New max reset).
Proof. unfold wf. simpl. intros. split_and!; try lia; done. Qed.

(** *** Open: calls are refused until the timeout *)
Lemma open_rejects now cb :
  state cb = StateOpen → now < openedAt cb + resetTimeout cb →
  0 <= resetTimeout cb <= int64_max → acquire now cb = (false, cb).
Proof.
  intros Hs Hn Hr. unfold acquire. rewrite Hs.
  destruct (Z.leb_spec (resetTimeout cb) (Since now (openedAt cb))) as [H|H]; [|done].
  unfold Since, int64_min, int64_max in *. lia.
Qed.

Lemma open_admits now cb :
  state cb = StateOpen → openedAt cb + resetTimeout cb <= now →
  resetTimeout cb <= int64_max → (acquire now cb).1 = true.
Proof.
  intros Hs Hn Hr. unfold acquire. rewrite Hs.
  destruct (Z.leb_spec (resetTimeout cb) (Since now (openedAt cb))) as [H|H]; [done|].
  unfold Since, int64_min, int64_max in *. lia.
Qed.

(** What other goroutines do while the breaker opened at [lo] should stay
    open: acquire before [hi], and report failures from [lo] on. *)
Definition quiet (lo hi : Z) (e : event) : Prop :=
  match e with
  | Acquire now => now < hi
  | Release now ok => ok = false ∧ lo <= now
  end.

Lemma quiet_run lo hi es cb :
  wf cb → state cb = StateOpen → lo <= openedAt cb → hi <= lo + resetTimeout cb →
  Forall (quiet lo hi) es →
  wf (run es cb) ∧ state (run es cb) = StateOpen ∧ lo <= openedAt (run es cb) ∧
  resetTimeout (run es cb) = resetTimeout cb.
Proof.
  intros Hwf Hs Hlo Hhi Hes. revert cb Hwf Hs Hlo Hhi.
  induction Hes as [|e es He _ IH]; intros cb Hwf Hs Hlo Hhi; simpl; [done|].
  destruct (apply_wf e cb Hwf) as [Hwf' Hc].
  assert (state (apply e cb) = StateOpen ∧ lo <= openedAt (apply e cb)) as [Hs' Hlo'].
  { destruct e as [now|now ok]; simpl in *.
    - rewrite open_rejects; [done | done | lia | apply Hwf].
    - destruct He as [-> Hnow]. simpl. unfold onFailure. by case_match. }
  unfold config_of in Hc. injection Hc as _ Hrt.
  destruct (IH (apply e cb)) as (H1 & H2 & H3 & H4); [done..|lia|].
  split_and!; [done..|]. by rewrite H4.
Qed.

(** *** The results reported, whoever reports them *)
Definition report (e : event) : option bool :=
  match e with Acquire _ => None | Release _ ok => Some ok end.
Definition reports (es : list event) : list bool := omap report es.

(** The number of failures since the last success. *)
Fixpoint leading_failures (os : list bool) : Z :=
  match os with false :: os' => 1 + leading_failures os' | _ => 0 end.
Definition consecutive_failures (os : list bool) : Z := leading_failures (rev os).

Lemma leading_failures_nonneg os : 0 <= leading_failures os.
Proof. induction os as [|[] os IH]; simpl; lia. Qed.

Lemma consecutive_failures_snoc os o :
  consecutive_failures (os ++ [o]) = if o then 0 else 1 + consecutive_failures os.
Proof. unfold consecutive_failures. rewrite rev_unit. by destruct o. Qed.

Lemma reports_snoc es e :
  reports (es ++ [e]) = reports es ++ match report e with Some ok => [ok] | None => [] end.
Proof. unfold reports. rewrite omap_app. simpl. by destruct (report e). Qed.

(** What one event does to a closed breaker. *)
Lemma closed_apply e cb :
  wf cb → state cb = StateClosed →
  apply e cb =
    match report e with
    | None => cb
    | Some true => mkCB StateClosed 0 (maxFailures cb) (resetTimeout cb) (openedAt cb)
    | Some false =>
        if maxFailures cb <=? consecutiveFails cb + 1 then
          mkCB StateOpen 0 (maxFailures cb) (resetTimeout cb)
            match e with Release now _ => now | Acquire now => now end
        else mkCB StateClosed (consecutiveFails cb + 1) (maxFailures cb) (resetTimeout cb) (openedAt cb)
    end.
Proof.
  intros Hwf Hs. destruct e as [now|now [|]]; simpl.
  - unfold acquire. by rewrite Hs.
  - done.
  - unfold onFailure. rewrite Hs. simpl. unfold wf, int64_max in Hwf. by rewrite wrap64_small by lia.
Qed.

Lemma run_closed max reset es :
  0 < max <= int64_max → 0 <= reset <= int64_max →
  (∀ n, consecutive_failures (reports (take n es)) < max) →
  run es (New max reset) =
    mkCB StateClosed (consecutive_failures (reports es)) max reset zero_time.
Proof.
  intros Hm Hr. induction es as [|e es IH] using rev_ind; intros Hlt; [done|].
  assert (∀ n, consecutive_failures (reports (take n es)) < max) as Hlt'.
  { intros n. specialize (Hlt (n `min` length es)%nat). rewrite take_app_le in Hlt by lia.
    by rewrite <- take_take, (take_ge es (length es)) in Hlt. }
  specialize (Hlt (length (es ++ [e]))). rewrite take_ge, reports_snoc in Hlt by lia.
  specialize (Hlt' (length es)) as Hes. rewrite take_ge in Hes by lia.
  rewrite run_app, (IH Hlt'), reports_snoc. cbn [run fold_left].
  pose proof (leading_failures_nonneg (rev (reports es))) as Hnn. fold (consecutive_failures (reports es)) in Hnn.
  rewrite closed_apply; [|unfold wf; simpl; split_and!; (done || lia)|done]. cbn [consecutiveFails maxFailures].
  destruct (report e) as [[]|]; rewrite ?consecutive_failures_snoc, ?app_nil_r in *; [done| |done].
  destruct (Z.leb_spec max (consecutive_failures (reports es) + 1)); [lia|].
  simpl. f_equal. lia.
Qed.

(** C22: whatever calls are inside at the same time, the breaker is closed and
    admits calls as long as the failures reported since the last success are
    below [max]; the report that makes them [max] opens it, and then it refuses
    every call until the reset timeout, whatever goroutines still inside
    report meanwhile as failures. *)
Theorem opens_after_max_failures max reset es t :
  0 < max <= int64_max → 0 <= reset <= int64_max →
  (∀ n, consecutive_failures (reports (take n es)) < max) →
  let cb := run (es ++ [Release t false]) (New max reset) in
  (∀ now, (acquire now (run es (New max reset))).1 = true) ∧
  (consecutive_failures (reports es) + 1 < max →
     state cb = StateClosed ∧ ∀ now, (acquire now cb).1 = true) ∧
  (consecutive_failures (reports es) + 1 = max →
     state cb = StateOpen ∧
     ∀ es' now, Forall (quiet t (t + reset)) es' → now < t + reset →
       (acquire now (run es' cb)).1 = false).
Proof.
  intros Hm Hr Hlt cb.
  pose proof (leading_failures_nonneg (rev (reports es))) as Hnn. fold (consecutive_failures (reports es)) in Hnn.
  pose proof (Hlt (length es)) as Hl. rewrite take_ge in Hl by lia.
  assert (cb = apply (Release t false)
    (mkCB StateClosed (consecutive_failures (reports es)) max reset zero_time)) as Hcb.
  { subst cb. by rewrite run_app, (run_closed max reset es). }
  rewrite closed_apply in Hcb; [|unfold wf; simpl; split_and!; (done || lia)|done]. simpl in Hcb.
  split; [intros now; by rewrite (run_closed max reset es)|].
  destruct (Z.leb_spec max (consecutive_failures (reports es) + 1)).
  - split; [lia|]. intros _. rewrite Hcb. split; [done|]. intros es' now Hes Hnow.
    destruct (quiet_run t (t + reset) es' (mkCB StateOpen 0 max reset t))
      as (Hwf & Hs & Ho & Hrt); simpl; [| done | lia | lia | done |].
    { unfold wf. simpl. split_and!; (done || lia). }
    simpl in Hrt. rewrite open_rejects; [done | done | lia | apply Hwf].
  - split; [|lia]. intros _. rewrite Hcb. split; [done|]. intros now. done.
Qed.

(** While its probe runs, a half-open breaker admits whoever comes. *)
Lemma half_open_admits others now cb :
  state cb = StateHalfOpen → (acquire now (run (map Acquire others) cb)).1 = true.
Proof.
  intros Hs. assert (run (map Acquire others) cb = cb) as ->.
  { induction others as [|n ns IH]; [done|]. simpl. unfold apply, acquire at 1. rewrite Hs. exact IH. }
  unfold acquire. by rewrite Hs.
Qed.

Lemma open_call now1 now2 {A} (fn : res A) cb :
  wf cb → state cb = StateOpen →
  Call now1 now2 fn cb =
    if now1 <? openedAt cb + resetTimeout cb then (Err (Sentinel ErrCircuitOpen), cb)
    else (fn, mkCB (if is_ok fn then StateClosed else StateOpen) 0 (maxFailures cb)
            (resetTimeout cb) (if is_ok fn then openedAt cb else now2)).
Proof.
  intros Hwf Hs. unfold Call. destruct Hwf as (_ & _ & Hr & _).
  destruct (Z.ltb_spec now1 (openedAt cb + resetTimeout cb)) as [Hlt|Hge].
  - by rewrite open_rejects by (done || lia).
  - pose proof (open_admits now1 cb Hs Hge) as Ha. unfold acquire in *. rewrite Hs in *.
    destruct (resetTimeout cb <=? Since now1 (openedAt cb)); [|by (discriminate Ha; lia)].
    destruct fn; done.
Qed.

(** C23: an uncontended call of an open breaker is refused with ErrCircuitOpen
    before the timeout; after it, the function runs, and the breaker closes or
    opens anew according to its result. But that call is not the only probe:
    every goroutine that comes before it has ended is admitted as well. *)
Theorem open_call_outcome {A} now1 now2 (fn : res A) cb :
  wf cb → state cb = StateOpen →
  Call now1 now2 fn cb =
    (if now1 <? openedAt cb + resetTimeout cb then (Err (Sentinel ErrCircuitOpen), cb)
     else (fn, mkCB (if is_ok fn then StateClosed else StateOpen) 0 (maxFailures cb)
             (resetTimeout cb) (if is_ok fn then openedAt cb else now2))) ∧
  (openedAt cb + resetTimeout cb <= now1 →
     (acquire now1 cb).1 = true ∧
     ∀ others now3, (acquire now3 (run (map Acquire others) (acquire now1 cb).2)).1 = true).
Proof.
  intros Hwf Hs. split; [by apply open_call|]. intros Hn. destruct Hwf as (_ & _ & Hr & _).
  pose proof (open_admits now1 cb Hs Hn ltac:(lia)) as Ha. split; [done|]. intros others now3.
  apply half_open_admits. revert Ha. unfold acquire. rewrite Hs. by case_match.
Qed.

End CB.
