(* ===== verification/Observability.v ===== *)
(** * Trace ids, loggers and metrics ([internal/infrastructure/observability])

    A context holds values under keys; a logger is its level and the
    attributes it adds to a line. The metrics are declarations: nothing in the
    program updates one. *)
From S2P Require Import Prelude.

(** A key is a value of its package's own type [contextKey], so that equal
    texts of two packages do not meet. *)
Record contextKey := mkContextKey { key_package : string; key_name : string }.
#[export] Instance contextKey_eq_dec : EqDecision contextKey.
Proof. solve_decision. Defined.

(** A context is the chain of its [WithValue]s, the latest first. *)
Abbreviation Ctx := (list (contextKey * string)).
Definition WithValue (ctx : Ctx) (key : contextKey) (val : string) : Ctx := (key, val) :: ctx.
Fixpoint Value (ctx : Ctx) (key : contextKey) : option string :=
  match ctx with
  | [] => None
  | (k, v) :: parent => if bool_decide (k = key) then Some v else Value parent key
  end.

Definition traceIDKey : contextKey := mkContextKey "observability" "trace_id".

Definition WithTraceID (ctx : Ctx) (traceID : string) : Ctx := WithValue ctx traceIDKey traceID.
Definition TraceIDFromContext (ctx : Ctx) : string := default "" (Value ctx traceIDKey).

(** [slog.Level] is an [int]. *)
Definition LevelInfo : Z := 0.
Definition LevelError : Z := 8.
Record Logger := mkLogger { log_level : Z; log_attrs : list (string * string) }.
Definition With (base : Logger) (key val : string) : Logger :=
  mkLogger (log_level base) (log_attrs base ++ [(key, val)]).
(** A line of level [level] is written. *)
Definition Enabled (log : Logger) (level : Z) : bool := log_level log <=? level.

Definition NewLogger : Logger := mkLogger LevelInfo [].
Definition FromContext (ctx : Ctx) (base : Logger) : Logger :=
  let traceID := TraceIDFromContext ctx in
  if bool_decide (traceID ≠ "") then With base "trace_id" traceID else base.

(** Access lines (level info) and fatal errors are written, with a trace id or not. *)
Lemma NewLogger_writes ctx :
  Enabled (FromContext ctx NewLogger) LevelInfo = true ∧
  Enabled (FromContext ctx NewLogger) LevelError = true.
Proof. unfold FromContext. by case_bool_decide. Qed.

Lemma Value_WithValue ctx key val : Value (WithValue ctx key val) key = Some val.
Proof. simpl. by rewrite bool_decide_true. Qed.
Lemma Value_WithValue_ne ctx key key' val :
  key' ≠ key → Value (WithValue ctx key' val) key = Value ctx key.
Proof. intros Hk. simpl. by rewrite bool_decide_false. Qed.

(** ** Metrics ([metrics.go])

    A declaration registers itself with the default registry of the client
    library, which panics when the process starts if it refuses one. *)
Inductive metric_kind := Counter | Gauge | Histogram.
Record metric := mkMetric {
  me_kind : metric_kind; me_name : string; me_help : string; me_labels : list string
}.

Definition TransfersTotal : metric :=
  mkMetric Counter "transfers_total" "Total number of transfers by state" ["state"].
Definition TransferDuration : metric :=
  mkMetric Histogram "transfer_duration_seconds"
    "Time from transfer creation to completion or failure" ["outcome"].
Definition BankCallsTotal : metric :=
  mkMetric Counter "bank_calls_total" "Total bank API calls by outcome" ["outcome"].
Definition CircuitBreakerState : metric :=
  mkMetric Gauge "circuit_breaker_state"
    "Current circuit breaker state (0=closed, 1=open, 2=half_open)" ["gateway"].
Definition OutboxPendingTotal : metric :=
  mkMetric Gauge "outbox_pending_total" "Number of outbox events pending publication" [].
Definition LedgerEntriesTotal : metric :=
  mkMetric Counter "ledger_entries_total" "Total number of ledger entries posted" [].

Definition declared_metrics : list metric :=
  [TransfersTotal; TransferDuration; BankCallsTotal; CircuitBreakerState; OutboxPendingTotal;
   LedgerEntriesTotal].

(** Names as the data model of Prometheus has them: letters, digits and
    underscores, not beginning with a digit; those that begin with two
    underscores are reserved, and ["le"] is the histograms' own label. *)
Definition name_start (c : ascii) : bool :=
  let n := N_of_ascii c in
  ((65 <=? n) && (n <=? 90) || (97 <=? n) && (n <=? 122) || (n =? 95))%N.
Definition name_char (c : ascii) : bool :=
  let n := N_of_ascii c in (name_start c || (48 <=? n) && (n <=? 57))%N.
Fixpoint name_chars (s : string) : bool :=
  match s with EmptyString => true | String c rest => name_char c && name_chars rest end.
Definition valid_name (s : string) : bool :=
  match s with EmptyString => false | String c rest => name_start c && name_chars rest end.
Definition valid_metric (m : metric) : bool :=
  valid_name (me_name m) &&
  forallb (λ l, valid_name l && negb (String.prefix "__" l) && negb (bool_decide (l = "le")))
    (me_labels m) &&
  bool_decide (NoDup (me_labels m)).

(** Nothing for the registry to refuse. *)
Lemma declared_metrics_register :
  forallb valid_metric declared_metrics = true ∧ NoDup (map me_name declared_metrics).
Proof. split; [vm_compute; reflexivity | decide_vm]. Qed.
