(* ===== verification/Effects.v ===== *)
(** * Programs and their execution

    The code between two infrastructure calls is pure; the calls themselves
    are the constructors of [Cmd], each one atomic: a SQL statement or commit,
    a Redis or NATS request, a critical section of the circuit breaker, a call
    of the bank, a reading of the clock, a fresh UUID. A program is a tree of
    such calls ([prog]). [run] executes one program alone; [step] interleaves
    the programs of many processes and lets them crash between two calls. The
    contexts of Go appear in two ways: a call made with one that has ended
    fails without effect ([ContextDone]), and a bank in timeout mode does not
    return before its caller's context ends ([waits], [hangs]). *)
From S2P Require Import Prelude Uuid Money Account Transfer Database CircuitBreaker.

(** ** Services outside the repository

    Redis: [GET], and [SET key value NX EX ttl] ([SetNX]). *)
Class RedisLib := {
  redis_state : Type;
  redis_get : Z → string → redis_state → option string;
  redis_setnx : Z → string → string → Z → redis_state → bool * redis_state;
}.
Class RedisLaws (R : RedisLib) := {
  redis_setnx_fresh now k v ttl s :
    redis_get now k s = None →
    (redis_setnx now k v ttl s).1 = true ∧
    ∀ now', now <= now' < now + ttl → redis_get now' k (redis_setnx now k v ttl s).2 = Some v;
  redis_setnx_taken now k v ttl s v0 :
    redis_get now k s = Some v0 → redis_setnx now k v ttl s = (false, s);
  redis_setnx_other now k v ttl s k' now' :
    k' ≠ k → redis_get now' k' (redis_setnx now k v ttl s).2 = redis_get now' k' s;
}.

(** NATS JetStream: a stream captures the messages published on its subjects;
    a publication on any other subject is answered with an error. *)
Class NatsLib := {
  nats_state : Type;
  nats_subjects : nats_state → list string;
  nats_log : nats_state → list (string * string);
  nats_publish : string → string → nats_state → res unit * nats_state;
  nats_ensure : list string → nats_state → res unit * nats_state;
}.
Class NatsLaws (N : NatsLib) := {
  nats_publish_bound subj payload s :
    subj ∈ nats_subjects s →
    (nats_publish subj payload s).1 = Ok tt ∧
    nats_log (nats_publish subj payload s).2 = nats_log s ++ [(subj, payload)] ∧
    nats_subjects (nats_publish subj payload s).2 = nats_subjects s;
  nats_publish_unbound subj payload s :
    ¬ subj ∈ nats_subjects s → ∃ e, nats_publish subj payload s = (Err e, s);
  nats_ensure_subjects subjs s :
    (nats_ensure subjs s).1 = Ok tt ∧ nats_subjects (nats_ensure subjs s).2 = subjs ∧
    nats_log (nats_ensure subjs s).2 = nats_log s;
}.

(** ** The mock bank ([internal/infrastructure/bankmock/bank_gateway.go]) *)
Inductive FailureMode := ModeSuccess | ModeTimeout | ModePermanentErr | ModeFlaky | ModeOther (n : Z).
(** The context of a call of the bank: it lives as long as the call lasts, or
    ends within the bank's latency, or after it. *)
Inductive CtxStatus := CtxLive | CtxEndsInLatency | CtxEndsLater.
Record Gateway := mkGateway { g_mode : FailureMode; g_flakyLimit : Z; g_callCount : Z }.
Definition Gateway_New (mode : FailureMode) : Gateway := mkGateway mode 0 0.

(** Two's complement [int32]. *)
Definition wrap32 (z : Z) : Z := (z + 2 ^ 31) mod 2 ^ 32 - 2 ^ 31.
Definition Gateway_NewFlaky (failFirstN : Z) : Gateway := mkGateway ModeFlaky (wrap32 failFirstN) 0.

Section bank.
Context {U : UUIDLib}.
Record BankCallRequest := mkBankCallRequest {
  req_TransferID : TransferID;
  req_SourceAccountID : AccountID;
  req_DestAccountID : AccountID;
  req_Amount : Money;
  req_Description : string;
}.
Definition BankCallResult : Type := string. (* ExternalRef *)

(** [ctx] says how the caller's context stands to the call. In timeout mode the
    call receives from [ctx.Done()]: it has no answer ([None]) as long as the
    context lives. *)
Definition Gateway_InitiateTransfer (ctx : CtxStatus) (req : BankCallRequest) (g : Gateway)
    : option (res BankCallResult) * Gateway :=
  let n := wrap32 (g_callCount g + 1) in
  let g' := mkGateway (g_mode g) (g_flakyLimit g) n in
  let ref := "BANK-REF-" +:+ TransferID_String (req_TransferID req) in
  (match ctx with
   | CtxEndsInLatency => Some (Err (Sentinel ErrContextDone))
   | _ =>
     match g_mode g with
     | ModeSuccess => Some (Ok ref)
     | ModeTimeout =>
         match ctx with
         | CtxLive => None
         | _ => Some (Err (errorf_w "bank timeout: " (Sentinel ErrContextDone)))
         end
     | ModePermanentErr => Some (Err (NewError "bank returned HTTP 500"))
     | ModeFlaky =>
         if n <=? g_flakyLimit g then
           Some (Err (NewError ("bank flaky error (call " +:+ pretty n +:+ "/" +:+
                                  pretty (g_flakyLimit g) +:+ ")")))
         else Some (Ok ref)
     | ModeOther _ => Some (Err (NewError "unknown failure mode"))
     end
   end, g').
Definition CallCount (g : Gateway) : Z := g_callCount g.
End bank.

(** ** Calls *)
Section effects.
Context {U : UUIDLib} {R : RedisLib} {N : NatsLib}.

Inductive Cmd : Type → Type :=
  | TimeNow : Cmd Z
  | UuidNew : Cmd UUID
  | Sql {A} (statement : DB → res A * DB) : Cmd (res A)
  | Redis {A} (request : Z → redis_state → A * redis_state) : Cmd (res A)
  | Nats (request : nats_state → res unit * nats_state) : Cmd (res unit)
  | BreakerAcquire : Cmd bool
  | BreakerRelease (ok : bool) : Cmd unit
  | BankCall (req : BankCallRequest) : Cmd (res BankCallResult).

Inductive prog (A : Type) : Type :=
  | Ret (a : A)
  | Vis {X : Type} (c : Cmd X) (k : X → prog A).
Arguments Ret {_} _.
Arguments Vis {_ _} _ _.

Fixpoint bind {A B} (p : prog A) (f : A → prog B) : prog B :=
  match p with
  | Ret a => f a
  | Vis c k => Vis c (λ x, bind (k x) f)
  end.
Definition call {X} (c : Cmd X) : prog X := Vis c (λ x, Ret x).

(** [r, err := p; if err != nil { return wrap(err) }; k(r)] *)
Definition attempt {A B} (wrap : error → error) (p : prog (res A)) (k : A → prog (res B))
    : prog (res B) :=
  bind p (λ r, match r with Ok a => k a | Err e => Ret (Err (wrap e)) end).

Fixpoint for_each {A} (f : A → prog (res unit)) (l : list A) : prog (res unit) :=
  match l with
  | [] => Ret (Ok tt)
  | x :: l' => attempt id (f x) (λ _, for_each f l')
  end.

(** ** The world *)
Record World := mkWorld {
  w_db : DB;
  w_redis : redis_state;
  w_nats : nats_state;
  w_breaker : CB.CircuitBreaker;
  w_bank : Gateway;
  w_tick : nat; (* calls made so far *)
}.

(** A call may fail before or after taking effect (a lost connection), or
    because the context it is made with has ended: before the call, or ([late])
    while the bank, its latency over, was still keeping the caller waiting. *)
Inductive fault :=
  NoFault | FailBefore (msg : string) | FailAfter (msg : string) | ContextDone (late : bool).

(** What the environment decides for the [n]-th call: the time, the UUID drawn,
    the fault injected. [env_unanswered] stands for the answer to a call that
    waits for its context, where [run] goes on although there is none. *)
Record Env := mkEnv {
  env_now : nat → Z;
  env_uuid : nat → UUID;
  env_fault : nat → fault;
  env_unanswered : nat → res BankCallResult;
}.

Definition with_fault {S A} (f : fault) (stmt : S → res A * S) (s : S) : res A * S :=
  match f with
  | NoFault => stmt s
  | FailBefore m => (Err (NewError m), s)
  | FailAfter m => (Err (NewError m), (stmt s).2)
  | ContextDone _ => (Err (Sentinel ErrContextDone), s)
  end.
Definition fault_error (f : fault) : error :=
  match f with
  | NoFault => NewError ""
  | FailBefore m | FailAfter m => NewError m
  | ContextDone _ => Sentinel ErrContextDone
  end.
(** The bank is in the process: no call of it is lost on the way. *)
Definition ctx_status (f : fault) : CtxStatus :=
  match f with
  | ContextDone false => CtxEndsInLatency
  | ContextDone true => CtxEndsLater
  | _ => CtxLive
  end.

Definition set_db d (w : World) := mkWorld d (w_redis w) (w_nats w) (w_breaker w) (w_bank w) (w_tick w).
Definition set_redis x (w : World) := mkWorld (w_db w) x (w_nats w) (w_breaker w) (w_bank w) (w_tick w).
Definition set_nats x (w : World) := mkWorld (w_db w) (w_redis w) x (w_breaker w) (w_bank w) (w_tick w).
Definition set_breaker x (w : World) := mkWorld (w_db w) (w_redis w) (w_nats w) x (w_bank w) (w_tick w).
Definition set_bank x (w : World) := mkWorld (w_db w) (w_redis w) (w_nats w) (w_breaker w) x (w_tick w).
Definition tick (w : World) := mkWorld (w_db w) (w_redis w) (w_nats w) (w_breaker w) (w_bank w) (S (w_tick w)).

Definition lens {S A} (get : World → S) (set : S → World → World) (f : S → A * S) (w : World)
    : A * World :=
  let '(a, s) := f (get w) in (a, set s w).

(** In timeout mode only. *)
Lemma Gateway_answers ctx req g :
  g_mode g ≠ ModeTimeout → is_Some (Gateway_InitiateTransfer ctx req g).1.
Proof. unfold Gateway_InitiateTransfer. intros Hm. repeat case_match; by eauto. Qed.

(** The calls that do not return in this world. *)
Definition waits (E : Env) {X} (c : Cmd X) (w : World) : bool :=
  match c with
  | BankCall req =>
      match (Gateway_InitiateTransfer (ctx_status (env_fault E (w_tick w))) req (w_bank w)).1 with
      | Some _ => false
      | None => true
      end
  | _ => false
  end.

Definition exec (E : Env) {X} (c : Cmd X) (w : World) : X * World :=
  let n := w_tick w in
  let w := tick w in
  match c in Cmd X return X * World with
  | TimeNow => (env_now E n, w)
  | UuidNew => (env_uuid E n, w)
  | Sql stmt => lens w_db set_db (with_fault (env_fault E n) stmt) w
  | Redis request =>
      lens w_redis set_redis
        (with_fault (env_fault E n) (λ s, let '(a, s') := request (env_now E n) s in (Ok a, s'))) w
  | Nats request => lens w_nats set_nats (with_fault (env_fault E n) request) w
  | BreakerAcquire => lens w_breaker set_breaker (CB.acquire (env_now E n)) w
  | BreakerRelease ok =>
      lens w_breaker set_breaker (λ cb, (tt, CB.release (env_now E n) ok cb)) w
  | BankCall req =>
      lens w_bank set_bank (λ g,
        let '(r, g') := Gateway_InitiateTransfer (ctx_status (env_fault E n)) req g in
        (default (env_unanswered E n) r, g')) w
  end.

(** One program run alone to its end. (A program that calls a bank in timeout
    mode with a live context has none: what is shown of all runs holds whatever
    the bank might answer; what is shown of such programs' results assumes
    another mode.) *)
Fixpoint run {A} (E : Env) (p : prog A) (w : World) : A * World :=
  match p with
  | Ret a => (a, w)
  | Vis c k => let '(x, w') := exec E c w in run E (k x) w'
  end.

Lemma run_bind {A B} E (p : prog A) (f : A → prog B) w :
  run E (bind p f) w = let '(a, w') := run E p w in run E (f a) w'.
Proof.
  revert w. induction p as [a|X c k IH]; intros w; simpl; [done|].
  destruct (exec E c w) as [x w']. apply IH.
Qed.

Lemma run_attempt {A B} E wrap (p : prog (res A)) (k : A → prog (res B)) w :
  run E (attempt wrap p k) w =
    let '(r, w') := run E p w in
    match r with Ok a => run E (k a) w' | Err e => (Err (wrap e), w') end.
Proof.
  unfold attempt. rewrite run_bind. destruct (run E p w) as [[a|e] w']; done.
Qed.

Lemma run_tick {A} E (p : prog A) w : (w_tick w <= w_tick (run E p w).2)%nat.
Proof.
  revert w. induction p as [a|X c k IH]; intros w; simpl; [lia|].
  destruct (exec E c w) as [x w'] eqn:He. etrans; [|apply IH].
  destruct c; simpl in He; unfold lens in He; simpl in He; repeat case_match; simplify_eq/=; lia.
Qed.

(** No call changes how the bank behaves. *)
Lemma run_mode {A} E (p : prog A) w : g_mode (w_bank (run E p w).2) = g_mode (w_bank w).
Proof.
  revert w. induction p as [a|X c k IH]; intros w; simpl; [done|].
  destruct (exec E c w) as [x w'] eqn:He. rewrite IH.
  destruct c; simpl in He; unfold lens in He; simpl in He; repeat case_match; by simplify_eq/=.
Qed.

(** ** Properties of every call of a program *)
Fixpoint all_calls (P : ∀ X, Cmd X → Prop) {A} (p : prog A) : Prop :=
  match p with
  | Ret _ => True
  | Vis c k => P _ c ∧ ∀ x, all_calls P (k x)
  end.

Lemma all_calls_bind P {A B} (p : prog A) (f : A → prog B) :
  all_calls P p → (∀ a, all_calls P (f a)) → all_calls P (bind p f).
Proof. intros Hp Hf. induction p as [a|X c k IH]; simpl in *; [done|]. naive_solver. Qed.
Lemma all_calls_attempt P {A B} wrap (p : prog (res A)) (k : A → prog (res B)) :
  all_calls P p → (∀ a, all_calls P (k a)) → all_calls P (attempt wrap p k).
Proof. intros Hp Hk. apply all_calls_bind; [done|]. intros [a|e]; [apply Hk | done]. Qed.
Lemma all_calls_call P {X} (c : Cmd X) : P X c → all_calls P (call c).
Proof. intros Hc. by split. Qed.

Lemma run_all_calls (P : ∀ X, Cmd X → Prop) (I : World → Prop) E {A} (p : prog A) w :
  (∀ X (c : Cmd X) w, P X c → I w → I (exec E c w).2) →
  all_calls P p → I w → I (run E p w).2.
Proof.
  intros Hstep. revert w. induction p as [a|X c k IH]; intros w Hp Hw; simpl in *; [done|].
  destruct Hp as [Hc Hk]. specialize (Hstep X c w Hc Hw). destruct (exec E c w) as [x w'].
  by apply IH.
Qed.

(** ** Programs that wait

    Whether a program, run alone, comes to a call that does not return. *)
Fixpoint hangs {A} (E : Env) (p : prog A) (w : World) : bool :=
  match p with
  | Ret _ => false
  | Vis c k => waits E c w || let '(x, w') := exec E c w in hangs E (k x) w'
  end.

Lemma hangs_bind {A B} E (p : prog A) (f : A → prog B) w :
  hangs E (bind p f) w = hangs E p w || let '(a, w') := run E p w in hangs E (f a) w'.
Proof.
  revert w. induction p as [a|X c k IH]; intros w; simpl; [done|].
  destruct (exec E c w) as [x w']. by rewrite IH, orb_assoc.
Qed.

Definition no_bank X (c : Cmd X) : Prop := match c with BankCall _ => False | _ => True end.
Lemma hangs_no_bank {A} E (p : prog A) w : all_calls no_bank p → hangs E p w = false.
Proof.
  revert w. induction p as [a|X c k IH]; intros w; simpl; [done|]. intros [Hc Hk].
  destruct (exec E c w) as [x w']. rewrite (IH x w' (Hk x)). by destruct c.
Qed.

(** An ended context leaves nothing to wait for. *)
Lemma hangs_ended {A} E (p : prog A) w :
  (∀ k, (w_tick w <= k)%nat → ∃ late, env_fault E k = ContextDone late) → hangs E p w = false.
Proof.
  revert w. induction p as [a|X c k IH]; intros w Hf; cbn [hangs]; [done|].
  pose proof (run_tick E (call c) w) as Ht. cbn [call run] in Ht.
  destruct (exec E c w) as [x w']. cbn [snd] in Ht.
  rewrite IH by (intros n Hn; apply Hf; lia). rewrite orb_false_r. destruct c; try done.
  cbn [waits]. destruct (Hf (w_tick w)) as [[] ->]; [done|..]; unfold Gateway_InitiateTransfer; simpl;
    by repeat case_match.
Qed.

(** The context of the program ends before its [n]-th call, or while that call waits. *)
Definition ended_from (n : nat) (E : Env) : Env :=
  mkEnv (env_now E) (env_uuid E) (λ k, if (k <? n)%nat then env_fault E k else ContextDone true)
    (env_unanswered E).

(** ** Many processes *)

(** A configuration: the world and the running programs (handlers, workers,
    relays), a finished one left as [Ret tt]. *)
Record Config := mkConfig { c_world : World; c_threads : list (prog unit) }.

(** [spawnable] says which programs may be started in which world. A process
    whose call waits can only crash, or go on when its context ends. *)
Inductive step (spawnable : World → prog unit → Prop) (E : Env) : Config → Config → Prop :=
  | step_call i X (c : Cmd X) k w x w' ts :
      ts !! i = Some (Vis c k) → waits E c w = false → exec E c w = (x, w') →
      step spawnable E (mkConfig w ts) (mkConfig w' (<[i := k x]> ts))
  | step_spawn p w ts :
      spawnable w p → step spawnable E (mkConfig w ts) (mkConfig w (ts ++ [p]))
  | step_crash i w ts :
      step spawnable E (mkConfig w ts) (mkConfig w (delete i ts)).

Definition reachable spawnable E : Config → Config → Prop := rtc (step spawnable E).

(** Programs run one after the other. *)
Definition serial E (ps : list (prog unit)) (w : World) : World :=
  fold_left (λ w p, (run E p w).2) ps w.

Lemma serial_app E ps qs w : serial E (ps ++ qs) w = serial E qs (serial E ps w).
Proof. apply fold_left_app. Qed.
(** A program run alone that dies after its first [n] calls, or ends before. *)
Fixpoint run_for {A} (E : Env) (n : nat) (p : prog A) (w : World) : World :=
  match n, p with
  | S n', Vis c k => let '(x, w') := exec E c w in run_for E n' (k x) w'
  | _, _ => w
  end.

(** Programs one after the other, each one dying somewhere or running to its
    end before the next one starts. *)
Definition serial_crashing E (h : list (prog unit * nat)) (w : World) : World :=
  fold_left (λ w '(p, n), run_for E n p w) h w.

Lemma run_for_end {A} E (p : prog A) w : ∃ n, run_for E n p w = (run E p w).2.
Proof.
  revert w. induction p as [a|X c k IH]; intros w; [by exists 0%nat|]. cbn [run].
  destruct (exec E c w) as [x w'] eqn:He. destruct (IH x w') as [n Hn].
  exists (S n). cbn [run_for]. by rewrite He.
Qed.

Lemma serial_crashing_end E ps w :
  ∃ h, h.*1 = ps ∧ serial_crashing E h w = serial E ps w.
Proof.
  revert w. induction ps as [|p ps IH]; intros w; [by exists []|].
  destruct (run_for_end E p w) as [n Hn], (IH (run E p w).2) as (h & Eh & Hh).
  exists ((p, n) :: h). split; [by rewrite fmap_cons, Eh|]. cbn. by rewrite Hn.
Qed.

Lemma serial_tick E ps w : (w_tick w <= w_tick (serial E ps w))%nat.
Proof.
  revert w. induction ps as [|p ps IH]; intros w; [done|].
  etrans; [apply (run_tick E p) | apply IH].
Qed.

(** ** Rely-guarantee reasoning

    [inv] holds between any two calls and every call of every process keeps
    the world moving along [le]. [safe p w] says that [p], started when the
    world was [w], keeps this promise whatever the others do meanwhile, and
    ends with [Q]. *)
Section rely_guarantee.
Context (E : Env) (inv : World → Prop) (le : World → World → Prop).
Context {le_pre : PreOrder le}.

Fixpoint safe {A} (p : prog A) (Q : A → World → Prop) (w : World) : Prop :=
  match p with
  | Ret a => ∀ w', le w w' → inv w' → Q a w'
  | Vis c k => ∀ w', le w w' → inv w' →
      let '(x, w'') := exec E c w' in
      inv w'' ∧ le w' w'' ∧ safe (k x) Q w''
  end.

Lemma safe_later {A} (p : prog A) Q w w' : safe p Q w → le w w' → safe p Q w'.
Proof.
  destruct p as [a|X c k]; simpl; intros H Hle w'' Hle'; apply H; by etrans.
Qed.

Lemma safe_mono {A} (p : prog A) (Q Q' : A → World → Prop) w :
  safe p Q w → (∀ a w', le w w' → inv w' → Q a w' → Q' a w') → safe p Q' w.
Proof.
  revert w. induction p as [a|X c k IH]; intros w H HQ; simpl in *.
  - intros w' Hle Hi. apply HQ; [done..|]. by apply H.
  - intros w' Hle Hi. specialize (H w' Hle Hi). destruct (exec E c w') as [x w''].
    destruct H as (Hi' & Hle' & Hs). split_and!; [done..|]. apply IH; [done|].
    intros a w3 Hle3 Hi3. apply HQ; [|done]. etrans; [done|]. by etrans.
Qed.

Lemma safe_bind {A B} (p : prog A) (f : A → prog B) Q w :
  safe p (λ a w', safe (f a) Q w') w → safe (bind p f) Q w.
Proof.
  revert w. induction p as [a|X c k IH]; intros w H; simpl in *.
  - destruct (f a) as [b|X c k] eqn:Ef; simpl; intros w' Hle Hi.
    + specialize (H w' Hle Hi). simpl in H. by apply H.
    + specialize (H w' Hle Hi). simpl in H. by apply H.
  - intros w' Hle Hi. specialize (H w' Hle Hi). destruct (exec E c w') as [x w''].
    destruct H as (Hi' & Hle' & Hs). split_and!; [done..|]. by apply IH.
Qed.

Lemma safe_attempt {A B} wrap (p : prog (res A)) (k : A → prog (res B)) Q w :
  safe p (λ r w', match r with
                  | Ok a => safe (k a) Q w'
                  | Err e => ∀ w'', le w' w'' → inv w'' → Q (Err (wrap e)) w''
                  end) w →
  safe (attempt wrap p k) Q w.
Proof.
  intros H. apply safe_bind. eapply safe_mono; [exact H|].
  intros [a|e] w' _ _ H'; done.
Qed.

Lemma safe_all_calls (P : ∀ X, Cmd X → Prop) {A} (p : prog A) w :
  (∀ X (c : Cmd X) w, P X c → inv w → inv (exec E c w).2 ∧ le w (exec E c w).2) →
  all_calls P p → safe p (λ _ _, True) w.
Proof.
  intros Hstep. revert w. induction p as [a|X c k IH]; intros w Hp; simpl in *; [done|].
  intros w' _ Hi. destruct Hp as [Hc Hk]. specialize (Hstep X c w' Hc Hi).
  destruct (exec E c w') as [x w'']. destruct Hstep. eauto.
Qed.

(** With no other process around: every prefix of the run. *)
Lemma safe_run_for {A} (p : prog A) Q w n :
  safe p Q w → inv w → inv (run_for E n p w).
Proof.
  revert p w. induction n as [|n IH]; intros [a|X c k] w Hs Hi; simpl; try done.
  simpl in Hs. specialize (Hs w (reflexivity w) Hi). destruct (exec E c w) as [x w'].
  destruct Hs as (Hi' & _ & Hk). by eapply IH.
Qed.

Lemma run_ok {A} (p : prog A) Q w :
  safe p Q w → inv w → inv (run E p w).2 ∧ le w (run E p w).2.
Proof.
  revert w. induction p as [a|X c k IH]; intros w Hs Hi; simpl in *; [done|].
  specialize (Hs w (reflexivity w) Hi). destruct (exec E c w) as [x w'].
  destruct Hs as (Hi' & Hle & Hk). destruct (IH x w' Hk Hi') as [Hi2 Hle2]. split; [done|]. by etrans.
Qed.
Lemma serial_ok ps w :
  Forall (λ p, ∀ w, inv w → safe p (λ _ _, True) w) ps → inv w →
  inv (serial E ps w) ∧ le w (serial E ps w).
Proof.
  intros Hps. revert w. induction Hps as [|p ps Hp _ IH]; intros w Hi; [done|].
  destruct (run_ok p _ w (Hp w Hi) Hi) as [Hi1 Hle1], (IH _ Hi1) as [Hi2 Hle2].
  split; [exact Hi2|]. etrans; [exact Hle1 | exact Hle2].
Qed.

Definition config_ok (c : Config) : Prop :=
  inv (c_world c) ∧ ∀ p, p ∈ c_threads c → safe p (λ _ _, True) (c_world c).

Context (spawnable : World → prog unit → Prop).
Context (spawn_safe : ∀ p w, spawnable w p → inv w → safe p (λ _ _, True) w).

Lemma step_ok c c' :
  step spawnable E c c' → config_ok c → config_ok c' ∧ le (c_world c) (c_world c').
Proof.
  intros Hstep [Hi Hs]. destruct Hstep as [i X cmd k w x w' ts Hth _ Hex|p w ts Hp|i w ts]; simpl in *.
  - pose proof (Hs _ (list_elem_of_lookup_2 _ _ _ Hth)) as H. simpl in H.
    specialize (H w (reflexivity w) Hi). rewrite Hex in H. destruct H as (Hi' & Hle & Hk).
    split; [|done]. split; [done|]. simpl. intros p Hp.
    apply list_elem_of_lookup in Hp as [j Hj].
    destruct (decide (j = i)) as [->|Hne].
    + rewrite list_lookup_insert_eq in Hj by (by eapply lookup_lt_Some). by simplify_eq.
    + rewrite list_lookup_insert_ne in Hj by done.
      eapply safe_later; [|exact Hle]. apply Hs. by eapply list_elem_of_lookup_2.
  - split; [|reflexivity]. split; [done|]. simpl. intros q [Hq|Hq]%elem_of_app; [by apply Hs|].
    apply list_elem_of_singleton in Hq as ->. by apply spawn_safe.
  - split; [|reflexivity]. split; [done|]. simpl. intros q Hq. apply Hs.
    eapply elem_of_sublist; [exact Hq|]. apply sublist_delete.
Qed.

Lemma reachable_ok c c' :
  reachable spawnable E c c' → config_ok c → config_ok c' ∧ le (c_world c) (c_world c').
Proof.
  induction 1 as [c|c1 c2 c3 Hstep _ IH]; intros Hok; [by split|].
  destruct (step_ok _ _ Hstep Hok) as [Hok2 Hle2]. destruct (IH Hok2) as [Hok3 Hle3].
  split; [done|]. by etrans.
Qed.
End rely_guarantee.
End effects.

Arguments Ret {_ _ _ _} _.
Arguments Vis {_ _ _ _ _} _ _.
Arguments attempt : simpl never.

Declare Scope prog_scope.
Delimit Scope prog_scope with prog.
Notation "'let!' x ':=' p 'orelse' f 'in' k" := (attempt f p (λ x, k))
  (at level 10, x name, p at level 100, f at level 100, k at level 200) : prog_scope.
Notation "'let!' x ':=' p 'in' k" := (attempt id p (λ x, k))
  (at level 10, x name, p at level 100, k at level 200) : prog_scope.
Notation "'do!' x ':=' p 'in' k" := (bind p (λ x, k))
  (at level 10, x name, p at level 100, k at level 200) : prog_scope.
