(* ===== verification/Ports.v ===== *)
(** * The ports ([internal/application/port])

    Each Go interface is a record of programs; a component takes the records
    it depends on as arguments, and the binaries' wiring passes the adapters. *)
From S2P Require Import Prelude Uuid Money Account Transfer Ledger Effects.

Section ports.
Context {U : UUIDLib} {R : RedisLib} {N : NatsLib}.

Record TransferReader := mkTransferReader {
  tr_FindByID : TransferID → prog (res Transfer);
  tr_FindByIdempotencyKey : string → prog (res (option Transfer));
}.
Record TransferWriter := mkTransferWriter {
  tw_Save : Transfer → prog (res unit);
  tw_UpdateState : Transfer → prog (res unit);
}.
Record TransferRepository := mkTransferRepository {
  trp_reader : TransferReader;
  trp_writer : TransferWriter;
}.

Record AccountReader := mkAccountReader { ar_FindByID : AccountID → prog (res Account) }.
Record AccountLocker := mkAccountLocker { al_LockForUpdate : AccountID → prog (res Account) }.
Record AccountRepository := mkAccountRepository {
  arp_reader : AccountReader;
  arp_locker : AccountLocker;
  arp_Save : Account → prog (res unit);
}.

Record EntryWriter := mkEntryWriter { ew_PostEntries : list LedgerEntry → prog (res unit) }.
Record BalanceReader := mkBalanceReader {
  br_GetBalance : AccountID → Currency → prog (res Money);
}.
Record LedgerAuditor := mkLedgerAuditor { la_GetAllEntries : prog (res (list LedgerEntry)) }.

Record TransferEventStore := mkTransferEventStore {
  es_Append : TransferEvent → prog (res unit);
  es_FindByTransferID : TransferID → prog (res (list TransferEvent));
}.
(** The payload is a [[]byte]; [None] is the nil slice. *)
Record OutboxWriter := mkOutboxWriter { ow_Write : string → option string → prog (res unit) }.
Record EventBus := mkEventBus { eb_Publish : string → string → prog (res unit) }.

Record BankGateway := mkBankGateway {
  bg_InitiateTransfer : BankCallRequest → prog (res BankCallResult);
}.

Record IdempotencyStore := mkIdempotencyStore {
  is_Get : string → prog (res (option string));
  is_SetIfAbsent : string → string → Z → prog (res bool);
}.
End ports.
