(* ===== verification/Adapters.v ===== *)
(** * The adapters: [internal/infrastructure/postgres], [redis], [nats], and
    the circuit-breaking gateway of [bankmock]

    Every repository method is the program it runs: the statements of
    [Database], one call each, and the conversions between rows and domain
    values. *)
From S2P Require Import Prelude Uuid Money Account Transfer Ledger Json Database CircuitBreaker.
From S2P Require Import Effects Ports.

Section adapters.
Context {U : UUIDLib} {R : RedisLib} {N : NatsLib}.
Local Open Scope prog_scope.

(** A [SELECT] leaves the database alone. *)
Definition query {A} (q : DB → A) : Cmd (res A) := Sql (λ d, (Ok (q d), d)).

(** ** [TransferRepo] *)
Definition transfer_to_row (t : Transfer) : transfer_row :=
  mkTransferRow (TransferID_String (t_ID t)) (t_IdempotencyKey t)
    (AccountID_String (t_SourceAccountID t)) (AccountID_String (t_DestAccountID t))
    (m_Amount (t_Amount t)) (m_Currency (t_Amount t)) (State_text (t_State t))
    (t_ExternalRef t) (t_FailureReason t) (t_DebitPosted t) (t_CreditPosted t)
    (t_CreatedAt t) (t_UpdatedAt t) (t_Version t).

Definition TransferRepo_Save (t : Transfer) : prog (res unit) :=
  let! _ := call (Sql (insert_transfer (transfer_to_row t))) orelse errorf_w "insert transfer: " in
  Ret (Ok tt).

(** [scanTransfer]; no row is [pgx.ErrNoRows]. *)
Definition scanTransfer (row : option transfer_row) : res Transfer :=
  match row with
  | None => Err (Sentinel ErrNoRows)
  | Some r =>
      let? transferID := ParseTransferID (tr_id r) in
      let? srcAccountID := ParseAccountID (tr_source_account_id r) in
      let? dstAccountID := ParseAccountID (tr_dest_account_id r) in
      Ok (mkTransfer transferID (tr_idempotency_key r) srcAccountID dstAccountID
            (mkMoney (tr_amount r) (tr_currency r)) (State_of (tr_state r))
            (tr_external_ref r) (tr_failure_reason r) (tr_debit_posted r) (tr_credit_posted r)
            (tr_created_at r) (tr_updated_at r) (tr_version r))
  end%go.

Definition TransferRepo_FindByID (id : TransferID) : prog (res Transfer) :=
  do! q := call (query (select_transfer (TransferID_String id))) in
  match res_bind q scanTransfer with
  | Ok t => Ret (Ok t)
  | Err e => if errors_Is e ErrNoRows then Ret (Err (Sentinel ErrTransferNotFound)) else Ret (Err e)
  end.

Definition TransferRepo_FindByIdempotencyKey (key : string) : prog (res (option Transfer)) :=
  do! q := call (query (select_transfer_by_key key)) in
  match res_bind q scanTransfer with
  | Ok t => Ret (Ok (Some t))
  | Err e => if errors_Is e ErrNoRows then Ret (Ok None) else Ret (Err e)
  end.

Definition transfer_to_update (t : Transfer) : transfer_update :=
  mkTransferUpdate (State_text (t_State t)) (t_ExternalRef t) (t_FailureReason t)
    (t_DebitPosted t) (t_CreditPosted t) (t_UpdatedAt t) (t_Version t)
    (TransferID_String (t_ID t)) (wrap64 (t_Version t - 1)).

Definition TransferRepo_UpdateState (t : Transfer) : prog (res unit) :=
  let! affected := call (Sql (update_transfer (transfer_to_update t)))
    orelse errorf_w "update transfer: " in
  if affected =? 0 then
    Ret (Err (NewError ("optimistic lock conflict on transfer " +:+ TransferID_String (t_ID t))))
  else Ret (Ok tt).

Definition transferRepo : TransferRepository :=
  mkTransferRepository
    (mkTransferReader TransferRepo_FindByID TransferRepo_FindByIdempotencyKey)
    (mkTransferWriter TransferRepo_Save TransferRepo_UpdateState).

(** ** [AccountRepo] *)
Definition scanAccount (row : option account_row) : res Account :=
  match row with
  | None => Err (Sentinel ErrAccountNotFound)
  | Some r =>
      let? accountID := ParseAccountID (acc_id r) in
      Ok (mkAccount accountID (acc_owner_name r) (acc_currency r) (Status_of (acc_status r))
            (acc_created_at r) (acc_updated_at r))
  end%go.

(** Scanning wraps every database error but [pgx.ErrNoRows]. *)
Definition AccountRepo_FindByID (id : AccountID) : prog (res Account) :=
  let! row := call (query (select_account (AccountID_String id))) orelse errorf_w "scan account: " in
  Ret (scanAccount row).

(** The statement runs on the pool, outside any transaction: the row lock ends
    with the statement. *)
Definition AccountRepo_LockForUpdate (id : AccountID) : prog (res Account) :=
  let! row := call (query (select_account (AccountID_String id))) orelse errorf_w "scan account: " in
  Ret (scanAccount row).

Definition account_to_row (a : Account) : account_row :=
  mkAccountRow (AccountID_String (a_ID a)) (a_OwnerName a) (a_Currency a)
    (Status_text (a_Status a)) (a_CreatedAt a) (a_UpdatedAt a).
Definition AccountRepo_Save (a : Account) : prog (res unit) :=
  call (Sql (upsert_account (account_to_row a))).

Definition accountRepo : AccountRepository :=
  mkAccountRepository (mkAccountReader AccountRepo_FindByID)
    (mkAccountLocker AccountRepo_LockForUpdate) AccountRepo_Save.

(** ** [LedgerRepo] *)
Definition entry_to_row (e : LedgerEntry) : entry_row :=
  mkEntryRow (uuid_String (leid_UUID (le_ID e))) (uuid_String (txid_UUID (le_TransactionID e)))
    (AccountID_String (le_AccountID e)) (EntryType_text (le_Type e))
    (m_Amount (le_Amount e)) (m_Currency (le_Amount e)) (le_Description e) (le_CreatedAt e).

(** The loop of [tx.Exec]; a failed statement rolls the transaction back. *)
Fixpoint insert_entries (pending : list entry_row) (entries : list LedgerEntry)
    : prog (res (list entry_row)) :=
  match entries with
  | [] => Ret (Ok pending)
  | e :: rest =>
      let! row := call (Sql (λ d, (insert_entry pending (entry_to_row e) d, d)))
        orelse errorf_w "insert ledger entry: " in
      insert_entries (pending ++ [row]) rest
  end.

Definition LedgerRepo_PostEntries (entries : list LedgerEntry) : prog (res unit) :=
  let! _ := call (query (λ _, tt)) orelse errorf_w "begin transaction: " in
  let! pending := insert_entries [] entries in
  call (Sql (commit_entries pending)).

(** The [NUMERIC] sum is scanned into an [int64]. *)
Definition scan_int64 (z : Z) : res Z :=
  if bool_decide (in_int64 z) then Ok z
  else Err (NewError "can't scan into dest[0]: number is out of range for int64").

Definition LedgerRepo_GetBalance (accountID : AccountID) (currency : Currency) : prog (res Money) :=
  do! q := call (query (sum_entries (AccountID_String accountID) currency)) in
  match res_bind q scan_int64 with
  | Ok balance => Ret (Ok (mkMoney balance currency))
  | Err e => Ret (Err (errorf_w ("get balance for " +:+ AccountID_String accountID +:+ ": ") e))
  end.

(** Parse errors are discarded: the identifier is then the zero value. *)
Definition scan_entry (r : entry_row) : LedgerEntry :=
  let parsed {A} (r : res A) (zero : A) := match r with Ok a => a | Err _ => zero end in
  mkLedgerEntry
    (parsed (ParseLedgerEntryID (ent_id r)) (mkLedgerEntryID uuid_Nil))
    (parsed (ParseTransactionID (ent_transaction_id r)) (mkTransactionID uuid_Nil))
    (parsed (ParseAccountID (ent_account_id r)) (mkAccountID uuid_Nil))
    (EntryType_of (ent_entry_type r)) (mkMoney (ent_amount r) (ent_currency r))
    (ent_description r) (ent_created_at r).

Definition LedgerRepo_GetAllEntries : prog (res (list LedgerEntry)) :=
  let! rows := call (query select_all_entries) orelse errorf_w "query ledger entries: " in
  Ret (Ok (map scan_entry rows)).

(** ** [EventStore] *)
Definition metadata_json (meta : list (string * string)) : json :=
  JObj (map (λ p, (p.1, JStr p.2)) meta).
Definition event_to_row (evt : TransferEvent) : event_row :=
  mkEventRow (e_EventID evt) (TransferID_String (e_TransferID evt)) (EventType_text (e_Type evt))
    (State_text (e_State evt)) (m_Amount (e_Amount evt)) (m_Currency (e_Amount evt))
    (e_OccurredAt evt) (render (metadata_json (e_Metadata evt))).

Definition EventStore_Append (evt : TransferEvent) : prog (res unit) :=
  call (Sql (insert_event (event_to_row evt))).

(** A failed unmarshal leaves the members read so far. *)
Definition scan_metadata (text : string) : list (string * string) :=
  match Unmarshal text with
  | Ok (JObj l) => omap (λ p, match p.2 with JStr s => Some (p.1, s) | _ => None end) l
  | _ => []
  end.
Definition scan_event (r : event_row) : res TransferEvent :=
  (let? txID := ParseTransferID (ev_transfer_id r) in
  Ok (mkEvent (ev_id r) txID (EventType_of (ev_event_type r)) (State_of (ev_state r))
        (mkMoney (ev_amount r) (ev_currency r)) (ev_occurred_at r) (scan_metadata (ev_metadata r))))%go.
Fixpoint scan_events (rows : list event_row) : res (list TransferEvent) :=
  match rows with
  | [] => Ok []
  | r :: rows' =>
      let? evt := scan_event r in
      let? rest := scan_events rows' in
      Ok (evt :: rest)
  end%go.

Definition EventStore_FindByTransferID (id : TransferID) : prog (res (list TransferEvent)) :=
  let! rows := call (query (select_events (TransferID_String id)))
    orelse errorf_w "query transfer events: " in
  Ret (scan_events rows).

(** ** [OutboxWriter] *)
Definition OutboxWriter_Write (subject : string) (payload : option string) : prog (res unit) :=
  do! now := call TimeNow in
  let! _ := call (Sql (insert_outbox subject payload now)) orelse errorf_w "write to outbox: " in
  Ret (Ok tt).

(** ** Redis: [IdempotencyStore] *)
Definition prefixed (key : string) : string := "idempotency:" +:+ key.

Definition IdempotencyStore_Get (key : string) : prog (res (option string)) :=
  let! val := call (Redis (λ now s, (redis_get now (prefixed key) s, s)))
    orelse errorf_w ("redis get " +:+ key +:+ ": ") in
  Ret (Ok val).

Definition IdempotencyStore_SetIfAbsent (key value : string) (ttl : Z) : prog (res bool) :=
  let! ok := call (Redis (λ now s, redis_setnx now (prefixed key) value ttl s))
    orelse errorf_w ("redis setnx " +:+ key +:+ ": ") in
  Ret (Ok ok).

Definition idempotencyStore : IdempotencyStore :=
  mkIdempotencyStore IdempotencyStore_Get IdempotencyStore_SetIfAbsent.

(** ** NATS: [Publisher] and the stream set up by [Consumer] *)
Definition Publisher_Publish (subject payload : string) : prog (res unit) :=
  let! _ := call (Nats (nats_publish subject payload))
    orelse errorf_w ("jetstream publish to " +:+ subject +:+ ": ") in
  Ret (Ok tt).

Definition Consumer_EnsureStream (stream : string) (subjects : list string) : prog (res unit) :=
  let! _ := call (Nats (nats_ensure subjects))
    orelse errorf_w ("ensure stream " +:+ stream +:+ ": ") in
  Ret (Ok tt).

(** ** The bank behind its circuit breaker ([circuit_bank.go]) *)
Definition CircuitBreakerGateway_InitiateTransfer (req : BankCallRequest)
    : prog (res BankCallResult) :=
  do! admitted := call BreakerAcquire in
  if (admitted : bool) then
    do! result := call (BankCall req) in
    do! _ := call (BreakerRelease (is_ok result)) in
    Ret (res_wrap (errorf_w "bank gateway: ") result)
  else Ret (Err (errorf_w "bank gateway: " (Sentinel ErrCircuitOpen))).

(** [State()], read under the breaker's mutex. *)
Definition CircuitBreakerGateway_State (cb : CB.CircuitBreaker) : string :=
  CB.CState_String (CB.CurrentState cb).

Definition bankGW : BankGateway := mkBankGateway CircuitBreakerGateway_InitiateTransfer.
Definition eventStore : TransferEventStore :=
  mkTransferEventStore EventStore_Append EventStore_FindByTransferID.
Definition outboxWriter : OutboxWriter := mkOutboxWriter OutboxWriter_Write.
Definition entryWriter : EntryWriter := mkEntryWriter LedgerRepo_PostEntries.
Definition balanceReader : BalanceReader := mkBalanceReader LedgerRepo_GetBalance.
Definition ledgerAuditor : LedgerAuditor := mkLedgerAuditor LedgerRepo_GetAllEntries.
Definition eventBus : EventBus := mkEventBus Publisher_Publish.
End adapters.
