(* ===== verification/AdapterSpecs.v ===== *)
(** * What the adapters promise

    Row conversions round-trip; and, when no call fails, each repository
    method's result and its effect on the database. *)
From S2P Require Import Prelude Uuid Money Account Transfer Ledger Json Database CircuitBreaker.
From S2P Require Import Effects Ports Adapters.

(** ** Column types *)
Lemma char_n_blanks n : char_n n (blanks n) = Some (blanks n).
Proof. induction n as [|n IH]; [done|]. cbn [blanks char_n]. change (continues " ") with false. by rewrite IH. Qed.
Lemma char_n_idemp n s s' : char_n n s = Some s' → char_n n s' = Some s'.
Proof.
  revert n s'. induction s as [|c s IH]; intros n s' H; cbn [char_n] in H.
  - injection H as <-. apply char_n_blanks.
  - destruct (continues c) eqn:Hc.
    + apply fmap_Some in H as (t & Ht & ->). cbn [char_n]. by rewrite Hc, (IH _ _ Ht).
    + destruct n as [|n]; [by case_match; simplify_eq|].
      apply fmap_Some in H as (t & Ht & ->). cbn [char_n]. by rewrite Hc, (IH _ _ Ht).
Qed.
Lemma char3_idemp s s' : char3 s = Some s' → char3 s' = Some s'.
Proof. apply char_n_idemp. Qed.

Lemma char3_nonempty c : char3 c = Some c → c ≠ "".
Proof. by intros H ->. Qed.

Lemma timestamptz_idemp t : timestamptz (timestamptz t) = timestamptz t.
Proof. unfold timestamptz. by rewrite Z.div_mul. Qed.
#[export] Hint Rewrite timestamptz_idemp : flip_rw.

(** ** Stored transfers *)
Section stored.
Context {U : UUIDLib} {L : UUIDLaws U}.
Implicit Types t : Transfer.

(** The transfer as the database gives it back: timestamps to the microsecond. *)
Definition stored t : Transfer :=
  mkTransfer (t_ID t) (t_IdempotencyKey t) (t_SourceAccountID t) (t_DestAccountID t)
    (t_Amount t) (t_State t) (t_ExternalRef t) (t_FailureReason t) (t_DebitPosted t)
    (t_CreditPosted t) (timestamptz (t_CreatedAt t)) (timestamptz (t_UpdatedAt t)) (t_Version t).

(** Which flags and version go with which state. *)
Definition lifecycle t : Prop :=
  match t_State t with
  | StatePending => t_Version t = 1 ∧ t_DebitPosted t = false ∧ t_CreditPosted t = false
  | StateDebited => t_Version t = 2 ∧ t_DebitPosted t = true ∧ t_CreditPosted t = false
  | StateBankCalled => t_Version t = 3 ∧ t_DebitPosted t = true ∧ t_CreditPosted t = false
  | StateCredited => t_Version t = 4 ∧ t_DebitPosted t = true ∧ t_CreditPosted t = true
  | StateCompleted => t_Version t = 5 ∧ t_DebitPosted t = true ∧ t_CreditPosted t = true
  | StateCompensating => t_Version t = 3 ∧ t_DebitPosted t = true ∧ t_CreditPosted t = false
  | StateFailed =>
      (t_Version t = 2 ∧ t_DebitPosted t = false ∧ t_CreditPosted t = false) ∨
      (t_Version t = 4 ∧ t_DebitPosted t = true ∧ t_CreditPosted t = false)
  | StateOther _ => False
  end.

Definition request_wf t : Prop :=
  t_IdempotencyKey t ≠ "" ∧ t_SourceAccountID t ≠ t_DestAccountID t ∧
  0 < m_Amount (t_Amount t) <= int64_max ∧
  char3 (m_Currency (t_Amount t)) = Some (m_Currency (t_Amount t)).

Definition transfer_wf t : Prop := request_wf t ∧ lifecycle t.

Lemma lifecycle_state t : lifecycle t → t_State t ∈ State_consts.
Proof.
  unfold lifecycle, State_consts. rewrite !elem_of_cons, elem_of_nil.
  destruct (t_State t); tauto.
Qed.

Lemma lifecycle_version t : lifecycle t → 1 <= t_Version t <= 5.
Proof. unfold lifecycle. destruct (t_State t); naive_solver lia. Qed.

Lemma request_wf_money t : request_wf t → money_wf (t_Amount t).
Proof. unfold request_wf, money_wf. lia. Qed.
Lemma request_wf_currency t : request_wf t → m_Currency (t_Amount t) ≠ "".
Proof. intros (_ & _ & _ & H). by apply char3_nonempty. Qed.

Lemma same_request_wf t t' : same_request t t' → request_wf t → request_wf t'.
Proof. unfold same_request, request_wf. intros (_ & -> & -> & -> & -> & _). done. Qed.

(** A stored transfer is read back as it was. *)
Lemma scan_row t : t_State t ∈ State_consts → scanTransfer (Some (transfer_to_row t)) = Ok t.
Proof.
  intros Hs. destruct t as [[u] key [src] [dst] [amt cur] st ext why db cr c1 c2 v]. simpl in *.
  unfold ParseTransferID, TransferID_String, ParseAccountID, AccountID_String. simpl.
  rewrite !uuid_Parse_String. simpl. by rewrite State_of_text.
Qed.

Lemma transfer_to_row_inj t t' :
  t_State t ∈ State_consts → t_State t' ∈ State_consts →
  transfer_to_row t = transfer_to_row t' → t = t'.
Proof. intros H1 H2 E. apply scan_row in H1, H2. congruence. Qed.

Lemma TransferID_String_inj (a b : TransferID) : TransferID_String a = TransferID_String b → a = b.
Proof. destruct a as [a], b as [b]. intros H. f_equal. by apply (inj uuid_String). Qed.

Lemma stored_idemp t : stored (stored t) = stored t.
Proof. unfold stored. simpl. by autorewrite with flip_rw. Qed.
Lemma stored_created t : stored t = t → timestamptz (t_CreatedAt t) = t_CreatedAt t.
Proof. destruct t. unfold stored. simpl. congruence. Qed.
Lemma stored_request t : timestamptz (t_CreatedAt t) = t_CreatedAt t → same_request t (stored t).
Proof. intros H. unfold same_request. simpl. by rewrite H. Qed.
Lemma stored_wf t : transfer_wf (stored t) ↔ transfer_wf t.
Proof. done. Qed.

Lemma updated_row_same t t' :
  same_request t t' → timestamptz (t_CreatedAt t) = t_CreatedAt t →
  updated_row (transfer_to_update t') (transfer_to_row t) = transfer_to_row (stored t').
Proof.
  intros (Hid & Hk & Hs & Hd & Ha & Hc) Ht. unfold updated_row, transfer_to_row, stored. simpl.
  by rewrite Hid, Hk, Hs, Hd, Ha, Hc, Ht.
Qed.

(** The database's transfers are stored transfers in good standing. *)
Definition holds (d : DB) t : Prop :=
  transfers d !! TransferID_String (t_ID t) = Some (transfer_to_row t).

(** What one transition of the aggregate changes, flags included. *)
Definition next_version t t' : Prop :=
  same_request t t' ∧ edge (t_State t) (t_State t') ∧ t_Version t' = t_Version t + 1 ∧
  lifecycle t'.

(** The version-checked update, when the row is as the program last saw it. *)
Lemma update_transfer_ok d t t' :
  holds d (stored t) → timestamptz (t_CreatedAt t) = t_CreatedAt t → lifecycle t →
  next_version t t' →
  update_transfer (transfer_to_update t') d =
    (Ok 1, set_transfers
       (<[TransferID_String (t_ID t) := transfer_to_row (stored t')]> (transfers d)) d).
Proof.
  intros Hh Hc Hlc (Hsr & _ & Hv & Hlc').
  pose proof (lifecycle_version _ Hlc) as Hb. pose proof (lifecycle_version _ Hlc') as Hb'.
  pose proof Hsr as (Eid & _). unfold holds in Hh. simpl in Hh.
  unfold update_transfer. simpl. rewrite wrap64_small by lia.
  rewrite !bool_decide_true by (unfold in_int32, int32_max; lia). simpl. rewrite Eid, Hh. simpl.
  replace (t_Version t =? t_Version t' - 1) with true by lia.
  rewrite bool_decide_true.
  2:{ pose proof (valid_state_text_of _ (lifecycle_state _ Hlc')) as Hst.
      by apply bool_decide_eq_true_1 in Hst. }
  rewrite updated_row_same; [done | | simpl; by autorewrite with flip_rw].
  etrans; [|exact Hsr]. unfold same_request. simpl. by rewrite Hc.
Qed.

(** And when another process has moved it. *)
Lemma update_transfer_stale d t1 u :
  transfers d !! up_id u = Some (transfer_to_row t1) → t_Version t1 ≠ up_old_version u →
  ∃ r, update_transfer u d = (r, d) ∧ ∀ n, r = Ok n → n = 0.
Proof.
  intros H Hv. unfold update_transfer. destruct (negb _); [eexists; by split|].
  rewrite H. simpl. rewrite (proj2 (Z.eqb_neq _ _)) by done. eexists. split; [done|]. by intros n [= <-].
Qed.

Definition transfers_wf (d : DB) : Prop :=
  ∀ k r, transfers d !! k = Some r →
    ∃ t, r = transfer_to_row t ∧ k = TransferID_String (t_ID t) ∧ transfer_wf t ∧
      stored t = t ∧
      is_Some (accounts d !! AccountID_String (t_SourceAccountID t)) ∧
      is_Some (accounts d !! AccountID_String (t_DestAccountID t)).

Lemma holds_wf d t :
  t_State t ∈ State_consts → transfers_wf d → holds d t →
  transfer_wf t ∧ stored t = t ∧
  is_Some (accounts d !! AccountID_String (t_SourceAccountID t)) ∧
  is_Some (accounts d !! AccountID_String (t_DestAccountID t)).
Proof.
  intros Hs Hwf H. destruct (Hwf _ _ H) as (t' & E & _ & Hw & Hrest).
  apply transfer_to_row_inj in E as ->; [done..|]. by apply lifecycle_state, Hw.
Qed.
End stored.
