(* ===== verification/Saga.v ===== *)
(** * The TransferSaga orchestrator ([internal/application/saga]) *)
From S2P Require Import Prelude Uuid Money Account Transfer Ledger Json Database CircuitBreaker.
From S2P Require Import Effects Ports Adapters.

Section saga.
Context {U : UUIDLib} {R : RedisLib} {N : NatsLib}.
Local Open Scope prog_scope.

Definition stepFn : Type := Transfer → prog (res unit).

(** [compensate] is [None] where the Go field is nil. *)
Record step := mkStep { step_execute : stepFn; step_compensate : option stepFn }.

Record deps := mkDeps {
  dep_transfers : TransferRepository;
  dep_entries : EntryWriter;
  dep_balances : BalanceReader;
  dep_accounts : AccountLocker;
  dep_bank : BankGateway;
  dep_outbox : OutboxWriter;
  dep_events : TransferEventStore;
}.

(** [ledger.NewPosting(ledger.NewTransactionID(), ...)]: the UUIDs and the
    time it draws, then the constructor. *)
Definition new_posting (src dst : AccountID) (amount : Money) (description : string)
    : prog (res Posting) :=
  do! tx := call UuidNew in
  do! now := call TimeNow in
  do! id1 := call UuidNew in
  do! id2 := call UuidNew in
  Ret (NewPosting id1 id2 now (NewTransactionID tx) src dst amount description).

(** [t.Transition(next)] at the current time. *)
Definition transition (t : Transfer) (next : State) : prog (res Transfer) :=
  do! now := call TimeNow in
  Ret (Transition now t next).

Context (s : deps).

(** ** Helpers *)
Definition saga_payload (t : Transfer) (typ : EventType) (now : Z) : res string :=
  (let? timestamp := time_json now in
   Ok (render (JObj
     [("transfer_id", JStr (TransferID_String (t_ID t)));
      ("event_type", JStr (EventType_text typ));
      ("state", JStr (State_text (t_State t)));
      ("timestamp", timestamp)])))%go.

Definition publishEvent (t : Transfer) (typ : EventType) : prog (res unit) :=
  do! fresh := call UuidNew in
  do! now := call TimeNow in
  let! _ := es_Append (dep_events s) (NewEvent fresh now t typ) orelse errorf_w "append event: " in
  do! now' := call TimeNow in
  let! payload := Ret (saga_payload t typ now') orelse errorf_w "marshal event payload: " in
  ow_Write (dep_outbox s) (EventType_text typ) (Some payload).

Definition UpdateState (t : Transfer) : prog (res unit) :=
  tw_UpdateState (trp_writer (dep_transfers s)) t.

Definition failWith (t : Transfer) (reason : string) : prog (res unit) :=
  let t := set_failure_reason reason t in
  if bool_decide (t_State t = StateFailed) then Ret (Ok tt) else
  let! t := transition t StateFailed in
  let! _ := UpdateState t orelse errorf_w "update state to failed: " in
  publishEvent t EventTransferFailed.

(** ** Compensation *)
Definition reverseDebit (t : Transfer) : prog (res unit) :=
  let floatID := FloatAccount (m_Currency (t_Amount t)) in
  let! posting := new_posting floatID (t_SourceAccountID t) (t_Amount t)
      ("REVERSAL debit transfer/" +:+ TransferID_String (t_ID t))
    orelse errorf_w "build debit reversal: " in
  ew_PostEntries (dep_entries s) (Entries posting).

Definition reverseCredit (t : Transfer) : prog (res unit) :=
  let floatID := FloatAccount (m_Currency (t_Amount t)) in
  let! posting := new_posting (t_DestAccountID t) floatID (t_Amount t)
      ("REVERSAL credit transfer/" +:+ TransferID_String (t_ID t))
    orelse errorf_w "build credit reversal: " in
  ew_PostEntries (dep_entries s) (Entries posting).

Definition compensate (t : Transfer) : prog (res unit) :=
  let! _ := (if t_CreditPosted t then reverseCredit t else Ret (Ok tt)) in
  let! _ := (if t_DebitPosted t then reverseDebit t else Ret (Ok tt)) in
  failWith t (t_FailureReason t).

Definition startCompensation (t : Transfer) (reason : string) : prog (res unit) :=
  let t := set_failure_reason reason t in
  let! t := transition t StateCompensating in
  let! _ := UpdateState t orelse errorf_w "update state: " in
  compensate t.

(** ** Step implementations *)
Definition reserveDebit (t : Transfer) : prog (res unit) :=
  let! src := al_LockForUpdate (dep_accounts s) (t_SourceAccountID t)
    orelse errorf_w "lock source account: " in
  match CanTransact src with
  | Err e => failWith t (Error e)
  | Ok _ =>
      let! balance := br_GetBalance (dep_balances s) (t_SourceAccountID t) (m_Currency (t_Amount t))
        orelse errorf_w "get balance: " in
      if m_Amount balance <? m_Amount (t_Amount t) then
        failWith t (Error (Sentinel ErrInsufficientFunds))
      else
        let floatID := FloatAccount (m_Currency (t_Amount t)) in
        let! posting := new_posting (t_SourceAccountID t) floatID (t_Amount t)
            ("debit reserve transfer/" +:+ TransferID_String (t_ID t))
          orelse errorf_w "build debit posting: " in
        let! _ := ew_PostEntries (dep_entries s) (Entries posting)
          orelse errorf_w "post debit entries: " in
        let t := set_debit_posted true t in
        let! t := transition t StateDebited in
        let! _ := UpdateState t orelse errorf_w "update state: " in
        publishEvent t EventTransferDebited
  end.

Definition callBank (t : Transfer) : prog (res unit) :=
  do! result := bg_InitiateTransfer (dep_bank s)
    (mkBankCallRequest (t_ID t) (t_SourceAccountID t) (t_DestAccountID t) (t_Amount t)
       ("transfer/" +:+ TransferID_String (t_ID t))) in
  match result with
  | Err e => startCompensation t (Error e)
  | Ok ref =>
      let t := set_external_ref ref t in
      let! t := transition t StateBankCalled in
      let! _ := UpdateState t orelse errorf_w "update state: " in
      publishEvent t EventTransferBankCalled
  end.

Definition postCredit (t : Transfer) : prog (res unit) :=
  let floatID := FloatAccount (m_Currency (t_Amount t)) in
  let! posting := new_posting floatID (t_DestAccountID t) (t_Amount t)
      ("credit transfer/" +:+ TransferID_String (t_ID t))
    orelse errorf_w "build credit posting: " in
  let! _ := ew_PostEntries (dep_entries s) (Entries posting) orelse errorf_w "post credit entries: " in
  let t := set_credit_posted true t in
  let! t := transition t StateCredited in
  let! _ := UpdateState t orelse errorf_w "update state: " in
  publishEvent t EventTransferCredited.

Definition complete (t : Transfer) : prog (res unit) :=
  let! t := transition t StateCompleted in
  let! _ := UpdateState t orelse errorf_w "update state: " in
  publishEvent t EventTransferCompleted.

(** ** The dispatcher *)
Definition steps (st : State) : option step :=
  match st with
  | StatePending => Some (mkStep reserveDebit (Some reverseDebit))
  | StateDebited => Some (mkStep callBank None)
  | StateBankCalled => Some (mkStep postCredit (Some reverseCredit))
  | StateCredited => Some (mkStep complete None)
  | StateCompensating => Some (mkStep compensate None)
  | _ => None
  end.

Definition Execute (id : TransferID) : prog (res unit) :=
  let! t := tr_FindByID (trp_reader (dep_transfers s)) id orelse errorf_w "load transfer: " in
  match steps (t_State t) with
  | None => Ret (Ok tt)
  | Some st => step_execute st t
  end.
End saga.

(** The wiring of [cmd/worker]: the PostgreSQL repositories and the breaker
    around the mock bank. *)
Definition worker_deps {U : UUIDLib} {R : RedisLib} {N : NatsLib} : deps :=
  mkDeps transferRepo entryWriter balanceReader (arp_locker accountRepo) bankGW outboxWriter
    eventStore.
