(* ===== verification/Command.v ===== *)
(** * The CreateTransfer command ([internal/application/command]) *)
From S2P Require Import Prelude Uuid Money Account Transfer Ledger Json Database CircuitBreaker.
From S2P Require Import Effects Ports Adapters.

Section command.
Context {U : UUIDLib} {R : RedisLib} {N : NatsLib}.
Local Open Scope prog_scope.

(** [24 * time.Hour] *)
Definition idempotencyTTL : Z := 24 * 3600 * 1000000000.

Record CreateTransferCmd := mkCreateTransferCmd {
  cmd_IdempotencyKey : string;
  cmd_SourceAccountID : string;
  cmd_DestAccountID : string;
  cmd_Amount : Z; (* int64 *)
  cmd_Currency : Currency;
}.

Record CreateTransferResult := mkCreateTransferResult {
  r_TransferID : string;
  r_State : State;
  r_Cached : bool;
}.

Record CreateTransferHandler := mkCreateTransferHandler {
  cth_transfers : TransferWriter;
  cth_accounts : AccountReader;
  cth_idempotency : IdempotencyStore;
  cth_outbox : OutboxWriter;
  cth_events : TransferEventStore;
}.

Definition NewCreateTransferHandler (transfers : TransferWriter) (accounts : AccountReader)
    (idempotency : IdempotencyStore) (outbox : OutboxWriter) (events : TransferEventStore)
    : CreateTransferHandler :=
  mkCreateTransferHandler transfers accounts idempotency outbox events.

(** ** JSON forms *)

(** The struct tags of [CreateTransferResult]; [cached] is [omitempty]. *)
Definition result_json (r : CreateTransferResult) : json :=
  JObj ([("transfer_id", JStr (r_TransferID r)); ("state", JStr (State_text (r_State r)))] ++
        if r_Cached r then [("cached", JBool true)] else []).

Definition result_of_json (j : json) : res CreateTransferResult :=
  (let? l := members j in
   let? id := string_field "transfer_id" l in
   let? state := string_field "state" l in
   let? cached := bool_field "cached" l in
   Ok (mkCreateTransferResult id (State_of state) cached))%go.

(** [json.Marshal(evt)]: no tags, so the field names; a [TransferID] marshals
    as the text of the UUID it embeds. *)
Definition event_json (evt : TransferEvent) : res json :=
  (let? occurred := time_json (e_OccurredAt evt) in
   Ok (JObj [("EventID", JStr (e_EventID evt));
             ("TransferID", JStr (TransferID_String (e_TransferID evt)));
             ("Type", JStr (EventType_text (e_Type evt)));
             ("State", JStr (State_text (e_State evt)));
             ("Amount", JObj [("Amount", JInt (m_Amount (e_Amount evt)));
                              ("Currency", JStr (m_Currency (e_Amount evt)))]);
             ("OccurredAt", occurred);
             ("Metadata", metadata_json (e_Metadata evt))]))%go.

Context (h : CreateTransferHandler).

(** ** The handler *)
Definition checkIdempotency (key : string) : prog (res (option CreateTransferResult)) :=
  let! cached := is_Get (cth_idempotency h) key orelse errorf_w "idempotency get: " in
  match cached with
  | None => Ret (Ok None)
  | Some text =>
      let! result := Ret (res_bind (Unmarshal text) result_of_json)
        orelse errorf_w "unmarshal cached response: " in
      Ret (Ok (Some (mkCreateTransferResult (r_TransferID result) (r_State result) true)))
  end.

Definition validateAccounts (src dst : AccountID) : prog (res unit) :=
  let! srcAcct := ar_FindByID (cth_accounts h) src orelse errorf_w "source account: " in
  let! _ := Ret (CanTransact srcAcct) in
  let! dstAcct := ar_FindByID (cth_accounts h) dst orelse errorf_w "destination account: " in
  Ret (CanTransact dstAcct).

Definition cacheResult (key : string) (result : CreateTransferResult) : prog (res unit) :=
  let! _ := is_SetIfAbsent (cth_idempotency h) key (render (result_json result)) idempotencyTTL in
  Ret (Ok tt).

(** The result returned along with an error is never looked at by the callers,
    and is left out. *)
Definition Handle (cmd : CreateTransferCmd) : prog (res CreateTransferResult) :=
  let! cached := checkIdempotency (cmd_IdempotencyKey cmd) in
  match cached with
  | Some result => Ret (Ok result)
  | None =>
      let! srcID := Ret (ParseAccountID (cmd_SourceAccountID cmd))
        orelse errorf_w "invalid source account: " in
      let! dstID := Ret (ParseAccountID (cmd_DestAccountID cmd))
        orelse errorf_w "invalid destination account: " in
      let! _ := validateAccounts srcID dstID in
      let! amount := Ret (Money.New (cmd_Amount cmd) (cmd_Currency cmd))
        orelse errorf_w "invalid amount: " in
      do! fresh := call UuidNew in
      do! now := call TimeNow in
      let! t := Ret (Transfer_New now (NewTransferID fresh) (cmd_IdempotencyKey cmd) srcID dstID amount)
        orelse errorf_w "create transfer: " in
      let! _ := tw_Save (cth_transfers h) t orelse errorf_w "save transfer: " in
      do! fresh' := call UuidNew in
      do! now' := call TimeNow in
      let evt := NewEvent fresh' now' t EventTransferRequested in
      let! _ := es_Append (cth_events h) evt orelse errorf_w "append event: " in
      let evtPayload := match event_json evt with Ok j => Some (render j) | Err _ => None end in
      let! _ := ow_Write (cth_outbox h) (EventType_text EventTransferRequested) evtPayload
        orelse errorf_w "write outbox: " in
      let result := mkCreateTransferResult (TransferID_String (t_ID t)) (t_State t) false in
      let! _ := cacheResult (cmd_IdempotencyKey cmd) result in
      Ret (Ok result)
  end.
End command.

(** The wiring of [cmd/api]. *)
Definition createTransferCmd {U : UUIDLib} {R : RedisLib} {N : NatsLib} : CreateTransferHandler :=
  NewCreateTransferHandler (trp_writer transferRepo) (arp_reader accountRepo) idempotencyStore
    outboxWriter eventStore.

(** ** Cached results read back *)
Lemma result_json_wf r : wf_json (result_json r).
Proof. unfold result_json. destruct (r_Cached r); repeat constructor. Qed.

Lemma result_json_round_trip r :
  r_State r ∈ State_consts → result_of_json (result_json r) = Ok r.
Proof.
  destruct r as [id st cached]. intros Hs. unfold result_of_json, result_json.
  destruct cached; simpl r_Cached; field_step; simpl; by rewrite State_of_text.
Qed.
