(* ===== verification/Http.v ===== *)
(** * The HTTP interface ([internal/interfaces/http])

    A handler is the program that ends with the calls it makes on the
    [ResponseWriter] it is given; these come last in every handler. Of the
    logs, the access log is kept. *)
From S2P Require Import Prelude Uuid Money Account Transfer Ledger Json Database CircuitBreaker.
From S2P Require Import Observability Effects Ports Adapters Command.

Record Request := mkRequest {
  req_method : string;
  req_path : string;
  req_header : gmap string string; (* canonical names, first values *)
  req_body : string;
  req_ctx : Ctx;
}.
Definition Header_Get (name : string) (r : Request) : string := default "" (req_header r !! name).
Definition WithContext (ctx : Ctx) (r : Request) : Request :=
  mkRequest (req_method r) (req_path r) (req_header r) (req_body r) ctx.

Definition StatusOK := 200.
Definition StatusAccepted := 202.
Definition StatusBadRequest := 400.
Definition StatusNotFound := 404.
Definition StatusUnprocessableEntity := 422.
Definition StatusInternalServerError := 500.

(** ** Writing a response *)

(** The methods of [http.ResponseWriter] that are used. *)
Class ResponseWriter (W : Type) := {
  Header_Set : string → string → W → W;
  WriteHeader : Z → W → W;
  Write : string → W → W;
}.

(** The server's own: the first final status is sent, with the header as it is
    then; writing without one sends 200. *)
Record response := mkResponse {
  res_header : gmap string string;
  res_sent : option (Z * gmap string string);
  res_body : string;
}.
Definition new_response : response := mkResponse ∅ None "".
Definition send (code : Z) (w : response) : response :=
  match res_sent w with
  | Some _ => w
  | None => mkResponse (res_header w) (Some (code, res_header w)) (res_body w)
  end.
Definition informational (code : Z) : bool :=
  (100 <=? code) && (code <=? 199) && negb (code =? 101).
#[export] Instance response_writer : ResponseWriter response := {|
  Header_Set name value w :=
    mkResponse (<[name := value]> (res_header w)) (res_sent w) (res_body w);
  WriteHeader code w := if informational code then w else send code w;
  Write data w :=
    let w := send StatusOK w in mkResponse (res_header w) (res_sent w) (res_body w +:+ data);
|}.

(** What the client receives once the handler has returned. *)
Definition resp_status (w : response) : Z := default StatusOK (fst <$> res_sent w).
Definition resp_header (w : response) : gmap string string := default (res_header w) (snd <$> res_sent w).
Definition resp_body (w : response) : string := res_body w.

(** The middleware's wrapper: the methods of the embedded writer, but for
    [WriteHeader], which keeps the code. *)
Record responseWriter := mkResponseWriter { rw_ResponseWriter : response; rw_status : Z }.
#[export] Instance responseWriter_writer : ResponseWriter responseWriter := {|
  Header_Set name value rw :=
    mkResponseWriter (Header_Set name value (rw_ResponseWriter rw)) (rw_status rw);
  WriteHeader code rw := mkResponseWriter (WriteHeader code (rw_ResponseWriter rw)) code;
  Write data rw := mkResponseWriter (Write data (rw_ResponseWriter rw)) (rw_status rw);
|}.

(** A handler's answer: the calls it makes on the writer it is given. *)
Inductive write_op := OpHeader (name value : string) | OpWriteHeader (code : Z) | OpWrite (data : string).
Abbreviation Answer := (list write_op).
Definition write_on {W} `{ResponseWriter W} (w : W) (op : write_op) : W :=
  match op with
  | OpHeader name value => Header_Set name value w
  | OpWriteHeader code => WriteHeader code w
  | OpWrite data => Write data w
  end.
Definition respond {W} `{ResponseWriter W} (ops : Answer) (w : W) : W := fold_left write_on ops w.
(** What it amounts to when nothing else writes. *)
Definition answered (ops : Answer) : response := respond ops new_response.

(** [json.NewEncoder(w).Encode(v)] ends the value with a newline; a value that
    does not marshal leaves the body empty. *)
Definition writeJSON (status : Z) (v : res json) : Answer :=
  [OpHeader "Content-Type" "application/json"; OpWriteHeader status] ++
  match v with Ok j => [OpWrite (render j +:+ chr 10)] | Err _ => [] end.
Definition errorResponse_json (code message : string) : json :=
  JObj [("code", JStr code); ("message", JStr message)].
Definition writeError (status : Z) (code message : string) : Answer :=
  writeJSON status (Ok (errorResponse_json code message)).

Definition internal_error : Answer :=
  writeError StatusInternalServerError "internal_error" "internal server error".

Definition handleDomainError (err : error) : Answer :=
  if errors_Is err ErrInsufficientFunds then
    writeError StatusUnprocessableEntity "insufficient_funds" (Error err)
  else if errors_Is err ErrIdempotencyKeyReused then
    writeError StatusUnprocessableEntity "idempotency_key_reused_with_different_payload" (Error err)
  else if errors_Is err ErrAccountNotFound then
    writeError StatusNotFound "account_not_found" (Error err)
  else internal_error.

(** The router of [go-chi/chi]: matching a pattern, giving the URL parameters;
    its answers when nothing matches; and the handler of [promhttp]. *)
Class MuxLib := {
  mux_match : string → string → option (string → string);
  mux_NotFound : Answer;
  mux_MethodNotAllowed : Answer;
  prom_Handler : Answer;
}.

Section handler.
Context {U : UUIDLib} {R : RedisLib} {N : NatsLib}.
Local Open Scope prog_scope.

Record Handler := mkHandler {
  hd_createTransfer : CreateTransferHandler;
  hd_transfers : TransferReader;
  hd_accounts : AccountReader;
  hd_balances : BalanceReader;
  hd_idempotency : IdempotencyStore;
}.

Definition NewHandler (createTransfer : CreateTransferHandler) (transfers : TransferReader)
    (accounts : AccountReader) (balances : BalanceReader) (idempotency : IdempotencyStore)
    : Handler :=
  mkHandler createTransfer transfers accounts balances idempotency.

Record createTransferRequest := mkCreateTransferRequest {
  ctr_SourceAccountID : string;
  ctr_DestAccountID : string;
  ctr_Amount : Z; (* int64 *)
  ctr_Currency : string;
}.
Definition decode_request (body : string) : res createTransferRequest :=
  (let? j := Decode body in
   let? l := members j in
   let? src := string_field "source_account_id" l in
   let? dst := string_field "dest_account_id" l in
   let? amount := int64_field "amount" l in
   let? currency := string_field "currency" l in
   Ok (mkCreateTransferRequest src dst amount currency))%go.

Context (h : Handler).

(** ** Context keys *)
Definition idempotencyKeyCtx : contextKey := mkContextKey "http" "idempotency_key".
Definition requestIDCtx : contextKey := mkContextKey "http" "request_id".
Definition idempotencyKeyFromCtx (ctx : Ctx) : string := default "" (Value ctx idempotencyKeyCtx).

(** ** Route handlers *)
Definition CreateTransfer (r : Request) : prog Answer :=
  match decode_request (req_body r) with
  | Err e => Ret (writeError StatusBadRequest "invalid_request_body" (Error e))
  | Ok req =>
      do! result := Handle (hd_createTransfer h)
        (mkCreateTransferCmd (idempotencyKeyFromCtx (req_ctx r)) (ctr_SourceAccountID req) (ctr_DestAccountID req)
           (ctr_Amount req) (ctr_Currency req)) in
      match result with
      | Err e => Ret (handleDomainError e)
      | Ok result =>
          let status := if r_Cached result then StatusOK else StatusAccepted in
          Ret (writeJSON status (Ok (result_json result)))
      end
  end.

(** A Go map marshals with its keys sorted; times are in UTC. *)
Definition transfer_json (t : Transfer) : res json :=
  (let? created := time_json (t_CreatedAt t) in
   let? updated := time_json (t_UpdatedAt t) in
   Ok (JObj [("amount", JInt (m_Amount (t_Amount t)));
             ("created_at", created);
             ("currency", JStr (m_Currency (t_Amount t)));
             ("dest_account_id", JStr (AccountID_String (t_DestAccountID t)));
             ("external_ref", JStr (t_ExternalRef t));
             ("failure_reason", JStr (t_FailureReason t));
             ("id", JStr (TransferID_String (t_ID t)));
             ("source_account_id", JStr (AccountID_String (t_SourceAccountID t)));
             ("state", JStr (State_text (t_State t)));
             ("updated_at", updated)]))%go.

Definition GetTransfer (id : string) : prog Answer :=
  match ParseTransferID id with
  | Err e => Ret (writeError StatusBadRequest "invalid_transfer_id" (Error e))
  | Ok transferID =>
      do! t := tr_FindByID (hd_transfers h) transferID in
      match t with
      | Err e =>
          if errors_Is e ErrTransferNotFound then
            Ret (writeError StatusNotFound "transfer_not_found" "transfer not found")
          else Ret internal_error
      | Ok t => Ret (writeJSON StatusOK (transfer_json t))
      end
  end.

Definition balance_json (id : string) (balance : Money) : json :=
  JObj [("account_id", JStr id); ("balance", JInt (m_Amount balance));
        ("currency", JStr (m_Currency balance))].

Definition GetAccountBalance (id : string) : prog Answer :=
  match ParseAccountID id with
  | Err e => Ret (writeError StatusBadRequest "invalid_account_id" (Error e))
  | Ok accountID =>
      do! acct := ar_FindByID (hd_accounts h) accountID in
      match acct with
      | Err e =>
          if errors_Is e ErrAccountNotFound then
            Ret (writeError StatusNotFound "account_not_found" "account not found")
          else Ret internal_error
      | Ok acct =>
          do! balance := br_GetBalance (hd_balances h) accountID (a_Currency acct) in
          match balance with
          | Err _ => Ret internal_error
          | Ok balance => Ret (writeJSON StatusOK (Ok (balance_json id balance)))
          end
      end
  end.

(** ** Middleware *)
Definition requestIDMiddleware {A} (next : response → Request → prog A) (w : response) (r : Request)
    : prog A :=
  do! traceID :=
    (if bool_decide (Header_Get "X-Request-Id" r = "") then
       do! fresh := call UuidNew in Ret (uuid_String fresh)
     else Ret (Header_Get "X-Request-Id" r)) in
  let ctx := WithTraceID (req_ctx r) traceID in
  let ctx := WithValue ctx requestIDCtx traceID in
  let w := Header_Set "X-Request-Id" traceID w in
  next w (WithContext ctx r).

(** The attributes of the line "http request". *)
Record access_log := mkAccessLog {
  al_method : string;
  al_path : string;
  al_status : Z;
  al_duration_ms : Z;
  al_trace_id : string;
}.

(** [time.Since(start).Milliseconds()] *)
Definition Milliseconds (d : Z) : Z := Z.quot d 1000000.
Definition loggingMiddleware (next : Request → prog Answer) (w : response) (r : Request)
    : prog (response * access_log) :=
  do! start := call TimeNow in
  let ww := mkResponseWriter w StatusOK in
  do! ops := next r in
  let ww := respond ops ww in
  do! now := call TimeNow in
  Ret (rw_ResponseWriter ww,
       mkAccessLog (req_method r) (req_path r) (rw_status ww) (Milliseconds (CB.Since now start))
         (TraceIDFromContext (req_ctx r))).

Definition idempotencyMiddleware (store : IdempotencyStore)
    (next : Request → prog Answer) (r : Request) : prog Answer :=
  if bool_decide (req_method r = "GET") then next r else
  let key := Header_Get "Idempotency-Key" r in
  if bool_decide (key = "") then
    Ret (writeError StatusBadRequest "idempotency_key_required" "Idempotency-Key header is required")
  else
    do! found := is_Get store key in
    match found with
    | Ok (Some cached) =>
        Ret [OpHeader "Content-Type" "application/json"; OpHeader "X-Idempotent-Replayed" "true";
             OpWriteHeader StatusOK; OpWrite cached]
    | _ => next (WithContext (WithValue (req_ctx r) idempotencyKeyCtx key) r)
    end.

(** ** The router *)
Context {M : MuxLib}.

Inductive endpoint := ECreateTransfer | EGetTransfer | EGetAccountBalance.
Definition v1_routes : list (string * string * endpoint) :=
  [("POST", "/v1/transfers", ECreateTransfer);
   ("GET", "/v1/transfers/{id}", EGetTransfer);
   ("GET", "/v1/accounts/{id}/balance", EGetAccountBalance)].

Definition serve_endpoint (e : endpoint) (params : string → string) (r : Request)
    : prog Answer :=
  match e with
  | ECreateTransfer => CreateTransfer r
  | EGetTransfer => GetTransfer (params "id")
  | EGetAccountBalance => GetAccountBalance (params "id")
  end.

(** [other] remembers that the path matched under another method. *)
Fixpoint serve_routes (routes : list (string * string * endpoint)) (other : bool)
    (r : Request) : prog Answer :=
  match routes with
  | [] => Ret (if other then mux_MethodNotAllowed else mux_NotFound)
  | (method, pattern, e) :: rest =>
      match mux_match pattern (req_path r) with
      | Some params =>
          if bool_decide (method = req_method r) then serve_endpoint e params r
          else serve_routes rest true r
      | None => serve_routes rest other r
      end
  end.

Definition routes (r : Request) : prog Answer :=
  match mux_match "/healthz" (req_path r) with
  | Some _ =>
      if bool_decide (req_method r = "GET") then Ret [OpWriteHeader StatusOK; OpWrite "ok"]
      else Ret mux_MethodNotAllowed
  | None =>
      match mux_match "/metrics" (req_path r) with
      | Some _ => Ret prom_Handler
      | None =>
          match mux_match "/v1/*" (req_path r) with
          | Some _ => idempotencyMiddleware (hd_idempotency h) (serve_routes v1_routes false) r
          | None => Ret mux_NotFound
          end
      end
  end.

(** The response to a request and the line logged about it. *)
Definition serve (r : Request) : prog (response * access_log) :=
  requestIDMiddleware (loggingMiddleware routes) new_response r.
Definition NewRouter (r : Request) : prog response :=
  do! out := serve r in
  Ret out.1.

Lemma all_calls_NewRouter (P : ∀ X, Cmd X → Prop) (r : Request) :
  P _ TimeNow → P _ UuidNew → (∀ ctx, all_calls P (routes (WithContext ctx r))) →
  all_calls P (NewRouter r).
Proof.
  intros Ht Hu Hr. apply all_calls_bind; [|done]. apply all_calls_bind; [by case_bool_decide|].
  intros traceID.
  apply all_calls_bind; [by split|]. intros start.
  apply all_calls_bind; [apply Hr|]. by intros ops.
Qed.
End handler.

(** The wiring of [cmd/api]. *)
Definition api_handler {U : UUIDLib} {R : RedisLib} {N : NatsLib} : Handler :=
  NewHandler createTransferCmd (trp_reader transferRepo) (arp_reader accountRepo) balanceReader
    idempotencyStore.
