(* ===== verification/Worker.v ===== *)
(** * The background binaries: [cmd/worker], [cmd/outbox-relay], [cmd/reconciler]

    Each binary's loop body is one program; the loops, their timers and
    signals are the scheduler of [Effects.step]. *)
From S2P Require Import Prelude Uuid Money Account Transfer Ledger Json Database CircuitBreaker.
From S2P Require Import Effects Ports Adapters Saga.

(** ** [cmd/worker] *)
Section worker.
Context {U : UUIDLib} {R : RedisLib} {N : NatsLib}.
Local Open Scope prog_scope.

Definition stream_subjects : list string :=
  ["transfer.requested"; "transfer.debited"; "transfer.bank_called"; "transfer.credited"].
Definition worker_setup : prog (res unit) :=
  let! _ := Consumer_EnsureStream "TRANSFERS" stream_subjects orelse errorf_w "ensure stream: " in
  Ret (Ok tt).

(** The [transfer_id] of a message. *)
Definition message_transfer_id (data : string) : res TransferID :=
  (let? text := res_bind (res_bind (Unmarshal data) members) (string_field "transfer_id")
     orelse errorf_w "unmarshal message: " in
   let? id := ParseTransferID text orelse errorf_w "parse transfer id: " in
   Ok id)%go.

Definition worker_handler (_subject data : string) : prog (res unit) :=
  let! id := Ret (message_transfer_id data) in
  Execute worker_deps id.

(** One turn of [Consumer.Subscribe] with a message in hand: [true] acks it,
    [false] nacks it. *)
Definition consume (subject data : string) : prog bool :=
  do! r := worker_handler subject data in
  Ret (is_ok r).
End worker.

(** ** [cmd/outbox-relay] *)
Section relay.
Context {U : UUIDLib} {R : RedisLib} {N : NatsLib}.
Local Open Scope prog_scope.

Definition batchSize : nat := 100.

(** One pending row; the result says whether it was counted as published. *)
Definition relay_row (row : outbox_row) : prog bool :=
  do! r := Publisher_Publish (ob_subject row) (ob_payload row) in
  match r with
  | Err _ => Ret false
  | Ok _ =>
      do! marked := call (Sql (mark_published (ob_id row))) in
      Ret (is_ok marked)
  end.
Fixpoint relay_rows (rows : list outbox_row) (published : nat) : prog nat :=
  match rows with
  | [] => Ret published
  | row :: rest =>
      do! ok := relay_row row in
      relay_rows rest (if (ok : bool) then S published else published)
  end.

(** [SELECT ... FOR UPDATE SKIP LOCKED] outside a transaction: the locks end
    with the statement. The result is what the binary logs. *)
Definition relay (batch : nat) : prog (res nat) :=
  let! pending := call (query (select_pending batch)) orelse errorf_w "query outbox: " in
  do! published := relay_rows pending 0 in
  Ret (Ok published).
End relay.

(** ** [cmd/reconciler] *)
Section reconciler.
Context {U : UUIDLib} {R : RedisLib} {N : NatsLib}.
Local Open Scope prog_scope.

(** [totals[currency] += e.SignedAmount()], an absent key counting as 0. *)
Definition add_total (totals : gmap string Z) (e : LedgerEntry) : gmap string Z :=
  let cur := m_Currency (le_Amount e) in
  <[cur := wrap64 (default 0 (totals !! cur) + SignedAmount e)]> totals.
Definition entry_totals (entries : list LedgerEntry) : gmap string Z :=
  fold_left add_total entries ∅.

(** What [reconcile] logs: the currencies in drift with their totals, or OK
    with the number of entries. *)
Inductive reconciliation :=
  | LedgerDrift (drifts : gmap string Z)
  | ReconciliationOK (entries_checked : nat).

Definition reconcile (auditor : LedgerAuditor) : prog (res reconciliation) :=
  let! entries := la_GetAllEntries auditor orelse errorf_w "load ledger entries: " in
  let totals := entry_totals entries in
  let drifts := filter (λ p, p.2 ≠ 0) totals in
  Ret (Ok (if bool_decide (drifts = ∅) then ReconciliationOK (length entries)
           else LedgerDrift drifts)).
End reconciler.

(** [envOrDefault], the same in the four binaries. *)
Definition envOrDefault (getenv : string → string) (key def : string) : string :=
  let v := getenv key in if bool_decide (v ≠ "") then v else def.
