(* ===== verification/Delivery.v ===== *)
(** * From the outbox to the worker: messages, relay polls, redelivery

    Which messages the worker understands, and what a poll of the relay does
    when no call fails. *)
From S2P Require Import Prelude Uuid Money Account Transfer Ledger Json Database CircuitBreaker.
From S2P Require Import Effects Ports Adapters AdapterSpecs Saga Command Http Worker.

(** ** Messages *)
Section messages.
Context {U : UUIDLib} {L : UUIDLaws U} {R : RedisLib} {N : NatsLib}.

Lemma time_json_wf t j : time_json t = Ok j → wf_json j.
Proof.
  unfold time_json. destruct (civil_from_days _) as [[y m] d].
  destruct (_ && _); [|done]. intros [= <-]. constructor.
Qed.

Lemma metadata_json_wf l : wf_json (metadata_json l).
Proof. constructor. apply Forall_map, Forall_true. intros [k v]. constructor. Qed.

(** Renders of objects with known members. *)
Ltac wf_tac := repeat first [assumption | apply metadata_json_wf | constructor | progress simpl].

Lemma event_json_wf evt j : event_json evt = Ok j → wf_json j.
Proof.
  unfold event_json. destruct (time_json _) as [o|e] eqn:Ho; simpl; [|done].
  intros [= <-]. apply time_json_wf in Ho.
  wf_tac.
Qed.

Lemma ParseTransferID_String t : ParseTransferID (TransferID_String t) = Ok t.
Proof. destruct t. unfold ParseTransferID, TransferID_String. by rewrite uuid_Parse_String. Qed.

Lemma ParseTransferID_empty : ∃ e, ParseTransferID "" = Err e.
Proof.
  unfold ParseTransferID. destruct (uuid_Parse_length "") as [e ->]; [|eauto].
  simpl. rewrite !not_elem_of_cons. split_and!; try done. apply not_elem_of_nil.
Qed.

(** The saga's messages name their transfer. *)
Lemma message_of_saga t typ now payload :
  saga_payload t typ now = Ok payload → message_transfer_id payload = Ok (t_ID t).
Proof.
  unfold saga_payload. destruct (time_json now) as [j|e] eqn:Hj; cbn [res_bind]; [|done].
  intros <-%Ok_inj. unfold message_transfer_id. rewrite Unmarshal_render.
  - cbn [res_bind]. field_step. by rewrite ParseTransferID_String.
  - apply time_json_wf in Hj. wf_tac.
Qed.

(** Those of the command spell the key differently. *)
Lemma message_of_command evt j :
  event_json evt = Ok j → ∃ e, message_transfer_id (render j) = Err e.
Proof.
  intros Hj. pose proof (event_json_wf _ _ Hj) as Hwf. unfold event_json in Hj.
  destruct (time_json _) as [o|e]; simpl in Hj; [|done]. injection Hj as <-.
  unfold message_transfer_id. rewrite Unmarshal_render by done. cbn [res_bind]. field_step.
  destruct ParseTransferID_empty as [e ->]. simpl. eauto.
Qed.
End messages.

(** ** One poll of the relay *)
Section relay.
Context {U : UUIDLib} {R : RedisLib} {N : NatsLib} {NL : NatsLaws N}.

Definition bound (subjects : list string) (r : outbox_row) : Prop := ob_subject r ∈ subjects.
#[export] Instance bound_dec subjects r : Decision (bound subjects r).
Proof. unfold bound. apply _. Defined.

Definition message (r : outbox_row) : string * string := (ob_subject r, ob_payload r).

(** The outbox once the rows [sent] are marked. *)
Definition mark_all (sent : list outbox_row) (d : DB) : DB :=
  fold_left (λ d r, (mark_published (ob_id r) d).2) sent d.

Context (E : Env) (no_fault : ∀ n, env_fault E n = NoFault).

Lemma exec_nats request w :
  exec E (Nats request) w = ((request (w_nats w)).1, set_nats (request (w_nats w)).2 (tick w)).
Proof. simpl. unfold lens. rewrite no_fault. simpl. by destruct (request (w_nats w)). Qed.
Lemma exec_sql {A} (f : DB → res A * DB) w :
  exec E (Sql f) w = ((f (w_db w)).1, set_db (f (w_db w)).2 (tick w)).
Proof. simpl. unfold lens. rewrite no_fault. simpl. by destruct (f (w_db w)). Qed.

Lemma run_relay_row row w :
  ∃ w', run E (relay_row row) w = (bool_decide (bound (nats_subjects (w_nats w)) row), w') ∧
    nats_subjects (w_nats w') = nats_subjects (w_nats w) ∧
    if decide (bound (nats_subjects (w_nats w)) row) then
      nats_log (w_nats w') = nats_log (w_nats w) ++ [message row] ∧
      w_db w' = mark_all [row] (w_db w)
    else w_nats w' = w_nats w ∧ w_db w' = w_db w.
Proof.
  unfold relay_row, Publisher_Publish. rewrite run_bind, run_attempt. cbn [call run].
  rewrite exec_nats. case_decide as Hb.
  - rewrite bool_decide_true by done.
    destruct (nats_publish_bound (ob_subject row) (ob_payload row) (w_nats w) Hb) as (-> & Hl & Hs).
    cbn [run bind call]. rewrite exec_sql. simpl. eexists. split; [done|]. simpl. done.
  - rewrite bool_decide_false by done.
    destruct (nats_publish_unbound (ob_subject row) (ob_payload row) (w_nats w) Hb) as [e ->].
    simpl. eexists. done.
Qed.

Lemma run_relay_rows rows n w :
  let sent := filter (bound (nats_subjects (w_nats w))) rows in
  ∃ w', run E (relay_rows rows n) w = ((n + length sent)%nat, w') ∧
    nats_subjects (w_nats w') = nats_subjects (w_nats w) ∧
    nats_log (w_nats w') = nats_log (w_nats w) ++ map message sent ∧
    w_db w' = mark_all sent (w_db w) ∧ (sent = [] → w_nats w' = w_nats w).
Proof.
  revert n w. induction rows as [|row rest IH]; intros n w; cbn [relay_rows].
  - simpl. exists w. rewrite app_nil_r, Nat.add_0_r. done.
  - rewrite run_bind. destruct (run_relay_row row w) as (w1 & -> & Hs & H).
    rewrite filter_cons. case_decide as Hb.
    + rewrite bool_decide_true by done. destruct H as [Hl Hd].
      destruct (IH (S n) w1) as (w2 & -> & Hs2 & Hl2 & Hd2 & _). rewrite Hs in *.
      exists w2. split_and!; [f_equal; simpl; lia | done | | | done].
      * rewrite Hl2, Hl. simpl. by rewrite <- app_assoc.
      * rewrite Hd2, Hd. done.
    + rewrite bool_decide_false by done. destruct H as [Hn Hd].
      destruct (IH n w1) as (w2 & -> & Hs2 & Hl2 & Hd2 & He). rewrite Hs in *.
      exists w2. rewrite Hl2, Hd2, Hn, Hd. split_and!; [done..|]. intros Hsent. by rewrite He, Hn.
Qed.

Lemma run_relay batch w :
  let sent := filter (bound (nats_subjects (w_nats w))) (select_pending batch (w_db w)) in
  ∃ w', run E (relay batch) w = (Ok (length sent), w') ∧
    nats_subjects (w_nats w') = nats_subjects (w_nats w) ∧
    nats_log (w_nats w') = nats_log (w_nats w) ++ map message sent ∧
    w_db w' = mark_all sent (w_db w) ∧ (sent = [] → w_nats w' = w_nats w).
Proof.
  unfold relay. rewrite run_attempt. cbn [call run]. unfold query. rewrite exec_sql.
  cbn [fst snd]. rewrite run_bind.
  destruct (run_relay_rows (select_pending batch (w_db w)) 0 (set_db (w_db w) (tick w)))
    as (w' & -> & H). simpl in *. by exists w'.
Qed.
End relay.

(** ** Marked rows *)
Definition published (r : outbox_row) : outbox_row :=
  mkOutboxRow (ob_id r) (ob_subject r) (ob_payload r) PUBLISHED (ob_created_at r).
Definition published_if (ids : list Z) (r : outbox_row) : outbox_row :=
  if bool_decide (ob_id r ∈ ids) then published r else r.

Lemma mark_all_outbox sent d :
  mark_all sent d = set_outbox (map (published_if (map ob_id sent)) (outbox d)) (outbox_seq d) d.
Proof.
  unfold mark_all. revert d. induction sent as [|s sent IH]; intros d; simpl.
  - destruct d; unfold set_outbox; simpl. f_equal. symmetry. apply map_id.
  - rewrite IH. unfold mark_published, set_outbox. simpl. f_equal. rewrite map_map. apply map_ext.
    intros r. unfold published_if, mark_row, published. simpl.
    destruct (decide (ob_id r = ob_id s)) as [E|E].
    + rewrite (bool_decide_true (ob_id r = ob_id s)) by done. simpl.
      rewrite (bool_decide_true (ob_id r ∈ _ :: _)) by (rewrite E; constructor).
      by case_bool_decide.
    + rewrite (bool_decide_false (ob_id r = ob_id s)) by done.
      rewrite (bool_decide_ext (ob_id r ∈ ob_id s :: map ob_id sent) (ob_id r ∈ map ob_id sent));
        [done|]. rewrite elem_of_cons. tauto.
Qed.

Definition relay_poll {U : UUIDLib} {R : RedisLib} {N : NatsLib} (E : Env) (batch : nat) (w : World)
    : World := (run E (relay batch) w).2.

Section theorems.
Context {U : UUIDLib} {L : UUIDLaws U} {R : RedisLib} {N : NatsLib} {NL : NatsLaws N}.

(** The message the CreateTransfer command leaves for the worker is never
    understood: its transfer id is under another key, so the handler fails
    before it touches anything, in every environment. *)
Lemma requested_message_rejected evt j :
  event_json evt = Ok j →
  ∃ e, ∀ E subject w, run E (worker_handler subject (render j)) w = (Err e, w).
Proof.
  intros [e He]%message_of_command. exists e. intros E subject w.
  unfold worker_handler. rewrite run_attempt, He. done.
Qed.

(** The worker executes the saga for the transfer that a message of
    [publishEvent] is about. *)
Lemma saga_message_resumes t typ now payload E subject w :
  saga_payload t typ now = Ok payload →
  run E (worker_handler subject payload) w = run E (Execute worker_deps (t_ID t)) w.
Proof.
  intros H%message_of_saga. unfold worker_handler. rewrite run_attempt, H. done.
Qed.

(** A poll of the relay without faults publishes, in the order of their
    ids, the pending rows of the batch whose subject the stream has, marks
    exactly those as published, counts them, and leaves all other rows and
    tables alone. *)
Lemma relay_delivers_in_order E batch w :
  (∀ n, env_fault E n = NoFault) →
  let sent := filter (bound (nats_subjects (w_nats w))) (select_pending batch (w_db w)) in
  ∃ w', run E (relay batch) w = (Ok (length sent), w') ∧
    nats_log (w_nats w') = nats_log (w_nats w) ++ map message sent ∧
    w_db w' = set_outbox (map (published_if (map ob_id sent)) (outbox (w_db w)))
                (outbox_seq (w_db w)) (w_db w).
Proof.
  intros Hf sent. destruct (run_relay E Hf batch w) as (w' & Hr & _ & Hl & Hd & _).
  exists w'. rewrite Hr, Hl, Hd, mark_all_outbox. done.
Qed.

(** C17: when no pending row of the first batch has a subject of the stream,
    polls of the relay without faults do nothing however many there are, and
    the rows behind that batch are never sent. *)
Theorem relay_starves E batch w k :
  (∀ n, env_fault E n = NoFault) →
  Forall (λ r, ¬ bound (nats_subjects (w_nats w)) r) (select_pending batch (w_db w)) →
  w_db (Nat.iter k (relay_poll E batch) w) = w_db w ∧
  w_nats (Nat.iter k (relay_poll E batch) w) = w_nats w.
Proof.
  intros Hf Hr. induction k as [|k [IHd IHn]]; [done|]. simpl.
  set (wk := Nat.iter k (relay_poll E batch) w) in *.
  destruct (run_relay E Hf batch wk) as (w' & Hrun & _ & _ & Hd & Hn).
  replace (relay_poll E batch wk) with w' by (unfold relay_poll; by rewrite Hrun).
  rewrite IHd, IHn in *.
  assert (filter (bound (nats_subjects (w_nats w))) (select_pending batch (w_db w)) = []) as Hnil.
  { clear -Hr. induction Hr as [|r l Hn _ IH]; [done|]. by rewrite filter_cons_False. }
  rewrite Hnil in *. rewrite Hd. split; [done | by apply Hn].
Qed.
End theorems.
