(* ===== verification/Calls.v ===== *)
(** * The calls a program makes

    A property of every call of the API's programs follows from the property
    of the few kinds of calls they are made of. *)
From S2P Require Import Prelude Uuid Money Account Transfer Ledger Json Database CircuitBreaker.
From S2P Require Import Effects Ports Adapters Saga Command Http Worker Delivery.

(** Splits a program into its calls. *)
Ltac calls_step :=
  first
    [ exact I
    | apply all_calls_attempt; [|intros ?]
    | apply all_calls_bind; [|intros ?]
    | apply all_calls_call
    | match goal with
      | |- all_calls _ (match ?x with _ => _ end) => destruct x
      end ].
Ltac calls_tac := repeat calls_step.

(** ** Calls that leave a part of the database alone *)
Section off.
Context {U : UUIDLib} {R : RedisLib} {N : NatsLib} {B : Type} (part : DB → B).

Definition off X (c : Cmd X) : Prop :=
  match c with Sql f => ∀ d, part (f d).2 = part d | _ => True end.

Lemma exec_off E X (c : Cmd X) w : off X c → part (w_db (exec E c w).2) = part (w_db w).
Proof.
  intros Hc. destruct c as [| |A f|A request|request| | |]; simpl in *; unfold lens; try done.
  - simpl. destruct (env_fault E (w_tick w)); simpl; specialize (Hc (w_db w)); try done.
    by destruct (f (w_db w)).
  - by destruct (with_fault _ _ _).
  - by destruct (with_fault _ _ _).
  - by destruct (CB.acquire _ _).
Qed.

Lemma run_off E {A} (p : prog A) w : all_calls off p → part (w_db (run E p w).2) = part (w_db w).
Proof.
  intros Hp. apply (run_all_calls off (λ w', part (w_db w') = part (w_db w)) E); [|done|done].
  intros X c w' Hc <-. by apply exec_off.
Qed.
End off.

Section calls.
Context {U : UUIDLib} {L : UUIDLaws U} {R : RedisLib} {N : NatsLib} {M : MuxLib}.

Lemma all_calls_res P {A B} f (r : res A) (k : A → prog (res B)) :
  (∀ a, r = Ok a → all_calls P (k a)) → all_calls P (attempt f (Ret r) k).
Proof. intros Hk. unfold attempt. simpl. destruct r; [by apply Hk | done]. Qed.

(** What serving a request may call: it reads, inserts one new transfer,
    appends an event and a message that no worker can read. *)
Record api_calls (P : ∀ X, Cmd X → Prop) : Prop := {
  ac_now : P _ TimeNow;
  ac_uuid : P _ UuidNew;
  ac_query {A} (q : DB → A) : P _ (query q);
  ac_get key : P _ (Redis (λ now s, (redis_get now key s, s)));
  ac_setnx key value ttl : P _ (Redis (λ now s, redis_setnx now key value ttl s));
  ac_insert now id key src dst amount t :
    Transfer_New now id key src dst amount = Ok t → m_Amount amount <= int64_max →
    P _ (Sql (insert_transfer (transfer_to_row t)));
  ac_event (r : event_row) : P _ (Sql (insert_event r));
  ac_message subject payload now :
    (∀ p, payload = Some p → ∃ e, message_transfer_id p = Err e) →
    P _ (Sql (insert_outbox subject payload now));
}.

Context (P : ∀ X, Cmd X → Prop) (HP : api_calls P).

Ltac api_tac :=
  repeat first
    [ apply (ac_now P HP) | apply (ac_uuid P HP) | apply (ac_query P HP) | apply (ac_get P HP)
    | apply (ac_setnx P HP)
    | apply (ac_event P HP) | exact I | calls_step ].

Lemma all_calls_Save now id key src dst amount t :
  Transfer_New now id key src dst amount = Ok t → m_Amount amount <= int64_max →
  all_calls P (TransferRepo_Save t).
Proof.
  intros Ht Ha. unfold TransferRepo_Save. apply all_calls_attempt; [|done].
  by eapply all_calls_call, ac_insert.
Qed.

Lemma all_calls_Handle cmd :
  in_int64 (cmd_Amount cmd) → all_calls P (Handle createTransferCmd cmd).
Proof.
  intros Ha. unfold Handle. apply all_calls_attempt; [unfold checkIdempotency; api_tac|].
  intros [result|]; [done|].
  apply all_calls_res. intros src _. apply all_calls_res. intros dst _.
  apply all_calls_attempt; [unfold validateAccounts; api_tac|]. intros _.
  apply all_calls_res. intros amount [_ ->]%New_ok.
  apply all_calls_bind; [api_tac|]. intros fresh. apply all_calls_bind; [api_tac|]. intros now.
  apply all_calls_res. intros t Ht.
  apply all_calls_attempt; [by eapply all_calls_Save; [exact Ht | apply Ha] | intros _].
  apply all_calls_bind; [api_tac|]. intros fresh'. apply all_calls_bind; [api_tac|]. intros now'.
  apply all_calls_attempt; [api_tac|]. intros _.
  apply all_calls_attempt; [|intros _; unfold cacheResult; api_tac].
  change (ow_Write (cth_outbox createTransferCmd)) with OutboxWriter_Write.
  unfold OutboxWriter_Write. apply all_calls_bind; [api_tac|]. intros now''.
  apply all_calls_attempt; [|done]. apply all_calls_call, (ac_message P HP).
  intros p Hp. destruct (event_json _) as [j|e] eqn:Hj; simplify_eq. by eapply message_of_command.
Qed.

Lemma all_calls_CreateTransfer r : all_calls P (CreateTransfer api_handler r).
Proof.
  unfold CreateTransfer. destruct (decode_request _) as [req|e] eqn:Hreq; [|done].
  apply all_calls_bind; [apply all_calls_Handle | by intros [?|?]].
  unfold decode_request in Hreq.
  repeat (apply res_bind_ok in Hreq as (? & ? & Hreq)). injection Hreq as <-.
  by eapply int64_field_in.
Qed.

Lemma all_calls_serve_endpoint e params r :
  all_calls P (serve_endpoint api_handler e params r).
Proof.
  destruct e; simpl; [apply all_calls_CreateTransfer | |].
  - unfold GetTransfer, TransferRepo_FindByID. api_tac.
  - unfold GetAccountBalance, AccountRepo_FindByID, LedgerRepo_GetBalance. api_tac.
Qed.

Lemma all_calls_serve_routes routes other r :
  all_calls P (serve_routes api_handler routes other r).
Proof.
  revert other. induction routes as [|[[m p] e] routes IH]; intros other; cbn [serve_routes]; [done|].
  destruct (mux_match _ _); [|apply IH]. case_bool_decide; [apply all_calls_serve_endpoint | apply IH].
Qed.

Lemma all_calls_api r : all_calls P (NewRouter api_handler r).
Proof.
  apply all_calls_NewRouter; [apply HP..|]. intros ctx.
  unfold routes, idempotencyMiddleware. api_tac; apply all_calls_serve_routes.
Qed.
End calls.
