(* ===== verification/Drain.v ===== *)
(** * The relay, poll after poll

    When the stream takes every pending subject, polling empties the outbox. *)
From S2P Require Import Prelude Uuid Money Account Transfer Ledger Json Database CircuitBreaker.
From S2P Require Import Effects Ports Adapters AdapterSpecs Saga Command Http Worker Delivery.

Definition pending (d : DB) : list outbox_row := filter (λ r, ob_status r = PENDING) (outbox d).

(** ** Marking takes a prefix off *)
Lemma pending_published_if ids (l : list outbox_row) :
  filter (λ r, ob_status r = PENDING) (map (published_if ids) l) =
  filter (λ r, ¬ ob_id r ∈ ids) (filter (λ r, ob_status r = PENDING) l).
Proof.
  induction l as [|r l IH]; [done|]. cbn [map]. rewrite !filter_cons, IH.
  unfold published_if. case_bool_decide as Hid.
  - rewrite decide_False by (by unfold published).
    destruct (decide (ob_status r = PENDING)); [|done]. by rewrite filter_cons_False by tauto.
  - destruct (decide (ob_status r = PENDING)); [|done]. by rewrite filter_cons_True by done.
Qed.

Lemma filter_id {A} (P : A → Prop) `{∀ x, Decision (P x)} l : Forall P l → filter P l = l.
Proof. induction 1 as [|x l Hx _ IH]; [done|]. by rewrite filter_cons_True, IH. Qed.
Lemma filter_none {A} (P : A → Prop) `{∀ x, Decision (P x)} l : Forall (λ x, ¬ P x) l → filter P l = [].
Proof. induction 1 as [|x l Hx _ IH]; [done|]. by rewrite filter_cons_False. Qed.

Lemma filter_ext_in {A} (P Q : A → Prop) `{∀ x, Decision (P x), ∀ x, Decision (Q x)} (l : list A) :
  (∀ x, x ∈ l → P x ↔ Q x) → filter P l = filter Q l.
Proof.
  induction l as [|x l IH]; intros Hl; [done|]. rewrite !filter_cons, IH by (intros; apply Hl; by right).
  specialize (Hl x (list_elem_of_here x l)). repeat case_decide; tauto.
Qed.

Lemma length_filter_split {A} (P : A → Prop) `{∀ x, Decision (P x)} (l : list A) :
  (length (filter (λ x, ¬ P x) l) + length (filter P l) = length l)%nat.
Proof.
  induction l as [|x l IH]; [done|]. rewrite !filter_cons. repeat case_decide; simpl; (lia || tauto).
Qed.

Lemma unmarked_rest b (p : list outbox_row) :
  NoDup (map ob_id p) → filter (λ r, ¬ ob_id r ∈ map ob_id (take b p)) p = drop b p.
Proof.
  intros Hnd.
  trans (filter (λ r, ¬ ob_id r ∈ map ob_id (take b p)) (take b p ++ drop b p));
    [by rewrite take_drop|]. rewrite filter_app, filter_none, filter_id; [done|..].
  - rewrite <- (take_drop b p), map_app in Hnd. apply NoDup_app in Hnd as (_ & Hd & _).
    apply Forall_forall. intros r Hr Hin. apply (Hd _ Hin). by apply list_elem_of_fmap_2.
  - apply Forall_forall. intros r Hr Hn. apply Hn. by apply list_elem_of_fmap_2.
Qed.

Lemma pending_ids d : NoDup (map ob_id (outbox d)) → NoDup (map ob_id (pending d)).
Proof.
  unfold pending. induction (outbox d) as [|r l IH]; [done|]. cbn [map]. intros [Hn Hnd]%NoDup_cons.
  rewrite filter_cons. case_decide; [|by apply IH]. cbn [map]. constructor; [|by apply IH].
  intros (r' & E & [_ Hr']%list_elem_of_filter)%list_elem_of_fmap_1. apply Hn. rewrite E.
  by apply list_elem_of_fmap_2.
Qed.

Section drain.
Context {U : UUIDLib} {L : UUIDLaws U} {R : RedisLib} {N : NatsLib} {NL : NatsLaws N}.
Context (E : Env) (no_fault : ∀ n, env_fault E n = NoFault).

(** What a poll leaves of an outbox that can be sent. *)
Record drained (w w' : World) (sent left : list outbox_row) : Prop := {
  dr_log : nats_log (w_nats w') = nats_log (w_nats w) ++ map message sent;
  dr_subjects : nats_subjects (w_nats w') = nats_subjects (w_nats w);
  dr_pending : pending (w_db w') = left;
  dr_ids : map ob_id (outbox (w_db w')) = map ob_id (outbox (w_db w));
  dr_messages : map message (outbox (w_db w')) = map message (outbox (w_db w));
}.

Lemma poll_drains batch w :
  NoDup (map ob_id (outbox (w_db w))) →
  Forall (bound (nats_subjects (w_nats w))) (pending (w_db w)) →
  drained w (relay_poll E batch w) (take batch (pending (w_db w))) (drop batch (pending (w_db w))).
Proof.
  intros Hnd Hb. destruct (run_relay E no_fault batch w) as (w' & Hr & Hs & Hl & Hd & _).
  unfold relay_poll. rewrite Hr. cbn [snd].
  assert (filter (bound (nats_subjects (w_nats w))) (select_pending batch (w_db w)) =
    take batch (pending (w_db w))) as Hsent by (by apply filter_id, Forall_take).
  rewrite Hsent in *. rewrite mark_all_outbox in Hd. split; [done..| | |]; rewrite Hd; simpl.
  - unfold pending at 1. simpl. rewrite pending_published_if.
    fold (pending (w_db w)). by apply unmarked_rest, pending_ids.
  - rewrite map_map. apply map_ext. intros r. unfold published_if. by case_bool_decide.
  - rewrite map_map. apply map_ext. intros r. unfold published_if. by case_bool_decide.
Qed.

Lemma polls_drain batch k w :
  NoDup (map ob_id (outbox (w_db w))) →
  Forall (bound (nats_subjects (w_nats w))) (pending (w_db w)) →
  drained w (Nat.iter k (relay_poll E batch) w) (take (k * batch) (pending (w_db w)))
    (drop (k * batch) (pending (w_db w))).
Proof.
  intros Hnd Hb. induction k as [|k IH]; [split; simpl; rewrite ?app_nil_r; done|].
  cbn [Nat.iter nat_rect]. set (wk := Nat.iter k (relay_poll E batch) w) in *.
  change (nat_rect _ _ _ _) with wk. destruct IH as [Hl Hs Hp Hi Hm].
  destruct (poll_drains batch wk) as [Hl' Hs' Hp' Hi' Hm'].
  - by rewrite Hi.
  - rewrite Hs, Hp. by apply Forall_drop.
  - replace (S k * batch)%nat with (k * batch + batch)%nat by lia. split.
    + by rewrite Hl', Hl, Hp, <- app_assoc, <- map_app, <- take_take_drop.
    + congruence.
    + by rewrite Hp', Hp, drop_drop.
    + congruence.
    + congruence.
Qed.

(** C29: with no faults, an outbox whose pending subjects the stream all has is
    emptied by as many polls as hold its pending rows: each pending message is
    captured exactly once, in the order of ids, nothing stays pending, and no
    row is lost or changes its message. *)
Theorem relay_drains_outbox batch k w :
  NoDup (map ob_id (outbox (w_db w))) →
  Forall (bound (nats_subjects (w_nats w))) (pending (w_db w)) →
  (length (pending (w_db w)) <= k * batch)%nat →
  let w' := Nat.iter k (relay_poll E batch) w in
  nats_log (w_nats w') = nats_log (w_nats w) ++ map message (pending (w_db w)) ∧
  pending (w_db w') = [] ∧
  map ob_id (outbox (w_db w')) = map ob_id (outbox (w_db w)) ∧
  map message (outbox (w_db w')) = map message (outbox (w_db w)).
Proof.
  intros Hnd Hb Hk w'. destruct (polls_drain batch k w Hnd Hb) as [Hl Hs Hp Hi Hm].
  rewrite take_ge in Hl by done. rewrite drop_ge in Hp by done. done.
Qed.
End drain.
