(* ===== verification/EventLog.v ===== *)
(** * The event log ([internal/infrastructure/postgres/event_store.go])

    What is appended for a transfer is what is found for it, in the order of
    time. *)
From stdpp Require Import sorting.
From S2P Require Import Prelude Uuid Money Account Transfer Ledger Json Database CircuitBreaker.
From S2P Require Import Effects Ports Adapters AdapterSpecs Saga Command Http Worker Delivery.

Section event_log.
Context {U : UUIDLib} {L : UUIDLaws U} {R : RedisLib} {N : NatsLib}.
Local Open Scope prog_scope.

(** The event as the table gives it back. *)
Definition logged (evt : TransferEvent) : TransferEvent :=
  mkEvent (e_EventID evt) (e_TransferID evt) (e_Type evt) (e_State evt) (e_Amount evt)
    (timestamptz (e_OccurredAt evt)) (e_Metadata evt).

(** Append and look up again. *)
Definition append_and_find (evt : TransferEvent) : prog (res (list TransferEvent)) :=
  let! _ := EventStore_Append evt in
  EventStore_FindByTransferID (e_TransferID evt).

(** ** Scanning *)
Lemma scan_events_cons r rows l :
  scan_events (r :: rows) = Ok l ↔
  ∃ e l', l = e :: l' ∧ scan_event r = Ok e ∧ scan_events rows = Ok l'.
Proof.
  cbn [scan_events]. split.
  - destruct (scan_event r) as [e|]; [|done]. cbn [res_bind].
    destruct (scan_events rows) as [l'|]; [|done]. intros [= <-]. eauto.
  - by intros (e & l' & -> & -> & ->).
Qed.

Lemma scan_events_perm rows rows' l :
  rows ≡ₚ rows' → scan_events rows = Ok l → ∃ l', scan_events rows' = Ok l' ∧ l' ≡ₚ l.
Proof.
  intros HP. revert l. induction HP as [|r rows rows' _ IH|r1 r2 rows|r1 r2 r3 _ IH1 _ IH2];
    intros l Hl.
  - eauto.
  - apply scan_events_cons in Hl as (e & l1 & -> & He & Hl1).
    destruct (IH l1 Hl1) as (l1' & H' & HP'). exists (e :: l1').
    split; [apply scan_events_cons; eauto | by rewrite HP'].
  - apply scan_events_cons in Hl as (e2 & l1 & -> & He2 & Hl1).
    apply scan_events_cons in Hl1 as (e1 & l2 & -> & He1 & Hl2).
    exists (e1 :: e2 :: l2). split; [|constructor].
    rewrite !scan_events_cons. eexists _, _. split; [done|]. split; [done|].
    apply scan_events_cons. eauto.
  - destruct (IH1 l Hl) as (l1 & H1 & HP1). destruct (IH2 l1 H1) as (l2 & H2 & HP2).
    exists l2. split; [done|]. by rewrite HP2, HP1.
Qed.

Lemma scan_event_time r e : scan_event r = Ok e → e_OccurredAt e = ev_occurred_at r.
Proof. unfold scan_event. destruct (ParseTransferID _); [|done]. by intros [= <-]. Qed.
Lemma scan_events_times rows l :
  scan_events rows = Ok l → map e_OccurredAt l = map ev_occurred_at rows.
Proof.
  revert l. induction rows as [|r rows IH]; intros l Hl.
  - by injection Hl as <-.
  - apply scan_events_cons in Hl as (e & l' & -> & He & Hl'). simpl.
    by rewrite (IH l' Hl'), (scan_event_time r e He).
Qed.

Lemma select_events_sorted id d :
  Sorted Z.le (map ev_occurred_at (select_events id d)).
Proof.
  assert (∀ l : list event_row, Sorted occurred_before l → Sorted Z.le (map ev_occurred_at l)) as H.
  { induction 1 as [|r l _ IH Hd]; simpl; constructor; [done|]. by destruct Hd; constructor. }
  apply H. unfold select_events. apply Sorted_merge_sort.
  intros r1 r2. unfold occurred_before. lia.
Qed.

(** ** One row more *)
Definition log_row (evt : TransferEvent) : event_row := event_to_row (logged evt).

Lemma insert_log_row evt d :
  char3 (m_Currency (e_Amount evt)) = Some (m_Currency (e_Amount evt)) →
  e_EventID evt ∉ map ev_id (transfer_events d) →
  is_Some (transfers d !! TransferID_String (e_TransferID evt)) →
  insert_event (event_to_row evt) d =
    (Ok tt, set_transfer_events (transfer_events d ++ [log_row evt]) d).
Proof.
  intros Hc Hid Ht. unfold insert_event. cbn [event_to_row ev_currency ev_id ev_transfer_id].
  by rewrite Hc, bool_decide_false, bool_decide_true by done.
Qed.

Lemma select_events_app id row d :
  select_events id (set_transfer_events (transfer_events d ++ [row]) d) ≡ₚ
  filter (λ r, ev_transfer_id r = id) [row] ++ select_events id d.
Proof.
  unfold select_events. rewrite !merge_sort_Permutation. cbn [transfer_events set_transfer_events].
  rewrite filter_app. apply Permutation_app_comm.
Qed.

Lemma select_events_other id row d :
  ev_transfer_id row ≠ id →
  select_events id (set_transfer_events (transfer_events d ++ [row]) d) = select_events id d.
Proof.
  intros Hne. unfold select_events. cbn [transfer_events set_transfer_events].
  by rewrite filter_app, filter_cons_False, filter_nil, app_nil_r.
Qed.

Lemma scan_log_row evt :
  e_Type evt ∈ EventType_consts → e_State evt ∈ State_consts → e_Metadata evt = [] →
  scan_event (log_row evt) = Ok (logged evt).
Proof.
  destruct evt as [eid id typ st [amt cur] at_ meta]. simpl. intros Ht Hs ->.
  unfold scan_event, log_row, logged.
  cbn [event_to_row ev_transfer_id ev_id ev_event_type ev_state ev_amount ev_currency
       ev_occurred_at ev_metadata e_EventID e_TransferID e_Type e_State e_Amount e_OccurredAt
       e_Metadata m_Amount m_Currency].
  rewrite ParseTransferID_String. cbn [res_bind].
  rewrite State_of_text, EventType_of_const by done. done.
Qed.

Lemma run_find E id w :
  (∀ n, env_fault E n = NoFault) →
  run E (EventStore_FindByTransferID id) w =
    (scan_events (select_events (TransferID_String id) (w_db w)), set_db (w_db w) (tick w)).
Proof.
  intros Hf. unfold EventStore_FindByTransferID. rewrite run_attempt. cbn [call run].
  unfold query. by rewrite (exec_sql E Hf).
Qed.

(** C25: without faults, the event that [NewEvent] makes of a stored transfer
    is found again for it once appended: the transfer's log is the log it had
    and this event, to the microsecond, in the order of time; and the logs of
    the other transfers are what they were. *)
Theorem event_log_read_back E fresh now t typ w l :
  (∀ n, env_fault E n = NoFault) →
  typ ∈ EventType_consts → transfer_wf t → holds (w_db w) t →
  uuid_String fresh ∉ map ev_id (transfer_events (w_db w)) →
  (run E (EventStore_FindByTransferID (t_ID t)) w).1 = Ok l →
  let evt := NewEvent fresh now t typ in
  ∃ l' w', run E (append_and_find evt) w = (Ok l', w') ∧
    l' ≡ₚ logged evt :: l ∧
    Sorted Z.le (map e_OccurredAt l') ∧
    ∀ id, id ≠ t_ID t →
      (run E (EventStore_FindByTransferID id) w').1 = (run E (EventStore_FindByTransferID id) w).1.
Proof.
  intros Hf Htyp [(_ & _ & _ & Hcur) Hlc] Hh Hid Hl evt. rewrite run_find in Hl by done.
  unfold append_and_find, EventStore_Append. rewrite run_attempt. cbn [call run].
  rewrite (exec_sql E Hf), insert_log_row by (done || by eexists). cbn [fst snd res_wrap].
  rewrite run_find by done. cbn [w_db set_db tick].
  pose proof (scan_log_row evt Htyp (lifecycle_state _ Hlc) eq_refl) as Hrow.
  pose proof (select_events_app (TransferID_String (t_ID t)) (log_row evt) (w_db w)) as HP.
  rewrite filter_cons_True in HP by done. simpl in HP. symmetry in HP.
  destruct (scan_events_perm _ _ (logged evt :: l) HP) as (l' & Hl' & HPl).
  { apply scan_events_cons. eauto. }
  exists l'. eexists. split; [by rewrite <-Hl'|]. split_and!; [done | |].
  - rewrite (scan_events_times _ _ Hl'). apply select_events_sorted.
  - intros id Hne. rewrite !run_find by done. cbn [fst w_db set_db tick].
    rewrite select_events_other; [done|]. simpl. by intros E'%TransferID_String_inj.
Qed.
End event_log.
