(* ===== verification/Concurrency.v ===== *)
(** * Any number of processes, any interleaving, crashes and faults

    What the worker processes keep true whatever the scheduler, the lost
    connections and the duplicate deliveries do: the ledger only grows by
    balanced postings, and every transfer row moves along the state machine,
    one version per transition. *)
From S2P Require Import Prelude Uuid Money Account Transfer Ledger Json Database CircuitBreaker.
From S2P Require Import Effects Ports Adapters AdapterSpecs Saga.

(** ** Postings in the ledger table *)
Definition row_pair (d c : entry_row) : Prop :=
  ent_entry_type d = "DEBIT" ∧ ent_entry_type c = "CREDIT" ∧
  ent_transaction_id d = ent_transaction_id c ∧
  ent_amount d = ent_amount c ∧ 0 < ent_amount d ∧ ent_currency d = ent_currency c ∧
  ent_account_id d ≠ ent_account_id c.

Inductive postings : list entry_row → Prop :=
  | postings_nil : postings []
  | postings_snoc l d c : postings l → row_pair d c → postings (l ++ [d; c]).

(** The signed total of one currency, over all accounts. *)
Definition currency_sum (cur : string) (l : list entry_row) : Z :=
  sumZ (λ r, if bool_decide (ent_currency r = cur) then row_signed r else 0) l.

Lemma postings_app l1 l2 : postings l1 → postings l2 → postings (l1 ++ l2).
Proof.
  intros H1. induction 1 as [|l d c _ IH Hp].
  - by rewrite app_nil_r.
  - rewrite app_assoc. by constructor.
Qed.

Lemma postings_balanced cur l : postings l → currency_sum cur l = 0.
Proof.
  unfold currency_sum. induction 1 as [|l d c _ IH (Hd & Hc & _ & Ha & _ & Hcur & _)]; [done|].
  rewrite sumZ_app, IH. unfold row_signed. simpl.
  rewrite Hd, Hc, Hcur, Ha. simpl. case_bool_decide; lia.
Qed.

Section concurrency.
Context {U : UUIDLib} {L : UUIDLaws U} {R : RedisLib} {N : NatsLib}.
Implicit Types (t : Transfer) (d : DB) (w : World).

(** ** Moving along the state machine *)

(** A transfer to the clearing account of its currency, which cannot be
    credited. *)
Definition to_float t : Prop := FloatAccount (m_Currency (t_Amount t)) = t_DestAccountID t.
Definition credited (s : State) : bool :=
  match s with StateCredited | StateCompleted => true | _ => false end.
Definition creditable t (s : State) : Prop :=
  to_float t → credited s = true → credited (t_State t) = true.

Definition evolves t t' : Prop :=
  same_request t t' ∧ creditable t (t_State t') ∧
  ∃ n, nsteps edge n (t_State t) (t_State t') ∧ t_Version t' = t_Version t + Z.of_nat n ∧
    (n = 0%nat → t' = t).

#[export] Instance evolves_preorder : PreOrder evolves.
Proof.
  split.
  - intros t. split; [done|]. split; [by intros ?|]. exists 0%nat. split_and!; [constructor|lia|done].
  - intros t1 t2 t3 (Hr1 & Hc1 & n & Hn & Hv1 & H1) (Hr2 & Hc2 & m & Hm & Hv2 & H2).
    split; [by etrans|]. split.
    { intros Hf H3. apply Hc1; [done|]. apply Hc2; [|done].
      destruct Hr1 as (_ & _ & _ & Ed & Em & _). unfold to_float. by rewrite Ed, Em. }
    exists (n + m)%nat. split_and!; [by eapply nsteps_trans | lia |].
    intros ?. rewrite H2, H1 by lia. done.
Qed.

Lemma evolves_same_version t t' : evolves t t' → t_Version t' = t_Version t → t' = t.
Proof. intros (_ & _ & n & _ & Hv & H) E. apply H. lia. Qed.

(** A terminal transfer does not move. *)
Lemma evolves_terminal t t' : evolves t t' → terminal (t_State t) = true → t' = t.
Proof.
  intros (_ & _ & n & Hn & _ & H) Ht. apply H. rewrite terminal_edge in Ht.
  destruct Hn as [|n s1 s2 s3 He]; [done|]. by destruct (Ht s2).
Qed.

(** Once the row records that the bank has accepted, compensation is out of the
    question: the table has edges to it, but no transfer takes them. *)
Definition acknowledged (s : State) : bool :=
  match s with StateBankCalled | StateCredited | StateCompleted => true | _ => false end.

(** The edges that leave the forward path take transitions of their own. *)
Definition detour (s : State) : nat :=
  match s with StateCompensating => 1 | StateFailed => 2 | _ => 0 end.
Lemma forward_edges n s s' :
  nsteps edge n s s' → acknowledged s = true ∨ (0 < detour s)%nat →
  acknowledged s' = true ∨ (0 < detour s')%nat ∧ (detour s' <= detour s + n)%nat.
Proof.
  induction 1 as [s|n s1 s2 s3 He _ IH]; [destruct s; naive_solver lia|].
  intros Hs. assert (acknowledged s2 = true ∨ (0 < detour s2 <= detour s1 + 1)%nat) as H2.
  { unfold edge in He. destruct s1; simpl in *; rewrite ?elem_of_cons, ?elem_of_nil in He;
      destruct_or?; subst; simpl; (done || lia || auto with lia). }
  destruct IH as [?|[? ?]]; [destruct H2; [by left | right; lia] | by left |].
  right. split; [done|].
  destruct H2 as [Ha|?]; [|lia]. destruct s2; simpl in *; done || lia.
Qed.

Lemma evolves_acknowledged t t' :
  lifecycle t → lifecycle t' → evolves t t' → acknowledged (t_State t) = true →
  acknowledged (t_State t') = true.
Proof.
  unfold lifecycle. intros Hl Hl' (_ & _ & n & Hn & Hv & _) Ha.
  destruct (forward_edges _ _ _ Hn) as [?|[Hd Hle]]; [by left | done |].
  destruct (t_State t); try done; destruct (t_State t'); simpl in *; naive_solver lia.
Qed.
(** ** The event log *)

(** The event that announces a state. *)
Definition announces (s : State) : option EventType :=
  match s with
  | StatePending => Some EventTransferRequested
  | StateDebited => Some EventTransferDebited
  | StateBankCalled => Some EventTransferBankCalled
  | StateCredited => Some EventTransferCredited
  | StateCompleted => Some EventTransferCompleted
  | StateFailed => Some EventTransferFailed
  | _ => None
  end.

(** The event names the transfer [t], its amount, its state, and is of the type
    that announces this state. *)
Definition describes (e : event_row) t : Prop :=
  ev_transfer_id e = TransferID_String (t_ID t) ∧
  ev_amount e = m_Amount (t_Amount t) ∧ ev_currency e = m_Currency (t_Amount t) ∧
  ev_state e = State_text (t_State t) ∧
  ∃ typ, announces (t_State t) = Some typ ∧ ev_event_type e = EventType_text typ.
(** It describes a transfer of the database as it is or was. *)
Definition told d (e : event_row) : Prop :=
  ∃ t0 t, describes e t0 ∧ transfer_wf t0 ∧ evolves t0 t ∧ holds d t ∧ transfer_wf t.

(** ** What every call keeps *)

(** No idempotency key has two transfers. *)
Definition keys_unique d : Prop :=
  ∀ k1 k2 r1 r2, transfers d !! k1 = Some r1 → transfers d !! k2 = Some r2 →
    tr_idempotency_key r1 = tr_idempotency_key r2 → k1 = k2.

Record le_db d d' : Prop := {
  le_accounts k : is_Some (accounts d !! k) → is_Some (accounts d' !! k);
  le_ledger : ∃ posted, ledger_entries d' = ledger_entries d ++ posted ∧ postings posted;
  le_transfers t :
    holds d t → transfer_wf t → ∃ t', holds d' t' ∧ transfer_wf t' ∧ evolves t t';
  le_keys : keys_unique d → keys_unique d';
  le_events : ∃ new, transfer_events d' = transfer_events d ++ new ∧ Forall (told d') new;
}.

(** The rows evolve, so what was true of them stays true. *)
Lemma told_later d d' e :
  (∀ t, holds d t → transfer_wf t → ∃ t', holds d' t' ∧ transfer_wf t' ∧ evolves t t') →
  told d e → told d' e.
Proof.
  intros Hle (t0 & t & He & Hw0 & Hev & Ht & Hw). destruct (Hle t Ht Hw) as (t' & Ht' & Hw' & Hev').
  exists t0, t'. split_and!; [done..| | done | done]. by etrans.
Qed.
Lemma no_events d d' :
  transfer_events d' = transfer_events d →
  ∃ new, transfer_events d' = transfer_events d ++ new ∧ Forall (told d') new.
Proof. intros ->. exists []. by rewrite app_nil_r. Qed.

#[export] Instance le_db_preorder : PreOrder le_db.
Proof.
  split.
  - intros d. split; [done | | intros t Ht; by exists t | done | by apply no_events].
    exists []. rewrite app_nil_r. split; [done | constructor].
  - intros d1 d2 d3 [Ha1 (p1 & E1 & Hp1) Ht1 Hk1 (n1 & F1 & Hn1)]
      [Ha2 (p2 & E2 & Hp2) Ht2 Hk2 (n2 & F2 & Hn2)]. split.
    + eauto.
    + exists (p1 ++ p2). rewrite E2, E1, app_assoc. split; [done | by apply postings_app].
    + intros t H Hw. destruct (Ht1 _ H Hw) as (t' & H' & Hw' & He).
      destruct (Ht2 _ H' Hw') as (t'' & H'' & Hw'' & He').
      exists t''. split_and!; [done..|]. by etrans.
    + auto.
    + exists (n1 ++ n2). rewrite F2, F1, app_assoc. split; [done|]. apply Forall_app. split; [|done].
      eapply Forall_impl; [exact Hn1|]. intros e. by apply told_later.
Qed.

Definition inv w : Prop := transfers_wf (w_db w).
Definition le w w' : Prop := le_db (w_db w) (w_db w').
#[export] Instance le_preorder : PreOrder le.
Proof. unfold le. split; [intros w; reflexivity | intros w1 w2 w3 H1 H2; by etrans]. Qed.

(** The database functions that leave accounts, transfers and ledger alone. *)
Definition same_core d d' : Prop :=
  accounts d' = accounts d ∧ transfers d' = transfers d ∧ ledger_entries d' = ledger_entries d.

(** And the event log as well. *)
Definition same_tables d d' : Prop := same_core d d' ∧ transfer_events d' = transfer_events d.

Lemma same_core_keeps d d' :
  same_core d d' → (∃ new, transfer_events d' = transfer_events d ++ new ∧ Forall (told d') new) →
  transfers_wf d → transfers_wf d' ∧ le_db d d'.
Proof.
  intros (Ha & Ht & Hl) He Hwf. split.
  - unfold transfers_wf. by rewrite Ha, Ht.
  - split.
    + by rewrite Ha.
    + exists []. rewrite Hl, app_nil_r. split; [done | constructor].
    + intros t H Hw. exists t. split_and!; [|done..]. unfold holds. by rewrite Ht.
    + unfold keys_unique. by rewrite Ht.
    + exact He.
Qed.

(** ** One call at a time *)
Context (E : Env).
Abbreviation safe := (Effects.safe E inv le).

Definition db_free {X} (c : Cmd X) : Prop := match c with Sql _ => False | _ => True end.

Lemma exec_db_free {X} (c : Cmd X) w x w' :
  db_free c → exec E c w = (x, w') → w_db w' = w_db w.
Proof.
  destruct c; simpl; intros Hc H; try done; unfold lens in H; simpl in H;
    try (case_match); by simplify_eq.
Qed.

Lemma safe_db_free {X} (c : Cmd X) (Q : X → World → Prop) w :
  db_free c → (∀ x w', le w w' → inv w' → Q x w') → safe (call c) Q w.
Proof.
  intros Hc HQ w1 Hle Hi. destruct (exec E c w1) as [x w2] eqn:He.
  apply exec_db_free in He; [|done]. unfold inv, le in *. rewrite He.
  split_and!; [done | reflexivity|]. simpl. intros w3 Hle3 Hi3. apply HQ; [|done].
  unfold le. etrans; [exact Hle|]. by rewrite <- He.
Qed.

Lemma safe_sql {A} (f : DB → res A * DB) (Q : res A → World → Prop) w :
  (∀ d, le_db (w_db w) d → transfers_wf d →
     transfers_wf (f d).2 ∧ le_db d (f d).2 ∧
     ∀ w', le_db (f d).2 (w_db w') → transfers_wf (w_db w') → Q (f d).1 w') →
  (∀ f w', le w w' → inv w' → Q (Err (fault_error f)) w') →
  safe (call (Sql f)) Q w.
Proof.
  intros Hf HQ w1 Hle Hi. simpl. unfold lens. simpl.
  destruct (Hf (w_db w1) Hle Hi) as (Hi' & Hle' & HQ').
  destruct (env_fault E (w_tick w1)) as [|m|m|late]; simpl.
  - destruct (f (w_db w1)) as [r d]. simpl in *. split_and!; [done..|].
    intros w2 Hle2 Hi2. by apply HQ'.
  - split_and!; [done | unfold le; reflexivity|]. intros w2 Hle2 Hi2. apply (HQ (FailBefore m)); [|done].
    unfold le in *. simpl in *. by etrans.
  - split_and!; [done..|]. intros w2 Hle2 Hi2. apply (HQ (FailAfter m)); [|done].
    unfold le in *. simpl in *. etrans; [done|]. by etrans.
  - split_and!; [done | unfold le; reflexivity|]. intros w2 Hle2 Hi2.
    apply (HQ (ContextDone late)); [|done]. unfold le in *. simpl in *. by etrans.
Qed.

(** A statement that touches only the outbox. *)
Lemma safe_sql_core {A} (f : DB → res A * DB) (Q : res A → World → Prop) w :
  (∀ d, same_tables d (f d).2) → (∀ r w', le w w' → inv w' → Q r w') →
  safe (call (Sql f)) Q w.
Proof.
  intros Hf HQ. apply safe_sql; [|by intros; apply HQ].
  intros d Hle Hwf. destruct (Hf d) as [Hs He].
  destruct (same_core_keeps _ _ Hs (no_events _ _ He) Hwf) as [Hwf' Hle'].
  split_and!; [done..|]. intros w' Hle2 Hi. apply HQ; [|done].
  unfold le. etrans; [done|]. by etrans.
Qed.

(** A statement that only reads. *)
Lemma safe_read {A} (f : DB → res A) (Q : res A → World → Prop) w :
  (∀ d w', le w w' → inv w' → Q (f d) w') →
  (∀ fl w', le w w' → inv w' → Q (Err (fault_error fl)) w') →
  safe (call (Sql (λ d, (f d, d)))) Q w.
Proof.
  intros HQ HE. apply safe_sql; [|done].
  intros d Hle Hwf. simpl. split_and!; [done | reflexivity|]. intros w' Hle' Hi.
  apply HQ; [|done]. unfold le. by etrans.
Qed.

(** One whose result matters: it is computed on a later database. *)
Lemma safe_query {A} (q : DB → A) (Q : res A → World → Prop) w :
  (∀ d w', le_db (w_db w) d → transfers_wf d → le_db d (w_db w') → inv w' → Q (Ok (q d)) w') →
  (∀ fl w', le w w' → inv w' → Q (Err (fault_error fl)) w') →
  safe (call (query q)) Q w.
Proof.
  intros HQ HE. apply safe_sql; [|done].
  intros d Hle Hwf. simpl. split_and!; [done | reflexivity|]. intros w' Hle' Hi. by eapply HQ.
Qed.

(** ** Updating a transfer under the version check *)

(** The program's copy [t] was, up to the precision of a timestamp, the row at
    some time. *)
Definition snapshot d t : Prop :=
  timestamptz (t_CreatedAt t) = t_CreatedAt t ∧
  ∃ t1, holds d t1 ∧ transfer_wf t1 ∧ evolves (stored t) t1.

Lemma snapshot_later d d' t : le_db d d' → snapshot d t → snapshot d' t.
Proof.
  intros Hle (Hc & t1 & H1 & Hw1 & He1). split; [done|].
  destruct (le_transfers _ _ Hle _ H1 Hw1) as (t2 & H2 & Hw2 & He2).
  exists t2. split_and!; [done..|]. by etrans.
Qed.

Lemma keys_unique_update d k r r' :
  transfers d !! k = Some r → tr_idempotency_key r' = tr_idempotency_key r →
  keys_unique d → keys_unique (set_transfers (<[k := r']> (transfers d)) d).
Proof.
  intros Hk Er Hu k1 k2 r1 r2 H1 H2 E12. simpl in *.
  assert (∀ k0 r0, <[k := r']> (transfers d) !! k0 = Some r0 →
    ∃ r0', transfers d !! k0 = Some r0' ∧ tr_idempotency_key r0' = tr_idempotency_key r0) as Hold.
  { intros k0 r0. destruct (decide (k0 = k)) as [->|].
    - rewrite lookup_insert_eq. intros [= <-]. eauto.
    - rewrite lookup_insert_ne by done. eauto. }
  apply Hold in H1 as (r1' & H1 & E1). apply Hold in H2 as (r2' & H2 & E2).
  apply (Hu k1 k2 r1' r2'); [done..|]. congruence.
Qed.

(** The row of [t] replaced by its next version. *)
Definition replaced d t t' : DB :=
  set_transfers (<[TransferID_String (t_ID t) := transfer_to_row (stored t')]> (transfers d)) d.

Lemma replaced_holds d t t' :
  transfer_wf t → next_version t t' → holds (replaced d t t') (stored t') ∧ transfer_wf (stored t').
Proof.
  intros [Hrq _] (Hsr & _ & _ & Hlc'). split.
  - unfold holds. simpl. destruct Hsr as (-> & _). by apply lookup_insert_eq.
  - split; [|done]. change (request_wf t'). by eapply same_request_wf.
Qed.

Lemma replaced_wf d t t' :
  transfers_wf d → holds d (stored t) → transfer_wf t → next_version t t' →
  transfers_wf (replaced d t t').
Proof.
  intros Hwf Hh Hw Hnv k r. destruct (replaced_holds d t t' Hw Hnv) as [_ Hw'].
  pose proof Hw as [_ Hlc]. destruct Hnv as ((Eid & _ & Es & Ed & _) & _). simpl.
  destruct (decide (k = TransferID_String (t_ID t))) as [->|Hne].
  - rewrite lookup_insert_eq. intros [= <-]. exists (stored t').
    destruct (holds_wf d (stored t)) as (_ & _ & Ha1 & Ha2); [by apply lifecycle_state|done..|].
    split_and!; [done | simpl; by rewrite Eid | done | by apply stored_idemp | |].
    + simpl in *. by rewrite Es.
    + simpl in *. by rewrite Ed.
  - rewrite lookup_insert_ne by done. intros H. by apply Hwf.
Qed.

Lemma next_version_evolves t t' :
  next_version t t' → timestamptz (t_CreatedAt t) = t_CreatedAt t → creditable t (t_State t') →
  evolves (stored t) (stored t').
Proof.
  intros (Hsr & Hed & Hv & _) Hc Hcr. split; [|split; [exact Hcr|]].
  - destruct Hsr as (?&?&?&?&?&?). unfold same_request. simpl. split_and!; congruence.
  - exists 1%nat. split_and!; [by apply nsteps_once | simpl; lia | done].
Qed.

Lemma replaced_le d t t' :
  holds d (stored t) → transfer_wf t → next_version t t' →
  timestamptz (t_CreatedAt t) = t_CreatedAt t → creditable t (t_State t') →
  le_db d (replaced d t t').
Proof.
  intros Hh Hw Hnv Hc Hcr. destruct (replaced_holds d t t' Hw Hnv) as [Hh' Hw'].
  pose proof (next_version_evolves _ _ Hnv Hc Hcr) as Hev. destruct Hw as [_ Hlc].
  split; [done | | | | by apply no_events].
  - exists []. rewrite app_nil_r. split; [done | constructor].
  - intros t2 H2 Hw2. destruct (decide (t_ID t2 = t_ID t)) as [Ei|Hne].
    + assert (t2 = stored t) as ->; [|by exists (stored t')].
      unfold holds in H2, Hh. rewrite Ei in H2. simpl in Hh.
      apply transfer_to_row_inj; [by apply lifecycle_state, Hw2 | by apply lifecycle_state|].
      congruence.
    + exists t2. split_and!; [|done..]. unfold holds. simpl.
      rewrite lookup_insert_ne; [done|]. intros ?%TransferID_String_inj. by subst.
  - apply (keys_unique_update d _ (transfer_to_row (stored t))); [done|]. simpl.
    by destruct Hnv as ((_ & ? & _) & _).
Qed.

Lemma replaced_snapshot d t t' :
  transfer_wf t → next_version t t' → timestamptz (t_CreatedAt t) = t_CreatedAt t →
  snapshot (replaced d t t') t'.
Proof.
  intros Hw Hnv Hc. destruct (replaced_holds d t t' Hw Hnv) as [Hh' Hw'].
  split; [by destruct Hnv as ((_ & _ & _ & _ & _ & ->) & _)|]. by exists (stored t').
Qed.

Lemma update_keeps d t t' :
  transfers_wf d → snapshot d t → lifecycle t → next_version t t' → creditable t (t_State t') →
  let '(r, d') := update_transfer (transfer_to_update t') d in
  transfers_wf d' ∧ le_db d d' ∧ (∀ n, r = Ok n → n ≠ 0 → snapshot d' t').
Proof.
  intros Hwf (Hc & t1 & H1 & Hw1 & He1) Hlc Hnv Hcr.
  pose proof Hnv as ((Eid & _) & Hed & Hv & Hlc').
  pose proof (lifecycle_version _ Hlc) as Hb.
  assert (∀ r : res Z, (∀ n, r = Ok n → n = 0) →
    transfers_wf d ∧ le_db d d ∧ (∀ n, r = Ok n → n ≠ 0 → snapshot d t')) as Hsame.
  { intros r Hr. split_and!; [done | done |]. intros n ->%Hr. done. }
  assert (t_ID t1 = t_ID t) as Eid1 by apply He1.
  destruct (decide (t_Version t1 = t_Version t)) as [Ev|Hne].
  - assert (t1 = stored t) as -> by (by apply evolves_same_version).
    rewrite (update_transfer_ok d t t') by done. change (set_transfers _ d) with (replaced d t t').
    split_and!; [by apply replaced_wf | by apply replaced_le | intros _ _ _; by apply replaced_snapshot].
  - destruct (update_transfer_stale d t1 (transfer_to_update t')) as [r [-> Hr]]; [| |by apply Hsame].
    + unfold holds in H1. by rewrite Eid1, <- Eid in H1.
    + simpl. rewrite wrap64_small by lia. lia.
Qed.

Lemma safe_UpdateState t t' (Q : res unit → World → Prop) w :
  snapshot (w_db w) t → lifecycle t → next_version t t' → creditable t (t_State t') →
  (∀ r w', le w w' → inv w' → (r = Ok tt → snapshot (w_db w') t') → Q r w') →
  safe (TransferRepo_UpdateState t') Q w.
Proof.
  intros Hs Hlc Hnv Hcr HQ. apply safe_attempt; [apply _|]. apply safe_sql.
  - intros d Hle Hwf.
    pose proof (update_keeps d t t' Hwf (snapshot_later _ _ _ Hle Hs) Hlc Hnv Hcr) as H.
    destruct (update_transfer _ d) as [r d']. destruct H as (Hwf' & Hle' & Hsn). simpl.
    split_and!; [done..|]. intros w' Hle2 Hi2.
    assert (le w w') as Hlew by (unfold le; etrans; [done|]; by etrans).
    destruct r as [n|e].
    + destruct (Z.eqb_spec n 0) as [->|Hn]; intros w2 Hle3 Hi3;
        (apply HQ; [by etrans | done |]); [done|]. intros _.
      eapply snapshot_later; [exact Hle3|]. eapply snapshot_later; [exact Hle2|]. by eapply Hsn.
    + intros w2 Hle3 Hi3. by apply HQ; [by etrans | done |].
  - intros m w' Hle Hi w2 Hle2 Hi2. by apply HQ; [by etrans | done |].
Qed.

(** ** Posting to the ledger *)
Lemma insert_entry_ok pending r d row :
  insert_entry pending r d = Ok row →
  ent_transaction_id row = ent_transaction_id r ∧ ent_account_id row = ent_account_id r ∧
  ent_entry_type row = ent_entry_type r ∧ ent_amount row = ent_amount r ∧
  char3 (ent_currency r) = Some (ent_currency row).
Proof. unfold insert_entry. intros H. repeat case_match; by simplify_eq. Qed.

Definition inserted (e : LedgerEntry) (row : entry_row) : Prop :=
  ∃ pending d, insert_entry pending (entry_to_row e) d = Ok row.

Lemma posting_rows id1 id2 now txID src dst amount desc rows :
  0 < m_Amount amount → src ≠ dst →
  Forall2 inserted (Entries (posting_of txID src dst amount desc id1 id2 now)) rows →
  postings rows.
Proof.
  intros Ha Hd (row1 & l1 & (p1 & d1 & H1) & H2 & ->)%Forall2_cons_inv_l.
  apply Forall2_cons_inv_l in H2 as (row2 & l2 & (p2 & d2 & H2) & ->%Forall2_nil_inv_l & ->).
  apply insert_entry_ok in H1 as (? & ? & ? & ? & Hc1).
  apply insert_entry_ok in H2 as (? & ? & ? & ? & Hc2).
  simpl in *. rewrite Hc1 in Hc2. injection Hc2 as Hc2.
  apply (postings_snoc []); [constructor|].
  unfold row_pair. split_and!; try congruence.
  intros Heq. apply Hd, (inj AccountID_String). congruence.
Qed.

Lemma commit_keeps d rows :
  transfers_wf d → postings rows →
  transfers_wf (commit_entries rows d).2 ∧ le_db d (commit_entries rows d).2.
Proof.
  intros Hwf Hp. unfold commit_entries. case_bool_decide; [|done]. simpl.
  split; [done|]. split; [done | by exists rows | intros t Ht Hw; by exists t | done | by apply no_events].
Qed.

Lemma safe_insert_entries es pending (Q : res (list entry_row) → World → Prop) w :
  (∀ r w', le w w' → inv w' →
     (∀ rows, r = Ok rows → ∃ new, rows = pending ++ new ∧ Forall2 inserted es new) → Q r w') →
  safe (insert_entries pending es) Q w.
Proof.
  revert pending w. induction es as [|e es IH]; intros pending w HQ; cbn [insert_entries].
  - intros w' Hle Hi. apply HQ; [done..|]. intros rows [= <-].
    exists []. by rewrite app_nil_r.
  - apply safe_attempt; [apply _|]. apply safe_read.
    + intros d w1 Hle Hi. destruct (insert_entry _ _ d) as [row|er] eqn:Hr.
      * apply IH. intros r w2 Hle2 Hi2 Hrows. apply HQ; [by etrans | done|].
        intros rows (new & -> & Hnew)%Hrows. exists (row :: new).
        rewrite <- app_assoc. split; [done|]. constructor; [|done]. by exists pending, d.
      * intros w2 Hle2 Hi2. by apply HQ; [by etrans | done |].
    + intros m w1 Hle Hi w2 Hle2 Hi2. by apply HQ; [by etrans | done |].
Qed.

Lemma safe_PostEntries id1 id2 now txID src dst amount desc (Q : res unit → World → Prop) w :
  0 < m_Amount amount → src ≠ dst → (∀ r w', le w w' → inv w' → Q r w') →
  safe (LedgerRepo_PostEntries (Entries (posting_of txID src dst amount desc id1 id2 now))) Q w.
Proof.
  intros Ha Hd HQ. unfold LedgerRepo_PostEntries. apply safe_attempt; [apply _|].
  apply safe_read; [|by intros m w1 Hle Hi w2 Hle2 Hi2; apply HQ; [etrans|]].
  intros _ w1 Hle1 Hi1. apply safe_attempt; [apply _|].
  apply safe_insert_entries. intros r w2 Hle2 Hi2 Hrows.
  destruct r as [rows|e]; [|by intros w3 Hle3 Hi3; apply HQ; [do 2 (etrans; [done|])|]].
  destruct (Hrows rows) as (new & -> & Hnew); [done|]. simpl.
  apply posting_rows in Hnew; [|done..].
  apply safe_sql.
  - intros d Hle Hwf. destruct (commit_keeps d new Hwf Hnew) as [Hwf' Hle'].
    split_and!; [done..|]. intros w3 Hle3 Hi3. apply HQ; [|done].
    unfold le in *. by repeat (etrans; [done|]).
  - intros m w3 Hle3 Hi3. apply HQ; [|done]. by repeat (etrans; [done|]).
Qed.

(** ** Programs whose result does not matter here *)
Definition keeps {A} (p : prog A) w : Prop := safe p (λ _ _, True) w.

Lemma keeps_ret {A} (a : A) w : keeps (Ret a) w.
Proof. intros w' _ _. done. Qed.
Lemma keeps_of {A} (p : prog A) Q w : safe p Q w → keeps p w.
Proof. intros H. eapply safe_mono; [apply _ | exact H|]. done. Qed.
Lemma keeps_later {A} (p : prog A) w w' : keeps p w → le w w' → keeps p w'.
Proof. apply safe_later, _. Qed.
Lemma keeps_attempt {A B} f (p : prog (res A)) (k : A → prog (res B)) w :
  safe p (λ r w', ∀ a, r = Ok a → keeps (k a) w') w → keeps (attempt f p k) w.
Proof.
  intros H. apply safe_attempt; [apply _|]. eapply safe_mono; [apply _ | exact H|].
  intros [a|e] w' _ _ H'; [by apply H' | done].
Qed.
(** A program whose result is not looked at, then the rest. *)
Lemma keeps_seq {A B} f (p : prog (res A)) (k : A → prog (res B)) w :
  keeps p w → (∀ a w', le w w' → inv w' → keeps (k a) w') → keeps (attempt f p k) w.
Proof.
  intros Hp Hk. apply keeps_attempt. eapply safe_mono; [apply _ | exact Hp |].
  intros r w' Hle Hi _ a _. by apply Hk.
Qed.
Lemma keeps_bind {A B} (p : prog A) (k : A → prog B) w :
  keeps p w → (∀ a w', le w w' → inv w' → keeps (k a) w') → keeps (bind p k) w.
Proof.
  intros Hp Hk. apply safe_bind; [apply _|]. eapply safe_mono; [apply _ | exact Hp |].
  intros a w' Hle Hi _. by apply Hk.
Qed.
Lemma keeps_call {X B} (c : Cmd X) (k : X → prog B) w :
  db_free c → (∀ x w', le w w' → inv w' → keeps (k x) w') → keeps (bind (call c) k) w.
Proof. intros Hc Hk. apply safe_bind; [apply _|]. by apply safe_db_free. Qed.

(** ** The saga's building blocks *)
Lemma safe_new_posting src dst amount desc (Q : res Posting → World → Prop) w :
  (∀ r w', le w w' → inv w' →
     (∀ p, r = Ok p → 0 < m_Amount amount ∧ src ≠ dst ∧
        ∃ id1 id2 now tx, p = posting_of tx src dst amount desc id1 id2 now) → Q r w') →
  safe (new_posting src dst amount desc) Q w.
Proof.
  intros HQ. unfold new_posting.
  apply safe_bind; [apply _|]. apply safe_db_free; [done|]. intros tx w1 Hle1 _.
  apply safe_bind; [apply _|]. apply safe_db_free; [done|]. intros now w2 Hle2 _.
  apply safe_bind; [apply _|]. apply safe_db_free; [done|]. intros id1 w3 Hle3 _.
  apply safe_bind; [apply _|]. apply safe_db_free; [done|]. intros id2 w4 Hle4 _ w5 Hle5 Hi5.
  apply HQ; [by repeat (etrans; [done|]) | done|].
  intros p (Ha & _ & Hd & ->)%NewPosting_inv. eauto 10.
Qed.

(** Building a posting and writing it, whatever follows. *)
Lemma keeps_post {B} f g src dst amount desc (k : unit → prog (res B)) w :
  (∀ w', le w w' → inv w' → src ≠ dst → keeps (k tt) w') →
  keeps (attempt f (new_posting src dst amount desc) (λ p,
           attempt g (LedgerRepo_PostEntries (Entries p)) k)) w.
Proof.
  intros Hk. apply keeps_attempt, safe_new_posting. intros r w1 Hle1 _ Hr p ->.
  destruct (Hr p eq_refl) as (Ha & Hd & id1 & id2 & now & tx & ->).
  apply keeps_attempt, safe_PostEntries; [done..|]. intros ? w2 Hle2 Hi2 [] _.
  apply Hk; [by etrans | done..].
Qed.

Lemma keeps_post_last f src dst amount desc w :
  keeps (attempt f (new_posting src dst amount desc)
           (λ p, LedgerRepo_PostEntries (Entries p))) w.
Proof.
  apply keeps_attempt, safe_new_posting. intros r w1 Hle1 _ Hr p ->.
  destruct (Hr p eq_refl) as (Ha & Hd & id1 & id2 & now & tx & ->).
  apply safe_PostEntries; done.
Qed.

(** The event of [t] may be appended: up to the padding of the currency, [t] is
    what its row is or was. *)
Definition reportable d t typ : Prop :=
  announces (t_State t) = Some typ ∧
  ∃ t0 t1, holds d t1 ∧ transfer_wf t1 ∧ transfer_wf t0 ∧ evolves t0 t1 ∧
    t_ID t0 = t_ID t ∧ m_Amount (t_Amount t0) = m_Amount (t_Amount t) ∧ t_State t0 = t_State t ∧
    char3 (m_Currency (t_Amount t)) = Some (m_Currency (t_Amount t0)).

Lemma reportable_later d d' t typ : le_db d d' → reportable d t typ → reportable d' t typ.
Proof.
  intros Hle (Ha & t0 & t1 & H1 & Hw1 & Hw0 & He & Hrest). split; [done|].
  destruct (le_transfers _ _ Hle _ H1 Hw1) as (t2 & H2 & Hw2 & He').
  exists t0, t2. split_and!; try apply Hrest; [done..|]. by etrans.
Qed.
Lemma snapshot_reportable d t typ :
  snapshot d t → lifecycle t → announces (t_State t) = Some typ → reportable d t typ.
Proof.
  intros (_ & t1 & H1 & Hw1 & He) Hlc Ha. split; [done|].
  assert (request_wf t) as Hrq.
  { destruct He as ((_ & Ek & Es & Ed & Em & _) & _), Hw1 as [Hrq _]. unfold request_wf in *.
    rewrite Ek, Es, Ed, Em in Hrq. exact Hrq. }
  exists (stored t), t1. split_and!; [done | done | done | done | done..|]. apply Hrq.
Qed.

Lemma event_keeps d u now t typ :
  transfers_wf d → reportable d t typ →
  let d' := (insert_event (event_to_row (NewEvent u now t typ)) d).2 in transfers_wf d' ∧ le_db d d'.
Proof.
  intros Hwf (Ha & t0 & t1 & H1 & Hw1 & Hw0 & He & Eid & Eam & Es & Ec). cbv zeta. unfold insert_event.
  cbn [event_to_row NewEvent e_Amount ev_currency]. rewrite Ec.
  case_bool_decide; [done|]. case_bool_decide; [|done]. cbn [negb snd].
  apply same_core_keeps; [done | | done].
  eexists. split; [reflexivity|]. apply Forall_singleton. exists t0, t1. split; [|done].
  unfold describes. cbn. rewrite Eid, Eam, Es. split_and!; [done..|]. by exists typ.
Qed.

Lemma safe_Append u now t typ (Q : res unit → World → Prop) w :
  reportable (w_db w) t typ → (∀ r w', le w w' → inv w' → Q r w') →
  safe (EventStore_Append (NewEvent u now t typ)) Q w.
Proof.
  intros Hr HQ. unfold EventStore_Append. apply safe_sql; [|by intros; apply HQ].
  intros d Hle Hwf. destruct (event_keeps d u now t typ Hwf (reportable_later _ _ _ _ Hle Hr)) as [Hwf' Hle'].
  split_and!; [done..|]. intros w' Hle2 Hi. apply HQ; [|done]. unfold le. etrans; [done|]. by etrans.
Qed.

Lemma keeps_publishEvent t typ w :
  reportable (w_db w) t typ → keeps (publishEvent worker_deps t typ) w.
Proof.
  intros Hr. unfold publishEvent. apply keeps_call; [done|]. intros u w1 Hle1 _.
  apply keeps_call; [done|]. intros now w2 Hle2 _.
  apply keeps_attempt, safe_Append.
  { eapply reportable_later; [|exact Hr]. unfold le in *. by etrans. }
  intros r w3 _ _ [] _. apply keeps_call; [done|]. intros now' w4 _ _.
  apply keeps_attempt. intros w5 _ _ payload _.
  unfold worker_deps, OutboxWriter_Write. simpl ow_Write. apply keeps_call; [done|]. intros now'' w6 _ _.
  apply keeps_attempt, safe_sql_core; [done|]. intros r' w7 _ _ a _. apply keeps_ret.
Qed.

(** [Transition] from the loaded state [t], flags set on the way. *)
Lemma transition_next t t1 now next t' :
  lifecycle t → same_request t t1 → t_State t1 = t_State t → t_Version t1 = t_Version t →
  lifecycle (set_state next now (t_Version t + 1) t1) →
  Transition now t1 next = Ok t' → next_version t t'.
Proof.
  intros Hlc Hsr Es Ev Hlc' [He ->]%Transition_ok.
  pose proof (lifecycle_version _ Hlc). rewrite Ev, wrap64_small by lia.
  split_and!; [done | by rewrite <- Es | done | done].
Qed.

(** A transition and its version-checked update, whatever follows. *)
Lemma keeps_transition {B} f t t1 next (k : Transfer → unit → prog (res B)) w :
  snapshot (w_db w) t → lifecycle t →
  same_request t t1 → t_State t1 = t_State t → t_Version t1 = t_Version t →
  (∀ now, edge (t_State t) next → lifecycle (set_state next now (t_Version t + 1) t1)) →
  creditable t next →
  (∀ t' w', le w w' → inv w' → next_version t t' →
     (∃ now, t' = set_state next now (t_Version t + 1) t1) → snapshot (w_db w') t' →
     keeps (k t' tt) w') →
  keeps (attempt id (transition t1 next) (λ t', attempt f (UpdateState worker_deps t') (k t'))) w.
Proof.
  intros Hs Hlc Hsr Es Ev Hlc' Hcr Hk. apply keeps_attempt. unfold transition.
  apply safe_bind; [apply _|]. apply safe_db_free; [done|].
  intros now w1 Hle1 _ w2 Hle2 _ t' Ht'. pose proof Ht' as [He Et']%Transition_ok.
  rewrite Es in He. pose proof (lifecycle_version _ Hlc) as Hb.
  rewrite Ev, wrap64_small in Et' by lia.
  assert (next_version t t') as Hnv by (eapply transition_next; eauto).
  apply keeps_attempt. apply safe_UpdateState with (t := t); [|done | done | by rewrite Et' |].
  { eapply snapshot_later; [|exact Hs]. by etrans. }
  intros r w3 Hle3 Hi3 Hr [] ->. apply Hk; eauto.
  by repeat (etrans; [done|]).
Qed.

(** ** The steps *)
Lemma keeps_failWith t reason w :
  snapshot (w_db w) t → lifecycle t → keeps (failWith worker_deps t reason) w.
Proof.
  intros Hs Hlc. unfold failWith. case_bool_decide; [apply keeps_ret|].
  apply (keeps_transition _ t); [done..| | |].
  - intros now He. unfold lifecycle, edge in *. simpl.
    destruct (t_State t); simpl in He; rewrite ?elem_of_cons, ?elem_of_nil in He;
      destruct_or?; try done; destruct Hlc as (-> & -> & ->); tauto.
  - by intros _.
  - intros t' w1 _ _ (_ & _ & _ & Hlc') [now ->] Hs'. by apply keeps_publishEvent, snapshot_reportable.
Qed.

Lemma keeps_reverseDebit t w : keeps (reverseDebit worker_deps t) w.
Proof. apply keeps_post_last. Qed.
Lemma keeps_reverseCredit t w : keeps (reverseCredit worker_deps t) w.
Proof. apply keeps_post_last. Qed.

Lemma keeps_compensate t w :
  snapshot (w_db w) t → lifecycle t → keeps (compensate worker_deps t) w.
Proof.
  intros Hs Hlc. unfold compensate.
  apply keeps_seq; [destruct (t_CreditPosted t); [apply keeps_reverseCredit | apply keeps_ret]|].
  intros [] w1 Hle1 _.
  apply keeps_seq; [destruct (t_DebitPosted t); [apply keeps_reverseDebit | apply keeps_ret]|].
  intros [] w2 Hle2 _. apply keeps_failWith; [|done].
  eapply snapshot_later; [|exact Hs]. by etrans.
Qed.

Lemma keeps_startCompensation t reason w :
  snapshot (w_db w) t → lifecycle t → t_State t = StateDebited →
  keeps (startCompensation worker_deps t reason) w.
Proof.
  intros Hs Hlc Est. apply (keeps_transition _ t); [done..| | |].
  - intros now _. unfold lifecycle in *. rewrite Est in Hlc. simpl.
    destruct Hlc as (-> & -> & ->). done.
  - by intros _.
  - intros t' w1 Hle Hi (_ & _ & _ & Hlc') _ Hs'. by apply keeps_compensate.
Qed.

(** Moving to the next state and announcing it, the end of every forward step. *)
Lemma keeps_advance t t1 next typ w :
  snapshot (w_db w) t → lifecycle t →
  same_request t t1 → t_State t1 = t_State t → t_Version t1 = t_Version t →
  (∀ now, edge (t_State t) next → lifecycle (set_state next now (t_Version t + 1) t1)) →
  creditable t next → announces next = Some typ →
  keeps (attempt id (transition t1 next) (λ t', attempt (errorf_w "update state: ")
           (UpdateState worker_deps t') (λ _, publishEvent worker_deps t' typ))) w.
Proof.
  intros. apply (keeps_transition _ t); [done..|].
  intros t' w1 _ _ (_ & _ & _ & Hlc') [now ->] Hs'. by apply keeps_publishEvent, snapshot_reportable.
Qed.

Lemma keeps_GetBalance acct cur w : keeps (LedgerRepo_GetBalance acct cur) w.
Proof.
  apply safe_bind; [apply _|].
  apply safe_read; intros; case_match; apply keeps_ret.
Qed.

Lemma keeps_LockForUpdate acct w : keeps (AccountRepo_LockForUpdate acct) w.
Proof. apply keeps_attempt, safe_read; intros; apply keeps_ret. Qed.

Lemma keeps_reserveDebit t w :
  snapshot (w_db w) t → lifecycle t → t_State t = StatePending →
  keeps (reserveDebit worker_deps t) w.
Proof.
  intros Hs Hlc Est. apply keeps_seq; [apply keeps_LockForUpdate|]. intros a w1 Hle1 Hi1.
  pose proof (snapshot_later _ _ _ Hle1 Hs) as Hs1.
  destruct (CanTransact a) as [_|e]; [|by apply keeps_failWith].
  apply keeps_seq; [apply keeps_GetBalance|]. intros bal w2 Hle2 Hi2.
  pose proof (snapshot_later _ _ _ Hle2 Hs1) as Hs2.
  destruct (_ <? _); [by apply keeps_failWith|].
  apply keeps_post. intros w3 Hle3 Hi3 _.
  apply (keeps_advance t); [by eapply snapshot_later | done..| |by intros _|done].
  intros now _. unfold lifecycle in *. rewrite Est in Hlc. simpl.
  destruct Hlc as (-> & _ & ->). done.
Qed.

Lemma keeps_InitiateTransfer req w : keeps (CircuitBreakerGateway_InitiateTransfer req) w.
Proof.
  apply keeps_call; [done|]. intros [] w1 _ _; [|apply keeps_ret].
  apply keeps_call; [done|]. intros r w2 _ _.
  apply keeps_call; [done|]. intros [] w3 _ _. apply keeps_ret.
Qed.

Lemma keeps_callBank t w :
  snapshot (w_db w) t → lifecycle t → t_State t = StateDebited →
  keeps (callBank worker_deps t) w.
Proof.
  intros Hs Hlc Est. unfold callBank.
  apply keeps_bind; [apply keeps_InitiateTransfer|]. intros r w1 Hle Hi.
  pose proof (snapshot_later _ _ _ Hle Hs) as Hs1.
  destruct r as [ref|e]; [|by apply keeps_startCompensation].
  apply (keeps_advance t); [done..| |by intros _|done].
  intros now _. unfold lifecycle in *. rewrite Est in Hlc. simpl.
  destruct Hlc as (-> & -> & ->). done.
Qed.

Lemma keeps_postCredit t w :
  snapshot (w_db w) t → lifecycle t → t_State t = StateBankCalled →
  keeps (postCredit worker_deps t) w.
Proof.
  intros Hs Hlc Est. apply keeps_post. intros w1 Hle1 Hi1 Hne.
  apply (keeps_advance t); [by eapply snapshot_later | done..| |by intros ?|done].
  intros now _. unfold lifecycle in *. rewrite Est in Hlc. simpl.
  destruct Hlc as (-> & -> & _). done.
Qed.

Lemma keeps_complete t w :
  snapshot (w_db w) t → lifecycle t → t_State t = StateCredited →
  keeps (complete worker_deps t) w.
Proof.
  intros Hs Hlc Est. apply (keeps_advance t); [done..| |intros _ _; by rewrite Est|done].
  intros now _. unfold lifecycle in *. rewrite Est in Hlc. simpl.
  destruct Hlc as (-> & -> & ->). done.
Qed.

(** What [FindByID] returns was the row when it was read. *)
Lemma safe_FindByID id (Q : res Transfer → World → Prop) w :
  (∀ r w', le w w' → inv w' →
     (∀ t, r = Ok t → t_ID t = id ∧ transfer_wf t ∧ snapshot (w_db w') t) → Q r w') →
  safe (TransferRepo_FindByID id) Q w.
Proof.
  intros HQ. apply safe_bind; [apply _|]. apply safe_query.
  - intros d w1 Hle Hwf Hle1 Hi1. unfold res_bind, select_transfer.
    assert (le w w1) as Hlew by (unfold le; by etrans).
    destruct (transfers d !! TransferID_String id) as [r|] eqn:Hr.
    + destruct (Hwf _ _ Hr) as (t & -> & Hid & Hw & Hst & _).
      rewrite scan_row by (by apply lifecycle_state, Hw).
      intros w2 Hle2 Hi2. apply HQ; [by etrans | done|]. intros t' [= <-].
      apply TransferID_String_inj in Hid as ->. split_and!; [done..|].
      eapply snapshot_later; [exact Hle2|]. eapply snapshot_later; [exact Hle1|].
      split; [by apply stored_created|]. exists t. rewrite Hst.
      split; [done|]. split; [done | reflexivity].
    + simpl. intros w2 Hle2 Hi2. apply HQ; [by etrans | done..].
  - intros fl w1 Hle1 Hi1. cbn [res_bind].
    assert (errors_Is (fault_error fl) ErrNoRows = false) as -> by (by destruct fl).
    intros w2 Hle2 Hi2. apply HQ; [by etrans | done..].
Qed.

Lemma keeps_Execute id w : keeps (Execute worker_deps id) w.
Proof.
  apply keeps_attempt, safe_FindByID. intros r w1 Hle Hi Hr t ->.
  destruct (Hr t eq_refl) as (_ & [_ Hlc] & Hs).
  destruct (t_State t) eqn:Est; simpl;
    [by apply keeps_reserveDebit | by apply keeps_callBank | by apply keeps_postCredit
    | by apply keeps_complete | apply keeps_ret | apply keeps_ret
    | by apply keeps_compensate | apply keeps_ret].
Qed.
End concurrency.
