(* ===== verification/System.v ===== *)
(** * The whole system: API requests, workers, relays and reconcilers

    Every process of the binaries keeps the promise of [Concurrency]; so the
    ledger and the transfers stay correct in every reachable configuration,
    with lost connections, crashes, redeliveries and any interleaving. *)
From S2P Require Import Prelude Uuid Money Account Transfer Ledger Json Database CircuitBreaker.
From S2P Require Import Effects Ports Adapters AdapterSpecs Saga Command Http Worker Concurrency.

Section system.
Context {U : UUIDLib} {L : UUIDLaws U} {R : RedisLib} {N : NatsLib} {M : MuxLib}.
Implicit Types (t : Transfer) (d : DB) (w : World).

(** ** Creating a transfer *)
Lemma insert_transfer_new d now id key src dst amount t :
  Transfer_New now id key src dst amount = Ok t → m_Amount amount <= int64_max →
  transfers_wf d →
  let '(r, d') := insert_transfer (transfer_to_row t) d in
  transfers_wf d' ∧ le_db d d' ∧ (r = Ok tt → reportable d' t EventTransferRequested).
Proof.
  intros (Hk & Ha & Hc & Hd & ->)%Transfer_New_ok Hmax Hwf.
  match goal with |- context [insert_transfer ?r d] =>
    destruct (insert_transfer_inv r d) as [[e ->]|(cur & -> & Hcur & Hfresh & Hkeys & Hsrc & Hdst)]
  end; [done|]. simpl in *.
  set (t := mkTransfer id key src dst (mkMoney (m_Amount amount) cur) StatePending "" "" false
    false (timestamptz now) (timestamptz now) 1).
  change (inserted_row _ _) with (transfer_to_row t).
  assert (stored t = t) as Hst by (unfold stored; simpl; by autorewrite with flip_rw).
  assert (transfer_wf t) as Hw.
  { split; [|done]. unfold request_wf. simpl. split_and!; [done | done | lia..|]. by eapply char3_idemp. }
  split; [|split].
  - intros k r. simpl. destruct (decide (k = TransferID_String id)) as [->|].
    + rewrite lookup_insert_eq. intros [= <-]. exists t. done.
    + rewrite lookup_insert_ne by done. intros H. by apply Hwf.
  - split; simpl; [done | | | | by exists []; rewrite app_nil_r].
    + exists []. rewrite app_nil_r. split; [done | constructor].
    + intros t2 H2 Hw2. exists t2. split_and!; [|done..]. unfold holds in *. simpl.
      rewrite lookup_insert_ne; [done|]. congruence.
    + intros Hu k1 k2 r1 r2. simpl. rewrite !lookup_insert_Some.
      intros [[<- <-]|[Hn1 H1]] [[<- <-]|[Hn2 H2]] E; [done | | | by eapply Hu].
      * by apply Hkeys in H2.
      * by apply Hkeys in H1.
  - intros _. split; [done|]. exists t, t. split_and!; [|done..].
    unfold holds. simpl. by apply lookup_insert_eq.
Qed.

(** ** The processes *)
Context (E : Env).
Abbreviation keeps := (Concurrency.keeps E).
Abbreviation safe := (Effects.safe E inv le).

Lemma keeps_query {A} (q : DB → A) w : keeps (call (query q)) w.
Proof. apply safe_read; intros; done. Qed.
Lemma keeps_free {X} (c : Cmd X) w : db_free c → keeps (call c) w.
Proof. intros Hc. by apply safe_db_free. Qed.
Lemma keeps_sql_core {A} (f : DB → res A * DB) w :
  (∀ d, same_tables d (f d).2) → keeps (call (Sql f)) w.
Proof. intros Hf. by apply safe_sql_core. Qed.
Lemma keeps_if {A} (b : bool) (p q : prog A) w : keeps p w → keeps q w → keeps (if b then p else q) w.
Proof. by destruct b. Qed.

(** Walks down a program whose calls are all harmless. *)
Ltac keeps_step :=
  first
    [ apply keeps_ret
    | apply keeps_free; exact I
    | apply keeps_query
    | apply keeps_seq; [|intros ? ? _ _]
    | apply keeps_bind; [|intros ? ? _ _]
    | apply keeps_if ].
Ltac keeps_tac := repeat keeps_step.

Lemma keeps_AccountRepo_FindByID id w : keeps (AccountRepo_FindByID id) w.
Proof. unfold AccountRepo_FindByID. keeps_tac. Qed.
Lemma keeps_TransferRepo_FindByID id w : keeps (TransferRepo_FindByID id) w.
Proof. unfold TransferRepo_FindByID. keeps_tac. case_match; keeps_tac. Qed.
Lemma keeps_IdempotencyStore_Get key w : keeps (IdempotencyStore_Get key) w.
Proof. unfold IdempotencyStore_Get. keeps_tac. Qed.
Lemma keeps_OutboxWriter_Write subject payload w : keeps (OutboxWriter_Write subject payload) w.
Proof. unfold OutboxWriter_Write. keeps_tac. apply keeps_sql_core. intros d. by destruct payload. Qed.

Lemma safe_Save now id key src dst amount t w :
  Transfer_New now id key src dst amount = Ok t → m_Amount amount <= int64_max →
  safe (TransferRepo_Save t) (λ r w', r = Ok tt → reportable (w_db w') t EventTransferRequested) w.
Proof.
  intros Ht Hm. apply safe_attempt; [apply _|]. apply safe_sql; [|done].
  intros d _ Hwf. pose proof (insert_transfer_new d _ _ _ _ _ _ _ Ht Hm Hwf) as H.
  destruct (insert_transfer _ d) as [r d']. destruct H as (Hwf' & Hle & Hr). split_and!; [done..|].
  cbn [fst snd]. intros w' Hle' _. destruct r as [[]|e]; [|done]. intros w2 Hle2 _ _.
  eapply reportable_later; [exact Hle2|]. eapply reportable_later; [exact Hle' | by apply Hr].
Qed.

Lemma keeps_checkIdempotency key w : keeps (checkIdempotency createTransferCmd key) w.
Proof.
  unfold checkIdempotency. apply keeps_seq; [apply keeps_IdempotencyStore_Get|].
  intros [text|] w' _ _; keeps_tac.
Qed.
Lemma keeps_validateAccounts src dst w : keeps (validateAccounts createTransferCmd src dst) w.
Proof. unfold validateAccounts. keeps_tac; apply keeps_AccountRepo_FindByID. Qed.

(** A pure step that may fail. *)
Lemma keeps_pure {A B} f (r : res A) (k : A → prog (res B)) w :
  (∀ a w', le w w' → r = Ok a → keeps (k a) w') → keeps (attempt f (Ret r) k) w.
Proof. intros Hk. apply keeps_attempt. intros w' Hle _ a ->. by apply Hk. Qed.

Lemma keeps_Handle cmd w :
  in_int64 (cmd_Amount cmd) → keeps (Handle createTransferCmd cmd) w.
Proof.
  intros Ha. unfold Handle. apply keeps_seq; [apply keeps_checkIdempotency|].
  intros [result|] w1 _ _; [apply keeps_ret|].
  apply keeps_pure. intros src w2 _ _. apply keeps_pure. intros dst w3 _ _.
  apply keeps_seq; [apply keeps_validateAccounts|]. intros ? w4 _ _.
  apply keeps_pure. intros amount w5 _ [_ ->]%New_ok.
  apply keeps_call; [done|]. intros fresh w6 _ _. apply keeps_call; [done|]. intros now w7 _ _.
  apply keeps_pure. intros t w8 _ Ht.
  apply keeps_attempt. eapply safe_mono; [apply _ | apply (safe_Save _ _ _ _ _ _ _ _ Ht), Ha|].
  intros r w9 _ _ Hr [] ->. specialize (Hr eq_refl).
  apply keeps_call; [done|]. intros fresh' w10 Hle10 _. apply keeps_call; [done|]. intros now' w11 Hle11 _.
  apply keeps_seq.
  { apply safe_Append; [|done]. eapply reportable_later; [|exact Hr]. unfold le in *. by etrans. }
  intros ? w12 _ _. keeps_tac. apply keeps_sql_core. intros d. by destruct (event_json _).
Qed.

Lemma keeps_CreateTransfer r w : keeps (CreateTransfer api_handler r) w.
Proof.
  unfold CreateTransfer. destruct (decode_request _) as [req|e] eqn:Hreq; [|keeps_tac].
  apply keeps_bind; [apply keeps_Handle|intros [result|e] w' _ _; keeps_tac].
  unfold decode_request in Hreq.
  repeat (apply res_bind_ok in Hreq as (? & ? & Hreq)). injection Hreq as <-.
  by eapply int64_field_in.
Qed.

Lemma keeps_serve_endpoint e params r w : keeps (serve_endpoint api_handler e params r) w.
Proof.
  destruct e; simpl; [apply keeps_CreateTransfer | |].
  - unfold GetTransfer. destruct (ParseTransferID _); [|keeps_tac].
    apply keeps_bind; [apply keeps_TransferRepo_FindByID|]. intros [t|e] w' _ _; keeps_tac.
  - unfold GetAccountBalance. destruct (ParseAccountID _); [|keeps_tac].
    apply keeps_bind; [apply keeps_AccountRepo_FindByID|]. intros [acct|e] w1 _ _; [|keeps_tac].
    apply keeps_bind; [apply keeps_GetBalance|]. intros [b|e] w2 _ _; keeps_tac.
Qed.

Lemma keeps_serve_routes routes other r w : keeps (serve_routes api_handler routes other r) w.
Proof.
  revert other. induction routes as [|[[method pattern] e] rest IH]; intros other; cbn [serve_routes]; [keeps_tac|].
  destruct (mux_match _ _); [|apply IH]. apply keeps_if; [apply keeps_serve_endpoint | apply IH].
Qed.

Lemma keeps_NewRouter r w : keeps (NewRouter api_handler r) w.
Proof.
  apply keeps_bind; [|intros out w1 _ _; apply keeps_ret].
  apply keeps_bind; [keeps_tac|]. intros traceID w1 _ _.
  apply keeps_call; [done|]. intros start w2 _ _.
  apply keeps_bind; [|intros resp w3 _ _; apply keeps_call; [done|]; intros; apply keeps_ret].
  match goal with |- context [routes _ ?r'] => generalize r' end. clear r. intros r. unfold routes. destruct (mux_match "/healthz" _); [keeps_tac|].
  destruct (mux_match "/metrics" _); [keeps_tac|].
  destruct (mux_match "/v1/*" _); [|keeps_tac].
  unfold idempotencyMiddleware.
  apply keeps_if; [apply keeps_serve_routes|]. apply keeps_if; [apply keeps_ret|].
  apply keeps_bind; [apply keeps_IdempotencyStore_Get|].
  intros [[cached|]|e] w3 _ _; [apply keeps_ret | apply keeps_serve_routes..].
Qed.

Lemma keeps_consume subject data w : keeps (consume subject data) w.
Proof.
  apply keeps_bind; [|intros; apply keeps_ret]. apply keeps_pure. intros id w1 _ _.
  by apply keeps_Execute.
Qed.

Lemma keeps_relay_row row w : keeps (relay_row row) w.
Proof.
  apply keeps_bind; [unfold Publisher_Publish; keeps_tac|]. intros [[]|e] w1 _ _; [|keeps_tac].
  apply keeps_bind; [by apply keeps_sql_core|]. intros; apply keeps_ret.
Qed.
Lemma keeps_relay batch w : keeps (relay batch) w.
Proof.
  unfold relay. apply keeps_seq; [keeps_tac|]. intros pending w1 _ _.
  apply keeps_bind; [|intros; apply keeps_ret]. generalize 0%nat. revert w1.
  induction pending as [|row rest IH]; intros w1 n; cbn [relay_rows]; [keeps_tac|].
  apply keeps_bind; [apply keeps_relay_row|]. intros ok w2 _ _. apply IH.
Qed.

Lemma keeps_reconcile w : keeps (reconcile ledgerAuditor) w.
Proof. unfold reconcile, ledgerAuditor, LedgerRepo_GetAllEntries. simpl. keeps_tac. Qed.

(** What the four binaries start: the handling of any request, of any message,
    and the bodies of the polling loops. *)
Inductive process : prog unit → Prop :=
  | process_api r : process (do! _ := NewRouter api_handler r in Ret tt)%prog
  | process_worker_setup : process (do! _ := worker_setup in Ret tt)%prog
  | process_worker subject data : process (do! _ := consume subject data in Ret tt)%prog
  | process_relay : process (do! _ := relay batchSize in Ret tt)%prog
  | process_reconciler : process (do! _ := reconcile ledgerAuditor in Ret tt)%prog.

(** Anything may be started at any time. *)
Definition processes (_ : World) (p : prog unit) : Prop := process p.

Lemma process_safe p w : process p → keeps p w.
Proof.
  intros []; (apply keeps_bind; [|intros; apply keeps_ret]).
  - apply keeps_NewRouter.
  - unfold worker_setup, Consumer_EnsureStream. keeps_tac.
  - apply keeps_consume.
  - apply keeps_relay.
  - apply keeps_reconcile.
Qed.

(** Any run of the system from a good database and no process. *)
Definition system_run w c : Prop := reachable processes E (mkConfig w []) c.

Lemma system_run_ok w c :
  system_run w c → transfers_wf (w_db w) →
  config_ok E inv le c ∧ le_db (w_db w) (w_db (c_world c)).
Proof.
  intros H Hwf. edestruct (reachable_ok E inv le processes) as [Hok Hle]; [|exact H| |].
  - intros p w' Hp _. by apply process_safe.
  - split; [done|]. simpl. intros p Hp. by apply elem_of_nil in Hp.
  - done.
Qed.

Lemma system_later w c c' :
  system_run w c → reachable processes E c c' → transfers_wf (w_db w) →
  transfers_wf (w_db (c_world c)) ∧ transfers_wf (w_db (c_world c')) ∧
  le_db (w_db (c_world c)) (w_db (c_world c')).
Proof.
  intros H H' Hwf. destruct (system_run_ok _ _ H Hwf) as [Hok _].
  edestruct (reachable_ok E inv le processes) as [[Hi _] Hle]; [|exact H' | exact Hok |].
  - intros p w' Hp _. by apply process_safe.
  - destruct Hok as [Hi0 _]. done.
Qed.
End system.

(** ** What holds in every reachable configuration *)
Section theorems.
Context {U : UUIDLib} {L : UUIDLaws U} {R : RedisLib} {N : NatsLib} {M : MuxLib}.

(** C3: in every configuration the system reaches, whatever the interleaving,
    the lost connections, the crashes and the redeliveries, the ledger has
    grown by whole balanced postings only, and the signed total of every
    currency is what it was. *)
Theorem ledger_conserved E w c :
  transfers_wf (w_db w) → system_run E w c →
  (∃ posted, ledger_entries (w_db (c_world c)) = ledger_entries (w_db w) ++ posted ∧
     postings posted) ∧
  ∀ cur, currency_sum cur (ledger_entries (w_db (c_world c))) =
         currency_sum cur (ledger_entries (w_db w)).
Proof.
  intros Hwf Hrun. destruct (system_run_ok E _ _ Hrun Hwf) as [_ Hle].
  destruct (le_ledger _ _ Hle) as (posted & -> & Hp). split; [eauto|].
  intros cur. unfold currency_sum. rewrite sumZ_app.
  pose proof (postings_balanced cur posted Hp) as H. unfold currency_sum in H. lia.
Qed.

(** C4: between any two configurations of a run, every transfer row keeps its
    request and moves along the edges of the state machine, one version per
    transition, the same version meaning the same row, flags and version
    fitting the state; a transfer whose row records that the bank has accepted
    it (BANK_CALLED or later) is never compensated, and a terminal transfer
    never changes. (An acceptance that was lost before the update leaves the
    row DEBITED, from where the next delivery may still compensate.) *)
Theorem transfers_follow_the_machine E w c c' t :
  transfers_wf (w_db w) → system_run E w c → reachable processes E c c' →
  holds (w_db (c_world c)) t → t_State t ∈ State_consts →
  ∃ t', holds (w_db (c_world c')) t' ∧ evolves t t' ∧ transfer_wf t' ∧
    (acknowledged (t_State t) = true → acknowledged (t_State t') = true) ∧
    (terminal (t_State t) = true → t' = t).
Proof.
  intros Hwf Hrun Hlater Ht Hs.
  destruct (system_later E _ _ _ Hrun Hlater Hwf) as (Hwf1 & _ & Hle).
  destruct (holds_wf _ _ Hs Hwf1 Ht) as (Hw & _).
  destruct (le_transfers _ _ Hle _ Ht Hw) as (t' & Ht' & Hw' & He).
  exists t'. split_and!; [done..| |].
  - destruct Hw, Hw'. by apply evolves_acknowledged.
  - by apply evolves_terminal.
Qed.

(** C16: a transfer to the clearing account of its own currency is never
    credited, whatever is delivered to it and however often: both sides of the
    credit posting are that account. Once its row is BANK_CALLED, it stays so for
    ever. *)
Theorem clearing_transfer_never_credited E w c c' t :
  transfers_wf (w_db w) → system_run E w c → reachable processes E c c' →
  holds (w_db (c_world c)) t → t_State t ∈ State_consts →
  to_float t → credited (t_State t) = false →
  ∃ t', holds (w_db (c_world c')) t' ∧ same_request t t' ∧ credited (t_State t') = false ∧
    (t_State t = StateBankCalled → t' = t).
Proof.
  intros Hwf Hrun Hlater Ht Hs Hfl Hcr.
  destruct (system_later E _ _ _ Hrun Hlater Hwf) as (Hwf1 & _ & Hle).
  destruct (holds_wf _ _ Hs Hwf1 Ht) as (Hw & _).
  destruct (le_transfers _ _ Hle _ Ht Hw) as (t' & Ht' & [_ Hlc'] & He). destruct Hw as [_ Hlc].
  pose proof He as (Hsr & Hnot & _). specialize (Hnot Hfl). rewrite Hcr in Hnot.
  assert (credited (t_State t') = false) as Hcr' 
    by (destruct (credited (t_State t')); [by rewrite Hnot | done]).
  exists t'. split_and!; [done..|]. intros Eb. apply evolves_same_version; [done|].
  pose proof (evolves_acknowledged _ _ Hlc Hlc' He) as Ha. rewrite Eb in Ha. specialize (Ha eq_refl).
  unfold lifecycle in *. rewrite Eb in Hlc. destruct (t_State t'); naive_solver lia.
Qed.

(** C14: the event log tells the truth: it only grows, and what it has grown
    by, whatever the interleaving, the faults and the crashes, names a stored
    transfer with its amount and currency, as it is or as it was at an earlier
    version, under the event type that announces the state recorded. *)
Theorem event_log_tells_the_truth E w c c' :
  transfers_wf (w_db w) → system_run E w c → reachable processes E c c' →
  ∃ new,
    transfer_events (w_db (c_world c')) = transfer_events (w_db (c_world c)) ++ new ∧
    Forall (told (w_db (c_world c'))) new.
Proof.
  intros Hwf Hrun Hlater. destruct (system_later E _ _ _ Hrun Hlater Hwf) as (_ & _ & Hle).
  apply (le_events _ _ Hle).
Qed.

(** C5: in every reachable configuration no idempotency key has two transfers,
    and every transfer row is well formed: its text columns parse, flags and
    version fit its state, its accounts exist. *)
Theorem one_transfer_per_key E w c :
  transfers_wf (w_db w) → keys_unique (w_db w) → system_run E w c →
  transfers_wf (w_db (c_world c)) ∧ keys_unique (w_db (c_world c)).
Proof.
  intros Hwf Hk Hrun. destruct (system_run_ok E _ _ Hrun Hwf) as [[Hi _] Hle].
  split; [done|]. by apply (le_keys _ _ Hle).
Qed.
End theorems.
