(* ===== verification/Auditing.v ===== *)
(** * What the reconciler reports

    Its totals are [int64] sums per currency of the entries read back; they
    are compared here with the exact sums of the table's rows. *)
From S2P Require Import Prelude Uuid Money Account Transfer Ledger Json Database CircuitBreaker.
From S2P Require Import Effects Ports Adapters AdapterSpecs Saga Command Http Worker Concurrency.
From S2P Require Import System.

Section auditing.
Context {U : UUIDLib} {L : UUIDLaws U} {R : RedisLib} {N : NatsLib} {M : MuxLib}.

(** ** The totals map *)
Definition in_currency (c : string) (e : LedgerEntry) : Prop := m_Currency (le_Amount e) = c.
#[local] Instance in_currency_dec c e : Decision (in_currency c e).
Proof. unfold in_currency. apply _. Defined.

Lemma fold_totals es m c :
  fold_left add_total es m !! c =
    if decide (Exists (in_currency c) es)
    then Some (wrap64 (default 0 (m !! c) + currency_total c es))
    else m !! c.
Proof.
  revert m. induction es as [|e es IH]; intros m; cbn [fold_left].
  - rewrite decide_False by (by intros ?%Exists_nil). done.
  - rewrite IH. unfold add_total, currency_total. cbn [sumZ]. clear IH.
    destruct (decide (in_currency c e)) as [Hc|Hc].
    + rewrite (decide_True (P := Exists _ (e :: es))) by (by constructor).
      unfold in_currency in Hc. subst c. rewrite lookup_insert_eq.
      rewrite (bool_decide_eq_true_2 (m_Currency (le_Amount e) = _)) by done. simpl.
      case_decide as He; [rewrite wrap64_add_l, Z.add_assoc; done|].
      rewrite sumZ_zero, Z.add_0_r; [done|].
      intros x Hx. rewrite bool_decide_false; [done|]. intros Hn. apply He, Exists_exists. eauto.
    + rewrite lookup_insert_ne by done.
      rewrite (bool_decide_eq_false_2 (m_Currency (le_Amount e) = c)) by done.
      rewrite Z.add_0_l. apply decide_ext. rewrite Exists_cons. tauto.
Qed.

Lemma entry_totals_lookup es c :
  entry_totals es !! c =
    if decide (Exists (in_currency c) es) then Some (wrap64 (currency_total c es)) else None.
Proof. unfold entry_totals. rewrite fold_totals, lookup_empty. done. Qed.

Lemma currency_total_absent es c : ¬ Exists (in_currency c) es → currency_total c es = 0.
Proof.
  intros He. apply sumZ_zero. intros x Hx. rewrite bool_decide_false; [done|].
  intros Hn. apply He, Exists_exists. eauto.
Qed.

(** A currency is reported exactly when its wrapped total is not zero. *)
Lemma drifts_lookup es c z :
  filter (λ p : string * Z, p.2 ≠ 0) (entry_totals es) !! c = Some z ↔
    z ≠ 0 ∧ z = wrap64 (currency_total c es).
Proof.
  rewrite map_lookup_filter_Some, entry_totals_lookup. simpl.
  case_decide as He; [naive_solver|]. rewrite currency_total_absent by done. naive_solver.
Qed.

Lemma no_drift es :
  filter (λ p : string * Z, p.2 ≠ 0) (entry_totals es) = ∅ ↔
    ∀ c, wrap64 (currency_total c es) = 0.
Proof.
  split.
  - intros H c. destruct (decide (wrap64 (currency_total c es) = 0)) as [|Hn]; [done|].
    assert (filter (λ p : string * Z, p.2 ≠ 0) (entry_totals es) !! c =
            Some (wrap64 (currency_total c es))) as Hc by (by apply drifts_lookup).
    rewrite H in Hc. done.
  - intros H. apply map_empty. intros c. apply eq_None_not_Some. intros [z Hz%drifts_lookup].
    rewrite H in Hz. naive_solver.
Qed.

(** ** Entries and rows *)
Definition typed (r : entry_row) : Prop := ent_entry_type r ∈ entry_type_texts.

Lemma SignedAmount_scan r : typed r → wrap64 (SignedAmount (scan_entry r)) = wrap64 (row_signed r).
Proof.
  unfold typed, entry_type_texts. rewrite !elem_of_cons, elem_of_nil.
  unfold SignedAmount, row_signed, scan_entry. simpl.
  intros [->|[->|[]]]; simpl; [by autorewrite with flip_rw | done].
Qed.

Lemma wrap64_sum {A} (f g : A → Z) l :
  (∀ x, x ∈ l → wrap64 (f x) = wrap64 (g x)) → wrap64 (sumZ f l) = wrap64 (sumZ g l).
Proof.
  induction l as [|x l IH]; intros H; simpl; [done|].
  rewrite <- (wrap64_add_l (f x)), <- (wrap64_add_l (g x)), <- wrap64_add_r.
  rewrite <- (wrap64_add_r (wrap64 (g x))). rewrite H, IH by set_solver. done.
Qed.

Lemma scanned_total rows c :
  Forall typed rows →
  wrap64 (currency_total c (map scan_entry rows)) = wrap64 (currency_sum c rows).
Proof.
  intros Ht. unfold currency_total, currency_sum.
  assert (∀ f : LedgerEntry → Z, sumZ f (map scan_entry rows) = sumZ (λ r, f (scan_entry r)) rows) as ->.
  { intros f. clear Ht. induction rows; simpl; congruence. }
  apply wrap64_sum. intros r Hr. simpl. rewrite Forall_forall in Ht.
  case_bool_decide; [by apply SignedAmount_scan, Ht | done].
Qed.

#[export] Instance currency_sum_Permutation c : Proper ((≡ₚ) ==> (=)) (currency_sum c).
Proof. apply sumZ_Permutation. Qed.

Lemma select_all_perm d : select_all_entries d ≡ₚ ledger_entries d.
Proof. apply merge_sort_Permutation. Qed.

Lemma selected_total d c :
  Forall typed (ledger_entries d) →
  wrap64 (currency_total c (map scan_entry (select_all_entries d))) =
  wrap64 (currency_sum c (ledger_entries d)).
Proof.
  intros Ht. rewrite scanned_total; [by rewrite select_all_perm|]. by rewrite select_all_perm.
Qed.

Lemma run_reconcile E w :
  env_fault E (w_tick w) = NoFault →
  let entries := map scan_entry (select_all_entries (w_db w)) in
  let drifts := filter (λ p : string * Z, p.2 ≠ 0) (entry_totals entries) in
  run E (reconcile ledgerAuditor) w =
    (Ok (if bool_decide (drifts = ∅) then ReconciliationOK (length entries) else LedgerDrift drifts),
     tick w).
Proof. intros Hf. simpl. rewrite Hf. simpl. by destruct w. Qed.

Lemma postings_typed l : postings l → Forall typed l.
Proof.
  induction 1 as [|l d c _ IH (Hd & Hc & _)]; [done|].
  apply Forall_app. split; [done|].
  apply Forall_cons; split; [|apply Forall_singleton];
    unfold typed, entry_type_texts; rewrite ?Hd, ?Hc; set_solver.
Qed.
End auditing.

Section theorems.
Context {U : UUIDLib} {L : UUIDLaws U} {R : RedisLib} {N : NatsLib} {M : MuxLib}.

(** C10: a reconciliation that is not cut off reports OK exactly when the
    exact signed total of every currency is a multiple of 2^64, and otherwise
    lists every currency whose total is not, with the total wrapped to 64
    bits. *)
Theorem reconcile_correct E w :
  env_fault E (w_tick w) = NoFault → Forall typed (ledger_entries (w_db w)) →
  ∃ report, run E (reconcile ledgerAuditor) w = (Ok report, tick w) ∧
    match report with
    | ReconciliationOK n =>
        n = length (ledger_entries (w_db w)) ∧
        ∀ c, (2 ^ 64 | currency_sum c (ledger_entries (w_db w)))
    | LedgerDrift drifts =>
        drifts ≠ ∅ ∧
        ∀ c z, drifts !! c = Some z ↔ z ≠ 0 ∧ z = wrap64 (currency_sum c (ledger_entries (w_db w)))
    end.
Proof.
  intros Hf Ht. eexists. split; [by apply run_reconcile|]. case_bool_decide as Hd.
  - rewrite length_map. split; [by rewrite select_all_perm|].
    intros c. apply wrap64_zero. rewrite <- selected_total by done. by apply no_drift.
  - split; [done|]. intros c z. rewrite drifts_lookup, selected_total by done. done.
Qed.

(** C9: if the ledger starts as a list of postings, then after any run of the
    system, with any faults, a reconciliation reports OK with the number of
    entries. *)
Theorem audit_passes_after_any_run E w c :
  transfers_wf (w_db w) → postings (ledger_entries (w_db w)) → system_run E w c →
  env_fault E (w_tick (c_world c)) = NoFault →
  (run E (reconcile ledgerAuditor) (c_world c)).1 =
    Ok (ReconciliationOK (length (ledger_entries (w_db (c_world c))))).
Proof.
  intros Hwf Hp Hrun Hf. destruct (system_run_ok E _ _ Hrun Hwf) as [_ Hle].
  destruct (le_ledger _ _ Hle) as (posted & El & Hposted).
  assert (postings (ledger_entries (w_db (c_world c)))) as Hp'
    by (rewrite El; by apply postings_app).
  rewrite run_reconcile by done. cbn [fst]. rewrite bool_decide_eq_true_2.
  - by rewrite length_map, select_all_perm.
  - apply no_drift. intros cur. rewrite selected_total by (by apply postings_typed).
    by rewrite postings_balanced.
Qed.
End theorems.
