(* ===== verification/Guarantees.v ===== *)
(** * What holds of every call, whatever fails

    GET requests only read; POST never answers 422; an outbox row is marked
    published only after its message reached the stream. *)
From S2P Require Import Prelude Uuid Money Account Transfer Ledger Json Database CircuitBreaker.
From S2P Require Import Effects Ports Adapters AdapterSpecs Saga Command Http Worker Delivery.
From S2P Require Import Calls Concurrency System.

(** Statements and programs that only append to the outbox. *)
Create HintDb appends.

Section reads.
Context {U : UUIDLib} {R : RedisLib} {N : NatsLib} {M : MuxLib}.

(** ** Reading *)
Definition reads X (c : Cmd X) : Prop :=
  match c with
  | Sql f => ∀ d, (f d).2 = d
  | Redis request => ∀ now s, (request now s).2 = s
  | TimeNow | UuidNew => True
  | _ => False
  end.

Definition same_world (w w' : World) : Prop :=
  w_db w' = w_db w ∧ w_redis w' = w_redis w ∧ w_nats w' = w_nats w ∧
  w_breaker w' = w_breaker w ∧ w_bank w' = w_bank w.

Lemma with_fault_reads {S A} f (stmt : S → res A * S) s :
  (stmt s).2 = s → (with_fault f stmt s).2 = s.
Proof. intros H. by destruct f. Qed.

Lemma reads_exec E X (c : Cmd X) w0 w :
  reads X c → same_world w0 w → same_world w0 (exec E c w).2.
Proof.
  intros Hc Hw. destruct c as [| |A f|A request| | | |]; simpl in *; try done; unfold lens.
  - destruct (with_fault _ f _) as [r d] eqn:Er. simpl in *.
    pose proof (with_fault_reads (env_fault E (w_tick w)) f (w_db w) (Hc _)) as Hd.
    rewrite Er in Hd. simpl in Hd. subst d. done.
  - destruct (with_fault _ _ _) as [r s] eqn:Er. simpl in *.
    pose proof (with_fault_reads (env_fault E (w_tick w))
      (λ s, let '(a, s') := request (env_now E (w_tick w)) s in (Ok a, s')) (w_redis w)) as Hs.
    rewrite Er in Hs. simpl in Hs. rewrite Hs; [done|].
    specialize (Hc (env_now E (w_tick w)) (w_redis w)). by destruct (request _ _).
Qed.

Lemma run_reads E {A} (p : prog A) w : all_calls reads p → same_world w (run E p w).2.
Proof.
  intros Hp. eapply (run_all_calls reads (same_world w)); [|exact Hp | done].
  intros X c w'. apply reads_exec.
Qed.

Lemma reads_query {A} (q : DB → A) : reads _ (query q).
Proof. done. Qed.

Lemma get_reads r : req_method r = "GET" → all_calls reads (NewRouter api_handler r).
Proof.
  intros Hm. apply all_calls_NewRouter; [done..|]. intros ctx.
  assert (req_method (WithContext ctx r) = "GET") as Hm' by done. revert Hm'. clear Hm.
  generalize (WithContext ctx r). clear r. intros r Hm.
  unfold routes. destruct (mux_match "/healthz" _); [by calls_tac|].
  destruct (mux_match "/metrics" _); [done|].
  destruct (mux_match "/v1/*" _); [|done].
  unfold idempotencyMiddleware. rewrite bool_decide_true by done.
  unfold v1_routes. cbn [serve_routes]. rewrite Hm.
  change (bool_decide ("POST" = "GET")) with false. change (bool_decide ("GET" = "GET")) with true.
  assert (∀ params, all_calls reads (serve_endpoint api_handler EGetTransfer params r)) as Ht.
  { intros params. simpl. unfold GetTransfer, TransferRepo_FindByID. calls_tac; apply reads_query. }
  assert (∀ params, all_calls reads (serve_endpoint api_handler EGetAccountBalance params r)) as Hb.
  { intros params. simpl. unfold GetAccountBalance, AccountRepo_FindByID, LedgerRepo_GetBalance.
    calls_tac; apply reads_query. }
  repeat case_match; try done; apply Ht || apply Hb.
Qed.
End reads.

(** ** The outbox *)
Section outbox.
Context {U : UUIDLib} {L : UUIDLaws U} {R : RedisLib} {N : NatsLib} {NL : NatsLaws N} {M : MuxLib}.
Context (E : Env).
Implicit Types (w : World) (d : DB) (r : outbox_row).

(** Rows are added with the next number of the sequence, marked, never lost. *)
Definition outbox_wf d : Prop :=
  NoDup (map ob_id (outbox d)) ∧ ∀ r, r ∈ outbox d → ob_id r <= outbox_seq d.
Definition outbox_inv w : Prop :=
  outbox_wf (w_db w) ∧
  ∀ r, r ∈ outbox (w_db w) → ob_status r = PUBLISHED → message r ∈ nats_log (w_nats w).

(** The row numbered as [r] carries the message of [r]. *)
Definition carries d r : Prop :=
  ∃ r', r' ∈ outbox d ∧ ob_id r' = ob_id r ∧ message r' = message r.
Definition outbox_le w w' : Prop :=
  (∃ new, nats_log (w_nats w') = nats_log (w_nats w) ++ new) ∧
  (∀ r, carries (w_db w) r → carries (w_db w') r).

#[export] Instance outbox_le_preorder : PreOrder outbox_le.
Proof.
  split.
  - intros w. split; [exists []; by rewrite app_nil_r | done].
  - intros w1 w2 w3 [(n1 & E1) H1] [(n2 & E2) H2]. split; [|auto].
    exists (n1 ++ n2). by rewrite E2, E1, app_assoc.
Qed.

(** A statement that leaves the outbox alone or appends one pending row. *)
Definition outbox_step d d' : Prop :=
  outbox_seq d <= outbox_seq d' ∧
  (outbox d' = outbox d ∨
   ∃ r, outbox d' = outbox d ++ [r] ∧ ob_status r = PENDING ∧ ob_id r = outbox_seq d' ∧
     outbox_seq d < outbox_seq d').

Definition appends X (c : Cmd X) : Prop :=
  match c with
  | Sql f => ∀ d, outbox_step d (f d).2
  | Nats request => ∀ s, ∃ new, nats_log (request s).2 = nats_log s ++ new
  | _ => True
  end.

Lemma outbox_step_ok d d' s s' w w' :
  w_db w = d → w_db w' = d' → w_nats w = s → w_nats w' = s' →
  outbox_step d d' → (∃ new, nats_log s' = nats_log s ++ new) → outbox_inv w →
  outbox_inv w' ∧ outbox_le w w'.
Proof.
  intros <- <- <- <- [Hseq Hd] [new Hl] [[Hnd Hle] Hp]. destruct Hd as [Ed|(r & Ed & Hs & Hid & Hlt)].
  - split; [split; [split|]|split]; rewrite ?Ed, ?Hl.
    + done.
    + intros r Hr. specialize (Hle r Hr). lia.
    + intros r Hr Hs. apply elem_of_app. left. by apply Hp.
    + eauto.
    + unfold carries. by rewrite Ed.
  - split; [split; [split|]|split]; rewrite ?Ed, ?Hl.
    + rewrite map_app. apply NoDup_app. split_and!; [done | | apply NoDup_singleton].
      intros x (r' & -> & Hr')%list_elem_of_fmap_1. simpl. rewrite list_elem_of_singleton.
      specialize (Hle r' Hr'). lia.
    + intros r' [Hr'| ->%list_elem_of_singleton]%elem_of_app; [specialize (Hle r' Hr')|]; lia.
    + intros r' [Hr'| ->%list_elem_of_singleton]%elem_of_app Hs'; [|congruence].
      apply elem_of_app. left. by apply Hp.
    + eauto.
    + intros r0 (r' & Hr' & ?). exists r'. rewrite Ed. split; [|done]. apply elem_of_app. by left.
Qed.

Lemma outbox_step_refl d : outbox_step d d.
Proof. split; [lia | by left]. Qed.

Lemma with_fault_step {A} f (stmt : DB → res A * DB) d :
  outbox_step d (stmt d).2 → outbox_step d (with_fault f stmt d).2.
Proof. intros H. destruct f; simpl; done || apply outbox_step_refl. Qed.

Lemma appends_exec X (c : Cmd X) w :
  appends X c → outbox_inv w → outbox_inv (exec E c w).2 ∧ outbox_le w (exec E c w).2.
Proof.
  intros Hc Hi.
  assert (∀ w', w_db w' = w_db w → w_nats w' = w_nats w → outbox_inv w' ∧ outbox_le w w') as Hsame.
  { intros w' Hd Hn. eapply outbox_step_ok; try done.
    - rewrite Hd. apply outbox_step_refl.
    - exists []. by rewrite Hn, app_nil_r. }
  destruct c as [| |A f|A request|request| | |]; simpl in *; unfold lens; try by apply Hsame.
  - pose proof (with_fault_step (env_fault E (w_tick w)) f (w_db w) (Hc _)) as Hd. simpl.
    destruct (with_fault _ f (w_db w)) as [r d]. simpl in *.
    eapply outbox_step_ok; try done. exists []. by rewrite app_nil_r.
  - destruct (with_fault _ _ _) as [r s]. by apply Hsame.
  - simpl. destruct (with_fault _ request (w_nats w)) as [r s] eqn:Er. simpl.
    eapply outbox_step_ok; try done; [apply outbox_step_refl|]. simpl.
    destruct (Hc (w_nats w)) as [new Hn].
    destruct (env_fault E (w_tick w)); simpl in Er; [rewrite Er in Hn | simplify_eq ..]; eauto;
      exists []; by rewrite app_nil_r.
  - destruct (CB.acquire _ _). by apply Hsame.
Qed.

(** ** Every program but the relay only appends *)
Lemma appends_query {A} (q : DB → A) : appends _ (query q).
Proof. intros d. apply outbox_step_refl. Qed.
Lemma appends_sql_same {A} (f : DB → res A * DB) :
  (∀ d, outbox (f d).2 = outbox d ∧ outbox_seq (f d).2 = outbox_seq d) → appends _ (Sql f).
Proof. intros Hf d. destruct (Hf d) as [E1 E2]. split; [lia | by left]. Qed.
Lemma appends_outbox subject payload now : appends _ (Sql (insert_outbox subject payload now)).
Proof.
  intros d. destruct payload as [p|]; split; simpl; try lia; [|by left].
  right. eexists. split; [done|]. simpl. split_and!; done || lia.
Qed.
Lemma appends_publish subject payload : appends _ (Nats (nats_publish subject payload)).
Proof.
  intros s. destruct (decide (subject ∈ nats_subjects s)) as [Hb|Hb].
  - destruct (nats_publish_bound subject payload s Hb) as (_ & -> & _). eauto.
  - destruct (nats_publish_unbound subject payload s Hb) as [e ->]. exists []. by rewrite app_nil_r.
Qed.
Lemma appends_ensure subjects : appends _ (Nats (nats_ensure subjects)).
Proof.
  intros s. destruct (nats_ensure_subjects subjects s) as (_ & _ & ->). exists []. by rewrite app_nil_r.
Qed.

Lemma appends_insert_transfer (r : transfer_row) : appends _ (Sql (insert_transfer r)).
Proof.
  apply appends_sql_same. intros d.
  by destruct (insert_transfer_inv r d) as [[e ->]|(cur & -> & _)].
Qed.
Lemma appends_update_transfer u : appends _ (Sql (update_transfer u)).
Proof. apply appends_sql_same. intros d. unfold update_transfer. repeat case_match; done. Qed.
Lemma appends_insert_event (r : event_row) : appends _ (Sql (insert_event r)).
Proof. apply appends_sql_same. intros d. unfold insert_event. repeat case_match; done. Qed.
Lemma appends_commit rows : appends _ (Sql (commit_entries rows)).
Proof. apply appends_sql_same. intros d. unfold commit_entries. by case_bool_decide. Qed.

Hint Resolve appends_query appends_outbox appends_publish appends_ensure appends_insert_transfer
  appends_update_transfer appends_insert_event appends_commit : appends.
Ltac appends_tac := repeat first [solve [eauto with appends] | exact I | calls_step].
Abbreviation append := (all_calls appends).

Lemma appends_insert_entries es pending : append (insert_entries pending es).
Proof.
  revert pending. induction es as [|e es IH]; intros pending; cbn [insert_entries]; [done|].
  apply all_calls_attempt; [|intros; apply IH]. apply all_calls_call, appends_sql_same. done.
Qed.
Lemma appends_PostEntries es : append (LedgerRepo_PostEntries es).
Proof.
  apply all_calls_attempt; [by appends_tac|]. intros _.
  apply all_calls_attempt; [apply appends_insert_entries|]. intros rows. by appends_tac.
Qed.
Lemma appends_UpdateState t : append (TransferRepo_UpdateState t).
Proof. unfold TransferRepo_UpdateState. by appends_tac. Qed.
Lemma appends_publishEvent t typ : append (publishEvent worker_deps t typ).
Proof. unfold publishEvent. by appends_tac. Qed.
Lemma appends_transition t next : append (transition t next).
Proof. unfold transition. by appends_tac. Qed.
Lemma appends_new_posting src dst m desc : append (new_posting src dst m desc).
Proof. unfold new_posting. by appends_tac. Qed.
Hint Resolve appends_PostEntries appends_UpdateState appends_publishEvent appends_transition
  appends_new_posting : appends.

Lemma appends_failWith t reason : append (failWith worker_deps t reason).
Proof. unfold failWith. by appends_tac. Qed.
Lemma appends_compensate t : append (compensate worker_deps t).
Proof.
  unfold compensate, reverseDebit, reverseCredit.
  appends_tac; apply appends_failWith.
Qed.
Hint Resolve appends_failWith appends_compensate : appends.

Lemma appends_FindByID id : append (TransferRepo_FindByID id).
Proof. unfold TransferRepo_FindByID. by appends_tac. Qed.

Lemma appends_Execute id : append (Execute worker_deps id).
Proof.
  unfold Execute. apply all_calls_attempt; [apply appends_FindByID|].
  intros t. destruct (t_State t); simpl steps; cbv iota; cbn [step_execute]; try exact I.
  - unfold reserveDebit. appends_tac.
  - unfold callBank, startCompensation. appends_tac.
  - unfold postCredit. appends_tac.
  - unfold complete. appends_tac.
  - apply appends_compensate.
Qed.

Lemma appends_api : api_calls appends.
Proof.
  split; try done; intros; eauto with appends.
Qed.

Lemma append_safe {A} (p : prog A) w : append p → safe E outbox_inv outbox_le p (λ _ _, True) w.
Proof. intros Hp. eapply safe_all_calls; [exact appends_exec | exact Hp]. Qed.

(** ** The relay marks what it has sent *)
Lemma carries_later w w' r : outbox_le w w' → carries (w_db w) r → carries (w_db w') r.
Proof. intros [_ H]. apply H. Qed.

Lemma mark_published_inv w w' r :
  outbox_inv w → carries (w_db w) r → message r ∈ nats_log (w_nats w) →
  w_db w' = (mark_published (ob_id r) (w_db w)).2 → w_nats w' = w_nats w →
  outbox_inv w' ∧ outbox_le w w'.
Proof.
  intros [[Hnd Hle] Hp] (r' & Hr' & Hid & Hm) Hlog Hd Hn.
  assert (∀ r0, ob_id (mark_row (ob_id r) r0) = ob_id r0 ∧ message (mark_row (ob_id r) r0) = message r0)
    as Hsame by (intros r0; unfold mark_row; by case_bool_decide).
  assert (map ob_id (outbox (w_db w')) = map ob_id (outbox (w_db w))) as Hids.
  { rewrite Hd. simpl. rewrite map_map. apply map_ext. intros r0. apply Hsame. }
  split; [split; [split|]|split].
  - by rewrite Hids.
  - intros r0 Hr0. rewrite Hd in Hr0. simpl in Hr0. apply list_elem_of_fmap_1 in Hr0 as (r1 & -> & Hr1).
    destruct (Hsame r1) as [-> _]. rewrite Hd. by apply Hle.
  - intros r0 Hr0 Hs. rewrite Hd in Hr0. simpl in Hr0. apply list_elem_of_fmap_1 in Hr0 as (r1 & -> & Hr1).
    destruct (Hsame r1) as [_ ->]. rewrite Hn. unfold mark_row in Hs. case_bool_decide as Hb; [|by apply Hp].
    assert (r1 = r') as ->; [|by rewrite Hm].
    eapply (NoDup_map_inj ob_id); [exact Hnd | done | done |]. congruence.
  - exists []. by rewrite Hn, app_nil_r.
  - intros r0 (r1 & Hr1 & H1 & H2). exists (mark_row (ob_id r) r1).
    destruct (Hsame r1) as [-> ->]. split; [|done]. rewrite Hd. simpl. by apply list_elem_of_fmap_2.
Qed.

Abbreviation safe := (Effects.safe E outbox_inv outbox_le).

Lemma safe_publish r (Q : res unit → World → Prop) w :
  (∀ x w', outbox_le w w' → outbox_inv w' →
     (x = Ok tt → message r ∈ nats_log (w_nats w')) → Q x w') →
  safe (Publisher_Publish (ob_subject r) (ob_payload r)) Q w.
Proof.
  intros HQ. apply safe_attempt; [apply _|]. intros w1 Hle1 Hi1.
  pose proof (appends_exec _ (Nats (nats_publish (ob_subject r) (ob_payload r))) w1
    (appends_publish _ _) Hi1) as Hstep.
  destruct (exec E (Nats _) w1) as [x w2] eqn:He. cbn [snd] in Hstep. destruct Hstep as [Hi2 Hle2].
  split_and!; [done..|].
  assert (x = Ok tt → message r ∈ nats_log (w_nats w2)) as Hsent.
  { intros ->. simpl in He. unfold lens in He. simpl in He.
    destruct (env_fault E (w_tick w1)); simpl in He; [|by simplify_eq..].
    destruct (decide (ob_subject r ∈ nats_subjects (w_nats w1))) as [Hb|Hb].
    - destruct (nats_publish_bound _ (ob_payload r) _ Hb) as (H1 & H2 & _).
      destruct (nats_publish _ _ (w_nats w1)) as [a s]. simplify_eq/=. rewrite H2.
      apply elem_of_app. right. by apply list_elem_of_singleton.
    - destruct (nats_publish_unbound _ (ob_payload r) _ Hb) as [e H1]. rewrite H1 in He. by simplify_eq. }
  intros w3 Hle3 Hi3. destruct x as [[]|e]; intros w4 Hle4 Hi4.
  - apply HQ; [by repeat (etrans; [done|]) | done |]. intros _.
    destruct Hle3 as [[n3 E3] _], Hle4 as [[n4 E4] _]. rewrite E4, E3, !elem_of_app. auto.
  - apply HQ; [by repeat (etrans; [done|]) | done | done].
Qed.

Lemma safe_relay_row r w : carries (w_db w) r → safe (relay_row r) (λ _ _, True) w.
Proof.
  intros Hc. apply safe_bind; [apply _|]. apply safe_publish. intros x w1 Hle1 Hi1 Hsent.
  destruct x as [[]|e]; [|done]. apply safe_bind; [apply _|].
  intros w2 Hle2 Hi2.
  assert (carries (w_db w2) r) as Hc2 by (apply (carries_later w1), (carries_later w); done).
  assert (message r ∈ nats_log (w_nats w2)) as Hlog.
  { destruct Hle2 as [[n E2] _]. rewrite E2, elem_of_app. auto. }
  simpl. unfold lens. cbn [w_db tick].
  destruct (env_fault E _); cbn [with_fault mark_published].
  - destruct (mark_published_inv w2 (set_db (mark_published (ob_id r) (w_db w2)).2 (tick w2)) r) as [Hi' Hle'];
      [done.. | ]. split_and!; [exact Hi' | exact Hle' | done].
  - split; [exact Hi2|]. split; [|done]. split; [exists []; by rewrite app_nil_r | done].
  - destruct (mark_published_inv w2 (set_db (mark_published (ob_id r) (w_db w2)).2 (tick w2)) r) as [Hi' Hle'];
      [done.. | ]. split_and!; [exact Hi' | exact Hle' | done].
  - split; [exact Hi2|]. split; [|done]. split; [exists []; by rewrite app_nil_r | done].
Qed.

Lemma safe_relay_rows rows n w :
  Forall (carries (w_db w)) rows → safe (relay_rows rows n) (λ _ _, True) w.
Proof.
  revert n w. induction rows as [|r rows IH]; intros n w Hc; cbn [relay_rows]; [done|].
  apply Forall_cons in Hc as [Hr Hc]. apply safe_bind; [apply _|].
  eapply safe_mono; [apply _ | by apply safe_relay_row |]. intros ok w' Hle _ _. apply IH.
  eapply Forall_impl; [exact Hc|]. intros r'. by apply carries_later.
Qed.

Lemma safe_relay batch w : safe (relay batch) (λ _ _, True) w.
Proof.
  apply safe_attempt; [apply _|]. intros w1 _ Hi1.
  pose proof (appends_exec _ (query (select_pending batch)) w1 (appends_query _) Hi1) as Hstep.
  destruct (exec E (query _) w1) as [x w2] eqn:He. cbn [snd] in Hstep. destruct Hstep as [Hi2 Hle2].
  split_and!; [done..|]. intros w3 Hle3 Hi3.
  destruct x as [rows|e]; [|done]. apply safe_bind; [apply _|].
  eapply safe_mono; [apply _ | apply safe_relay_rows | done].
  simpl in He. unfold lens in He. simpl in He.
  destruct (env_fault E (w_tick w1)); simpl in He; simplify_eq.
  apply Forall_forall. intros r Hr. apply (carries_later w1); [by etrans|].
  unfold select_pending in Hr. apply elem_of_take in Hr as (i & Hr & _).
  apply list_elem_of_lookup_2, list_elem_of_filter in Hr as [_ Hr]. by exists r.
Qed.

Lemma outbox_process p w : process p → safe p (λ _ _, True) w.
Proof.
  intros [r| |subject data| |];
    [apply append_safe, all_calls_bind; [|done].. | | apply append_safe, all_calls_bind; [|done]].
  - apply all_calls_api, appends_api.
  - unfold worker_setup, Consumer_EnsureStream. appends_tac.
  - apply all_calls_bind; [|done]. apply all_calls_attempt; [done|]. intros id. apply appends_Execute.
  - apply safe_bind; [apply _|]. eapply safe_mono; [apply _ | apply safe_relay | done].
  - unfold reconcile, ledgerAuditor, LedgerRepo_GetAllEntries. simpl la_GetAllEntries. appends_tac.
Qed.

Lemma outbox_run_ok w c c' :
  outbox_inv w → system_run E w c → reachable processes E c c' →
  outbox_inv (c_world c) ∧ outbox_inv (c_world c') ∧ outbox_le (c_world c) (c_world c').
Proof.
  intros Hi Hrun Hlater.
  assert (∀ p w', processes w' p → outbox_inv w' → safe p (λ _ _, True) w') as Hp
    by (intros; by apply outbox_process).
  edestruct (reachable_ok E outbox_inv outbox_le processes Hp) as [Hok _]; [exact Hrun | |].
  { split; [done|]. intros q Hq. by apply elem_of_nil in Hq. }
  edestruct (reachable_ok E outbox_inv outbox_le processes Hp) as [[Hi' _] Hle];
    [exact Hlater | exact Hok |]. by destruct Hok.
Qed.
End outbox.

(** ** The errors of creation *)
Section errors.
Context {U : UUIDLib} {L : UUIDLaws U} {R : RedisLib} {N : NatsLib}.

(** Neither of the errors the handler maps to 422. *)
Definition not_422 (e : error) : Prop :=
  errors_Is e ErrInsufficientFunds = false ∧ errors_Is e ErrIdempotencyKeyReused = false.

(** Every error a program may end with, in any environment. *)
Definition errs {A} (p : prog (res A)) : Prop := ∀ E w e, (run E p w).1 = Err e → not_422 e.

Lemma errs_attempt {A B} f (p : prog (res A)) (k : A → prog (res B)) :
  (∀ e, not_422 e → not_422 (f e)) → errs p → (∀ a, errs (k a)) → errs (attempt f p k).
Proof.
  intros Hf Hp Hk E w e. rewrite run_attempt. specialize (Hp E w).
  destruct (run E p w) as [[a|e'] w']; [apply Hk|]. simpl. intros [= <-]. apply Hf. by apply Hp.
Qed.
Lemma errs_bind {A B} (p : prog A) (k : A → prog (res B)) : (∀ a, errs (k a)) → errs (bind p k).
Proof. intros Hk E w e. rewrite run_bind. destruct (run E p w). apply Hk. Qed.
Lemma errs_ret {A} (r : res A) : (∀ e, r = Err e → not_422 e) → errs (Ret r).
Proof. intros Hr E w e. apply Hr. Qed.
Lemma errs_sql {A} (f : DB → res A * DB) : (∀ d e, (f d).1 = Err e → not_422 e) → errs (call (Sql f)).
Proof.
  intros Hf E w e. simpl. unfold lens. specialize (Hf (w_db w)). simpl.
  destruct (env_fault E _); simpl; [|by intros [= <-]..].
  destruct (f (w_db w)) as [r d]. apply Hf.
Qed.
Lemma errs_redis {A} (request : Z → redis_state → A * redis_state) : errs (call (Redis request)).
Proof.
  intros E w e. simpl. unfold lens. simpl.
  destruct (env_fault E _); simpl; [|by intros [= <-]..]. by destruct (request _ _).
Qed.

Lemma not_422_wrap p e : not_422 e → not_422 (errorf_w p e).
Proof. done. Qed.
Lemma parse_not_422 s e : ParseAccountID s = Err e → not_422 e.
Proof.
  unfold ParseAccountID. destruct (uuid_Parse s) as [u|e'] eqn:Hp; [done|]. intros [= <-].
  split; simpl; by eapply uuid_Parse_error.
Qed.
Lemma members_not_422 {A} (set : json → A → option A) name l v e :
  get_field set name l v = Err e → not_422 e.
Proof.
  revert v. induction l as [|[k j] l IH]; intros v; simpl; [done|].
  destruct (key_matches name k); [|apply IH]. destruct (set j v); [apply IH|]. by intros [= <-].
Qed.

Lemma errs_FindByID id : errs (AccountRepo_FindByID id).
Proof.
  apply errs_attempt; [done | by apply errs_sql |]. intros row. apply errs_ret. intros e.
  destruct row as [r|]; simpl; [|by intros [= <-]].
  destruct (ParseAccountID (acc_id r)) eqn:Hp; simpl; [done|]. intros [= <-]. by eapply parse_not_422.
Qed.
Lemma CanTransact_not_422 a e : CanTransact a = Err e → not_422 e.
Proof. unfold CanTransact. destruct (a_Status a); by intros [= <-]. Qed.

Lemma decode_not_422 text e : res_bind (Unmarshal text) result_of_json = Err e → not_422 e.
Proof.
  unfold Unmarshal. repeat case_match; simpl; try by intros [= <-].
  unfold result_of_json. destruct (members j) as [l|e'] eqn:Hm; simpl.
  - destruct (string_field "transfer_id" l) eqn:Hf1; simpl; [|intros [= <-]; by eapply members_not_422].
    destruct (string_field "state" l) eqn:Hf2; simpl; [|intros [= <-]; by eapply members_not_422].
    destruct (bool_field "cached" l) eqn:Hf3; simpl; [done | intros [= <-]; by eapply members_not_422].
  - intros [= <-]. unfold members in Hm. destruct j; by simplify_eq.
Qed.

Lemma Transfer_New_not_422 now id key src dst amount e :
  Transfer_New now id key src dst amount = Err e → not_422 e.
Proof.
  unfold Transfer_New. destruct (bool_decide _); [by intros [= <-]|].
  destruct (Money.Validate amount) as [u|e'] eqn:Hv.
  - destruct (Money.IsZero amount); [by intros [= <-]|].
    destruct (bool_decide _); [by intros [= <-] | done].
  - intros [= <-]. unfold Money.Validate in Hv.
    destruct (_ <? _); [by simplify_eq|]. case_bool_decide; by simplify_eq.
Qed.

Lemma errs_Handle cmd : errs (Handle createTransferCmd cmd).
Proof.
  unfold Handle, checkIdempotency, validateAccounts, cacheResult.
  apply errs_attempt; [done| |intros [cached|]]; [| by apply errs_ret |].
  { apply errs_attempt; [done| |intros [text|]; [|by apply errs_ret]].
    - apply errs_attempt; [done | apply errs_redis | intros; by apply errs_ret].
    - apply errs_attempt; [done | apply errs_ret, decode_not_422 | intros; by apply errs_ret]. }
  apply errs_attempt; [done | apply errs_ret, parse_not_422 | intros src].
  apply errs_attempt; [done | apply errs_ret, parse_not_422 | intros dst].
  apply errs_attempt; [done| |intros _].
  { apply errs_attempt; [done | apply errs_FindByID | intros a1].
    apply errs_attempt; [done | apply errs_ret, CanTransact_not_422 | intros _].
    apply errs_attempt; [done | apply errs_FindByID | intros a2]. apply errs_ret, CanTransact_not_422. }
  apply errs_attempt; [done| |intros amount].
  { apply errs_ret. unfold Money.New. intros e. destruct (_ <? _); by intros [= <-]. }
  apply errs_bind. intros fresh. apply errs_bind. intros now.
  apply errs_attempt; [done| |intros t].
  { apply errs_ret, Transfer_New_not_422. }
  apply errs_attempt; [done| |intros _].
  { apply errs_attempt; [done| |intros; by apply errs_ret]. apply errs_sql. intros d e.
    unfold insert_transfer. repeat case_match; by intros [= <-]. }
  apply errs_bind. intros fresh'. apply errs_bind. intros now'.
  apply errs_attempt; [done| |intros _].
  { apply errs_sql. intros d e. unfold insert_event. repeat case_match; by intros [= <-]. }
  apply errs_attempt; [done| |intros _].
  { apply errs_bind. intros now''. apply errs_attempt; [done| |intros; by apply errs_ret].
    apply errs_sql. intros d e. unfold insert_outbox. repeat case_match; by intros [= <-]. }
  apply errs_attempt; [done| |intros; by apply errs_ret].
  apply errs_attempt; [done| |intros; by apply errs_ret].
  apply errs_attempt; [done | apply errs_redis | intros; by apply errs_ret].
Qed.
(** The statuses of POST /v1/transfers: the 422 of the documentation is never
    sent. *)
Lemma create_statuses E r w :
  resp_status (answered (run E (CreateTransfer api_handler r) w).1) ∈
    [StatusOK; StatusAccepted; StatusBadRequest; StatusNotFound; StatusInternalServerError].
Proof.
  unfold CreateTransfer. destruct (decode_request _) as [req|e]; [|simpl; set_solver].
  rewrite run_bind. simpl hd_createTransfer.
  pose proof (errs_Handle (mkCreateTransferCmd (idempotencyKeyFromCtx (req_ctx r)) (ctr_SourceAccountID req)
    (ctr_DestAccountID req) (ctr_Amount req) (ctr_Currency req)) E w) as Herr.
  destruct (run E (Handle _ _) w) as [[result|e] w']; simpl.
  - destruct (r_Cached result); set_solver.
  - destruct (Herr e eq_refl) as [H1 H2]. unfold handleDomainError. rewrite H1, H2.
    destruct (errors_Is e ErrAccountNotFound); set_solver.
Qed.
End errors.

Section theorems.
Context {U : UUIDLib} {L : UUIDLaws U} {R : RedisLib} {N : NatsLib} {NL : NatsLaws N} {M : MuxLib}.

(** C20: a GET request, whatever its path and whatever fails, leaves the
    database, the cache, the stream, the breaker and the bank as they were. *)
Theorem get_only_reads E r w :
  req_method r = "GET" → same_world w (run E (NewRouter api_handler r) w).2.
Proof. intros Hm. by apply run_reads, get_reads. Qed.

(** C6: in every reachable configuration an outbox row marked PUBLISHED has
    had its message captured by the stream, and no outbox row is ever lost or
    changes its message: delivery is at least once. *)
Theorem published_means_sent E w c c' r :
  outbox_inv w → system_run E w c → reachable processes E c c' → r ∈ outbox (w_db (c_world c)) →
  (ob_status r = PUBLISHED → message r ∈ nats_log (w_nats (c_world c))) ∧
  ∃ r', r' ∈ outbox (w_db (c_world c')) ∧ ob_id r' = ob_id r ∧ message r' = message r.
Proof.
  intros Hi Hrun Hlater Hr. destruct (outbox_run_ok E _ _ _ Hi Hrun Hlater) as ([_ Hp] & _ & _ & Hle).
  split; [by apply Hp|]. apply Hle. by exists r.
Qed.
End theorems.
