(* ===== verification/Closed.v ===== *)
(** * The closed system: the worker gets what the stream captured

    [System] hands the worker any message at all, which is what the safety
    theorems want. Here a message handled by the worker is one that the stream
    has captured, and the stream captures what the relay publishes. The message
    of the CreateTransfer command being unreadable, the saga of a transfer
    created over HTTP never begins. *)
From S2P Require Import Prelude Uuid Money Account Transfer Ledger Json Database CircuitBreaker.
From S2P Require Import Effects Ports Adapters AdapterSpecs Saga Command Http Worker Delivery.
From S2P Require Import Calls Concurrency System Guarantees.

Section closed.
Context {U : UUIDLib} {L : UUIDLaws U} {R : RedisLib} {N : NatsLib} {NL : NatsLaws N} {M : MuxLib}.
Implicit Types (w : World) (d : DB).

Inductive closed_process w : prog unit → Prop :=
  | closed_api r : closed_process w (do! _ := NewRouter api_handler r in Ret tt)%prog
  | closed_worker_setup : closed_process w (do! _ := worker_setup in Ret tt)%prog
  | closed_worker subject data :
      (subject, data) ∈ nats_log (w_nats w) →
      closed_process w (do! _ := consume subject data in Ret tt)%prog
  | closed_relay : closed_process w (do! _ := relay batchSize in Ret tt)%prog
  | closed_reconciler : closed_process w (do! _ := reconcile ledgerAuditor in Ret tt)%prog.

Lemma closed_process_process w p : closed_process w p → process p.
Proof. intros []; constructor. Qed.

(** A message that no worker can read. *)
Definition dead (payload : string) : Prop := ∃ e, message_transfer_id payload = Err e.

(** No saga has begun, and no message at hand could begin one. *)
Definition unstarted_db d : Prop :=
  (∀ k r, transfers d !! k = Some r → tr_state r = State_text StatePending) ∧
  Forall (λ r, dead (ob_payload r)) (outbox d).
Definition unstarted w : Prop :=
  unstarted_db (w_db w) ∧ Forall (λ m, dead m.2) (nats_log (w_nats w)).

(** The ledger and the transfers there were are as they were. *)
Definition untouched_db d d' : Prop :=
  ledger_entries d' = ledger_entries d ∧ transfers d ⊆ transfers d'.
Definition untouched w w' : Prop := untouched_db (w_db w) (w_db w').
#[local] Instance untouched_db_preorder : PreOrder untouched_db.
Proof. split; [done|]. intros d1 d2 d3 [E1 H1] [E2 H2]. split; [congruence | by etrans]. Qed.
#[local] Instance untouched_preorder : PreOrder untouched.
Proof. unfold untouched. split; intros w1; intros; [done | by etrans]. Qed.

(** The calls that begin nothing. *)
Definition idle X (c : Cmd X) : Prop :=
  match c with
  | Sql f => ∀ d, unstarted_db d → unstarted_db (f d).2 ∧ untouched_db d (f d).2
  | Nats request => ∀ s, Forall (λ m, dead m.2) (nats_log s) →
      Forall (λ m, dead m.2) (nats_log (request s).2)
  | _ => True
  end.

Lemma idle_exec E X (c : Cmd X) w :
  idle X c → unstarted w → unstarted (exec E c w).2 ∧ untouched w (exec E c w).2.
Proof.
  intros Hc [Hd Hm].
  assert (∀ w', w_db w' = w_db w → w_nats w' = w_nats w → unstarted w' ∧ untouched w w') as Hsame.
  { unfold unstarted, untouched. by intros w' -> ->. }
  destruct c as [| |A f|A request|request| | |]; simpl in *; unfold lens; try by apply Hsame.
  - simpl. destruct (Hc (w_db w) Hd) as [Hd' Hu].
    destruct (env_fault E (w_tick w)); simpl; try (by apply Hsame);
      destruct (f (w_db w)) as [r d]; by split.
  - destruct (with_fault _ _ _) as [r s]. by apply Hsame.
  - simpl. specialize (Hc (w_nats w) Hm).
    destruct (env_fault E (w_tick w)); simpl; try (by apply Hsame);
      destruct (request (w_nats w)) as [r s]; by split.
  - destruct (CB.acquire _ _). by apply Hsame.
Qed.

(** ** The calls of the processes *)
Lemma idle_query {A} (q : DB → A) : idle _ (query q).
Proof. done. Qed.
Lemma idle_insert_transfer t : t_State t = StatePending → idle _ (Sql (insert_transfer (transfer_to_row t))).
Proof.
  intros Hs d [Hp Ho]. destruct (insert_transfer_inv (transfer_to_row t) d)
    as [[e ->]|(cur & -> & _ & Hnew & _)]; [done|]. split; [split; [|done]|split; [done|]].
  - intros k r. simpl. rewrite lookup_insert_Some. intros [[<- <-]|[_ Hr]]; [|by eapply Hp].
    simpl. by rewrite Hs.
  - by apply insert_subseteq.
Qed.
Lemma idle_insert_event (r : event_row) : idle _ (Sql (insert_event r)).
Proof. intros d Hd. unfold insert_event. repeat case_match; done. Qed.
Lemma idle_insert_outbox subject payload now :
  (∀ p, payload = Some p → dead p) → idle _ (Sql (insert_outbox subject payload now)).
Proof.
  intros Hp d [Ht Ho]. destruct payload as [p|]; [|done]. split; [|done]. split; [done|]. simpl.
  apply Forall_app. split; [done|]. constructor; [|constructor]. by apply Hp.
Qed.
Lemma idle_mark_published id : idle _ (Sql (mark_published id)).
Proof.
  intros d [Ht Ho]. split; [|done]. split; [done|]. simpl. apply Forall_map.
  eapply Forall_impl; [exact Ho|]. intros r Hr. unfold mark_row. by case_bool_decide.
Qed.
Lemma idle_publish subject payload : dead payload → idle _ (Nats (nats_publish subject payload)).
Proof.
  intros Hp s Hs. destruct (decide (subject ∈ nats_subjects s)) as [Hb|Hb].
  - destruct (nats_publish_bound subject payload s Hb) as (_ & -> & _).
    apply Forall_app. by repeat constructor.
  - by destruct (nats_publish_unbound subject payload s Hb) as [e ->].
Qed.
Lemma idle_ensure subjects : idle _ (Nats (nats_ensure subjects)).
Proof. intros s Hs. by destruct (nats_ensure_subjects subjects s) as (_ & _ & ->). Qed.

Create HintDb idle.
Hint Resolve idle_query idle_insert_event idle_ensure idle_mark_published : idle.
Ltac idle_tac := repeat first [solve [eauto with idle] | exact I | calls_step].

Lemma idle_api : api_calls idle.
Proof.
  split; try done; try (intros; eauto with idle; fail).
  - intros now id key src dst amount t (_ & _ & _ & _ & ->)%Transfer_New_ok _.
    by apply idle_insert_transfer.
  - intros. by apply idle_insert_outbox.
Qed.

Lemma idle_relay_rows rows n :
  Forall (λ r, dead (ob_payload r)) rows → all_calls idle (relay_rows rows n).
Proof.
  intros Hr. revert n. induction Hr as [|r rows Hd _ IH]; intros n; cbn [relay_rows]; [done|].
  apply all_calls_bind; [|intros ok; apply IH].
  unfold relay_row, Publisher_Publish. apply all_calls_bind; [|intros [?|?]; idle_tac].
  apply all_calls_attempt; [|done]. by apply all_calls_call, idle_publish.
Qed.

(** ** The processes *)
Context (E : Env).
Abbreviation safe := (Effects.safe E unstarted untouched).

Lemma idle_safe {A} (p : prog A) w : all_calls idle p → safe p (λ _ _, True) w.
Proof. intros Hp. eapply safe_all_calls; [exact (idle_exec E) | exact Hp]. Qed.

Lemma unstarted_relay batch w : safe (relay batch) (λ _ _, True) w.
Proof.
  apply safe_attempt; [apply _|]. intros w1 _ Hi1.
  pose proof (idle_exec E _ (query (select_pending batch)) w1 (idle_query _) Hi1) as Hstep.
  destruct (exec E (query _) w1) as [x w2] eqn:He. cbn [snd] in Hstep. destruct Hstep as [Hi2 Hle2].
  split_and!; [done..|]. intros w3 Hle3 Hi3. destruct x as [rows|e]; [|done].
  apply idle_safe, all_calls_bind; [apply idle_relay_rows | done].
  simpl in He. unfold lens in He. simpl in He.
  destruct (env_fault E (w_tick w1)); simpl in He; simplify_eq.
  destruct Hi1 as [[_ Ho] _]. unfold select_pending.
  apply Forall_take, Forall_forall. intros r [_ Hr]%list_elem_of_filter.
  by eapply Forall_forall in Ho.
Qed.

Lemma closed_process_safe p w : closed_process w p → unstarted w → safe p (λ _ _, True) w.
Proof.
  intros Hp [_ Hm]. destruct Hp as [r| |subject data Hin| |].
  - apply idle_safe, all_calls_bind; [apply all_calls_api, idle_api | done].
  - apply idle_safe. unfold worker_setup, Consumer_EnsureStream. idle_tac.
  - eapply Forall_forall in Hm; [|exact Hin]. destruct Hm as [e He].
    unfold consume, worker_handler. simpl in He. rewrite He. done.
  - apply safe_bind; [apply _|]. eapply safe_mono; [apply _ | apply unstarted_relay | done].
  - apply idle_safe. unfold reconcile, ledgerAuditor. cbn [la_GetAllEntries].
    unfold LedgerRepo_GetAllEntries. idle_tac.
Qed.

(** C27: when the worker only gets messages the stream has captured, and the
    system starts with no message of a saga in outbox or stream, then in every
    configuration it reaches, with any requests, interleaving, faults and
    crashes, every transfer is PENDING and the ledger is as it was: the
    transfers created over HTTP are never started. *)
Theorem created_transfers_never_start w c :
  unstarted w → reachable closed_process E (mkConfig w []) c →
  ledger_entries (w_db (c_world c)) = ledger_entries (w_db w) ∧
  transfers (w_db w) ⊆ transfers (w_db (c_world c)) ∧
  ∀ k r, transfers (w_db (c_world c)) !! k = Some r → tr_state r = State_text StatePending.
Proof.
  intros Hw Hrun.
  edestruct (reachable_ok E unstarted untouched closed_process) as [[[[Hp _] _] _] [Hl Ht]];
    [|exact Hrun| |].
  - intros p w' Hp Hw'. by apply closed_process_safe.
  - split; [done|]. simpl. intros p Hp. by apply elem_of_nil in Hp.
  - done.
Qed.
End closed.
