(* ===== verification/Sequential.v ===== *)
(** * One process at a time, no faults

    A weakest-precondition calculus for [run], and what each adapter does when
    every call succeeds, the clock can be marshalled, and fresh UUIDs are
    fresh. There are finitely many UUIDs: those drawn by the calls up to a
    horizon [lim] are assumed distinct, and [wp] speaks of the runs that end
    by then. *)
From S2P Require Import Prelude Uuid Money Account Transfer Ledger Json Database CircuitBreaker.
From S2P Require Import Effects Ports Adapters AdapterSpecs Saga Command Worker Delivery.

Section wp.
Context {U : UUIDLib} {R : RedisLib} {N : NatsLib}.
Context (E : Env) (lim : nat).

(** ** The calculus *)
Definition wp {A} (p : prog A) (Q : A → World → Prop) (w : World) : Prop :=
  (w_tick (run E p w).2 <= lim)%nat → Q (run E p w).1 (run E p w).2.

Lemma wp_ret {A} (a : A) (Q : A → World → Prop) w : Q a w → wp (Ret a) Q w.
Proof. by intros ? ?. Qed.
Lemma wp_bind {A B} (p : prog A) (f : A → prog B) Q w :
  wp p (λ a w', wp (f a) Q w') w → wp (bind p f) Q w.
Proof.
  unfold wp. rewrite run_bind. destruct (run E p w) as [a w1]. cbn [fst snd]. intros Hp Hl.
  apply Hp; [|done]. etrans; [apply (run_tick E (f a)) | exact Hl].
Qed.
Lemma wp_mono {A} (p : prog A) (Q Q' : A → World → Prop) w :
  wp p Q w → (∀ a w', Q a w' → Q' a w') → wp p Q' w.
Proof. unfold wp. auto. Qed.
Lemma wp_attempt {A B} f (p : prog (res A)) (k : A → prog (res B)) Q w :
  wp p (λ r w', match r with Ok a => wp (k a) Q w' | Err e => Q (Err (f e)) w' end) w →
  wp (attempt f p k) Q w.
Proof.
  intros Hp. apply wp_bind. eapply wp_mono; [exact Hp|]. intros [a|e] w' H'; [done | by apply wp_ret].
Qed.

(** The usual case: the program of an [attempt] succeeds. *)
Lemma wp_ok {A B} f (p : prog (res A)) (k : A → prog (res B)) Q w (P : A → World → Prop) :
  wp p (λ r w', ∃ a, r = Ok a ∧ P a w') w → (∀ a w', P a w' → wp (k a) Q w') →
  wp (attempt f p k) Q w.
Proof.
  intros Hp Hk. apply wp_attempt. eapply wp_mono; [exact Hp|].
  intros r w' (a & -> & Ha). by apply Hk.
Qed.
Lemma wp_pure_ok {A B} f (a : A) (k : A → prog (res B)) Q w :
  wp (k a) Q w → wp (attempt f (Ret (Ok a)) k) Q w.
Proof. intros H. by apply wp_attempt, wp_ret. Qed.

(** ** A healthy environment *)
Record healthy : Prop := {
  no_fault n : env_fault E n = NoFault;
  clock_marshals n : ∃ s, time_json (env_now E n) = Ok (JStr s);
  uuids_distinct n m :
    (n < lim)%nat → (m < lim)%nat → env_uuid E n = env_uuid E m → n = m;
}.
(** The UUIDs still to be drawn are not yet in the database. *)
Definition fresh_ids (w : World) : Prop :=
  ∀ n, (w_tick w <= n < lim)%nat →
    ¬ uuid_String (env_uuid E n) ∈ map ent_id (ledger_entries (w_db w)) ∧
    ¬ uuid_String (env_uuid E n) ∈ map ev_id (transfer_events (w_db w)).

Context (H : healthy).

Lemma wp_now (Q : Z → World → Prop) w :
  (∀ now s, time_json now = Ok (JStr s) → Q now (tick w)) → wp (call TimeNow) Q w.
Proof. intros HQ _. destruct (clock_marshals H (w_tick w)) as [s Hs]. by eapply HQ. Qed.

Lemma wp_uuid (Q : UUID → World → Prop) w :
  ((w_tick w < lim)%nat → Q (env_uuid E (w_tick w)) (tick w)) → wp (call UuidNew) Q w.
Proof. intros HQ Hl. by apply HQ. Qed.

Lemma wp_sql {A} (f : DB → res A * DB) (Q : res A → World → Prop) w :
  Q (f (w_db w)).1 (set_db (f (w_db w)).2 (tick w)) → wp (call (Sql f)) Q w.
Proof. unfold wp. cbn [call run]. by rewrite (exec_sql E (no_fault H)). Qed.

Lemma wp_query {A} (q : DB → A) (Q : res A → World → Prop) w :
  Q (Ok (q (w_db w))) (tick w) → wp (call (query q)) Q w.
Proof. intros HQ. apply wp_sql. by destruct w. Qed.

Lemma fresh_ids_later w w' :
  (w_tick w <= w_tick w')%nat → w_db w' = w_db w → fresh_ids w → fresh_ids w'.
Proof. intros Ht Hd Hf n Hn. rewrite Hd. apply Hf. lia. Qed.
End wp.

(** ** The ledger of rows *)
Section rows.
Context {U : UUIDLib} {L : UUIDLaws U}.

Definition balance (d : DB) (a : AccountID) (cur : Currency) : Z :=
  sum_entries (AccountID_String a) cur d.

(** The two rows of a posting of [m] from [src] to [dst]. *)
Definition moves (src dst : AccountID) (m : Money) (rows : list entry_row) : Prop :=
  ∃ d c, rows = [d; c] ∧
    ent_entry_type d = "DEBIT" ∧ ent_account_id d = AccountID_String src ∧
    ent_amount d = m_Amount m ∧ ent_currency d = m_Currency m ∧
    ent_entry_type c = "CREDIT" ∧ ent_account_id c = AccountID_String dst ∧
    ent_amount c = m_Amount m ∧ ent_currency c = m_Currency m ∧
    ent_transaction_id d = ent_transaction_id c.

Lemma balance_moves d a cur src dst m rows :
  moves src dst m rows → char3 cur = Some cur →
  balance (set_ledger_entries (ledger_entries d ++ rows) d) a cur =
    balance d a cur +
    if bool_decide (m_Currency m = cur) then movement src dst a (m_Amount m) else 0.
Proof.
  intros (r1 & r2 & -> & T1 & A1 & M1 & C1 & T2 & A2 & M2 & C2 & _) Hcur.
  unfold balance, sum_entries. simpl. rewrite sumZ_app. f_equal. simpl.
  unfold row_balance, row_for, row_signed. rewrite Hcur, T1, A1, M1, C1, T2, A2, M2, C2.
  rewrite (bool_decide_ext (Some (m_Currency m) = Some cur) (m_Currency m = cur)) by naive_solver.
  rewrite (bool_decide_ext (AccountID_String src = _) (a = src)) by (split; [by intros ->%(inj _) | by intros ->]).
  rewrite (bool_decide_ext (AccountID_String dst = _) (a = dst)) by (split; [by intros ->%(inj _) | by intros ->]).
  change (bool_decide ("DEBIT" = "CREDIT")) with false.
  change (bool_decide ("CREDIT" = "CREDIT")) with true.
  unfold movement. repeat case_bool_decide; simpl; lia.
Qed.
End rows.

(** ** The adapters *)
Section adapters.
Context {U : UUIDLib} {L : UUIDLaws U} {R : RedisLib} {N : NatsLib}.
Context (E : Env) (lim : nat) (H : healthy E lim).
Abbreviation wp := (Sequential.wp E lim).
Abbreviation fresh_ids := (Sequential.fresh_ids E lim).

(** What no program of the saga changes. *)
Definition ran (w w' : World) : Prop :=
  (w_tick w <= w_tick w')%nat ∧ accounts (w_db w') = accounts (w_db w) ∧
  w_redis w' = w_redis w ∧ w_nats w' = w_nats w.
#[export] Instance ran_preorder : PreOrder ran.
Proof.
  unfold ran. split; [done|]. intros w1 w2 w3 (?&?&?&?) (?&?&?&?). split_and!; (lia || congruence).
Qed.

Lemma wp_FindByID t (Q : res Transfer → World → Prop) w :
  holds (w_db w) t → t_State t ∈ State_consts → Q (Ok t) (tick w) →
  wp (TransferRepo_FindByID (t_ID t)) Q w.
Proof.
  intros Ht Hs HQ. apply wp_bind, wp_query; [done|]. unfold select_transfer.
  unfold holds in Ht. rewrite Ht. cbn [res_bind]. rewrite scan_row by done. by apply wp_ret.
Qed.

Definition acct_of (id : AccountID) (r : account_row) : Account :=
  mkAccount id (acc_owner_name r) (acc_currency r) (Status_of (acc_status r))
    (acc_created_at r) (acc_updated_at r).

(** The primary key is a [UUID] column. *)
Definition accounts_wf (d : DB) : Prop :=
  ∀ id r, accounts d !! AccountID_String id = Some r → acc_id r = AccountID_String id.

Lemma wp_LockForUpdate id r (Q : res Account → World → Prop) w :
  accounts_wf (w_db w) → accounts (w_db w) !! AccountID_String id = Some r →
  Q (Ok (acct_of id r)) (tick w) → wp (AccountRepo_LockForUpdate id) Q w.
Proof.
  intros Hwf Hr HQ. apply wp_attempt, wp_query; [done|]. unfold select_account. rewrite Hr.
  unfold scanAccount. rewrite (Hwf _ _ Hr), ParseAccountID_String. by apply wp_ret.
Qed.

Lemma wp_GetBalance a cur (Q : res Money → World → Prop) w :
  in_int64 (balance (w_db w) a cur) → Q (Ok (mkMoney (balance (w_db w) a cur) cur)) (tick w) →
  wp (LedgerRepo_GetBalance a cur) Q w.
Proof.
  intros Hb HQ. apply wp_bind, wp_query; [done|]. unfold res_bind, scan_int64.
  fold (balance (w_db w) a cur). rewrite bool_decide_true by done. by apply wp_ret.
Qed.

Lemma wp_new_posting src dst amount desc (Q : res Posting → World → Prop) w :
  money_wf amount → 0 < m_Amount amount → m_Currency amount ≠ "" → src ≠ dst →
  (∀ w' tx now n1 n2, ran w w' → w_db w' = w_db w → (w_tick w <= n1 < n2)%nat →
     (n2 < w_tick w')%nat → (n2 < lim)%nat → w_breaker w' = w_breaker w → w_bank w' = w_bank w →
     Q (Ok (posting_of tx src dst amount desc (env_uuid E n1) (env_uuid E n2) now)) w') →
  wp (new_posting src dst amount desc) Q w.
Proof.
  intros Hw Ha Hc Hd HQ. unfold new_posting.
  apply wp_bind, wp_uuid. intros _. apply wp_bind, (wp_now E lim H). intros now s _.
  apply wp_bind, wp_uuid. intros _. apply wp_bind, wp_uuid. intros Hl. apply wp_ret.
  rewrite NewPosting_valid by done.
  apply HQ; simpl in *; try done; try lia. repeat split; simpl; lia.
Qed.

Lemma insert_entry_succeeds pending e d :
  char3 (m_Currency (le_Amount e)) = Some (m_Currency (le_Amount e)) →
  EntryType_text (le_Type e) ∈ entry_type_texts → 0 <= m_Amount (le_Amount e) →
  is_Some (accounts d !! AccountID_String (le_AccountID e)) →
  ¬ uuid_String (leid_UUID (le_ID e)) ∈ map ent_id (ledger_entries d ++ pending) →
  ∃ row, insert_entry pending (entry_to_row e) d = Ok row ∧
    row = mkEntryRow (uuid_String (leid_UUID (le_ID e))) (uuid_String (txid_UUID (le_TransactionID e)))
      (AccountID_String (le_AccountID e)) (EntryType_text (le_Type e)) (m_Amount (le_Amount e))
      (m_Currency (le_Amount e)) (le_Description e) (timestamptz (le_CreatedAt e)).
Proof.
  intros Hc Ht Ha Hacc Hid. eexists. split; [|done]. unfold insert_entry. simpl.
  rewrite Hc, (bool_decide_true _ Ht). simpl.
  destruct (Z.ltb_spec (m_Amount (le_Amount e)) 0); [lia|].
  by rewrite (bool_decide_false _ Hid), (bool_decide_true _ Hacc).
Qed.

Lemma wp_insert_entry pending e rest (Q : res (list entry_row) → World → Prop) w :
  char3 (m_Currency (le_Amount e)) = Some (m_Currency (le_Amount e)) →
  EntryType_text (le_Type e) ∈ entry_type_texts → 0 <= m_Amount (le_Amount e) →
  is_Some (accounts (w_db w) !! AccountID_String (le_AccountID e)) →
  ¬ uuid_String (leid_UUID (le_ID e)) ∈ map ent_id (ledger_entries (w_db w) ++ pending) →
  wp (insert_entries (pending ++ [mkEntryRow (uuid_String (leid_UUID (le_ID e)))
      (uuid_String (txid_UUID (le_TransactionID e)))
      (AccountID_String (le_AccountID e)) (EntryType_text (le_Type e)) (m_Amount (le_Amount e))
      (m_Currency (le_Amount e)) (le_Description e) (timestamptz (le_CreatedAt e))]) rest) Q (tick w) →
  wp (insert_entries pending (e :: rest)) Q w.
Proof.
  intros Hc Ht Ha Hacc Hid HQ. cbn [insert_entries]. apply wp_attempt, wp_sql; [done|]. cbn [fst snd].
  destruct (insert_entry_succeeds pending e (w_db w)) as (row & -> & ->); [done..|].
  by destruct w.
Qed.

Lemma wp_PostEntries tx src dst amount desc u1 u2 now (Q : res unit → World → Prop) w :
  char3 (m_Currency amount) = Some (m_Currency amount) → 0 < m_Amount amount → u1 ≠ u2 →
  is_Some (accounts (w_db w) !! AccountID_String src) →
  is_Some (accounts (w_db w) !! AccountID_String dst) →
  ¬ uuid_String u1 ∈ map ent_id (ledger_entries (w_db w)) →
  ¬ uuid_String u2 ∈ map ent_id (ledger_entries (w_db w)) →
  (∀ w' rows, ran w w' → w_breaker w' = w_breaker w → w_bank w' = w_bank w →
     moves src dst amount rows → map ent_id rows = [uuid_String u1; uuid_String u2] →
     w_db w' = set_ledger_entries (ledger_entries (w_db w) ++ rows) (w_db w) → Q (Ok tt) w') →
  wp (LedgerRepo_PostEntries (Entries (posting_of tx src dst amount desc u1 u2 now))) Q w.
Proof.
  intros Hc Ha Hu Hsrc Hdst H1 H2 HQ. unfold LedgerRepo_PostEntries.
  apply wp_attempt, wp_query; [done|]. apply wp_attempt. unfold Entries, posting_of. cbn [p_Debit p_Credit].
  apply wp_insert_entry; [done | simpl; set_solver | simpl; lia | done | by rewrite app_nil_r |].
  apply wp_insert_entry; [done | simpl; set_solver | simpl; lia | done | |].
  { simpl. rewrite map_app, elem_of_app. simpl. rewrite list_elem_of_singleton.
    intros [?| ?%(inj uuid_String)]; [done | by subst]. }
  apply wp_ret, wp_sql; [done|]. unfold commit_entries. rewrite bool_decide_true.
  2:{ simpl. by repeat constructor. }
  eapply HQ; [|done|done| | |reflexivity]; [| |done].
  - repeat split; simpl; lia.
  - do 2 eexists. split; [done|]. simpl. done.
Qed.

Lemma fresh_ids_posted w w' n1 n2 rows :
  fresh_ids w → (w_tick w <= w_tick w')%nat → (n1 < n2 < w_tick w')%nat → (n2 < lim)%nat →
  ledger_entries (w_db w') = ledger_entries (w_db w) ++ rows →
  transfer_events (w_db w') = transfer_events (w_db w) →
  map ent_id rows = [uuid_String (env_uuid E n1); uuid_String (env_uuid E n2)] → fresh_ids w'.
Proof.
  intros Hf Hle Hn12 Hl El Ev Hid n Hn. rewrite El, Ev, map_app, Hid, elem_of_app.
  destruct (Hf n) as [? ?]; [lia|]. split; [|done].
  rewrite !elem_of_cons, elem_of_nil. intros [?|[E1|[E1|[]]]]; [done|..];
    apply (inj uuid_String), (uuids_distinct E lim H) in E1; lia.
Qed.

(** Building and writing a posting; [k] is what is left to do. *)
Definition posted (src dst : AccountID) (m : Money) (w w' : World) : Prop :=
  ran w w' ∧ fresh_ids w' ∧ w_breaker w' = w_breaker w ∧ w_bank w' = w_bank w ∧
  ∃ rows, moves src dst m rows ∧
    w_db w' = set_ledger_entries (ledger_entries (w_db w) ++ rows) (w_db w).

Lemma wp_posting src dst m desc (Q : res unit → World → Prop) f w :
  fresh_ids w → money_wf m → 0 < m_Amount m → char3 (m_Currency m) = Some (m_Currency m) →
  src ≠ dst → is_Some (accounts (w_db w) !! AccountID_String src) →
  is_Some (accounts (w_db w) !! AccountID_String dst) →
  (∀ w', posted src dst m w w' → Q (Ok tt) w') →
  wp (attempt f (new_posting src dst m desc) (λ p, LedgerRepo_PostEntries (Entries p))) Q w.
Proof.
  intros Hf Hm Ha Hc Hd Hsrc Hdst HQ. apply wp_attempt.
  apply wp_new_posting; [done | done | by apply char3_nonempty | done |].
  intros w1 tx now n1 n2 Hr1 Hd1 Hn Hn2 Hl Hb1 Hk1.
  assert (env_uuid E n1 ≠ env_uuid E n2) as Hu by (intros ?%(uuids_distinct E lim H); lia).
  destruct (Hf n1) as [Hf1 _]; [lia|]. destruct (Hf n2) as [Hf2 _]; [lia|].
  apply wp_PostEntries; [done | done | done | by rewrite Hd1.. |].
  intros w2 rows Hr2 Hb2 Hk2 Hmv Hids Hd2. apply HQ.
  assert (ran w w2) as Hr by (by etrans).
  split_and!; [done | | congruence | congruence | exists rows; split; [done | by rewrite Hd2, Hd1]].
  destruct Hr1 as (? & _), Hr2 as (? & _).
  eapply (fresh_ids_posted w w2 n1 n2); [done | lia | lia | done | | | done];
    by rewrite Hd2, Hd1.
Qed.

(** A transition and its version-checked update; [k] is what is left to do. *)
Definition updated (t t' : Transfer) (w w' : World) : Prop :=
  ran w w' ∧ fresh_ids w' ∧ w_breaker w' = w_breaker w ∧ w_bank w' = w_bank w ∧
  w_db w' = set_transfers
    (<[TransferID_String (t_ID t) := transfer_to_row (stored t')]> (transfers (w_db w))) (w_db w).

Lemma fresh_ids_same w w' :
  (w_tick w <= w_tick w')%nat → ledger_entries (w_db w') = ledger_entries (w_db w) →
  transfer_events (w_db w') = transfer_events (w_db w) → fresh_ids w → fresh_ids w'.
Proof. intros Ht El Ev Hf n Hn. rewrite El, Ev. apply Hf. lia. Qed.

Lemma wp_advance {B} f t t1 next (k : Transfer → unit → prog (res B)) (Q : res B → World → Prop) w :
  fresh_ids w → holds (w_db w) (stored t) → timestamptz (t_CreatedAt t) = t_CreatedAt t →
  lifecycle t → same_request t t1 → t_State t1 = t_State t → t_Version t1 = t_Version t →
  edge (t_State t) next → (∀ now, lifecycle (set_state next now (t_Version t + 1) t1)) →
  (∀ now t' w', t' = set_state next now (t_Version t + 1) t1 → next_version t t' →
     updated t t' w w' → wp (k t' tt) Q w') →
  wp (attempt id (transition t1 next) (λ t', attempt f (UpdateState worker_deps t') (k t'))) Q w.
Proof.
  intros Hf Hh Hc Hlc Hsr Es Ev He Hlc' Hk. pose proof (lifecycle_version _ Hlc) as Hb.
  apply wp_attempt, wp_bind, wp_now; [done|]. intros now s _. apply wp_ret.
  rewrite Transition_edge by (by rewrite Es). rewrite Ev, wrap64_small by lia.
  assert (next_version t (set_state next now (t_Version t + 1) t1)) as Hnv by done.
  apply wp_attempt, wp_attempt, wp_sql; [done|]. cbn [w_db tick].
  rewrite (update_transfer_ok _ t) by done. cbn [fst snd]. apply wp_ret.
  eapply Hk; [done | done |]. split_and!; [| | done..].
  - repeat split; simpl; lia.
  - eapply fresh_ids_same; [| | |exact Hf]; simpl; (done || lia).
Qed.

(** The event appended and the message left in the outbox. *)
Definition announced (t : Transfer) (typ : EventType) (d d' : DB) : Prop :=
  ∃ ev ob, d' = set_outbox (outbox d ++ [ob]) (outbox_seq d + 1)
                  (set_transfer_events (transfer_events d ++ [ev]) d) ∧
    ev_transfer_id ev = TransferID_String (t_ID t) ∧ ev_event_type ev = EventType_text typ ∧
    ev_state ev = State_text (t_State t) ∧ ev_amount ev = m_Amount (t_Amount t) ∧
    ob_subject ob = EventType_text typ ∧ ob_status ob = PENDING ∧
    message_transfer_id (ob_payload ob) = Ok (t_ID t).

Definition published_event (t : Transfer) (typ : EventType) (w w' : World) : Prop :=
  ran w w' ∧ fresh_ids w' ∧ w_breaker w' = w_breaker w ∧ w_bank w' = w_bank w ∧
  announced t typ (w_db w) (w_db w').

Lemma insert_event_succeeds d r :
  char3 (ev_currency r) = Some (ev_currency r) → ¬ ev_id r ∈ map ev_id (transfer_events d) →
  is_Some (transfers d !! ev_transfer_id r) →
  insert_event r d = (Ok tt, set_transfer_events (transfer_events d ++
    [mkEventRow (ev_id r) (ev_transfer_id r) (ev_event_type r) (ev_state r) (ev_amount r)
       (ev_currency r) (timestamptz (ev_occurred_at r)) (ev_metadata r)]) d).
Proof.
  intros Hc Hid Ht. unfold insert_event.
  by rewrite Hc, (bool_decide_false _ Hid), (bool_decide_true _ Ht).
Qed.

Lemma wp_publishEvent t typ (Q : res unit → World → Prop) w :
  fresh_ids w → char3 (m_Currency (t_Amount t)) = Some (m_Currency (t_Amount t)) →
  is_Some (transfers (w_db w) !! TransferID_String (t_ID t)) →
  (∀ w', published_event t typ w w' → Q (Ok tt) w') →
  wp (publishEvent worker_deps t typ) Q w.
Proof.
  intros Hf Hc Ht HQ. apply wp_bind, wp_uuid. intros Hl.
  apply wp_bind, (wp_now E lim H). intros now s1 Hs1.
  apply wp_attempt, wp_sql; [done|]. cbn [w_db tick].
  rewrite insert_event_succeeds; [|done| |done].
  2:{ simpl. unfold TransferID_String. simpl. apply Hf. lia. }
  cbn [fst snd]. apply wp_bind, wp_now; [done|]. intros now' s2 Hs2.
  apply wp_attempt. destruct (saga_payload t typ now') as [payload|e] eqn:Hp.
  2:{ unfold saga_payload in Hp. by rewrite Hs2 in Hp. }
  apply wp_ret, wp_bind, wp_now; [done|]. intros now'' s3 _.
  apply wp_attempt, wp_sql; [done|]. cbn [insert_outbox fst snd]. apply wp_ret, HQ.
  split_and!; [ | | done | done |].
  - repeat split; simpl; lia.
  - intros n Hn. simpl in Hn. simpl. destruct (Hf n) as [? Hev]; [lia|]. split; [done|].
    rewrite map_app, elem_of_app. simpl. rewrite list_elem_of_singleton.
    intros [?|E1]; [done|]. unfold TransferID_String in E1. simpl in E1.
    apply (inj uuid_String), (uuids_distinct E lim H) in E1; lia.
  - do 2 eexists. split; [reflexivity|]. simpl. split_and!; try done.
    by eapply message_of_saga.
Qed.
End adapters.
