(* ===== verification/Refinement.v ===== *)
(** * The saga implements its specification

    [spec_transfer], [spec_move] and [spec_events] say what one call of
    [Execute] is for; [Execute], run with the repositories of [cmd/worker] and
    without faults, does exactly that, in every state and on every branch,
    unless the bank does not answer. *)
From S2P Require Import Prelude Uuid Money Account Transfer Ledger Json Database CircuitBreaker.
From S2P Require Import Effects Ports Adapters AdapterSpecs Saga Command Worker Delivery.
From S2P Require Import Calls Sequential.

Section spec.
Context {U : UUIDLib}.

(** ** The specification *)

(** What the step asks the rest of the system: whether the source may
    transact, whether its balance covers the amount, what the bank answers. *)
Record verdict := mkVerdict {
  v_active : res unit;
  v_funds : bool;
  v_bank : res string;
}.

(** The transfer after one step finished at [now]. *)
Definition spec_transfer (v : verdict) (now : Z) (t : Transfer) : Transfer :=
  let next := t_Version t + 1 in
  match t_State t with
  | StatePending =>
      match v_active v with
      | Err e => set_state StateFailed now next (set_failure_reason (Error e) t)
      | Ok _ =>
          if v_funds v then set_state StateDebited now next (set_debit_posted true t)
          else set_state StateFailed now next (set_failure_reason "insufficient funds" t)
      end
  | StateDebited =>
      match v_bank v with
      | Ok ref => set_state StateBankCalled now next (set_external_ref ref t)
      | Err e => set_state StateFailed now (next + 1) (set_failure_reason (Error e) t)
      end
  | StateBankCalled => set_state StateCredited now next (set_credit_posted true t)
  | StateCredited => set_state StateCompleted now next t
  | StateCompensating => set_state StateFailed now next t
  | _ => t
  end.

Definition float_of (t : Transfer) : AccountID := FloatAccount (m_Currency (t_Amount t)).

(** Whose money moves to whom. *)
Definition spec_move (v : verdict) (t : Transfer) : option (AccountID * AccountID) :=
  match t_State t with
  | StatePending =>
      if is_ok (v_active v) && v_funds v then Some (t_SourceAccountID t, float_of t) else None
  | StateDebited => if is_ok (v_bank v) then None else Some (float_of t, t_SourceAccountID t)
  | StateBankCalled => Some (float_of t, t_DestAccountID t)
  | StateCompensating => Some (float_of t, t_SourceAccountID t)
  | _ => None
  end.

(** The event that announces the new state. *)
Definition event_for (s : State) : list EventType :=
  match s with
  | StateDebited => [EventTransferDebited]
  | StateBankCalled => [EventTransferBankCalled]
  | StateCredited => [EventTransferCredited]
  | StateCompleted => [EventTransferCompleted]
  | StateFailed => [EventTransferFailed]
  | _ => []
  end.
Definition spec_events (v : verdict) (t : Transfer) : list EventType :=
  if terminal (t_State t) then [] else event_for (t_State (spec_transfer v 0 t)).

(** What a movement of [m] does to the balance of [a] in [cur]. *)
Definition moved_by (mv : option (AccountID * AccountID)) (m : Money) (a : AccountID)
    (cur : Currency) : Z :=
  match mv with
  | Some (src, dst) => if bool_decide (m_Currency m = cur) then movement src dst a (m_Amount m) else 0
  | None => 0
  end.
End spec.

Section refinement.
Context {U : UUIDLib} {L : UUIDLaws U} {R : RedisLib} {N : NatsLib}.
Context (E : Env) (lim : nat) (H : healthy E lim).
Abbreviation wp := (Sequential.wp E lim).
Abbreviation fresh_ids := (Sequential.fresh_ids E lim).
Abbreviation posted := (Sequential.posted E lim).
Abbreviation updated := (Sequential.updated E lim).
Abbreviation published_event := (Sequential.published_event E lim).

(** ** Effects of a step *)

(** Between steps: the program's transfer is the row, up to the precision of
    its time of update. *)
Record good (w : World) (t : Transfer) : Prop := {
  g_fresh : fresh_ids w;
  g_holds : holds (w_db w) (stored t);
  g_created : timestamptz (t_CreatedAt t) = t_CreatedAt t;
  g_wf : transfer_wf t;
}.

Definition effect (t : Transfer) (mv : option (AccountID * AccountID)) (t' : Transfer)
    (types : list EventType) (w w' : World) : Prop :=
  ran w w' ∧ fresh_ids w' ∧
  transfers (w_db w') =
    <[TransferID_String (t_ID t) := transfer_to_row t']> (transfers (w_db w)) ∧
  (∀ a cur, char3 cur = Some cur →
     balance (w_db w') a cur = balance (w_db w) a cur + moved_by mv (t_Amount t) a cur) ∧
  ∃ evs obs, transfer_events (w_db w') = transfer_events (w_db w) ++ evs ∧
    outbox (w_db w') = outbox (w_db w) ++ obs ∧
    map ev_event_type evs = map EventType_text types ∧
    map ob_subject obs = map EventType_text types ∧
    Forall (λ ev, ev_transfer_id ev = TransferID_String (t_ID t)) evs ∧
    Forall (λ ob, ob_status ob = PENDING ∧ message_transfer_id (ob_payload ob) = Ok (t_ID t)) obs.

Definition posted_opt (mv : option (AccountID * AccountID)) (m : Money) (w w' : World) : Prop :=
  match mv with
  | Some (src, dst) => posted src dst m w w'
  | None => ran w w' ∧ fresh_ids w' ∧ w_db w' = w_db w
  end.

Lemma good_posted mv m w w' t : posted_opt mv m w w' → good w t → good w' t.
Proof.
  intros Hp []. split; try done.
  - destruct mv as [[src dst]|]; simpl in Hp; [by apply Hp | by apply Hp].
  - destruct mv as [[src dst]|]; simpl in Hp.
    + destruct Hp as (_ & _ & _ & _ & rows & _ & Hd). unfold holds. by rewrite Hd.
    + destruct Hp as (_ & _ & Hd). by rewrite Hd.
Qed.

Lemma good_updated t t' w w' : next_version t t' → updated t t' w w' → good w t → good w' t'.
Proof.
  intros (Hsr & _ & _ & Hlc) (_ & Hf & _ & _ & Hd) [_ _ Hc [Hrq _]]. split; [done | | |].
  - unfold holds. rewrite Hd. simpl. destruct Hsr as (-> & _). by apply lookup_insert_eq.
  - by destruct Hsr as (_ & _ & _ & _ & _ & ->).
  - split; [by eapply same_request_wf | done].
Qed.

Lemma effect_of_step mv t t' typ w w1 w2 w3 :
  posted_opt mv (t_Amount t) w w1 → same_request t t' → updated t t' w1 w2 →
  published_event t' typ w2 w3 → effect t mv (stored t') [typ] w w3.
Proof.
  intros Hp (Eid & _) (Hr2 & _ & _ & _ & Hd2) (Hr3 & Hf3 & _ & _ & ev & ob & Hd3 & Hev).
  assert (transfers (w_db w1) = transfers (w_db w) ∧ ran w w1 ∧
    transfer_events (w_db w1) = transfer_events (w_db w) ∧ outbox (w_db w1) = outbox (w_db w) ∧
    ∀ a cur, char3 cur = Some cur →
      balance (w_db w1) a cur = balance (w_db w) a cur + moved_by mv (t_Amount t) a cur)
    as (Ht1 & Hr1 & He1 & Ho1 & Hb1).
  { destruct mv as [[src dst]|]; simpl in Hp.
    - destruct Hp as (Hr & _ & _ & _ & rows & Hm & ->). split_and!; try done.
      intros a cur Hc. by apply balance_moves.
    - destruct Hp as (Hr & _ & ->). split_and!; try done. intros. simpl. lia. }
  split_and!.
  - by repeat (etrans; [done|]).
  - done.
  - rewrite Hd3, Hd2. simpl. by rewrite Ht1.
  - intros a cur Hc. rewrite <- Hb1 by done. rewrite Hd3, Hd2. done.
  - exists [ev], [ob]. rewrite Hd3, Hd2. simpl. rewrite He1, Ho1, <- Eid.
    destruct Hev as (? & -> & _ & _ & -> & ? & ?). by repeat constructor.
Qed.

(** A step that goes through an intermediate state. *)
Lemma effect_after_update t t1 mv t' types w w1 w2 :
  same_request t t1 → updated t t1 w w1 → effect t1 mv t' types w1 w2 →
  effect t mv t' types w w2.
Proof.
  intros (Eid & _ & _ & _ & Ea & _) (Hr1 & _ & _ & _ & Hd1) (Hr2 & Hf & Ht & Hb & Hev).
  rewrite Eid, Ea in *. rewrite Hd1 in *. split_and!.
  - by etrans.
  - done.
  - rewrite Ht. simpl. by rewrite insert_insert_eq.
  - done.
  - done.
Qed.

(** ** The steps *)

(** A transition, its update and its announcement: the end of every step. *)
Lemma wp_finish f t t1 next typ (Q : res unit → World → Prop) w :
  good w t → same_request t t1 → t_State t1 = t_State t → t_Version t1 = t_Version t →
  edge (t_State t) next → (∀ now, lifecycle (set_state next now (t_Version t + 1) t1)) →
  (∀ now w1 w', let t' := set_state next now (t_Version t + 1) t1 in
     updated t t' w w1 → published_event t' typ w1 w' → Q (Ok tt) w') →
  wp (attempt id (transition t1 next) (λ t', attempt f (UpdateState worker_deps t')
        (λ _, publishEvent worker_deps t' typ))) Q w.
Proof.
  intros Hg Hsr Es Ev He Hlc' HQ. pose proof Hg as [Hf Hh Hc [Hrq Hlc]].
  apply wp_advance with (t := t); [done..|]. intros now t' w1 -> Hnv Hu.
  pose proof (good_updated _ _ _ _ Hnv Hu Hg) as [Hf1 Hh1 _ [(_ & _ & _ & Hcur) _]].
  apply wp_publishEvent; [done | done | done | by eexists|].
  intros w' Hp. by eapply HQ.
Qed.

Lemma wp_failWith t reason (Q : res unit → World → Prop) w :
  good w t → edge (t_State t) StateFailed → t_CreditPosted t = false →
  (∀ now w1 w', let t' := set_state StateFailed now (t_Version t + 1) (set_failure_reason reason t) in
     updated t t' w w1 → published_event t' EventTransferFailed w1 w' → Q (Ok tt) w') →
  wp (failWith worker_deps t reason) Q w.
Proof.
  intros Hg He Hcr HQ. unfold failWith. cbv zeta.
  rewrite bool_decide_false
    by (simpl; intros E0; rewrite E0 in He; by apply elem_of_nil in He).
  eapply wp_finish; [exact Hg | done | done | done | done | | exact HQ].
  intros now. destruct Hg as [_ _ _ [_ Hlc]]. unfold lifecycle, edge in *. simpl.
  destruct (t_State t); simpl in He; rewrite ?elem_of_cons, ?elem_of_nil in He;
    destruct_or?; try done; destruct Hlc as (-> & -> & ->); tauto.
Qed.

(** The accounts a step needs. *)
Record accounts_ready (w : World) (t : Transfer) : Prop := {
  ar_wf : accounts_wf (w_db w);
  ar_src : is_Some (accounts (w_db w) !! AccountID_String (t_SourceAccountID t));
  ar_dst : is_Some (accounts (w_db w) !! AccountID_String (t_DestAccountID t));
  ar_float : is_Some (accounts (w_db w) !! AccountID_String (float_of t));
  ar_float_src : float_of t ≠ t_SourceAccountID t;
  ar_float_dst : float_of t ≠ t_DestAccountID t;
}.
Lemma accounts_ready_ran w w' t t' :
  ran w w' → same_request t t' → accounts_ready w t → accounts_ready w' t'.
Proof.
  intros (_ & Ea & _) (_ & _ & Es & Ed & Em & _) []. unfold accounts_wf, float_of in *.
  split; unfold accounts_wf, float_of; rewrite ?Ea, ?Es, ?Ed, ?Em; done.
Qed.

(** Building a posting, writing it, and going on. *)
Lemma wp_post_then {B} f g src dst m desc (k : unit → prog (res B)) (Q : res B → World → Prop) w :
  fresh_ids w → money_wf m → 0 < m_Amount m → char3 (m_Currency m) = Some (m_Currency m) →
  src ≠ dst → is_Some (accounts (w_db w) !! AccountID_String src) →
  is_Some (accounts (w_db w) !! AccountID_String dst) →
  (∀ w', posted src dst m w w' → wp (k tt) Q w') →
  wp (attempt f (new_posting src dst m desc) (λ p,
        attempt g (LedgerRepo_PostEntries (Entries p)) k)) Q w.
Proof.
  intros Hf Hm Ha Hc Hd Hs1 Hs2 Hk.
  assert (wp (attempt f (new_posting src dst m desc) (λ p, LedgerRepo_PostEntries (Entries p)))
    (λ r w', r = Ok tt ∧ posted src dst m w w') w) as Hp by (by apply wp_posting).
  unfold Sequential.wp in Hp |- *. rewrite run_attempt in Hp. rewrite run_attempt.
  destruct (run E (new_posting src dst m desc) w) as [[p|e] w1].
  - rewrite run_attempt. destruct (run E (LedgerRepo_PostEntries (Entries p)) w1) as [r w2] eqn:Er.
    cbn [fst snd] in Hp. intros Hl. destruct Hp as [-> Hp]; [|by apply Hk].
    etrans; [|exact Hl]. destruct r; [apply (run_tick E (k _)) | done].
  - cbn [fst snd] in *. intros Hl. by destruct (Hp Hl).
Qed.

Lemma wp_compensate t (Q : res unit → World → Prop) w :
  good w t → accounts_ready w t → t_State t = StateCompensating →
  (∀ now w', effect t (Some (float_of t, t_SourceAccountID t))
       (stored (set_state StateFailed now (t_Version t + 1) t)) [EventTransferFailed] w w' →
     Q (Ok tt) w') →
  wp (compensate worker_deps t) Q w.
Proof.
  intros Hg Ha Es HQ. unfold compensate.
  pose proof Hg as [Hf _ _ [(_ & _ & Hamt & Hcur) Hlc]].
  assert (t_DebitPosted t = true ∧ t_CreditPosted t = false) as [-> Hcr].
  { unfold lifecycle in Hlc. rewrite Es in Hlc. tauto. }
  rewrite Hcr. apply wp_pure_ok. unfold reverseDebit. apply wp_attempt.
  apply wp_posting; [done | done | unfold money_wf; lia | lia | done | apply Ha..|].
  intros w1 Hp. assert (posted_opt (Some (float_of t, t_SourceAccountID t)) (t_Amount t) w w1) as Hp' by done.
  apply wp_failWith; [by eapply good_posted | by rewrite Es; by eapply bool_decide_unpack | done |].
  intros now w2 w3 t' Hu Hpub. apply (HQ now).
  replace (set_state StateFailed now (t_Version t + 1) t) with t' by (by destruct t).
  by eapply effect_of_step.
Qed.

Definition source_status (w : World) (t : Transfer) : res unit :=
  match accounts (w_db w) !! AccountID_String (t_SourceAccountID t) with
  | Some r => CanTransact (acct_of (t_SourceAccountID t) r)
  | None => Err (Sentinel ErrAccountNotFound)
  end.
Definition covers (w : World) (t : Transfer) : bool :=
  m_Amount (t_Amount t) <=? balance (w_db w) (t_SourceAccountID t) (m_Currency (t_Amount t)).
Definition bank_request (t : Transfer) : BankCallRequest :=
  mkBankCallRequest (t_ID t) (t_SourceAccountID t) (t_DestAccountID t) (t_Amount t)
    ("transfer/" +:+ TransferID_String (t_ID t)).
(** What a breaker and a bank in these states answer, if they do. *)
Definition bank_answer (w : World) (t : Transfer) : option (res string) :=
  if (CB.acquire (env_now E (w_tick w)) (w_breaker w)).1 then
    res_wrap (errorf_w "bank gateway: ") <$>
      (Gateway_InitiateTransfer CtxLive (bank_request t) (w_bank w)).1
  else Some (Err (errorf_w "bank gateway: " (Sentinel ErrCircuitOpen))).
(** What [Execute] finds out on its way, having loaded the transfer. *)
Definition verdict_of (w : World) (t : Transfer) : verdict :=
  mkVerdict (source_status w t) (covers w t)
    (default (Err (Sentinel ErrContextDone)) (bank_answer (tick w) t)).
(** The step is one that the bank does not hold up. *)
Definition bank_answered (w : World) (t : Transfer) : Prop :=
  t_State t = StateDebited → is_Some (bank_answer (tick w) t).
Lemma unanswered w t : ¬ bank_answered w t → t_State t = StateDebited ∧ bank_answer (tick w) t = None.
Proof.
  unfold bank_answered. intros Hn. destruct (decide (t_State t = StateDebited)); [|tauto].
  split; [done|]. apply eq_None_not_Some. tauto.
Qed.
Lemma mode_answered w t : g_mode (w_bank w) ≠ ModeTimeout → bank_answered w t.
Proof.
  intros Hm _. unfold bank_answer. destruct (CB.acquire _ _) as [[] ?]; [|by eexists]. cbn [fst].
  by apply fmap_is_Some, Gateway_answers.
Qed.

Definition performs (v : verdict) (t : Transfer) (w w' : World) : Prop :=
  ∃ now, effect t (spec_move v t) (stored (spec_transfer v now t)) (spec_events v t) w w'.

(** Reads leave everything as it is. *)
Lemma effect_after_read t mv t' types w w1 w2 :
  w_db w1 = w_db w → (w_tick w <= w_tick w1)%nat → w_redis w1 = w_redis w → w_nats w1 = w_nats w →
  effect t mv t' types w1 w2 → effect t mv t' types w w2.
Proof.
  intros Hd Ht Hr Hn (Hr2 & Hf & Hrest). rewrite Hd in Hrest. split; [|done].
  destruct Hr2 as (? & Ha & ? & ?). rewrite Hd in Ha. split_and!; [lia | congruence..].
Qed.

Lemma good_read w w1 t :
  w_db w1 = w_db w → (w_tick w <= w_tick w1)%nat → good w t → good w1 t.
Proof.
  intros Hd Ht []. split; [|by rewrite Hd | done | done].
  by eapply fresh_ids_later.
Qed.
Lemma accounts_ready_read w w1 t : w_db w1 = w_db w → accounts_ready w t → accounts_ready w1 t.
Proof. intros Hd []. split; rewrite ?Hd; done. Qed.

Lemma wp_failWith_effect t reason (Q : res unit → World → Prop) w :
  good w t → edge (t_State t) StateFailed → t_CreditPosted t = false →
  (∀ now w', effect t None
       (stored (set_state StateFailed now (t_Version t + 1) (set_failure_reason reason t)))
       [EventTransferFailed] w w' → Q (Ok tt) w') →
  wp (failWith worker_deps t reason) Q w.
Proof.
  intros Hg He Hc HQ. apply wp_failWith; [done..|]. intros now w1 w' t' Hu Hp. apply (HQ now).
  eapply effect_of_step; [| |exact Hu | exact Hp]; [|done].
  simpl. split_and!; [reflexivity | apply Hg | done].
Qed.

Lemma wp_reserveDebit bank t w :
  good w t → accounts_ready w t → t_State t = StatePending →
  in_int64 (balance (w_db w) (t_SourceAccountID t) (m_Currency (t_Amount t))) →
  wp (reserveDebit worker_deps t)
    (λ r w', r = Ok tt ∧ performs (mkVerdict (source_status w t) (covers w t) bank) t w w') w.
Proof.
  intros Hg Ha Es Hb. unfold performs. pose proof Hg as [_ _ _ [(_ & _ & Hamt & Hcur) Hlc]].
  assert (t_Version t = 1 ∧ t_DebitPosted t = false ∧ t_CreditPosted t = false) as (Ev & Ed & Ec).
  { unfold lifecycle in Hlc. by rewrite Es in Hlc. }
  assert (∀ s, edge (t_State t) s ↔ s ∈ [StateDebited; StateFailed]) as He by (by rewrite Es).
  unfold spec_move, spec_transfer, spec_events, spec_transfer. rewrite Es.
  unfold reserveDebit. destruct (ar_src _ _ Ha) as [r Hr].
  apply wp_attempt. apply (wp_LockForUpdate E lim H) with (r := r); [apply Ha | done |].
  unfold source_status. cbn [v_active v_funds]. rewrite Hr.
  destruct (CanTransact _) as [u|e].
  2:{ apply wp_failWith_effect; [by eapply good_read; [| |exact Hg]; simpl; (done || lia) | apply He; set_solver | done |].
      intros now w' Heff. split; [done|]. exists now. by eapply effect_after_read; [..|exact Heff]; simpl; (done || lia). }
  apply wp_attempt. apply (wp_GetBalance E lim H); [done|]. unfold covers. cbn [m_Amount].
  rewrite Z.leb_antisym. cbn [is_ok andb].
  change (balance (w_db (tick w))) with (balance (w_db w)).
  destruct (_ <? _); cbn [negb].
  { apply wp_failWith_effect; [by eapply good_read; [| |exact Hg]; simpl; (done || lia) | apply He; set_solver | done |].
    intros now w' Heff. split; [done|]. exists now. by eapply effect_after_read; [..|exact Heff]; simpl; (done || lia). }
  assert (good (tick (tick w)) t) as Hg2 by (by eapply good_read; [| |exact Hg]; simpl; (done || lia)).
  apply wp_post_then; [apply Hg2 | unfold money_wf; lia | lia | done | | apply Ha.. |].
  { intros Heq. by apply (ar_float_src _ _ Ha). }
  intros w1 Hp. assert (posted_opt (Some (t_SourceAccountID t, float_of t)) (t_Amount t) (tick (tick w)) w1) as Hp' by done.
  eapply wp_finish; [by eapply good_posted | done | done | done | apply He; set_solver | |].
  { intros now. unfold lifecycle. simpl. by rewrite Ev, Ec. }
  intros now w2 w3 t' Hu Hpub. split; [done|]. exists now.
  eapply effect_after_read; [..|by eapply effect_of_step]; simpl; (done || lia).
Qed.

Lemma wp_bank t a (Q : res BankCallResult → World → Prop) w :
  bank_answer w t = Some a →
  (∀ w', w_db w' = w_db w → (w_tick w <= w_tick w')%nat → w_redis w' = w_redis w →
     w_nats w' = w_nats w → Q a w') →
  wp (CircuitBreakerGateway_InitiateTransfer (bank_request t)) Q w.
Proof.
  intros Ha HQ _. revert Ha HQ. unfold CircuitBreakerGateway_InitiateTransfer, bank_answer.
  cbn [bind call run exec]. unfold lens. cbn [w_breaker tick w_bank].
  destruct (CB.acquire _ _) as [[] cb]; cbn [fst bind call run exec]; unfold lens;
    rewrite ?(no_fault E lim H); cbn [ctx_status w_bank set_breaker tick].
  - destruct (Gateway_InitiateTransfer _ _ _) as [[r|] g]; cbn; intros [= <-] HQ;
      apply HQ; simpl; done || lia.
  - intros [= <-] HQ. apply HQ; simpl; done || lia.
Qed.

Lemma wp_callBank t a w :
  good w t → accounts_ready w t → t_State t = StateDebited → bank_answer w t = Some a →
  wp (callBank worker_deps t)
    (λ r w', r = Ok tt ∧ performs (mkVerdict (source_status w t) (covers w t) a) t w w') w.
Proof.
  intros Hg Ha Es Hans. pose proof Hg as [_ _ _ [_ Hlc]].
  assert (t_Version t = 2 ∧ t_DebitPosted t = true ∧ t_CreditPosted t = false) as (Ev & Ed & Ec).
  { unfold lifecycle in Hlc. by rewrite Es in Hlc. }
  unfold performs, spec_move, spec_events, spec_transfer. rewrite Es. cbn [v_bank].
  unfold callBank. apply wp_bind, (wp_bank _ _ _ _ Hans). intros w1 Hd1 Ht1 Hr1 Hn1. fold (bank_request t).
  assert (good w1 t) as Hg1 by (by eapply good_read).
  destruct a as [ref|e]; cbn [is_ok].
  - eapply wp_finish; [exact Hg1 | done | done | done | | |].
    { rewrite Es. by eapply bool_decide_unpack. }
    { intros now. unfold lifecycle. simpl. by rewrite Ev, Ed, Ec. }
    intros now w2 w3 t' Hu Hp. split; [done|]. exists now.
    apply (effect_after_read _ _ _ _ w w1); [done..|].
    eapply effect_of_step; [| |exact Hu | exact Hp]; [|done].
    simpl. split_and!; [reflexivity | apply Hg1 | done].
  - unfold startCompensation. cbv zeta. eapply wp_advance with (t := t);
      [done | apply Hg1 | apply Hg1 | apply Hg1 | apply Hg1 | done | done | done | | |].
    { rewrite Es. by eapply bool_decide_unpack. }
    { intros now. unfold lifecycle. simpl. by rewrite Ev, Ed, Ec. }
    intros now0 t' w2 Et' Hnv Hu. pose proof (good_updated _ _ _ _ Hnv Hu Hg1) as Hg2.
    apply wp_compensate; [done | | by rewrite Et' |].
    { apply (accounts_ready_ran w1 w2 t); [apply Hu | apply Hnv|]. by apply (accounts_ready_read w). }
    intros now w3 Heff. split; [done|]. exists now.
    apply (effect_after_read _ _ _ _ w w1); [done..|].
    apply (effect_after_update t t' _ _ _ w1 w2); [apply Hnv | done |]. subst t'. exact Heff.
Qed.

Lemma wp_postCredit v t w :
  good w t → accounts_ready w t → t_State t = StateBankCalled →
  wp (postCredit worker_deps t) (λ r w', r = Ok tt ∧ performs v t w w') w.
Proof.
  intros Hg Ha Es. pose proof Hg as [Hf _ _ [(_ & _ & Hamt & Hcur) Hlc]].
  assert (t_Version t = 3 ∧ t_DebitPosted t = true ∧ t_CreditPosted t = false) as (Ev & Ed & _).
  { unfold lifecycle in Hlc. by rewrite Es in Hlc. }
  unfold performs, spec_move, spec_events, spec_transfer. rewrite Es.
  apply wp_post_then; [done | unfold money_wf; lia | lia | done | apply Ha..|].
  intros w1 Hp. assert (posted_opt (Some (float_of t, t_DestAccountID t)) (t_Amount t) w w1) as Hp' by done.
  eapply wp_finish; [by eapply good_posted | done | done | done | | |].
  { rewrite Es. by eapply bool_decide_unpack. }
  { intros now. unfold lifecycle. simpl. by rewrite Ev, Ed. }
  intros now w2 w3 t' Hu Hpub. split; [done|]. exists now. by eapply effect_of_step.
Qed.

Lemma wp_complete v t w :
  good w t → t_State t = StateCredited →
  wp (complete worker_deps t) (λ r w', r = Ok tt ∧ performs v t w w') w.
Proof.
  intros Hg Es. pose proof Hg as [Hf _ _ [_ Hlc]].
  assert (t_Version t = 4 ∧ t_DebitPosted t = true ∧ t_CreditPosted t = true) as (Ev & Ed & Ec).
  { unfold lifecycle in Hlc. by rewrite Es in Hlc. }
  unfold performs, spec_move, spec_events, spec_transfer. rewrite Es.
  eapply wp_finish; [done | done | done | done | | |].
  { rewrite Es. by eapply bool_decide_unpack. }
  { intros now. unfold lifecycle. simpl. by rewrite Ev, Ed, Ec. }
  intros now w2 w3 t' Hu Hp. split; [done|]. exists now.
  eapply effect_of_step; [| |exact Hu | exact Hp]; [|done].
  simpl. split_and!; [reflexivity | apply Hg | done].
Qed.

(** ** One call of [Execute] *)
Record ready (w : World) (t : Transfer) : Prop := {
  rd_fresh : fresh_ids w;
  rd_holds : holds (w_db w) t;
  rd_stored : stored t = t;
  rd_wf : transfer_wf t;
  rd_accounts : accounts_ready w t;
  rd_balance : t_State t = StatePending →
    in_int64 (balance (w_db w) (t_SourceAccountID t) (m_Currency (t_Amount t)));
}.

Lemma ready_good w t : ready w t → good w t.
Proof.
  intros []. split; [done | by rewrite rd_stored0 | by apply stored_created | done].
Qed.

Lemma effect_nothing t w w' :
  ready w t → w_db w' = w_db w → (w_tick w <= w_tick w')%nat → w_redis w' = w_redis w →
  w_nats w' = w_nats w → effect t None t [] w w'.
Proof.
  intros Hr Hd Ht Hre Hn. split; [|split_and!].
  - split_and!; [done | by rewrite Hd | done | done].
  - eapply fresh_ids_later; [exact Ht | done | apply Hr].
  - rewrite Hd, insert_id; [done | apply Hr].
  - intros a cur _. rewrite Hd. simpl. lia.
  - exists [], []. rewrite Hd, !app_nil_r. done.
Qed.

Lemma performs_after_read v t w w1 w2 :
  w_db w1 = w_db w → (w_tick w <= w_tick w1)%nat → w_redis w1 = w_redis w → w_nats w1 = w_nats w →
  performs v t w1 w2 → performs v t w w2.
Proof. intros ? ? ? ? [now Heff]. exists now. by eapply effect_after_read. Qed.

Lemma wp_Execute t w :
  ready w t → bank_answered w t →
  wp (Execute worker_deps (t_ID t)) (λ r w', r = Ok tt ∧ performs (verdict_of w t) t w w') w.
Proof.
  intros Hr Hans. pose proof (ready_good _ _ Hr) as Hg. pose proof Hr as [_ Hh Hst Hw Ha Hb].
  unfold Execute. apply wp_attempt.
  apply (wp_FindByID E lim H); [done | by apply lifecycle_state, Hw |].
  assert (good (tick w) t) as Hg1 by (by eapply good_read; [| |exact Hg]; simpl; (done || lia)).
  assert (accounts_ready (tick w) t) as Ha1 by (by apply (accounts_ready_read w)).
  assert (∀ v (r : res unit) w', r = Ok tt ∧ performs v t (tick w) w' → r = Ok tt ∧ performs v t w w') as Hlift.
  { intros v r w' [-> Hp]. split; [done|]. eapply performs_after_read; [..|exact Hp]; simpl; (done || lia). }
  assert (∀ p, terminal (t_State t) = true → p = Ret (Ok tt) →
    wp p (λ r w', r = Ok tt ∧ performs (verdict_of w t) t w w') (tick w)) as Hterm.
  { intros p Ht ->. apply wp_ret. split; [done|]. exists 0.
    assert (spec_move (verdict_of w t) t = None ∧ spec_transfer (verdict_of w t) 0 t = t) as [-> ->].
    { unfold terminal, spec_move, spec_transfer in *. destruct (t_State t); done. }
    unfold spec_events. rewrite Ht, Hst. apply effect_nothing; simpl; (done || lia). }
  destruct (t_State t) eqn:Es; simpl steps; cbv iota; cbn [step_execute].
  - eapply wp_mono; [by apply wp_reserveDebit; [..|apply Hb] | apply Hlift].
  - destruct (Hans Es) as [a Hans']. eapply wp_mono; [by apply (wp_callBank _ a) | intros r w' [-> Hp]].
    apply Hlift. unfold verdict_of. rewrite Hans'. by split.
  - eapply wp_mono; [by apply wp_postCredit | apply Hlift].
  - eapply wp_mono; [by apply wp_complete | apply Hlift].
  - by apply Hterm.
  - by apply Hterm.
  - eapply wp_mono; [|apply Hlift].
    apply wp_compensate; [done..|]. intros now w' Heff. split; [done|]. exists now.
    unfold spec_move, spec_events, spec_transfer. rewrite Es. exact Heff.
  - destruct Hw as [_ Hlc]. unfold lifecycle in Hlc. by rewrite Es in Hlc.
Qed.

(** ** The bank that does not answer

    Only the step from DEBITED can be held up. *)
Create HintDb no_bank.
Lemma insert_entries_no_bank es pending : all_calls no_bank (insert_entries pending es).
Proof.
  revert pending. induction es as [|e es IH]; intros pending; cbn [insert_entries]; [done|].
  apply all_calls_attempt; [done|]. intros; apply IH.
Qed.
Hint Resolve insert_entries_no_bank : no_bank.
Ltac no_bank_tac := repeat first [solve [eauto with no_bank] | exact I | calls_step].
Lemma failWith_no_bank t reason : all_calls no_bank (failWith worker_deps t reason).
Proof. unfold failWith, transition. no_bank_tac. Qed.
Hint Resolve failWith_no_bank : no_bank.
Lemma compensate_no_bank t : all_calls no_bank (compensate worker_deps t).
Proof.
  unfold compensate, reverseDebit, reverseCredit, new_posting, LedgerRepo_PostEntries.
  no_bank_tac.
Qed.
Hint Resolve compensate_no_bank : no_bank.

Lemma callBank_hangs w t :
  hangs E (callBank worker_deps t) w = negb (bool_decide (is_Some (bank_answer w t))).
Proof.
  unfold callBank. rewrite hangs_bind. fold (bank_request t).
  assert (∀ r w', hangs E (match r with
    | Ok ref => attempt id (transition (set_external_ref ref t) StateBankCalled) (λ t,
        attempt (errorf_w "update state: ") (UpdateState worker_deps t)
          (λ _, publishEvent worker_deps t EventTransferBankCalled))
    | Err e => startCompensation worker_deps t (Error e)
    end) w' = false) as Hrest.
  { intros r w'. apply hangs_no_bank. destruct r; unfold startCompensation, transition; no_bank_tac. }
  destruct (run E _ w) as [r w']. etrans; [|apply orb_false_r]. f_equal; [|exact (Hrest r w')].
  clear Hrest. change (bg_InitiateTransfer (dep_bank worker_deps)) with CircuitBreakerGateway_InitiateTransfer.
  unfold CircuitBreakerGateway_InitiateTransfer, bank_answer.
  cbn [bind call hangs waits orb exec]. unfold lens. cbn [w_breaker tick].
  destruct (CB.acquire _ _) as [[] cb]; cbn [fst bind call hangs orb];
    [|by rewrite bool_decide_true by (by eexists)].
  cbn [waits set_breaker w_tick tick w_bank exec]. rewrite ?(no_fault E lim H). unfold lens.
  cbn [ctx_status w_bank set_breaker tick].
  destruct (Gateway_InitiateTransfer _ _ _) as [[a|] g]; cbn [fst fmap option_fmap option_map].
  - by rewrite bool_decide_true by (by eexists).
  - by rewrite bool_decide_false by (intros [? [=]]).
Qed.

Lemma run_loads E1 t w :
  env_fault E1 (w_tick w) = NoFault → holds (w_db w) t → t_State t ∈ State_consts →
  run E1 (TransferRepo_FindByID (t_ID t)) w = (Ok t, tick w).
Proof.
  intros Hf Hh Hs. unfold TransferRepo_FindByID, query. rewrite run_bind. cbn [call run exec].
  unfold lens. rewrite Hf. cbn [with_fault w_db tick]. unfold select_transfer, holds in *.
  rewrite Hh. cbn [res_bind]. rewrite scan_row by done. cbn [run]. by destruct w.
Qed.

Lemma Execute_hangs t w :
  holds (w_db w) t → transfer_wf t →
  hangs E (Execute worker_deps (t_ID t)) w = true ↔
    t_State t = StateDebited ∧ bank_answer (tick w) t = None.
Proof.
  intros Hh [_ Hlc]. unfold Execute, attempt. rewrite hangs_bind.
  change (tr_FindByID (trp_reader (dep_transfers worker_deps))) with TransferRepo_FindByID.
  rewrite run_loads, (hangs_no_bank E (TransferRepo_FindByID (t_ID t)));
    [|unfold TransferRepo_FindByID; no_bank_tac | apply H | done | by apply lifecycle_state].
  cbn [orb]. assert (∀ p : prog (res unit), all_calls no_bank p → t_State t ≠ StateDebited →
    hangs E p (tick w) = true ↔ t_State t = StateDebited ∧ bank_answer (tick w) t = None) as Hno.
  { intros p Hp Hne. rewrite hangs_no_bank by done. naive_solver. }
  destruct (t_State t) eqn:Es; cbn [steps step_execute].
  all: try (apply Hno; [unfold reserveDebit, postCredit, complete, transition, new_posting,
      LedgerRepo_PostEntries; no_bank_tac | done]).
  rewrite callBank_hangs. destruct (bank_answer (tick w) t); [by rewrite bool_decide_true by (by eexists); naive_solver|].
  rewrite bool_decide_false by (intros [? [=]]). naive_solver.
Qed.

Lemma unanswered_timeout w t :
  bank_answer w t = None →
  (CB.acquire (env_now E (w_tick w)) (w_breaker w)).1 = true ∧ g_mode (w_bank w) = ModeTimeout.
Proof.
  unfold bank_answer, Gateway_InitiateTransfer. destruct (CB.acquire _ _).1; [|done]. intros Ha.
  split; [done|]. destruct (g_mode (w_bank w)); try done. simpl in Ha. by case_match.
Qed.

(** Once the context ends, the program goes on, but no statement made with it succeeds. *)
Lemma updates_cancelled E1 t next w :
  edge (t_State t) next → (∀ k, (w_tick w < k)%nat → ∃ late, env_fault E1 k = ContextDone late) →
  ∀ (f : error → error) (k : Transfer → prog (res unit)), ∃ e w',
    run E1 (attempt id (transition t next) (λ t',
      attempt f (UpdateState worker_deps t') (λ _, k t'))) w = (Err e, w') ∧ w_db w' = w_db w.
Proof.
  intros He Hf f k. rewrite run_attempt. unfold transition. rewrite run_bind. cbn [call run exec].
  rewrite Transition_edge by done. cbn [run]. rewrite run_attempt.
  change (UpdateState worker_deps) with TransferRepo_UpdateState. unfold TransferRepo_UpdateState.
  rewrite run_attempt. cbn [call run exec]. unfold lens. cbn [w_tick tick].
  destruct (Hf (S (w_tick w))) as [late ->]; [lia|]. cbn [with_fault]. eauto.
Qed.
Lemma Execute_cancelled t w :
  holds (w_db w) t → transfer_wf t → t_State t = StateDebited → bank_answer (tick w) t = None →
  let E' := ended_from (S (S (w_tick w))) E in
  hangs E' (Execute worker_deps (t_ID t)) w = false ∧
  ∃ e w', run E' (Execute worker_deps (t_ID t)) w = (Err e, w') ∧ w_db w' = w_db w.
Proof.
  intros Hh [_ Hlc] Hs [Hacq Hmode]%unanswered_timeout E1.
  assert (∀ k, (S (w_tick w) < k)%nat → env_fault E1 k = ContextDone true) as Hend.
  { intros k Hk. unfold E1, ended_from. cbn [env_fault].
    by rewrite (proj2 (Nat.ltb_ge k (S (S (w_tick w))))) by lia. }
  assert (run E1 (TransferRepo_FindByID (t_ID t)) w = (Ok t, tick w)) as Hload.
  { apply run_loads; [|done | by apply lifecycle_state].
    unfold E1, ended_from. cbn [env_fault]. rewrite (proj2 (Nat.ltb_lt (w_tick w) _)) by lia. apply H. }
  unfold Execute. rewrite run_attempt. unfold attempt. rewrite hangs_bind.
  change (tr_FindByID (trp_reader (dep_transfers worker_deps))) with TransferRepo_FindByID.
  rewrite (hangs_no_bank E1 (TransferRepo_FindByID (t_ID t)))
    by (unfold TransferRepo_FindByID; no_bank_tac).
  rewrite Hload, Hs. cbn [steps step_execute orb]. split.
  { unfold callBank, bg_InitiateTransfer, dep_bank, worker_deps, bankGW.
    unfold CircuitBreakerGateway_InitiateTransfer. cbn [bind call hangs waits orb exec]. unfold lens.
    destruct (CB.acquire _ _) as [adm cb]. apply hangs_ended. intros k Hk. exists true. apply Hend.
    simpl in Hk. lia. }
  unfold callBank. rewrite run_bind.
  change (bg_InitiateTransfer (dep_bank worker_deps)) with CircuitBreakerGateway_InitiateTransfer.
  unfold CircuitBreakerGateway_InitiateTransfer. cbn [bind call run exec]. unfold lens.
  cbn [w_breaker w_bank tick w_tick env_now E1 ended_from] in *.
  destruct (CB.acquire _ _) as [adm cb]. cbn [fst] in Hacq. subst adm.
  cbn [bind call run exec]. unfold lens. cbn [w_tick set_breaker tick].
  rewrite Hend by lia. cbn [w_bank set_breaker tick ctx_status].
  unfold Gateway_InitiateTransfer. rewrite Hmode. cbn [default bind call run exec is_ok res_wrap].
  unfold lens. cbn [w_breaker w_tick set_bank set_breaker tick run]. fold E1.
  unfold startCompensation. cbv zeta.
  match goal with |- context [run E1 _ ?w1] =>
    destruct (updates_cancelled E1 (set_failure_reason (Error (errorf_w "bank gateway: "
      (errorf_w "bank timeout: " (Sentinel ErrContextDone)))) t) StateCompensating w1)
      with (f := errorf_w "update state: ") (k := compensate worker_deps) as (e & w' & Hr & Hd) end.
  - simpl. rewrite Hs. by eapply bool_decide_unpack.
  - intros k Hk. exists true. apply Hend. simpl in Hk. lia.
  - exists e, w'. split; [exact Hr | exact Hd].
Qed.

(** ** Many calls of [Execute] *)
Lemma spec_same_request v now t : same_request t (spec_transfer v now t).
Proof. unfold spec_transfer. repeat case_match; done. Qed.

Lemma spec_lifecycle v now t : lifecycle t → lifecycle (spec_transfer v now t).
Proof.
  unfold lifecycle at 1. unfold spec_transfer. intros Hlc.
  destruct (t_State t) eqn:Es; try (unfold lifecycle; rewrite Es; done); unfold lifecycle;
    repeat case_match; simpl in *; simplify_eq; naive_solver lia.
Qed.

Lemma spec_not_pending v now t :
  t_State (spec_transfer v now t) ≠ StatePending.
Proof. unfold spec_transfer. destruct (t_State t) eqn:Es; repeat case_match; simpl; congruence. Qed.

Lemma effect_ready v now t w w' mv types :
  ready w t → effect t mv (stored (spec_transfer v now t)) types w w' →
  ready w' (stored (spec_transfer v now t)).
Proof.
  intros Hr (Hran & Hf & Ht & _). pose proof (spec_same_request v now t) as Hsr.
  pose proof Hr as [_ _ Hst [Hrq Hlc] Ha _].
  assert (same_request t (stored (spec_transfer v now t))) as Hsr'.
  { destruct Hsr as (?&?&?&?&?&Ec). unfold same_request. simpl. split_and!; try done.
    rewrite Ec. by apply stored_created. }
  split.
  - done.
  - unfold holds. rewrite Ht. destruct Hsr' as (-> & _). by apply lookup_insert_eq.
  - apply stored_idemp.
  - split; [by eapply same_request_wf | by apply spec_lifecycle].
  - by eapply accounts_ready_ran.
  - intros Hp. by destruct (spec_not_pending v now t).
Qed.

(** Steps left until a terminal state. *)
Definition steps_left (s : State) : nat :=
  match s with
  | StatePending => 4 | StateDebited => 3 | StateBankCalled => 2
  | StateCredited | StateCompensating => 1 | _ => 0
  end.
Lemma spec_steps_left v now t :
  (steps_left (t_State (spec_transfer v now t)) <= Nat.pred (steps_left (t_State t)))%nat.
Proof. unfold spec_transfer. destruct (t_State t) eqn:Es; simpl; rewrite ?Es; repeat case_match; simpl; lia. Qed.

Definition execute_n (n : nat) (id : TransferID) (w : World) : World :=
  Nat.iter n (λ w, (run E (Execute worker_deps id) w).2) w.

(** What has happened to a balance when the transfer is in state [s]. *)
Definition net (s : State) (t : Transfer) (a : AccountID) (cur : Currency) : Z :=
  match s with
  | StateDebited | StateBankCalled | StateCompensating =>
      moved_by (Some (t_SourceAccountID t, float_of t)) (t_Amount t) a cur
  | StateCredited | StateCompleted =>
      moved_by (Some (t_SourceAccountID t, t_DestAccountID t)) (t_Amount t) a cur
  | _ => 0
  end.

Record progress (w0 : World) (t0 : Transfer) (w : World) (t : Transfer) : Prop := {
  pr_ready : ready w t;
  pr_request : same_request t0 t;
  pr_ran : ran w0 w;
  pr_mode : g_mode (w_bank w) ≠ ModeTimeout;
  pr_net a cur : char3 cur = Some cur →
    balance (w_db w) a cur =
      balance (w_db w0) a cur + (net (t_State t) t0 a cur - net (t_State t0) t0 a cur);
  pr_cause : t_State t0 ≠ StatePending ∨ t_State t = StatePending ∨ t_State t = StateFailed ∨
    (source_status w0 t0 = Ok tt ∧ covers w0 t0 = true);
}.

Lemma net_step v now t a cur :
  lifecycle t →
  net (t_State t) t a cur + moved_by (spec_move v t) (t_Amount t) a cur =
    net (t_State (spec_transfer v now t)) t a cur.
Proof.
  intros Hlc. unfold spec_transfer, spec_move, net, moved_by, movement.
  destruct (t_State t) eqn:Es; unfold lifecycle in Hlc; rewrite Es in Hlc;
    [destruct (v_active v), (v_funds v) | destruct (v_bank v) | ..]; simpl; rewrite ?Es;
    try (by destruct Hlc); repeat case_bool_decide; lia.
Qed.

Lemma progress_verdict w0 t0 w t :
  progress w0 t0 w t → t_State t0 = StatePending → t_State t = StatePending →
  source_status w t = source_status w0 t0 ∧ covers w t = covers w0 t0.
Proof.
  intros [Hr (_ & _ & Es & _ & Em & _) (_ & Ea & _) _ Hn _] Hp0 Hp.
  destruct (rd_wf _ _ Hr) as [(_ & _ & _ & Hcur) _].
  unfold source_status, covers. rewrite Ea, Es, Em in *. split; [done|].
  rewrite Hn, Hp, Hp0 by done. simpl. by rewrite Z.add_0_r.
Qed.

(** What one call of [Execute] does to a transfer that is ready. *)
Record stepped (w : World) (t : Transfer) (w' : World) (t' : Transfer) (now : Z) : Prop := {
  sp_transfer : t' = stored (spec_transfer (verdict_of w t) now t);
  sp_effect : effect t (spec_move (verdict_of w t) t) t' (spec_events (verdict_of w t) t) w w';
  sp_ready : ready w' t';
  sp_request : same_request t t';
  sp_left : (steps_left (t_State t') <= Nat.pred (steps_left (t_State t)))%nat;
  sp_net a cur : char3 cur = Some cur →
    balance (w_db w') a cur =
      balance (w_db w) a cur + (net (t_State t') t a cur - net (t_State t) t a cur);
}.

Lemma execute_step t w :
  ready w t → bank_answered w t →
  (w_tick (run E (Execute worker_deps (t_ID t)) w).2 <= lim)%nat →
  ∃ w' t' now, run E (Execute worker_deps (t_ID t)) w = (Ok tt, w') ∧ stepped w t w' t' now.
Proof.
  intros Hr Hans Hl. pose proof (wp_Execute t w Hr Hans Hl) as Hex.
  destruct (run E (Execute worker_deps (t_ID t)) w) as [r w']. cbn [fst snd] in *.
  destruct Hex as [-> [now Heff]]. set (v := verdict_of w t) in *.
  exists w', (stored (spec_transfer v now t)), now. split; [done|].
  pose proof Heff as (_ & _ & _ & Hb & _). pose proof (rd_wf _ _ Hr) as [_ Hlc]. split.
  - done.
  - done.
  - by eapply effect_ready.
  - destruct (spec_same_request v now t) as (?&?&?&?&?&Ec).
    unfold same_request. simpl. split_and!; try done. rewrite Ec. apply stored_created, Hr.
  - apply spec_steps_left.
  - intros a cur Hc. rewrite Hb by done. pose proof (net_step v now t a cur Hlc).
    change (t_State (stored _)) with (t_State (spec_transfer v now t)). lia.
Qed.

Lemma net_request s t t' a cur : same_request t t' → net s t' a cur = net s t a cur.
Proof. intros (_ & _ & Es & Ed & Em & _). unfold net, float_of. by rewrite Es, Ed, Em. Qed.

Lemma progress_execute w0 t0 w t :
  progress w0 t0 w t → (w_tick (execute_n 1 (t_ID t0) w) <= lim)%nat →
  ∃ t', progress w0 t0 (execute_n 1 (t_ID t0) w) t' ∧
    (steps_left (t_State t') <= Nat.pred (steps_left (t_State t)))%nat.
Proof.
  intros Hp Hl. pose proof Hp as [Hr Hsr Hran Hm Hnet Hcause].
  change (execute_n 1 (t_ID t0) w) with (run E (Execute worker_deps (t_ID t0)) w).2 in *.
  pose proof Hsr as (Eid & _). rewrite <- Eid in Hl |- *.
  pose proof (run_mode E (Execute worker_deps (t_ID t)) w) as Hm'.
  destruct (execute_step t w Hr (mode_answered _ _ Hm) Hl)
    as (w' & t' & now & Hrun & [Et' Heff Hr' Hsr' Hleft Hnet']).
  rewrite Hrun in *. cbn [snd] in Hm'.
  exists t'. split; [|done]. split; [done | by etrans | | by cbn [snd]; rewrite Hm' | |].
  - etrans; [exact Hran | apply Heff].
  - intros a cur Hc. cbn [snd]. rewrite Hnet', Hnet, !(net_request _ t0 t) by done. lia.
  - subst t'. simpl. destruct (decide (t_State t0 = StatePending)) as [E0|E0]; [|by left].
    destruct (decide (t_State t = StatePending)) as [Ep|Ep].
    + destruct (progress_verdict _ _ _ _ Hp E0 Ep) as [Hs Hc].
      unfold spec_transfer. rewrite Ep. unfold verdict_of. cbn [v_active v_funds].
      rewrite Hs, Hc. destruct (source_status w0 t0) as [[]|e]; [|tauto].
      destruct (covers w0 t0); simpl; tauto.
    + destruct Hcause as [?|[?|[Ef|]]]; [done | done | | tauto]. unfold spec_transfer. rewrite Ef. tauto.
Qed.

Lemma execute_n_tick n id w : (w_tick (execute_n n id w) <= w_tick (execute_n (S n) id w))%nat.
Proof. apply (run_tick E (Execute worker_deps id)). Qed.

Lemma progress_many n w0 t0 w t :
  progress w0 t0 w t → (w_tick (execute_n n (t_ID t0) w) <= lim)%nat →
  ∃ t', progress w0 t0 (execute_n n (t_ID t0) w) t' ∧
    (steps_left (t_State t') <= steps_left (t_State t) - n)%nat.
Proof.
  intros Hp. induction n as [|n IH]; intros Hl; [exists t; split; [done | lia]|].
  destruct IH as (t1 & Hp1 & Hs1); [etrans; [apply execute_n_tick | exact Hl]|].
  destruct (progress_execute _ _ _ _ Hp1 Hl) as (t2 & Hp2 & Hs2). exists t2. split; [exact Hp2 | lia].
Qed.

Lemma progress_start w t : ready w t → g_mode (w_bank w) ≠ ModeTimeout → progress w t w t.
Proof.
  intros Hr Hm. split; [done | done | done | done | intros a cur _; lia |].
  destruct (decide (t_State t = StatePending)); tauto.
Qed.
End refinement.

(** ** What the saga guarantees, one process, no faults *)
Section theorems.
Context {U : UUIDLib} {L : UUIDLaws U} {R : RedisLib} {N : NatsLib}.

(** C2: let a transfer's source and destination accounts exist, and the clearing
    account of its currency, different from both ([ready], which also asks for
    a well-formed row, UUIDs not drawn before and, while the transfer is
    PENDING, a source balance in the range of an int64). With no faults and a
    context that does not end, one call of [Execute] then returns nil and does,
    in every state and on every branch (inactive source, insufficient funds,
    bank refusal, open breaker, success, terminal state), exactly what the
    specification says: the row becomes [spec_transfer], the balances change by
    [spec_move], and the events and outbox messages of [spec_events] are added.
    The exception is a DEBITED transfer that meets a bank which does
    not answer (timeout mode, the breaker letting the call through): [Execute]
    hangs until its context ends, and then returns an error and leaves the
    database as it was: nothing is compensated. *)
Theorem execute_implements_spec E lim w t :
  healthy E lim → ready E lim w t →
  (bank_answered E w t → (w_tick (run E (Execute worker_deps (t_ID t)) w).2 <= lim)%nat →
     hangs E (Execute worker_deps (t_ID t)) w = false ∧
     ∃ w' now, run E (Execute worker_deps (t_ID t)) w = (Ok tt, w') ∧
       effect E lim t (spec_move (verdict_of E w t) t)
         (stored (spec_transfer (verdict_of E w t) now t)) (spec_events (verdict_of E w t) t) w w') ∧
  (¬ bank_answered E w t →
     hangs E (Execute worker_deps (t_ID t)) w = true ∧
     let E' := ended_from (S (S (w_tick w))) E in
     hangs E' (Execute worker_deps (t_ID t)) w = false ∧
     ∃ e w', run E' (Execute worker_deps (t_ID t)) w = (Err e, w') ∧ w_db w' = w_db w).
Proof.
  intros H Hr. pose proof (rd_holds _ _ _ _ Hr) as Hh. pose proof (rd_wf _ _ _ _ Hr) as Hw.
  pose proof (Execute_hangs E lim H t w Hh Hw) as Hhang. split.
  - intros Hans Hl. split.
    { apply not_true_is_false. intros [Hs Hb]%Hhang. destruct (Hans Hs). congruence. }
    pose proof (wp_Execute E lim H t w Hr Hans Hl) as Hex.
    destruct (run E (Execute worker_deps (t_ID t)) w) as [r w']. cbn [fst snd] in *.
    destruct Hex as [-> [now Heff]]. eauto.
  - intros [Hs Hb]%unanswered. split; [by apply Hhang|].
    by apply (Execute_cancelled E lim H).
Qed.

(** C1: let a transfer's source and destination accounts exist, and the clearing
    account of its currency, different from both ([ready], which also asks for
    a well-formed row, UUIDs not drawn before and a source balance in the range
    of an int64). With no faults, contexts that do not end and a bank that
    answers (any mode but timeout),
    four calls of [Execute] take it from PENDING to a terminal state: either
    COMPLETED, the source having been active and covering the amount, and then
    exactly the amount has gone from source to destination and every other
    balance (the clearing account's included) is as before; or FAILED, and then
    every balance is as before. *)
Theorem saga_all_or_nothing E lim w t :
  healthy E lim → ready E lim w t → g_mode (w_bank w) ≠ ModeTimeout → t_State t = StatePending →
  (w_tick (execute_n E 4 (t_ID t) w) <= lim)%nat →
  ∃ t', holds (w_db (execute_n E 4 (t_ID t) w)) t' ∧ same_request t t' ∧
    (t_State t' = StateCompleted ∧ source_status w t = Ok tt ∧ covers w t = true ∧
       (∀ a cur, char3 cur = Some cur →
          balance (w_db (execute_n E 4 (t_ID t) w)) a cur = balance (w_db w) a cur +
            if bool_decide (m_Currency (t_Amount t) = cur)
            then movement (t_SourceAccountID t) (t_DestAccountID t) a (m_Amount (t_Amount t)) else 0)
     ∨ t_State t' = StateFailed ∧
       (∀ a cur, char3 cur = Some cur →
          balance (w_db (execute_n E 4 (t_ID t) w)) a cur = balance (w_db w) a cur)).
Proof.
  intros H Hr Hm Hs Hl. destruct (progress_many E lim H 4 w t w t) as (t' & Hp & Hn); [|done|].
  { by apply progress_start. }
  destruct Hp as [Hr' Hsr _ _ Hnet Hcause]. rewrite Hs in Hn. simpl in Hn.
  exists t'. split; [apply Hr'|]. split; [done|].
  pose proof (rd_wf _ _ _ _ Hr') as [_ Hlc]. unfold lifecycle in Hlc.
  destruct (t_State t') eqn:Es'; simpl in Hn; try (lia || done); [left|right].
  - split_and!; [done | destruct Hcause as [?|[?|[?|[? ?]]]]; done.. |].
    intros a cur Hc. rewrite Hnet, Hs by done. simpl. by rewrite Z.sub_0_r.
  - split; [done|]. intros a cur Hc. rewrite Hnet, Hs by done. simpl. lia.
Qed.
End theorems.
