(* ===== verification/Recovery.v ===== *)
(** * After a crash

    Whatever the system went through, a transfer with its accounts in place
    that is then driven by one worker, without further faults and with a bank
    that answers, comes to an end. *)
From S2P Require Import Prelude Uuid Money Account Transfer Ledger Json Database CircuitBreaker.
From S2P Require Import Effects Ports Adapters AdapterSpecs Saga Command Http Worker Delivery.
From S2P Require Import Concurrency System Sequential Refinement.

Section recovery.
Context {U : UUIDLib} {L : UUIDLaws U} {R : RedisLib} {N : NatsLib} {M : MuxLib}.

(** A transfer of a reachable configuration is ready to go on. *)
Lemma reachable_ready E0 w0 c E lim t :
  transfers_wf (w_db w0) → system_run E0 w0 c →
  holds (w_db (c_world c)) t → t_State t ∈ State_consts →
  fresh_ids E lim (c_world c) → accounts_ready (c_world c) t →
  (t_State t = StatePending → in_int64
     (balance (w_db (c_world c)) (t_SourceAccountID t) (m_Currency (t_Amount t)))) →
  ready E lim (c_world c) t.
Proof.
  intros Hwf Hrun Hh Hs Hf Ha Hb. destruct (system_run_ok E0 w0 c Hrun Hwf) as [[Hi _] _].
  destruct (holds_wf (w_db (c_world c)) t Hs Hi Hh) as (Hw & Hst & _). by split.
Qed.

(** C28: take any configuration the system reaches, with any interleaving,
    faults, ended contexts and crashes before, and a transfer in it whose source
    and destination accounts exist, as does the clearing account of its
    currency, different from both ([accounts_ready]); a PENDING one's source
    balance is in the range of an int64, and the UUIDs to come are new. If the bank answers (any
    mode but timeout), four deliveries without faults, whose contexts do not
    end, take that transfer to COMPLETED or FAILED; between there and the end
    the balances move by what its state had still to do: the rest of the way to
    the destination, or back to the source, and nothing for a terminal one. *)
Theorem recovers_from_any_crash E0 w0 c E lim t :
  transfers_wf (w_db w0) → system_run E0 w0 c →
  holds (w_db (c_world c)) t → t_State t ∈ State_consts →
  healthy E lim → fresh_ids E lim (c_world c) → accounts_ready (c_world c) t →
  (t_State t = StatePending → in_int64
     (balance (w_db (c_world c)) (t_SourceAccountID t) (m_Currency (t_Amount t)))) →
  g_mode (w_bank (c_world c)) ≠ ModeTimeout →
  let w := execute_n E 4 (t_ID t) (c_world c) in
  (w_tick w <= lim)%nat →
  ∃ t', holds (w_db w) t' ∧ same_request t t' ∧
    (t_State t' = StateCompleted ∨ t_State t' = StateFailed) ∧
    ∀ a cur, char3 cur = Some cur →
      balance (w_db w) a cur = balance (w_db (c_world c)) a cur +
        (net (t_State t') t a cur - net (t_State t) t a cur).
Proof.
  intros Hwf Hrun Hh Hs H Hf Ha Hb Hm w Hl.
  pose proof (reachable_ready _ _ _ _ _ _ Hwf Hrun Hh Hs Hf Ha Hb) as Hr.
  destruct (progress_many E lim H 4 _ t _ t (progress_start E lim _ _ Hr Hm) Hl) as (t' & Hp & Hn).
  destruct Hp as [Hr' Hsr _ _ Hnet _]. exists t'. split; [apply Hr'|]. split; [done|].
  split; [|exact Hnet]. pose proof (rd_wf _ _ _ _ Hr') as [_ Hlc]. unfold lifecycle in Hlc.
  destruct (t_State t'), (t_State t); simpl in Hn; auto; lia || done.
Qed.
End recovery.
