(* ===== verification/Pipeline.v ===== *)
(** * Relay and worker taking turns

    The two ends of the pipeline composed: what the saga leaves in the outbox
    the relay sends, and what the stream delivers makes the worker take the
    next step. Any number of transfers whose messages wait in the outbox, on
    the same accounts or not, are driven to their ends together. *)
From S2P Require Import Prelude Uuid Money Account Transfer Ledger Json Database CircuitBreaker.
From S2P Require Import Effects Ports Adapters AdapterSpecs Saga Command Http Worker Delivery Drain.
From S2P Require Import Concurrency System Guarantees Sequential Refinement.

Section pipeline.
Context {U : UUIDLib} {L : UUIDLaws U} {R : RedisLib} {N : NatsLib} {NL : NatsLaws N} {M : MuxLib}.
Context (E : Env) (lim : nat) (H : healthy E lim).
Abbreviation ready := (Refinement.ready E lim).

(** ** A round: one poll of the relay, then the delivery of what it has sent *)
Definition poll : prog unit := (do! _ := relay batchSize in Ret tt)%prog.
Definition delivery (m : string * string) : prog unit := (do! _ := consume m.1 m.2 in Ret tt)%prog.
Definition sent_since (w w1 : World) : list (string * string) :=
  drop (length (nats_log (w_nats w))) (nats_log (w_nats w1)).
Definition round (w : World) : World :=
  let w1 := (run E poll w).2 in serial E (map delivery (sent_since w w1)) w1.

(** Rounds are histories of the system. *)
Lemma round_serial w : ∃ ps, Forall process ps ∧ round w = serial E ps w.
Proof.
  exists (poll :: map delivery (sent_since w (run E poll w).2)). split; [|done].
  constructor; [apply process_relay|]. apply Forall_map, Forall_true. intros m. apply process_worker.
Qed.
Lemma serial_outbox_inv ps w : Forall process ps → outbox_inv w → outbox_inv (serial E ps w).
Proof.
  intros Hps Hi. refine (proj1 (serial_ok E outbox_inv outbox_le ps w _ Hi)).
  eapply Forall_impl; [exact Hps|]. intros p Hp w' Hi'. by apply outbox_process.
Qed.
Lemma round_outbox_inv w : outbox_inv w → outbox_inv (round w).
Proof. destruct (round_serial w) as (ps & Hps & ->). by apply serial_outbox_inv. Qed.
Lemma round_tick w : (w_tick w <= w_tick (round w))%nat.
Proof. destruct (round_serial w) as (ps & _ & ->). apply serial_tick. Qed.

(** ** What the step announces *)
Lemma announcement v now t :
  lifecycle t → terminal (t_State t) = false →
  ∃ typ, spec_events v t = [typ] ∧
    (terminal (t_State (spec_transfer v now t)) = false → EventType_text typ ∈ stream_subjects) ∧
    (terminal (t_State (spec_transfer v now t)) = true → EventType_text typ ∉ stream_subjects).
Proof.
  unfold lifecycle, spec_events, spec_transfer. intros Hlc Ht. rewrite Ht.
  destruct (t_State t) eqn:Es; try done;
    [destruct (v_active v), (v_funds v) | destruct (v_bank v) | ..]; simpl;
    eexists; (split; [reflexivity|]); (split; [intros [=] | intros [=]]); by eapply bool_decide_unpack.
Qed.

Lemma pending_snoc d d' obs :
  outbox d' = outbox d ++ obs → Forall (λ ob, ob_status ob = PENDING) obs →
  pending d' = pending d ++ obs.
Proof. intros Ho Hobs. unfold pending. rewrite Ho, filter_app. by rewrite (filter_id _ obs). Qed.

Lemma pending_marked d ids :
  pending (set_outbox (map (published_if ids) (outbox d)) (outbox_seq d) d) =
  filter (λ r, ¬ ob_id r ∈ ids) (pending d).
Proof. unfold pending. simpl. apply pending_published_if. Qed.

(** ** One transfer among others *)

(** [ready], but for the balance, which the others move too. *)
Record steady (w : World) (t : Transfer) : Prop := {
  sd_fresh : fresh_ids E lim w;
  sd_holds : holds (w_db w) t;
  sd_stored : stored t = t;
  sd_wf : transfer_wf t;
  sd_accounts : accounts_ready w t;
}.
Lemma ready_steady w t : ready w t → steady w t.
Proof. by intros []. Qed.
Lemma steady_ready w t :
  steady w t → in_int64 (balance (w_db w) (t_SourceAccountID t) (m_Currency (t_Amount t))) → ready w t.
Proof. by intros [] ?. Qed.

Lemma steady_outbox w w1 t rows seq :
  (w_tick w <= w_tick w1)%nat → w_db w1 = set_outbox rows seq (w_db w) → steady w t → steady w1 t.
Proof.
  intros Ht Hd [Hf Hh Hs Hw [H1 H2 H3 H4 H5 H6]]. split; try done.
  - eapply fresh_ids_same; [exact Ht | by rewrite Hd | by rewrite Hd | exact Hf].
  - unfold holds. by rewrite Hd.
  - split; unfold accounts_wf; by rewrite ?Hd.
Qed.

(** A step of another transfer. *)
Lemma steady_other w w' t t1 mv t1' types :
  t_ID t ≠ t_ID t1 → effect E lim t1 mv t1' types w w' → steady w t → steady w' t.
Proof.
  intros Hne (Hran & Hf & Ht & _) [_ Hh Hs Hw Ha]. split; try done.
  - unfold holds. rewrite Ht, lookup_insert_ne; [done|]. intros ?%TransferID_String_inj. congruence.
  - by eapply accounts_ready_ran.
Qed.

(** What a transfer has moved since it was [p.1], never more than its amount. *)
Definition shift (a : AccountID) (cur : Currency) (p : Transfer * Transfer) : Z :=
  net (t_State p.2) p.1 a cur - net (t_State p.1) p.1 a cur.
Definition volume (ts : list Transfer) : Z := sumZ (λ t, m_Amount (t_Amount t)) ts.

Lemma shift_amount w p a cur :
  steady w p.2 → same_request p.1 p.2 → Z.abs (shift a cur p) <= m_Amount (t_Amount p.1).
Proof.
  destruct p as [t0 t]. cbn [fst snd].
  intros [_ _ _ [(_ & Hsd & [Ha _] & _) _] [_ _ _ _ Hfs Hfd]] (_ & _ & Es & Ed & Em & _).
  unfold float_of in *. rewrite Es, Ed, Em in *. unfold shift, net, moved_by, movement, float_of. cbn [fst snd].
  destruct (t_State t), (t_State t0); repeat case_bool_decide; subst; (lia || congruence).
Qed.

(** ** The fleet

    [ps] pairs each transfer as it was in [w0] with what it is now; [todo] are
    the messages the poll of this round has sent and that are not delivered
    yet. *)
Implicit Types (t : Transfer) (p : Transfer * Transfer) (ps l : list (Transfer * Transfer)).
Implicit Types (todo : list (string * string)).
Definition live (d : DB) : list outbox_row := filter (bound stream_subjects) (pending d).
Definition ids_of (ms : list (string * string)) : list (res TransferID) :=
  map (λ m, message_transfer_id m.2) ms.
Definition awaited todo (d : DB) : list (res TransferID) := ids_of (todo ++ map message (live d)).
Definition named (p : Transfer * Transfer) : res TransferID := Ok (t_ID p.1).

Record fleet (w0 : World) ps todo (k : nat) (w : World) : Prop := {
  fl_steady p : p ∈ ps → steady w p.2;
  fl_same p : p ∈ ps → same_request p.1 p.2;
  fl_ids : NoDup (map named ps);
  fl_net a cur : char3 cur = Some cur →
    balance (w_db w) a cur = balance (w_db w0) a cur + sumZ (shift a cur) ps;
  fl_outbox : outbox_inv w;
  fl_subjects : nats_subjects (w_nats w) = stream_subjects;
  fl_room : (length (pending (w_db w)) + length todo <= batchSize)%nat;
  fl_nodup : NoDup (awaited todo (w_db w));
  fl_known r : r ∈ awaited todo (w_db w) → r ∈ map named ps;
  fl_waits p : p ∈ ps → terminal (t_State p.2) = false ↔ named p ∈ awaited todo (w_db w);
  fl_left p : p ∈ ps →
    (steps_left (t_State p.2) <= if bool_decide (named p ∈ ids_of todo) then S k else k)%nat;
  fl_mode : g_mode (w_bank w) ≠ ModeTimeout;
}.

Lemma fleet_balance w0 ps todo k w a cur :
  fleet w0 ps todo k w → char3 cur = Some cur →
  Z.abs (balance (w_db w) a cur - balance (w_db w0) a cur) <= volume (map fst ps).
Proof.
  intros Hf Hc. rewrite (fl_net _ _ _ _ _ Hf) by done.
  replace (_ + _ - _) with (sumZ (shift a cur) ps) by lia.
  assert (volume (map fst ps) = sumZ (λ p, m_Amount (t_Amount p.1)) ps) as ->.
  { unfold volume. clear. induction ps as [|p ps IH]; simpl; [done | by rewrite IH]. }
  apply sumZ_abs. intros p Hp. eapply shift_amount; [by eapply fl_steady | by eapply fl_same].
Qed.

Lemma deliver_executes m id w :
  message_transfer_id m.2 = Ok id → (run E (delivery m) w).2 = (run E (Execute worker_deps id) w).2.
Proof.
  intros Hm. unfold delivery, consume, worker_handler. rewrite !run_bind, run_attempt, Hm.
  cbn [run]. by destruct (run E (Execute worker_deps id) w).
Qed.

(** ** The poll sends every message that can be sent *)
Lemma poll_sends w :
  outbox_inv w → nats_subjects (w_nats w) = stream_subjects →
  (length (pending (w_db w)) <= batchSize)%nat →
  let w1 := (run E poll w).2 in
  w_db w1 = set_outbox (map (published_if (map ob_id (live (w_db w)))) (outbox (w_db w)))
              (outbox_seq (w_db w)) (w_db w) ∧
  pending (w_db w1) = filter (λ r, ¬ bound stream_subjects r) (pending (w_db w)) ∧
  sent_since w w1 = map message (live (w_db w)) ∧ nats_subjects (w_nats w1) = stream_subjects.
Proof.
  intros Hi Hs Hlen w1.
  destruct (run_relay E (no_fault E lim H) batchSize w) as (w' & Hr & Hs' & Hl & Hd & _).
  assert (w1 = w') as -> by (unfold w1, poll; rewrite run_bind, Hr; done).
  assert (filter (bound (nats_subjects (w_nats w))) (select_pending batchSize (w_db w)) = live (w_db w)) as Hlive.
  { unfold select_pending, live. fold (pending (w_db w)). by rewrite Hs, take_ge. }
  rewrite Hlive in *. rewrite mark_all_outbox in Hd.
  split_and!; [exact Hd | | | congruence].
  - rewrite Hd, pending_marked. apply filter_ext_in. intros r Hin. unfold live. split.
    + intros Hn Hb. apply Hn, list_elem_of_fmap_2, list_elem_of_filter. done.
    + intros Hn (r' & E' & [Hb Hr']%list_elem_of_filter)%list_elem_of_fmap_1. apply Hn.
      assert (r' = r) as <-; [|done].
      apply (NoDup_map_inj ob_id (pending (w_db w))); [apply pending_ids, Hi | done..].
  - unfold sent_since. by rewrite Hl, drop_app_length.
Qed.

(** The beginning of a round. *)
Lemma fleet_poll w0 ps k w :
  fleet w0 ps [] (S k) w →
  let w1 := (run E poll w).2 in fleet w0 ps (sent_since w w1) k w1.
Proof.
  intros [Hst Hsame Hids Hnet Hout Hsub Hroom Hnd Hkn Hwait Hleft Hmode] w1.
  cbn [length] in Hroom. rewrite Nat.add_0_r in Hroom.
  destruct (poll_sends w Hout Hsub Hroom) as (Hd & Hp & Hsent & Hs1). fold w1 in Hd, Hp, Hsent, Hs1.
  assert (live (w_db w1) = []) as Hlive.
  { unfold live. apply filter_none. rewrite Hp. apply Forall_forall. by intros r [Hr _]%list_elem_of_filter. }
  assert (awaited (sent_since w w1) (w_db w1) = ids_of (sent_since w w1)) as Haw1
    by (unfold awaited; rewrite Hlive; cbn [map]; by rewrite app_nil_r).
  assert (awaited [] (w_db w) = awaited (sent_since w w1) (w_db w1)) as Haw by (by rewrite Haw1, Hsent).
  rewrite Haw in Hnd, Hkn, Hwait. split; try done.
  - intros p Hin. eapply steady_outbox; [apply (run_tick E poll) | exact Hd | by apply Hst].
  - intros a cur Hc. rewrite <- Hnet by done. by rewrite Hd.
  - apply (serial_outbox_inv [poll]); [|done]. repeat constructor.
  - rewrite Hp, Hsent, length_map. etrans; [|exact Hroom]. unfold live.
    by rewrite (length_filter_split (bound stream_subjects)).
  - intros p Hin. specialize (Hleft p Hin). rewrite bool_decide_false in Hleft by apply not_elem_of_nil.
    case_bool_decide as Hsnt; [done|].
    specialize (Hwait p Hin). rewrite Haw1 in Hwait. unfold terminal in Hwait.
    destruct (t_State p.2); simpl; try lia; by destruct Hsnt; apply Hwait.
  - unfold w1. by rewrite run_mode.
Qed.
(** ** A delivery is one step of its transfer, and leaves the next message *)
Lemma step_message todo w w' t t' now :
  ready w t → terminal (t_State t) = false → stepped E lim w t w' t' now →
  awaited todo (w_db w') =
    awaited todo (w_db w) ++ (if terminal (t_State t') then [] else [Ok (t_ID t)]) ∧
  length (pending (w_db w')) = S (length (pending (w_db w))).
Proof.
  intros Hr Hterm [Et' (_ & _ & _ & _ & evs & obs & _ & Ho & _ & Hsub & _ & Hobs) _ _ _ _].
  pose proof (rd_wf _ _ _ _ Hr) as [_ Hlc].
  destruct (announcement (verdict_of E w t) now t Hlc Hterm) as (typ & Etyp & Hin & Hout).
  rewrite Etyp in Hsub. destruct obs as [|ob [|? ?]]; try done. injection Hsub as Hsub.
  apply Forall_cons in Hobs as [[Hst Hmsg] _].
  assert (pending (w_db w') = pending (w_db w) ++ [ob]) as Hp
    by (apply pending_snoc; [done | by repeat constructor]).
  rewrite Hp, length_app. split; [|simpl; lia]. unfold awaited, live. rewrite Hp, filter_app.
  assert (t_State t' = t_State (spec_transfer (verdict_of E w t) now t)) as Es by (by rewrite Et').
  rewrite <- Es in Hin, Hout. destruct (terminal (t_State t')) eqn:Hterm'.
  - rewrite filter_cons_False, filter_nil, !app_nil_r; [done|]. unfold bound. rewrite Hsub. by apply Hout.
  - rewrite filter_cons_True, filter_nil by (unfold bound; rewrite Hsub; by apply Hin).
    unfold ids_of. rewrite (map_app message), app_assoc, map_app. cbn. by rewrite Hmsg.
Qed.
(** The others of a fleet. *)
Lemma others_named l1 l2 t0 t p :
  NoDup (map named (l1 ++ (t0, t) :: l2)) → p ∈ l1 ++ l2 →
  p ∈ l1 ++ (t0, t) :: l2 ∧ named p ≠ Ok (t_ID t0).
Proof.
  intros Hnd Hp. assert ((t0, t) :: l1 ++ l2 ≡ₚ l1 ++ (t0, t) :: l2) as Hperm by apply Permutation_middle.
  rewrite <- Hperm in Hnd |- *. cbn [map] in Hnd. apply NoDup_cons in Hnd as [Hn _].
  split; [by right|]. intros E0. apply Hn. change (named (t0, t)) with (Ok (t_ID t0)). rewrite <- E0.
  by apply list_elem_of_fmap_2.
Qed.

Lemma fleet_member l1 l2 t0 t' p :
  p ∈ l1 ++ (t0, t') :: l2 → p = (t0, t') ∨ p ∈ l1 ++ l2.
Proof. rewrite !elem_of_app, elem_of_cons. tauto. Qed.

Lemma awaited_cons m todo d : awaited (m :: todo) d = message_transfer_id m.2 :: awaited todo d.
Proof. done. Qed.

Lemma fleet_stepped w0 l1 t0 t l2 m todo k w w' t' now :
  fleet w0 (l1 ++ (t0, t) :: l2) (m :: todo) k w → message_transfer_id m.2 = Ok (t_ID t0) →
  ready w t → stepped E lim w t w' t' now → outbox_inv w' → g_mode (w_bank w') ≠ ModeTimeout →
  fleet w0 (l1 ++ (t0, t') :: l2) todo k w'.
Proof.
  intros [Hst Hsame Hids Hnet Hout Hsub Hroom Hnd Hkn Hwait Hleft _] Hm Hr Hs Hout' Hmode'.
  assert ((t0, t) ∈ l1 ++ (t0, t) :: l2) as Hin by (apply elem_of_app; right; by left).
  pose proof (Hsame _ Hin) as Hsr0. cbn [fst snd] in Hsr0. pose proof Hsr0 as (Eid & _).
  assert (terminal (t_State t) = false) as Hterm.
  { apply (Hwait _ Hin). rewrite awaited_cons, Hm. by left. }
  destruct (step_message todo w w' t t' now Hr Hterm Hs) as [Haw Hpend].
  destruct Hs as [_ Heff Hr' Hsr Hst' Hnet']. pose proof Heff as ((_ & _ & _ & Hn') & _).
  rewrite awaited_cons, Hm in Hnd, Hwait. apply NoDup_cons in Hnd as [Hnew Hnd].
  assert (map named (l1 ++ (t0, t') :: l2) = map named (l1 ++ (t0, t) :: l2)) as Emap by (by rewrite !map_app).
  pose proof (λ p, others_named l1 l2 t0 t p Hids) as Hoth.
  split; rewrite ?Emap, ?Haw, ?Hpend; try done.
  - intros p [->|Hp]%fleet_member; [by apply ready_steady|]. destruct (Hoth p Hp) as [Hp' Hne].
    eapply steady_other; [|exact Heff | by apply Hst]. destruct (Hsame p Hp') as (-> & _).
    rewrite Eid. unfold named in Hne. congruence.
  - intros p [->|Hp]%fleet_member; [by etrans | apply Hsame, Hoth, Hp].
  - intros a cur Hc. rewrite Hnet', Hnet by done. autorewrite with flip_rw. cbn [sumZ].
    unfold shift. cbn [fst snd]. rewrite !(net_request _ t0 t) by done. lia.
  - by rewrite Hn'.
  - simpl in Hroom. lia.
  - apply NoDup_app. split; [done|]. destruct (terminal (t_State t')); [split; [set_solver | constructor]|].
    split; [|by apply NoDup_singleton]. intros r Hr1 ->%list_elem_of_singleton. by rewrite Eid in Hr1.
  - intros r [Hr1|Hr1]%elem_of_app; [apply Hkn; rewrite awaited_cons; by right|].
    destruct (terminal (t_State t')); [by apply elem_of_nil in Hr1|].
    apply list_elem_of_singleton in Hr1 as ->. rewrite Eid. by apply (list_elem_of_fmap_2 named _ (t0, t)).
  - intros p [->|Hp]%fleet_member.
    + cbn [fst snd]. unfold named. cbn [fst]. rewrite elem_of_app, Eid.
      destruct (terminal (t_State t')); [|by rewrite list_elem_of_singleton; tauto].
      split; [done|]. by intros [?|[]%elem_of_nil].
    + destruct (Hoth p Hp) as [Hp' Hne]. rewrite (Hwait p Hp'), elem_of_cons, elem_of_app, Eid.
      destruct (terminal (t_State t')); rewrite ?elem_of_nil, ?list_elem_of_singleton; tauto.
  - intros p [->|Hp]%fleet_member.
    + specialize (Hleft _ Hin). cbn [fst snd] in *. repeat case_bool_decide; lia.
    + destruct (Hoth p Hp) as [Hp' Hne]. specialize (Hleft p Hp').
      rewrite (bool_decide_ext (named p ∈ ids_of todo) (named p ∈ ids_of (m :: todo))); [done|].
      unfold ids_of. cbn [map]. rewrite Hm, elem_of_cons. tauto.
Qed.

(** No balance comes out of range, whatever the transfers do. *)
Definition margin (w : World) (ts : list Transfer) : Prop :=
  ∀ t, t ∈ ts →
    let b := balance (w_db w) (t_SourceAccountID t) (m_Currency (t_Amount t)) in
    in_int64 (b - volume ts) ∧ in_int64 (b + volume ts).

Lemma fleet_ready w0 ps todo k w p :
  fleet w0 ps todo k w → margin w0 (map fst ps) → p ∈ ps → ready w p.2.
Proof.
  intros Hf Hm Hp. pose proof (fl_steady _ _ _ _ _ Hf p Hp) as Hst. apply steady_ready; [done|].
  pose proof (fl_same _ _ _ _ _ Hf p Hp) as (_ & _ & Es & _ & Ea & _).
  destruct Hst as [_ _ _ [(_ & _ & _ & Hc) _] _].
  pose proof (fleet_balance _ _ _ _ _ (t_SourceAccountID p.2) _ Hf Hc) as Hb. rewrite Es, Ea in *.
  destruct (Hm p.1) as [H1 H2]; [by apply list_elem_of_fmap_2|]. cbv zeta in *.
  unfold in_int64 in *. lia.
Qed.

Lemma fleet_deliver w0 ps m todo k w :
  fleet w0 ps (m :: todo) k w → margin w0 (map fst ps) →
  (w_tick (run E (delivery m) w).2 <= lim)%nat →
  ∃ ps', map fst ps' = map fst ps ∧ fleet w0 ps' todo k (run E (delivery m) w).2.
Proof.
  intros Hf Hmar Hl.
  assert (message_transfer_id m.2 ∈ map named ps) as Hin.
  { apply (fl_known _ _ _ _ _ Hf). rewrite awaited_cons. by left. }
  apply list_elem_of_fmap_1 in Hin as ([t0 t] & Hm & Hin). unfold named in Hm. cbn [fst] in Hm.
  pose proof (fleet_ready _ _ _ _ _ _ Hf Hmar Hin) as Hr. cbn [snd] in Hr.
  pose proof (fl_same _ _ _ _ _ Hf _ Hin) as (Eid & _). cbn [fst snd] in Eid.
  assert (outbox_inv (run E (delivery m) w).2) as Hout.
  { apply (serial_outbox_inv [delivery m]); [|apply Hf]. constructor; [apply process_worker | done]. }
  rewrite (deliver_executes m _ w Hm) in *. rewrite <- Eid in Hl, Hout |- *.
  pose proof (fl_mode _ _ _ _ _ Hf) as Hmode. pose proof (mode_answered E w t Hmode) as Hans.
  rewrite <- (run_mode E (Execute worker_deps (t_ID t))) in Hmode.
  destruct (execute_step E lim H t w Hr Hans Hl) as (w' & t' & now & Hrun & Hs). rewrite Hrun in *.
  apply list_elem_of_split in Hin as (l1 & l2 & ->). exists (l1 ++ (t0, t') :: l2).
  split; [by rewrite !map_app|]. by eapply fleet_stepped.
Qed.

Lemma fleet_deliveries w0 ps todo k w :
  fleet w0 ps todo k w → margin w0 (map fst ps) →
  (w_tick (serial E (map delivery todo) w) <= lim)%nat →
  ∃ ps', map fst ps' = map fst ps ∧ fleet w0 ps' [] k (serial E (map delivery todo) w).
Proof.
  revert ps w. induction todo as [|m todo IH]; intros ps w Hf Hm Hl; [by exists ps|].
  destruct (fleet_deliver w0 ps m todo k w Hf Hm) as (ps1 & E1 & Hf1).
  { etrans; [apply (serial_tick E (map delivery todo)) | exact Hl]. }
  destruct (IH ps1 _ Hf1) as (ps2 & E2 & Hf2); [by rewrite E1 | exact Hl |].
  exists ps2. split; [congruence | done].
Qed.

(** One round takes every transfer that has a message one step on. *)
Lemma fleet_rounds w0 ps n k w :
  fleet w0 ps [] (n + k) w → margin w0 (map fst ps) → (w_tick (Nat.iter n round w) <= lim)%nat →
  ∃ ps', map fst ps' = map fst ps ∧ fleet w0 ps' [] k (Nat.iter n round w).
Proof.
  revert k. induction n as [|n IH]; intros k Hf Hm Hl; [by exists ps|].
  cbn [Nat.iter nat_rect] in *. set (wn := Nat.iter n round w) in *. change (nat_rect _ _ _ _) with wn in *.
  destruct (IH (S k)) as (ps1 & E1 & Hf1); [by rewrite Nat.add_succ_r | done | |].
  { etrans; [apply round_tick | exact Hl]. }
  destruct (fleet_deliveries w0 ps1 (sent_since wn (run E poll wn).2) k (run E poll wn).2)
    as (ps2 & E2 & Hf2); [by apply fleet_poll | by rewrite E1 | exact Hl |].
  exists ps2. split; [congruence | done].
Qed.
(** ** The two ends of a run *)
Definition awaits (d : DB) (ts : list Transfer) : Prop :=
  map (λ ob, message_transfer_id (ob_payload ob)) (live d) ≡ₚ map (λ t, Ok (t_ID t)) ts.

Lemma awaited_nil d : awaited [] d = map (λ ob, message_transfer_id (ob_payload ob)) (live d).
Proof. unfold awaited, ids_of. cbn [app]. by rewrite map_map. Qed.

Lemma steps_left_4 (s : State) : (steps_left s <= 4)%nat.
Proof. destruct s; simpl; lia. Qed.

Lemma fleet_start w ts :
  Forall (ready w) ts → NoDup (map t_ID ts) → outbox_inv w →
  nats_subjects (w_nats w) = stream_subjects → (length (pending (w_db w)) <= batchSize)%nat →
  Forall (λ t, terminal (t_State t) = false) ts → awaits (w_db w) ts →
  g_mode (w_bank w) ≠ ModeTimeout →
  fleet w (map (λ t, (t, t)) ts) [] 4 w.
Proof.
  intros Hr Hnd Ho Hs Hp Ht Hw Hm. rewrite Forall_forall in Hr, Ht.
  assert (map named (map (λ t, (t, t)) ts) = map (λ t, Ok (t_ID t)) ts) as En by (by rewrite map_map).
  assert (NoDup (map (λ t, Ok (t_ID t)) ts : list (res TransferID))) as Hnd'.
  { rewrite <- (map_map t_ID Ok). by apply NoDup_fmap_2; [intros ? ? [=]|]. }
  assert (∀ p, p ∈ map (λ t, (t, t)) ts → ∃ t, p = (t, t) ∧ t ∈ ts) as Hps
    by (intros p (t & -> & Hin)%list_elem_of_fmap_1; eauto).
  split; rewrite ?awaited_nil, ?En, ?Hw; try done.
  - intros p (t & -> & Hin)%Hps. by apply ready_steady, Hr.
  - by intros p (t & -> & Hin)%Hps.
  - intros a cur _. rewrite sumZ_zero; [lia|]. intros p (t & -> & Hin)%Hps. unfold shift. cbn. lia.
  - cbn [length]. lia.
  - intros r. by rewrite Hw.
  - intros p (t & -> & Hin)%Hps. rewrite Hw. split; [|by intros _; apply Ht].
    intros _. by apply (list_elem_of_fmap_2 (λ t, Ok (t_ID t))).
  - intros p _. case_bool_decide; pose proof (steps_left_4 (t_State p.2)); lia.
Qed.

Lemma fleet_end w0 ps w :
  fleet w0 ps [] 0 w →
  Forall (λ p, holds (w_db w) p.2 ∧ same_request p.1 p.2 ∧
            (t_State p.2 = StateCompleted ∨ t_State p.2 = StateFailed)) ps ∧ live (w_db w) = [].
Proof.
  intros [Hst Hsame _ _ _ _ _ _ Hkn Hwait Hleft _].
  assert (∀ p, p ∈ ps → t_State p.2 = StateCompleted ∨ t_State p.2 = StateFailed) as Hend.
  { intros p Hp. specialize (Hleft p Hp). rewrite bool_decide_false in Hleft by apply not_elem_of_nil.
    destruct (sd_wf _ _ (Hst p Hp)) as [_ Hlc]. unfold lifecycle in Hlc.
    destruct (t_State p.2); simpl in *; auto; lia || done. }
  split.
  - apply Forall_forall. intros p Hp. split_and!; [apply Hst, Hp | by apply Hsame | by apply Hend].
  - destruct (live (w_db w)) as [|ob rest] eqn:Hl; [done|]. rewrite awaited_nil, Hl in *.
    destruct (list_elem_of_fmap_1 _ _ _ (Hkn _ (list_elem_of_here _ _))) as (p & Hn & Hp).
    assert (terminal (t_State p.2) = false) as Ht by (apply Hwait; [done|]; rewrite <- Hn; by left).
    by destruct (Hend p Hp) as [Es|Es]; rewrite Es in Ht.
Qed.
End pipeline.

Section theorems.
Context {U : UUIDLib} {L : UUIDLaws U} {R : RedisLib} {N : NatsLib} {NL : NatsLaws N} {M : MuxLib}.

(** C15: with no faults, contexts that do not end and a bank that answers (any
    mode but timeout), any number of transfers whose messages wait in the
    outbox, on the same accounts or not, in any order and among rows that the
    stream does not take, are driven to COMPLETED or FAILED by four rounds of
    a poll and the delivery of what it sent: each step's message brings the
    next step about. Every balance has then moved by what each of the transfers
    still had to do, and nothing that could be sent is left. Of each transfer it
    is assumed that its source and destination accounts exist, and the clearing
    account of its currency, different from both ([ready]: a transfer on the
    clearing account itself never ends); of the UUIDs to come, that they are
    new; of the outbox, that its pending rows
    fit a poll; and of the source accounts' balances, that they stay in the
    range of an int64 whatever the transfers move. *)
Theorem pipeline_completes E lim w ts :
  healthy E lim → Forall (ready E lim w) ts → NoDup (map t_ID ts) → margin w ts →
  outbox_inv w → nats_subjects (w_nats w) = stream_subjects →
  (length (pending (w_db w)) <= batchSize)%nat →
  Forall (λ t, terminal (t_State t) = false) ts →
  awaits (w_db w) ts → g_mode (w_bank w) ≠ ModeTimeout →
  let w' := Nat.iter 4 (round E) w in
  (w_tick w' <= lim)%nat →
  ∃ ts', Forall2 (λ t t', holds (w_db w') t' ∧ same_request t t' ∧
              (t_State t' = StateCompleted ∨ t_State t' = StateFailed)) ts ts' ∧
    (∀ a cur, char3 cur = Some cur →
      balance (w_db w') a cur =
        balance (w_db w) a cur + sumZ (shift a cur) (zip ts ts')) ∧
    live (w_db w') = [].
Proof.
  intros H Hr Hnd Hm Ho Hs Hp Ht Hw Hmode w' Hl.
  assert (map fst (map (λ t, (t, t)) ts) = ts) as Efst by (rewrite map_map; apply map_id).
  destruct (fleet_rounds E lim H w (map (λ t, (t, t)) ts) 4 0 w) as (ps & Eps & Hf);
    [by apply fleet_start | by rewrite Efst | done |].
  rewrite Efst in Eps. destruct (fleet_end E lim _ _ _ Hf) as [Hend Hlive]. fold w' in Hf, Hend, Hlive.
  exists (map snd ps). rewrite <- Eps. split_and!; [| |done].
  - rewrite Forall2_fmap. apply Forall_Forall2_diag. exact Hend.
  - intros a cur Hc. rewrite (fl_net _ _ _ _ _ _ _ Hf) by done. f_equal. f_equal. symmetry. apply zip_fst_snd.
Qed.
End theorems.
