(* ===== verification/Creation.v ===== *)
(** * Creating a transfer, without faults

    The CreateTransfer command either changes nothing or creates exactly one
    pending transfer with its event, its outbox message and its cached
    response; and a retry under the same key is answered from the cache,
    whatever the system has done meanwhile. *)
From S2P Require Import Prelude Uuid Money Account Transfer Ledger Json Database CircuitBreaker.
From S2P Require Import Effects Ports Adapters AdapterSpecs Saga Command Http Worker Delivery.
From S2P Require Import Calls Concurrency System Guarantees Sequential.

(** ** The idempotency middleware answering from the cache *)
Section replay.
Context {U : UUIDLib} {R : RedisLib} {N : NatsLib}.

Definition replay (cached : string) : Answer :=
  [OpHeader "Content-Type" "application/json"; OpHeader "X-Idempotent-Replayed" "true";
   OpWriteHeader StatusOK; OpWrite cached].

Lemma run_Get E key w :
  env_fault E (w_tick w) = NoFault →
  run E (IdempotencyStore_Get key) w =
    (Ok (redis_get (env_now E (w_tick w)) (prefixed key) (w_redis w)), tick w).
Proof.
  intros Hf. unfold IdempotencyStore_Get. rewrite run_attempt. cbn [call run exec]. unfold lens.
  rewrite Hf. cbn. by destruct w.
Qed.

Lemma replay_run E next req cached w :
  req_method req ≠ "GET" → Header_Get "Idempotency-Key" req ≠ "" → env_fault E (w_tick w) = NoFault →
  redis_get (env_now E (w_tick w)) (prefixed (Header_Get "Idempotency-Key" req)) (w_redis w) = Some cached →
  run E (idempotencyMiddleware idempotencyStore next req) w = (replay cached, tick w).
Proof.
  intros Hm Hk Hf Hc. unfold idempotencyMiddleware. rewrite !bool_decide_false by done.
  rewrite run_bind. unfold idempotencyStore at 1. cbn [is_Get]. by rewrite run_Get, Hc.
Qed.
End replay.

Section creation.
Context {U : UUIDLib} {L : UUIDLaws U} {R : RedisLib} {RL : RedisLaws R} {N : NatsLib}.
Context (E : Env) (lim : nat) (H : healthy E lim).
Abbreviation wp := (Sequential.wp E lim).
Abbreviation fresh_ids := (Sequential.fresh_ids E lim).

Lemma wp_redis {A} (request : Z → redis_state → A * redis_state) (Q : res A → World → Prop) w :
  (∀ now, now = env_now E (w_tick w) →
     Q (Ok (request now (w_redis w)).1) (set_redis (request now (w_redis w)).2 (tick w))) →
  wp (call (Redis request)) Q w.
Proof.
  intros HQ Hl. specialize (HQ _ eq_refl). cbn [call run exec]. unfold lens.
  rewrite (no_fault E lim H). cbn. by destruct (request _ _).
Qed.

Lemma wp_res {A B} f (r : res A) (k : A → prog (res B)) (Q : res B → World → Prop) w :
  (∀ a, r = Ok a → wp (k a) Q w) → (∀ e, r = Err e → Q (Err (f e)) w) →
  wp (attempt f (Ret r) k) Q w.
Proof. intros HO HE. apply wp_attempt, wp_ret. destruct r; auto. Qed.

(** ** Nothing but the clock moves *)
Definition quiet (w w' : World) : Prop := same_world w w' ∧ (w_tick w <= w_tick w')%nat.
#[export] Instance quiet_preorder : PreOrder quiet.
Proof.
  unfold quiet, same_world. split; [done|].
  intros w1 w2 w3 [(?&?&?&?&?) ?] [(?&?&?&?&?) ?]. split_and!; (lia || congruence).
Qed.
Lemma quiet_tick w : quiet w (tick w).
Proof. split; [done|]. simpl. lia. Qed.

Lemma wp_IdempotencyStore_Get key (Q : res (option string) → World → Prop) w :
  Q (Ok (redis_get (env_now E (w_tick w)) (prefixed key) (w_redis w))) (tick w) →
  wp (IdempotencyStore_Get key) Q w.
Proof.
  intros HQ. apply wp_attempt, wp_redis. intros now ->. apply wp_ret. cbn. by destruct w.
Qed.

(** The account, when there is one and it may transact. *)
Definition active_account (d : DB) (a : AccountID) : Prop :=
  ∃ r, accounts d !! AccountID_String a = Some r ∧ Status_of (acc_status r) = StatusActive.

Lemma active_CanTransact d id r :
  active_account d id → accounts d !! AccountID_String id = Some r → CanTransact (acct_of id r) = Ok tt.
Proof. intros (r' & Hr' & Hs) Hr. simplify_eq. by apply CanTransact_ok. Qed.

Lemma wp_AccountRepo_FindByID id (Q : res Account → World → Prop) w :
  (∀ r, accounts_wf (w_db w) → accounts (w_db w) !! AccountID_String id = Some r →
     Q (Ok (acct_of id r)) (tick w)) →
  (∀ e, (∀ r, accounts (w_db w) !! AccountID_String id = Some r → False) → Q (Err e) (tick w)) →
  accounts_wf (w_db w) →
  wp (AccountRepo_FindByID id) Q w.
Proof.
  intros HO HE Hwf. apply wp_attempt, (wp_query E lim H), wp_ret. unfold select_account.
  destruct (accounts (w_db w) !! AccountID_String id) as [r|] eqn:Hr; [|by apply HE].
  unfold scanAccount. rewrite (Hwf _ _ Hr), ParseAccountID_String. by apply HO.
Qed.

Lemma wp_validateAccounts src dst (Q : res unit → World → Prop) w :
  accounts_wf (w_db w) →
  (∀ w', quiet w w' → active_account (w_db w) src → active_account (w_db w) dst → Q (Ok tt) w') →
  (∀ e w', quiet w w' → ¬ (active_account (w_db w) src ∧ active_account (w_db w) dst) →
     Q (Err e) w') →
  wp (validateAccounts createTransferCmd src dst) Q w.
Proof.
  intros Hwf HO HE.
  pose proof (quiet_tick w) as Hq1.
  assert (quiet w (tick (tick w))) as Hq2 by (etrans; apply quiet_tick).
  apply wp_attempt, wp_AccountRepo_FindByID; [| |done].
  2:{ intros e Hno. apply HE; [done|]. by intros [(r & Hr & _) _]; apply Hno in Hr. }
  intros r1 _ Hr1. apply wp_res.
  2:{ intros e He. apply HE; [done|]. intros [Ha _]. by rewrite (active_CanTransact _ _ _ Ha Hr1) in He. }
  intros u1 Hu1%CanTransact_ok. apply wp_attempt, wp_AccountRepo_FindByID; [| |done].
  2:{ intros e Hno. apply HE; [done|]. by intros [_ (r & Hr & _)]; apply Hno in Hr. }
  intros r2 _ Hr2. apply wp_ret. destruct (CanTransact (acct_of dst r2)) as [[]|e] eqn:Hu2.
  - apply CanTransact_ok in Hu2. apply HO; [done | by exists r1 | by exists r2].
  - apply HE; [done|]. intros [_ Ha]. by rewrite (active_CanTransact _ _ _ Ha Hr2) in Hu2.
Qed.

(** ** What a successful creation leaves behind *)
Definition requested (t : Transfer) (cur : Currency) : Transfer :=
  mkTransfer (t_ID t) (t_IdempotencyKey t) (t_SourceAccountID t) (t_DestAccountID t)
    (mkMoney (m_Amount (t_Amount t)) cur) (t_State t) (t_ExternalRef t) (t_FailureReason t)
    (t_DebitPosted t) (t_CreditPosted t) (t_CreatedAt t) (t_UpdatedAt t) (t_Version t).

Definition result_of (t : Transfer) : CreateTransferResult :=
  mkCreateTransferResult (TransferID_String (t_ID t)) StatePending false.

(** The response of [key], cached between [w] and [w'], is there for 24 hours. *)
Definition cached_for (key : string) (text : string) (w w' : World) : Prop :=
  ∃ n, (w_tick w <= n < w_tick w')%nat ∧ ∀ now, env_now E n <= now < env_now E n + idempotencyTTL →
    redis_get now (prefixed key) (w_redis w') = Some text.

Record created (t : Transfer) (w w' : World) : Prop := {
  cr_new : transfers (w_db w) !! TransferID_String (t_ID t) = None;
  cr_key : map_Forall (λ _ r, tr_idempotency_key r ≠ t_IdempotencyKey t) (transfers (w_db w));
  cr_row : ∃ cur, char3 (m_Currency (t_Amount t)) = Some cur ∧
    transfers (w_db w') = <[TransferID_String (t_ID t) := transfer_to_row (stored (requested t cur))]>
      (transfers (w_db w));
  cr_rest : accounts (w_db w') = accounts (w_db w) ∧ ledger_entries (w_db w') = ledger_entries (w_db w);
  cr_others : w_nats w' = w_nats w ∧ w_breaker w' = w_breaker w ∧ w_bank w' = w_bank w;
  cr_event : ∃ ev, transfer_events (w_db w') = transfer_events (w_db w) ++ [ev] ∧
    ev_event_type ev = "transfer.requested" ∧ ev_transfer_id ev = TransferID_String (t_ID t);
  cr_outbox : outbox_seq (w_db w') = outbox_seq (w_db w) + 1 ∧
    ∃ ob evt j, outbox (w_db w') = outbox (w_db w) ++ [ob] ∧ ob_status ob = PENDING ∧
    ob_subject ob = "transfer.requested" ∧ event_json evt = Ok j ∧ ob_payload ob = render j ∧
    e_TransferID evt = t_ID t;
  cr_cached : cached_for (t_IdempotencyKey t) (render (result_json (result_of t))) w w';
  cr_keys : ∀ key now, key ≠ prefixed (t_IdempotencyKey t) →
    redis_get now key (w_redis w') = redis_get now key (w_redis w);
}.

Lemma event_json_ok evt s : time_json (e_OccurredAt evt) = Ok (JStr s) → ∃ j, event_json evt = Ok j.
Proof. intros Hs. unfold event_json. rewrite Hs. simpl. eauto. Qed.

Lemma insert_event_ok d r cur :
  char3 (ev_currency r) = Some cur → ¬ ev_id r ∈ map ev_id (transfer_events d) →
  is_Some (transfers d !! ev_transfer_id r) →
  ∃ row, insert_event r d = (Ok tt, set_transfer_events (transfer_events d ++ [row]) d) ∧
    ev_event_type row = ev_event_type r ∧ ev_transfer_id row = ev_transfer_id r.
Proof.
  intros Hc Hid Ht. unfold insert_event. rewrite Hc, (bool_decide_false _ Hid), (bool_decide_true _ Ht).
  by eexists.
Qed.

(** From the constructed transfer to the cached response. *)
Definition store_new (key : string) (t : Transfer) : prog (res CreateTransferResult) :=
  (let! _ := TransferRepo_Save t orelse errorf_w "save transfer: " in
   do! fresh' := call UuidNew in
   do! now' := call TimeNow in
   let evt := NewEvent fresh' now' t EventTransferRequested in
   let! _ := EventStore_Append evt orelse errorf_w "append event: " in
   let evtPayload := match event_json evt with Ok j => Some (render j) | Err _ => None end in
   let! _ := OutboxWriter_Write (EventType_text EventTransferRequested) evtPayload
     orelse errorf_w "write outbox: " in
   let result := mkCreateTransferResult (TransferID_String (t_ID t)) (t_State t) false in
   let! _ := cacheResult createTransferCmd key result in
   Ret (Ok result))%prog.

(** A key no transfer has, in a currency the column takes. *)
Definition storable (d : DB) (key : string) (cur : Currency) : Prop :=
  is_Some (char3 cur) ∧ map_Forall (λ _ r, tr_idempotency_key r ≠ key) (transfers d).

Lemma insert_new_fails d t e :
  (insert_transfer (transfer_to_row t) d).1 = Err e →
  t_State t = StatePending → t_Version t = 1 → 0 < m_Amount (t_Amount t) →
  transfers d !! TransferID_String (t_ID t) = None →
  active_account d (t_SourceAccountID t) → active_account d (t_DestAccountID t) →
  ¬ storable d (t_IdempotencyKey t) (m_Currency (t_Amount t)).
Proof.
  intros He Hs Hv Ha Hid (r1 & Hr1 & _) (r2 & Hr2 & _) [[cur Hcur] Hk].
  rewrite (insert_transfer_succeeds (transfer_to_row t) d cur) in He; try done; simpl.
  - rewrite Hs. decide_vm.
  - rewrite Hv. decide_vm.
Qed.

Lemma wp_store_new now id key src dst amount t (Q : res CreateTransferResult → World → Prop) w :
  Transfer_New now id key src dst amount = Ok t → fresh_ids w →
  (∀ n, redis_get (env_now E n) (prefixed key) (w_redis w) = None) →
  transfers (w_db w) !! TransferID_String id = None →
  active_account (w_db w) src → active_account (w_db w) dst →
  (∀ w', created t w w' → Q (Ok (result_of t)) w') →
  (∀ e w', quiet w w' → ¬ storable (w_db w) key (m_Currency amount) → Q (Err e) w') →
  wp (store_new key t) Q w.
Proof.
  intros (Hk & Ha & Hc & Hd & ->)%Transfer_New_ok Hf Habsent Hid Has Had HO HE.
  unfold store_new.
  set (t := mkTransfer id key src dst amount StatePending "" "" false false now now 1).
  apply wp_attempt. unfold TransferRepo_Save. apply wp_attempt, (wp_sql E lim H).
  destruct (insert_transfer_inv (transfer_to_row t) (w_db w))
    as [[e He]|(cur & -> & Hcur & Hnew & Hkeys & _)].
  { rewrite He. cbn [fst snd]. apply HE; [split; [done | simpl; lia]|].
    apply (insert_new_fails (w_db w) t e); rewrite ?He; done. }
  cbn [fst snd]. apply wp_ret. set (w1 := set_db _ (tick w)).
  apply wp_bind, wp_uuid. intros Hl. apply wp_bind, (wp_now E lim H). intros now' s Hs.
  set (evt := NewEvent _ now' t _). apply wp_attempt, (wp_sql E lim H).
  destruct (insert_event_ok (w_db w1) (event_to_row evt) cur) as (row & Hrow & Hty & Htid).
  { done. }
  { simpl. unfold TransferID_String. simpl in *. apply Hf. lia. }
  { simpl. rewrite lookup_insert_eq. by eexists. }
  change (w_db (tick (tick w1))) with (w_db w1). rewrite Hrow. cbn [fst snd].
  apply wp_attempt, wp_bind, (wp_now E lim H). intros now'' s' _.
  apply wp_attempt, (wp_sql E lim H).
  destruct (event_json_ok evt s Hs) as [j Hj]. rewrite Hj. cbn [insert_outbox fst snd]. apply wp_ret.
  apply wp_attempt. unfold cacheResult. apply wp_attempt, wp_attempt, wp_redis. intros n3 Hn3.
  destruct (redis_setnx_fresh n3 (prefixed key) (render (result_json (result_of t))) idempotencyTTL (w_redis w))
    as [Hset Hkept].
  { rewrite Hn3. apply Habsent. }
  apply wp_ret, wp_ret, wp_ret. apply HO. split.
  - done.
  - done.
  - exists cur. split; [done|]. done.
  - done.
  - done.
  - exists row. split; [done|]. by rewrite Hty, Htid.
  - split; [done|]. do 2 eexists. exists j. split; [done|].
    split_and!; [done | done | exact Hj | done | done].
  - eexists. split; [|intros now3 Hnow3; apply Hkept; rewrite Hn3; exact Hnow3]. simpl. lia.
  - intros key' at_ Hne. by apply redis_setnx_other.
Qed.

Lemma created_quiet t w w1 w' : quiet w w1 → created t w1 w' → created t w w'.
Proof.
  intros [(Hd & Hr & Hs & Hb & Hk) Ht] [H1 H2 H3 H4 H5 H6 H7 (n & Hn & H8) H9].
  rewrite ?Hd, ?Hr, ?Hs, ?Hb, ?Hk in *. split; try done. exists n. split; [lia | done].
Qed.

(** The transfer a command asks for. *)
Record command_transfer (cmd : CreateTransferCmd) (t : Transfer) : Prop := {
  ct_key : t_IdempotencyKey t = cmd_IdempotencyKey cmd ∧ cmd_IdempotencyKey cmd ≠ "";
  ct_source : ParseAccountID (cmd_SourceAccountID cmd) = Ok (t_SourceAccountID t);
  ct_dest : ParseAccountID (cmd_DestAccountID cmd) = Ok (t_DestAccountID t);
  ct_differ : t_SourceAccountID t ≠ t_DestAccountID t;
  ct_amount : t_Amount t = mkMoney (cmd_Amount cmd) (cmd_Currency cmd) ∧ 0 < cmd_Amount cmd;
  ct_state : t_State t = StatePending ∧ t_Version t = 1;
}.

(** The commands that can be carried out. *)
Definition acceptable (cmd : CreateTransferCmd) (d : DB) : Prop :=
  ∃ src dst, ParseAccountID (cmd_SourceAccountID cmd) = Ok src ∧
    ParseAccountID (cmd_DestAccountID cmd) = Ok dst ∧ src ≠ dst ∧
    active_account d src ∧ active_account d dst ∧
    0 < cmd_Amount cmd ∧ cmd_Currency cmd ≠ "" ∧ cmd_IdempotencyKey cmd ≠ "" ∧
    storable d (cmd_IdempotencyKey cmd) (cmd_Currency cmd).

(** The transfer ids still to be drawn are new. *)
Definition fresh_transfers (w : World) : Prop :=
  ∀ n, (w_tick w <= n < lim)%nat → transfers (w_db w) !! uuid_String (env_uuid E n) = None.

Definition handled (cmd : CreateTransferCmd) (w : World) (r : res CreateTransferResult) (w' : World)
    : Prop :=
  match r with
  | Ok r => ∃ t, r = result_of t ∧ command_transfer cmd t ∧
      active_account (w_db w) (t_SourceAccountID t) ∧ active_account (w_db w) (t_DestAccountID t) ∧
      created t w w'
  | Err _ => quiet w w' ∧ ¬ acceptable cmd (w_db w)
  end.

Lemma wp_Handle cmd w :
  fresh_ids w → fresh_transfers w → accounts_wf (w_db w) →
  (∀ n, redis_get (env_now E n) (prefixed (cmd_IdempotencyKey cmd)) (w_redis w) = None) →
  wp (Handle createTransferCmd cmd) (handled cmd w) w.
Proof.
  intros Hf Hft Hwf Habsent. unfold Handle.
  pose proof (quiet_tick w) as Hq1.
  apply wp_attempt. unfold checkIdempotency.
  apply wp_attempt, wp_IdempotencyStore_Get. rewrite Habsent. apply wp_ret.
  apply wp_res; [intros src Hsrc | intros e He; split; [done|]; intros (? & ? & ? & ? & _); congruence].
  apply wp_res; [intros dst Hdst | intros e He; split; [done|]; intros (? & ? & ? & ? & _); congruence].
  apply wp_attempt, wp_validateAccounts; [done| |].
  2:{ intros e w' Hq Hno. split; [by etrans|]. intros (src' & dst' & Es & Ed & _ & Has & Had & _).
      apply Hno. simpl. assert (src = src') as -> by congruence.
      by assert (dst = dst') as -> by congruence. }
  intros w2 Hq2 Has Had. assert (quiet w w2) as Hqw2 by (by etrans).
  apply wp_res.
  2:{ intros e He. split; [done|]. intros (? & ? & _ & _ & _ & _ & _ & Hpos & _).
      apply New_err in He. lia. }
  intros amount [_ ->]%New_ok.
  apply wp_bind, wp_uuid. intros Hl. apply wp_bind, (wp_now E lim H). intros now s _.
  set (w3 := tick (tick w2)).
  assert (quiet w w3) as Hqw3 by (etrans; [exact Hqw2|]; etrans; apply quiet_tick).
  apply wp_res.
  2:{ intros e He. split; [done|].
      intros (src' & dst' & Es & Ed & Hne & _ & _ & Hpos & Hcur & Hkey & _).
      assert (src ≠ dst) as Hne' by congruence.
      by apply (Transfer_New_err _ _ _ _ _ _ _ He). }
  intros t Ht. pose proof Hqw3 as [(Hd3 & Hr3 & _) Ht3].
  apply (wp_store_new _ _ _ _ _ _ _ _ _ Ht).
  - intros n Hn. rewrite Hd3. apply Hf. lia.
  - intros n. rewrite Hr3. apply Habsent.
  - rewrite Hd3. apply Hft. destruct Hqw2 as [_ Ht2]. lia.
  - by rewrite Hd3.
  - by rewrite Hd3.
  - intros w' Hc. exists t. pose proof Ht as (Hk & Ha & _ & Hne & ->)%Transfer_New_ok.
    split_and!; [done | by split | done | done |]. by eapply created_quiet.
  - intros e w' Hq Hno. split; [by etrans|]. intros (? & ? & _ & _ & _ & _ & _ & _ & _ & _ & Hst).
    apply Hno. by rewrite Hd3.
Qed.
End creation.

(** ** What is cached stays cached *)
Section cached.
Context {U : UUIDLib} {L : UUIDLaws U} {R : RedisLib} {RL : RedisLaws R} {N : NatsLib} {M : MuxLib}.

(** A request to Redis leaves alone every key that is there. *)
Definition keeps_keys X (c : Cmd X) : Prop :=
  match c with
  | Redis request => ∀ now s key text, redis_get now key s = Some text →
      ∀ later, redis_get later key (request now s).2 = redis_get later key s
  | _ => True
  end.

Lemma keeps_setnx key value ttl : keeps_keys _ (Redis (λ now s, redis_setnx now key value ttl s)).
Proof.
  intros now s k text Hk later. destruct (decide (k = key)) as [->|Hne].
  - by rewrite (redis_setnx_taken _ _ _ _ _ _ Hk).
  - by apply redis_setnx_other.
Qed.

Create HintDb keys.
Ltac keys_tac := repeat first [solve [eauto with keys] | exact I | calls_step].

Lemma keys_api r : all_calls keeps_keys (NewRouter api_handler r).
Proof. apply all_calls_api. split; try done. intros. apply keeps_setnx. Qed.
Lemma keys_insert_entries es pending : all_calls keeps_keys (insert_entries pending es).
Proof.
  revert pending. induction es as [|e es IH]; intros pending; cbn [insert_entries]; [done|].
  apply all_calls_attempt; [done|]. intros; apply IH.
Qed.
Hint Resolve keys_insert_entries : keys.
Lemma keys_failWith t reason : all_calls keeps_keys (failWith worker_deps t reason).
Proof. unfold failWith, transition. keys_tac. Qed.
Hint Resolve keys_failWith : keys.
Lemma keys_compensate t : all_calls keeps_keys (compensate worker_deps t).
Proof. unfold compensate, reverseDebit, reverseCredit, new_posting, LedgerRepo_PostEntries. keys_tac. Qed.
Hint Resolve keys_compensate : keys.
Lemma keys_Execute id : all_calls keeps_keys (Execute worker_deps id).
Proof.
  unfold Execute. apply all_calls_attempt; [unfold TransferRepo_FindByID; keys_tac|]. intros t.
  destruct (t_State t); cbn [steps step_execute]; try exact I; [| | | |apply keys_compensate].
  - unfold reserveDebit, new_posting, LedgerRepo_PostEntries, transition. keys_tac.
  - unfold callBank, startCompensation, transition. keys_tac.
  - unfold postCredit, new_posting, LedgerRepo_PostEntries, transition. keys_tac.
  - unfold complete, transition. keys_tac.
Qed.
Lemma keys_relay batch : all_calls keeps_keys (relay batch).
Proof.
  unfold relay. apply all_calls_attempt; [done|]. intros rows. apply all_calls_bind; [|done].
  generalize 0%nat. induction rows as [|r rows IH]; intros n; cbn [relay_rows]; [done|].
  apply all_calls_bind; [|intros ok; apply IH]. unfold relay_row, Publisher_Publish. keys_tac.
Qed.

Lemma keys_process p : process p → all_calls keeps_keys p.
Proof.
  intros [r| |subject data| |]; (apply all_calls_bind; [|done]).
  - apply keys_api.
  - unfold worker_setup, Consumer_EnsureStream. keys_tac.
  - unfold consume, worker_handler. apply all_calls_bind; [|done].
    apply all_calls_attempt; [done|]. intros id. apply keys_Execute.
  - apply keys_relay.
  - unfold reconcile, ledgerAuditor. cbn [la_GetAllEntries]. unfold LedgerRepo_GetAllEntries. keys_tac.
Qed.

(** Programs the system may have running. *)
Definition under_way (ts : list (prog unit)) : Prop :=
  ∃ E w0 w, system_run E w0 (mkConfig w ts).
Lemma keys_reachable E c c' :
  reachable processes E c c' → Forall (all_calls keeps_keys) (c_threads c) →
  Forall (all_calls keeps_keys) (c_threads c').
Proof.
  induction 1 as [c|c1 c2 c3 Hstep _ IH]; intros Hc; [done|]. apply IH. clear IH.
  destruct Hstep as [i X cmd k w x w' ts Hi _ _|p w ts Hp|i w ts]; simpl in *.
  - apply Forall_insert; [done|]. pose proof (Forall_lookup_1 _ _ _ _ Hc Hi) as [_ Hk]. apply Hk.
  - apply Forall_app. split; [done|]. apply Forall_singleton. by apply keys_process.
  - by apply Forall_delete.
Qed.

(** Between [w0] and the last tick the clock stays in [[lo, hi)]. *)
Section window.
Context (E : Env) (key text : string) (lo hi : Z) (w0 : World) (last : nat).
Context (clock : ∀ k, (w_tick w0 <= k < last)%nat → lo <= env_now E k < hi).

Definition cached (w : World) : Prop :=
  (w_tick w0 <= w_tick w)%nat ∧
  ((w_tick w <= last)%nat → ∀ now, lo <= now < hi → redis_get now key (w_redis w) = Some text).

Lemma cached_exec X (c : Cmd X) w : keeps_keys X c → cached w → cached (exec E c w).2.
Proof.
  intros Hc [Ht Hw]. assert (w_tick w <= w_tick (exec E c w).2)%nat as Htick.
  { pose proof (run_tick E (call c) w) as H. cbn [call run] in H. by destruct (exec E c w). }
  assert (∀ w', (w_tick w <= w_tick w')%nat → w_redis w' = w_redis w → cached w') as Hsame.
  { intros w' Hle Hr. split; [lia|]. intros Hlast. rewrite Hr. apply Hw. lia. }
  destruct c as [| |A f|A request|request| |ok|req].
  1,2: by apply Hsame.
  - apply Hsame; [exact Htick|]. cbn [exec]. unfold lens. by destruct (with_fault _ _ _).
  - split; [lia|]. intros Hlast now Hnow.
    assert (w_tick (exec E (Redis request) w).2 = S (w_tick w)) as Et.
    { cbn [exec]. unfold lens. by destruct (with_fault _ _ _). }
    specialize (Hw ltac:(lia)). pose proof (Hw _ (clock (w_tick w) ltac:(lia))) as Hnowk.
    specialize (Hc _ _ _ _ Hnowk now). rewrite (Hw now Hnow) in Hc. specialize (Hw now Hnow).
    cbn [exec]. unfold lens. cbn [w_redis tick].
    destruct (env_fault E (w_tick w)); cbn [with_fault snd]; try exact Hw;
      destruct (request _ _); cbn [snd set_redis w_redis] in *; exact Hc.
  - apply Hsame; [exact Htick|]. cbn [exec]. unfold lens. by destruct (with_fault _ _ _).
  - apply Hsame; [exact Htick|]. cbn [exec]. unfold lens. by destruct (CB.acquire _ _).
  - by apply Hsame.
  - apply Hsame; [exact Htick|]. cbn [exec]. unfold lens. by destruct (Gateway_InitiateTransfer _ _ _).
Qed.
End window.

Lemma cached_later E key text lo hi w ts c :
  under_way ts → reachable processes E (mkConfig w ts) c →
  (∀ k, (w_tick w <= k <= w_tick (c_world c))%nat → lo <= env_now E k < hi) →
  (∀ now, lo <= now < hi → redis_get now key (w_redis w) = Some text) →
  (w_tick w <= w_tick (c_world c))%nat ∧
  ∀ now, lo <= now < hi → redis_get now key (w_redis (c_world c)) = Some text.
Proof.
  intros (E0 & w1 & w2 & Hrun0) Hrun Hclock Hthere. set (last := w_tick (c_world c)).
  pose proof (keys_reachable _ _ _ Hrun0 (Forall_nil_2 _)) as Hts. cbn [c_threads] in Hts.
  set (I := cached key text lo hi w last).
  assert (PreOrder (λ _ _ : World, True)) as Hpre by done.
  assert (∀ (p : prog unit) w', all_calls keeps_keys p → safe E I (λ _ _, True) p (λ _ _, True) w') as Hsafe.
  { intros p w' Hp. eapply safe_all_calls; [|exact Hp]. intros X cmd w3 Hc Hi. split; [|done].
    apply (cached_exec E key text lo hi w last); [|done|done]. intros k Hk. apply Hclock. unfold last in Hk. lia. }
  edestruct (reachable_ok E I (λ _ _, True) processes) as [[[Hle Hc] _] _]; [| exact Hrun | |].
  - intros p w' Hp _. apply Hsafe. by apply keys_process.
  - split; [split; [done|]; by intros _|]. intros p Hp. apply Hsafe. rewrite Forall_forall in Hts. by apply Hts.
  - split; [done|]. by apply Hc.
Qed.
End cached.

Section theorems.
Context {U : UUIDLib} {L : UUIDLaws U} {R : RedisLib} {RL : RedisLaws R} {N : NatsLib} {M : MuxLib}.


(** C8: let a transfer be created as in C7, without faults, under a key not yet
    cached, and let the system then run on in
    any way: any requests, under this key and others, those under way when the
    transfer was created included, workers, relays and reconcilers, lost calls,
    ended contexts and crashes. As long as every reading of the clock since then
    is less than 24 hours (and not before) the one at which the response was
    cached, any non-GET request with the same idempotency
    key whose lookup is not lost is answered 200 with the first response's JSON
    and the replay header, and has no effect. *)
Theorem retry_is_replayed E lim w cmd r w' :
  healthy E lim → fresh_ids E lim w → fresh_transfers E lim w → accounts_wf (w_db w) →
  (∀ n, redis_get (env_now E n) (prefixed (cmd_IdempotencyKey cmd)) (w_redis w) = None) →
  run E (Handle createTransferCmd cmd) w = (Ok r, w') → (w_tick w' <= lim)%nat →
  ∃ n, (w_tick w <= n < w_tick w')%nat ∧
    ∀ E2 ts c2 req next,
      under_way ts → reachable processes E2 (mkConfig w' ts) c2 →
      let w2 := c_world c2 in
      (∀ k, (w_tick w' <= k <= w_tick w2)%nat →
         env_now E n <= env_now E2 k < env_now E n + idempotencyTTL) →
      env_fault E2 (w_tick w2) = NoFault →
      req_method req ≠ "GET" → Header_Get "Idempotency-Key" req = cmd_IdempotencyKey cmd →
      run E2 (idempotencyMiddleware idempotencyStore next req) w2 =
        ([OpHeader "Content-Type" "application/json"; OpHeader "X-Idempotent-Replayed" "true";
          OpWriteHeader StatusOK; OpWrite (render (result_json r))], tick w2).
Proof.
  intros H Hf Hft Hwf Ha Hrun Hl. pose proof (wp_Handle E lim H cmd w Hf Hft Hwf Ha) as Hh.
  unfold wp in Hh. rewrite Hrun in Hh. destruct (Hh Hl) as (t & -> & Hct & _ & _ & Hc).
  destruct (cr_cached _ _ _ _ Hc) as (n & Hn & Hcached). destruct (ct_key _ _ Hct) as [Hk Hne].
  exists n. split; [done|]. intros E2 ts c2 req next Hts Hlater w2 Hclock Hf2 Hm Hkey.
  destruct (cached_later E2 (prefixed (t_IdempotencyKey t)) (render (result_json (result_of t)))
    (env_now E n) (env_now E n + idempotencyTTL) w' ts c2) as [Hle Hthere]; [done..|].
  apply replay_run; [done | by rewrite Hkey | done |]. rewrite Hkey, <- Hk. apply Hthere, Hclock. done.
Qed.
End theorems.
