(* ===== verification/Middleware.v ===== *)
(** * What the middleware adds to a response

    The wrapped writer sees the status that is sent; every request is logged
    and carries its trace id; requests without a key are refused, and those
    with a cached one are answered from the cache. *)
From S2P Require Import Prelude Uuid Money Account Transfer Ledger Json Database CircuitBreaker.
From S2P Require Import Observability Effects Ports Adapters AdapterSpecs Saga Command Http Worker.
From S2P Require Import Delivery Calls Concurrency System Guarantees Sequential Creation.

(** ** Writers *)

Lemma respond_cons {W} `{ResponseWriter W} op ops (w : W) :
  respond (op :: ops) w = respond ops (write_on w op).
Proof. done. Qed.

(** The wrapper passes everything on. *)
Lemma respond_wrapped ops rw :
  rw_ResponseWriter (respond ops rw) = respond ops (rw_ResponseWriter rw).
Proof.
  revert rw. induction ops as [|op ops IH]; intros rw; [done|].
  rewrite !respond_cons, IH. by destruct op.
Qed.

(** At most one status, final and before any data; the trace id is left alone. *)
Definition plain (op : write_op) : bool :=
  match op with
  | OpHeader name _ => negb (bool_decide (name = "X-Request-Id"))
  | OpWriteHeader _ => false
  | OpWrite _ => true
  end.
Fixpoint orderly (ops : Answer) : bool :=
  match ops with
  | [] => true
  | OpHeader name _ :: ops => negb (bool_decide (name = "X-Request-Id")) && orderly ops
  | OpWriteHeader code :: ops => negb (informational code) && forallb plain ops
  | OpWrite _ :: ops => forallb plain ops
  end.

Lemma respond_plain ops rw code header :
  forallb plain ops = true → res_sent (rw_ResponseWriter rw) = Some (code, header) →
  res_sent (rw_ResponseWriter (respond ops rw)) = Some (code, header) ∧
  rw_status (respond ops rw) = rw_status rw.
Proof.
  revert rw. induction ops as [|op ops IH]; intros rw Hp Hs; [done|].
  cbn [forallb] in Hp. apply andb_prop in Hp as [Hop Hp].
  destruct op as [name value|c|data]; [| done |]; rewrite respond_cons.
  - exact (IH (write_on rw (OpHeader name value)) Hp Hs).
  - refine (IH (write_on rw (OpWrite data)) Hp _). cbn. unfold send. by rewrite Hs.
Qed.

(** What is sent is what the wrapper has seen, with the header set before. *)
Lemma respond_orderly ops rw :
  orderly ops = true → res_sent (rw_ResponseWriter rw) = None → rw_status rw = StatusOK →
  resp_status (rw_ResponseWriter (respond ops rw)) = rw_status (respond ops rw) ∧
  resp_header (rw_ResponseWriter (respond ops rw)) !! "X-Request-Id" =
    res_header (rw_ResponseWriter rw) !! "X-Request-Id".
Proof.
  revert rw. induction ops as [|op ops IH]; intros rw Ho Hs Hr.
  { unfold resp_status, resp_header. cbn. by rewrite Hs, Hr. }
  destruct op as [name value|code|data]; cbn [orderly] in Ho; rewrite respond_cons.
  - apply andb_prop in Ho as [Hn%negb_true_iff%bool_decide_eq_false_1 Ho].
    destruct (IH (write_on rw (OpHeader name value))) as [E1 E2]; [done..|]. split; [done|].
    rewrite E2. cbn. by rewrite lookup_insert_ne.
  - apply andb_prop in Ho as [Hc%negb_true_iff Ho].
    destruct (respond_plain ops (write_on rw (OpWriteHeader code)) code
      (res_header (rw_ResponseWriter rw)) Ho) as [E1 E2].
    { cbn. rewrite Hc. unfold send. by rewrite Hs. }
    unfold resp_status, resp_header. by rewrite E1, E2.
  - destruct (respond_plain ops (write_on rw (OpWrite data)) StatusOK
      (res_header (rw_ResponseWriter rw)) Ho) as [E1 E2].
    { cbn. unfold send. by rewrite Hs. }
    unfold resp_status, resp_header. by rewrite E1, E2.
Qed.

(** ** JSON bodies *)
Lemma Decode_line j : wf_json j → Decode (render j +:+ chr 10) = Ok j.
Proof. intros Hj. unfold Decode. by rewrite read_value_render. Qed.
Lemma error_json_wf code message : wf_json (errorResponse_json code message).
Proof. repeat constructor. Qed.

Lemma writeJSON_answer status j w :
  informational status = false → res_sent w = None → res_body w = "" → wf_json j →
  let resp := respond (writeJSON status (Ok j)) w in
  resp_status resp = status ∧ Decode (resp_body resp) = Ok j ∧
  resp_header resp !! "Content-Type" = Some "application/json".
Proof.
  intros Hs Hw Hb Hj. pose proof (Decode_line j Hj) as Hd. unfold writeJSON.
  generalize dependent (render j +:+ chr 10). intros body Hd.
  unfold respond, resp_status, resp_header, resp_body. simpl. rewrite Hs. unfold send. simpl.
  rewrite Hw. simpl. rewrite Hb, lookup_insert_eq. done.
Qed.

(** ** The answers a program may end with *)
Section answers.
Context {U : UUIDLib} {R : RedisLib} {N : NatsLib}.
Context (P : Answer → Prop).

Definition answers (p : prog Answer) : Prop := ∀ E w, P (run E p w).1.
Lemma answers_ret ops : P ops → answers (Ret ops).
Proof. by intros ? ? ?. Qed.
Lemma answers_bind {A} (p : prog A) (k : A → prog Answer) : (∀ a, answers (k a)) → answers (bind p k).
Proof. intros Hk E w. rewrite run_bind. destruct (run E p w) as [a w']. apply Hk. Qed.
End answers.

(** Walks to the answers. *)
Ltac answers_tac :=
  repeat first
    [ apply answers_bind; intros ?
    | apply answers_ret
    | match goal with
      | |- answers _ (match ?x with _ => _ end) => destruct x
      | |- answers _ (if ?b then _ else _) => destruct b
      end ].

Section orderly.
Context {U : UUIDLib} {R : RedisLib} {N : NatsLib} {M : MuxLib}.

(** The libraries write in order, as [net/http] asks of a handler. *)
Class MuxLaws := {
  NotFound_orderly : orderly mux_NotFound = true;
  MethodNotAllowed_orderly : orderly mux_MethodNotAllowed = true;
  prom_orderly : orderly prom_Handler = true;
}.
Context {ML : MuxLaws}.

Lemma writeJSON_orderly status v :
  informational status = false → orderly (writeJSON status v) = true.
Proof. intros Hs. unfold writeJSON. simpl. rewrite Hs. by destruct v. Qed.
Lemma domain_error_orderly e : orderly (handleDomainError e) = true.
Proof. unfold handleDomainError. repeat case_match; by apply writeJSON_orderly. Qed.

Lemma routes_orderly h r : answers (λ ops, orderly ops = true) (routes h r).
Proof.
  assert (∀ e params r, answers (λ ops, orderly ops = true) (serve_endpoint h e params r)) as He.
  { intros e params r'. destruct e; cbn [serve_endpoint];
      unfold CreateTransfer, GetTransfer, GetAccountBalance; answers_tac;
      first [by apply writeJSON_orderly | apply domain_error_orderly | idtac].
    apply writeJSON_orderly. by destruct (r_Cached _). }
  assert (∀ l other r, answers (λ ops, orderly ops = true) (serve_routes h l other r)) as Hr.
  { intros l. induction l as [|[[m p] e] l IH]; intros other r'; cbn [serve_routes].
    - apply answers_ret. destruct other; [apply MethodNotAllowed_orderly | apply NotFound_orderly].
    - destruct (mux_match _ _); [|apply IH]. case_bool_decide; [apply He | apply IH]. }
  unfold routes, idempotencyMiddleware.
  answers_tac; first [apply Hr | apply MethodNotAllowed_orderly | apply NotFound_orderly
                     | apply prom_orderly | done].
Qed.
End orderly.

(** ** The request and its log line *)
Section serving.
Context {U : UUIDLib} {L : UUIDLaws U} {R : RedisLib} {N : NatsLib} {M : MuxLib}.
Implicit Types (w : World) (r : Request).

Definition trace_of (E : Env) r w : string :=
  if bool_decide (Header_Get "X-Request-Id" r = "") then uuid_String (env_uuid E (w_tick w))
  else Header_Get "X-Request-Id" r.

(** The request as the routes see it, and the writer they are given. *)
Definition traced (id : string) r : Request :=
  WithContext (WithValue (WithTraceID (req_ctx r) id) requestIDCtx id) r.
Definition traced_writer (id : string) : response := Header_Set "X-Request-Id" id new_response.

Lemma trace_of_traced id r : TraceIDFromContext (req_ctx (traced id r)) = id.
Proof.
  unfold TraceIDFromContext, traced, WithTraceID. cbn [req_ctx WithContext].
  by rewrite Value_WithValue_ne, Value_WithValue.
Qed.

Lemma run_serve (h : Handler) E r w :
  ∃ w1 ms, same_world w w1 ∧ (w_tick w <= w_tick w1)%nat ∧
    let id := trace_of E r w in
    let '(ops, w2) := run E (routes h (traced id r)) w1 in
    ∃ w3, same_world w2 w3 ∧ (w_tick w2 <= w_tick w3)%nat ∧ run E (serve h r) w =
      ((respond ops (traced_writer id),
        mkAccessLog (req_method r) (req_path r)
          (rw_status (respond ops (mkResponseWriter (traced_writer id) StatusOK))) ms id), w3).
Proof.
  unfold serve, requestIDMiddleware. rewrite run_bind.
  assert (∃ w0, same_world w w0 ∧ (w_tick w <= w_tick w0)%nat ∧
    run E (if bool_decide (Header_Get "X-Request-Id" r = "")
           then bind (call UuidNew) (λ fresh, Ret (uuid_String fresh))
           else Ret (Header_Get "X-Request-Id" r)) w = (trace_of E r w, w0)) as (w0 & Hs0 & Ht0 & ->).
  { unfold trace_of. case_bool_decide; [exists (tick w)|exists w]; split_and!; done || (simpl; lia). }
  fold (traced (trace_of E r w) r) (traced_writer (trace_of E r w)).
  unfold loggingMiddleware. rewrite run_bind. cbn [call run exec]. rewrite run_bind.
  exists (tick w0).
  destruct (run E (routes h (traced (trace_of E r w) r)) (tick w0)) as [ops w2] eqn:Hr. eexists.
  split; [done|]. split; [simpl; lia|]. exists (tick w2). split; [done|]. split; [simpl; lia|].
  rewrite run_bind. cbn [call run exec fst snd]. by rewrite trace_of_traced, respond_wrapped.
Qed.
End serving.

(** ** The gate of the /v1 routes *)
Section gate.
Context {U : UUIDLib} {L : UUIDLaws U} {R : RedisLib} {N : NatsLib} {M : MuxLib}.
Implicit Types (w : World) (r : Request).

Definition under_v1 r : Prop :=
  mux_match "/healthz" (req_path r) = None ∧ mux_match "/metrics" (req_path r) = None ∧
  is_Some (mux_match "/v1/*" (req_path r)).

Definition keyed (key : string) r : Request :=
  WithContext (WithValue (req_ctx r) idempotencyKeyCtx key) r.

Lemma routes_v1 h r :
  under_v1 r →
  routes h r = idempotencyMiddleware (hd_idempotency h) (serve_routes h v1_routes false) r.
Proof. intros (H1 & H2 & [params H3]). unfold routes. by rewrite H1, H2, H3. Qed.

Lemma idempotency_miss E next key r w :
  Header_Get "Idempotency-Key" r = key → req_method r ≠ "GET" → key ≠ "" →
  env_fault E (w_tick w) ≠ NoFault ∨
    redis_get (env_now E (w_tick w)) (prefixed key) (w_redis w) = None →
  ∃ w1, same_world w w1 ∧ (w_tick w < w_tick w1)%nat ∧
    run E (idempotencyMiddleware idempotencyStore next r) w = run E (next (keyed key r)) w1.
Proof.
  intros Ek Hm Hk Hmiss. unfold idempotencyMiddleware. rewrite Ek, !bool_decide_false by done.
  exists (set_redis (w_redis w) (tick w)). split_and!; [done | simpl; lia |].
  rewrite run_bind. change (is_Get idempotencyStore) with IdempotencyStore_Get.
  unfold IdempotencyStore_Get. rewrite run_attempt. cbn [call run exec]. unfold lens.
  change (w_redis (tick w)) with (w_redis w).
  destruct (env_fault E (w_tick w)); [|done..]. destruct Hmiss as [?|Hmiss]; [done|].
  cbn [with_fault run]. by rewrite Hmiss.
Qed.
End gate.

Section theorems.
Context {U : UUIDLib} {L : UUIDLaws U} {R : RedisLib} {N : NatsLib} {M : MuxLib}.

(** C30: every request is logged with its method, its path, the status that is
    sent and the trace id that is sent back, which is the client's when it
    gave one and a fresh UUID otherwise. *)
Theorem access_log_matches (ML : MuxLaws) (h : Handler) E r w :
  let '(resp, line) := (run E (serve h r) w).1 in
  al_method line = req_method r ∧ al_path line = req_path r ∧ al_status line = resp_status resp ∧
  al_trace_id line = trace_of E r w ∧
  resp_header resp !! "X-Request-Id" = Some (al_trace_id line).
Proof.
  destruct (run_serve h E r w) as (w1 & ms & _ & _ & Hr). cbv zeta in Hr.
  pose proof (routes_orderly h (traced (trace_of E r w) r) E w1) as Ho.
  destruct (run E (routes h _) w1) as [ops w2]. destruct Hr as (w3 & _ & _ & ->). cbn [fst] in Ho |- *.
  destruct (respond_orderly ops (mkResponseWriter (traced_writer (trace_of E r w)) StatusOK) Ho)
    as [E1 E2]; [done..|].
  rewrite respond_wrapped in E1, E2. split_and!; [done | done | done | done |].
  etrans; [exact E2|]. apply lookup_insert_eq.
Qed.

(** C31: under /v1, a request that is not a GET is answered 400 with the code
    idempotency_key_required, touching nothing, when it has no Idempotency-Key;
    it is answered 200 with the cached bytes, marked as a replay, touching
    nothing, when Redis has its key; and only otherwise, also when Redis fails,
    do the handlers see it, with the key in its context. *)
Theorem idempotency_gate E r w :
  under_v1 r → req_method r ≠ "GET" →
  let key := Header_Get "Idempotency-Key" r in
  let id := trace_of E r w in
  let '(resp, w') := run E (NewRouter api_handler r) w in
  if bool_decide (key = "") then
    same_world w w' ∧ resp_status resp = StatusBadRequest ∧
    Decode (resp_body resp) = Ok (errorResponse_json "idempotency_key_required"
      "Idempotency-Key header is required")
  else
    ∃ n, (w_tick w <= n < w_tick w')%nat ∧
      match env_fault E n, redis_get (env_now E n) (prefixed key) (w_redis w) with
      | NoFault, Some cached =>
          same_world w w' ∧ resp_status resp = StatusOK ∧ resp_body resp = cached ∧
          resp_header resp !! "X-Idempotent-Replayed" = Some "true"
      | _, _ =>
          let r' := keyed key (traced id r) in
          idempotencyKeyFromCtx (req_ctx r') = key ∧
          ∃ w1, same_world w w1 ∧
            resp = respond (run E (serve_routes api_handler v1_routes false r') w1).1 (traced_writer id)
      end.
Proof.
  intros Hv1 Hm key id. unfold NewRouter. rewrite run_bind.
  destruct (run_serve api_handler E r w) as (w1 & ms & Hs1 & Ht1 & Hr). cbv zeta in Hr. fold id in Hr.
  rewrite routes_v1 in Hr by exact Hv1. change (hd_idempotency api_handler) with idempotencyStore in Hr.
  assert (w_redis w1 = w_redis w) as Hrd by apply Hs1.
  set (next := serve_routes api_handler v1_routes false) in *.
  case_bool_decide as Hk.
  - replace (run E (idempotencyMiddleware idempotencyStore next (traced id r)) w1) with
      (writeError StatusBadRequest "idempotency_key_required" "Idempotency-Key header is required", w1)
      in Hr.
    + destruct Hr as (w3 & Hs3 & _ & ->). cbn [run fst]. split.
      * unfold same_world in *. simpl. intuition congruence.
      * edestruct (writeJSON_answer StatusBadRequest) as (H1 & H2 & _);
          [done | | | apply error_json_wf | split; [exact H1 | exact H2]]; done.
    + unfold idempotencyMiddleware. change (req_method (traced id r)) with (req_method r).
      change (Header_Get _ (traced id r)) with key. by rewrite bool_decide_false, bool_decide_true.
  - destruct (env_fault E (w_tick w1)) eqn:Hf;
      [destruct (redis_get (env_now E (w_tick w1)) (prefixed key) (w_redis w)) as [cached|] eqn:Hg|..].
    { rewrite (replay_run E next (traced id r) cached) in Hr by (done || by rewrite Hrd).
      destruct Hr as (w3 & Hs3 & Ht3 & ->). cbn [run fst]. exists (w_tick w1).
      split; [simpl in *; lia|]. rewrite Hf, Hg.
      split_and!; [|done..]. unfold same_world in *. simpl in *. intuition congruence. }
    all: destruct (idempotency_miss E next key (traced id r) w1) as (w2 & Hs2 & Ht2 & Hrun);
      [done.. | first [by left; rewrite Hf | right; by rewrite Hrd] |]; rewrite Hrun in Hr;
      pose proof (run_tick E (next (keyed key (traced id r))) w2) as Ht2';
      destruct (run E (next (keyed key (traced id r))) w2) as [ops w2'] eqn:Hn;
      destruct Hr as (w3 & _ & Ht3 & ->); cbn [run fst snd] in *; exists (w_tick w1);
      (split; [lia|]); rewrite Hf, ?Hg; (split; [done|]); exists w2; rewrite Hn; (split; [|done]);
      unfold same_world in *; intuition congruence.
Qed.
End theorems.
