(* ===== verification/Queries.v ===== *)
(** * What the handlers answer

    The two queries in full, the shape of the answers; and a transfer that was
    created is served. *)
From S2P Require Import Prelude Uuid Money Account Transfer Ledger Json Database CircuitBreaker.
From S2P Require Import Observability Effects Ports Adapters AdapterSpecs Saga Command Http Worker.
From S2P Require Import Delivery Calls Concurrency System Guarantees Sequential Creation Middleware.

(** ** Bodies *)
Lemma result_json_reads r :
  result_of_json (result_json r) =
    Ok (mkCreateTransferResult (r_TransferID r) (State_of (State_text (r_State r))) (r_Cached r)).
Proof.
  destruct r as [id st cached]. unfold result_of_json, result_json.
  destruct cached; simpl r_Cached; by field_step.
Qed.

Section queries.
Context {U : UUIDLib} {L : UUIDLaws U} {R : RedisLib} {N : NatsLib} {M : MuxLib}.
Implicit Types (w : World) (r : Request).

(** ** One call after the other *)
Section runs.
Context (E : Env) (no_fault : ∀ n, env_fault E n = NoFault).

Lemma run_query {A} (q : DB → A) w : run E (call (query q)) w = (Ok (q (w_db w)), set_db (w_db w) (tick w)).
Proof. cbn [call run]. unfold query. by rewrite (Delivery.exec_sql E no_fault). Qed.

Lemma run_FindByID id w :
  run E (TransferRepo_FindByID id) w =
    (match scanTransfer (transfers (w_db w) !! TransferID_String id) with
     | Ok t => Ok t
     | Err e => if errors_Is e ErrNoRows then Err (Sentinel ErrTransferNotFound) else Err e
     end, set_db (w_db w) (tick w)).
Proof.
  unfold TransferRepo_FindByID. rewrite run_bind, run_query. cbn [res_bind].
  unfold select_transfer. destruct (scanTransfer _) as [t|e]; [done|]. by destruct (errors_Is e _).
Qed.

Lemma run_FindAccount id w :
  accounts_wf (w_db w) →
  run E (AccountRepo_FindByID id) w =
    (match accounts (w_db w) !! AccountID_String id with
     | Some r => Ok (acct_of id r)
     | None => Err (Sentinel ErrAccountNotFound)
     end, set_db (w_db w) (tick w)).
Proof.
  intros Hwf. unfold AccountRepo_FindByID. rewrite run_attempt, run_query. cbn [run].
  unfold select_account. destruct (accounts (w_db w) !! _) as [r|] eqn:Hr; [|done].
  unfold scanAccount. by rewrite (Hwf _ _ Hr), ParseAccountID_String.
Qed.

Lemma run_GetBalance a cur w :
  run E (LedgerRepo_GetBalance a cur) w =
    (match scan_int64 (balance (w_db w) a cur) with
     | Ok b => Ok (mkMoney b cur)
     | Err e => Err (errorf_w ("get balance for " +:+ AccountID_String a +:+ ": ") e)
     end, set_db (w_db w) (tick w)).
Proof.
  unfold LedgerRepo_GetBalance. rewrite run_bind, run_query. cbn [res_bind].
  fold (balance (w_db w) a cur). by destruct (scan_int64 _).
Qed.

(** ** The two queries *)
Lemma same_world_tick w : same_world w (set_db (w_db w) (tick w)).
Proof. done. Qed.

Lemma get_transfer_answer id w :
  transfers_wf (w_db w) →
  match ParseTransferID id with
  | Err e => (run E (GetTransfer api_handler id) w).1 =
      writeError StatusBadRequest "invalid_transfer_id" (Error e)
  | Ok tid =>
      (∃ t, t_ID t = tid ∧ holds (w_db w) t ∧ transfer_wf t ∧
         (run E (GetTransfer api_handler id) w).1 = writeJSON StatusOK (transfer_json t)) ∨
      (transfers (w_db w) !! TransferID_String tid = None ∧
         (run E (GetTransfer api_handler id) w).1 =
           writeError StatusNotFound "transfer_not_found" "transfer not found")
  end.
Proof.
  intros Hwf. unfold GetTransfer. destruct (ParseTransferID id) as [tid|e]; [|done].
  rewrite run_bind. change (tr_FindByID (hd_transfers api_handler)) with TransferRepo_FindByID.
  rewrite run_FindByID. destruct (transfers (w_db w) !! TransferID_String tid) as [r|] eqn:Hr.
  - left. destruct (Hwf _ _ Hr) as (t & -> & Hid%TransferID_String_inj & Hw & _).
    rewrite scan_row by (by apply lifecycle_state, Hw). exists t. split; [done|]. split; [|done].
    unfold holds. by rewrite <- Hid.
  - right. done.
Qed.

Lemma get_balance_answer id w :
  accounts_wf (w_db w) →
  match ParseAccountID id with
  | Err e => (run E (GetAccountBalance api_handler id) w).1 =
      writeError StatusBadRequest "invalid_account_id" (Error e)
  | Ok a => (run E (GetAccountBalance api_handler id) w).1 =
      match accounts (w_db w) !! AccountID_String a with
      | None => writeError StatusNotFound "account_not_found" "account not found"
      | Some r =>
          let b := balance (w_db w) a (acc_currency r) in
          if bool_decide (in_int64 b) then
            writeJSON StatusOK (Ok (balance_json id (mkMoney b (acc_currency r))))
          else internal_error
      end
  end.
Proof.
  intros Hwf. unfold GetAccountBalance. destruct (ParseAccountID id) as [a|e]; [|done].
  rewrite run_bind. change (ar_FindByID (hd_accounts api_handler)) with AccountRepo_FindByID.
  rewrite run_FindAccount by done. destruct (accounts (w_db w) !! _) as [r|]; [|done].
  rewrite run_bind. change (br_GetBalance (hd_balances api_handler)) with LedgerRepo_GetBalance.
  rewrite run_GetBalance. cbn [w_db set_db tick a_Currency acct_of]. unfold scan_int64.
  by case_bool_decide.
Qed.
End runs.

(** ** The shape of answers *)
Definition json_answer (ops : Answer) : Prop :=
  let resp := answered ops in
  resp_header resp !! "Content-Type" = Some "application/json" ∧
  ∃ j, Decode (resp_body resp) = Ok j ∧
    if bool_decide (resp_status resp ∈ [StatusOK; StatusAccepted])
    then ∃ result, result_of_json j = Ok result
    else ∃ code message, j = errorResponse_json code message.

Lemma writeError_json status code message :
  informational status = false → status ∉ [StatusOK; StatusAccepted] →
  json_answer (writeError status code message).
Proof.
  intros Hi Hs. unfold writeError, json_answer.
  destruct (writeJSON_answer status (errorResponse_json code message) new_response Hi)
    as (E1 & E2 & E3); [done.. | apply error_json_wf |].
  unfold answered. rewrite E1, bool_decide_false by done. split; [exact E3|].
  eexists. split; [exact E2 | eauto].
Qed.
Lemma domain_error_json e : json_answer (handleDomainError e).
Proof. unfold handleDomainError, internal_error. repeat case_match; apply writeError_json; set_solver. Qed.
Lemma result_answer_json status result :
  informational status = false → status ∈ [StatusOK; StatusAccepted] →
  json_answer (writeJSON status (Ok (result_json result))).
Proof.
  intros Hi Hs. unfold json_answer.
  destruct (writeJSON_answer status (result_json result) new_response Hi)
    as (E1 & E2 & E3); [done.. | apply result_json_wf |].
  unfold answered. rewrite E1, bool_decide_true by done. split; [exact E3|].
  eexists. split; [exact E2|]. rewrite result_json_reads. eauto.
Qed.
End queries.

Section theorems.
Context {U : UUIDLib} {L : UUIDLaws U} {R : RedisLib} {RL : RedisLaws R} {N : NatsLib} {M : MuxLib}.

(** C32: without faults the two queries change nothing. GET /v1/transfers/{id}
    answers 400 to an id that does not parse, 404 when there is no such
    transfer, and otherwise 200 with the stored transfer. GET
    /v1/accounts/{id}/balance answers 400 to an id that does not parse, 404 when
    there is no such account, 200 with the exact signed sum of the account's
    entries in its currency when that fits an int64, and 500 otherwise. *)
Theorem queries_answered E id acct w :
  (∀ n, env_fault E n = NoFault) → transfers_wf (w_db w) → accounts_wf (w_db w) →
  (same_world w (run E (GetTransfer api_handler id) w).2 ∧
   match ParseTransferID id with
   | Err e => (run E (GetTransfer api_handler id) w).1 =
       writeError StatusBadRequest "invalid_transfer_id" (Error e)
   | Ok tid =>
       (∃ t, t_ID t = tid ∧ holds (w_db w) t ∧ transfer_wf t ∧
          (run E (GetTransfer api_handler id) w).1 = writeJSON StatusOK (transfer_json t)) ∨
       (transfers (w_db w) !! TransferID_String tid = None ∧
          (run E (GetTransfer api_handler id) w).1 =
            writeError StatusNotFound "transfer_not_found" "transfer not found")
   end) ∧
  (same_world w (run E (GetAccountBalance api_handler acct) w).2 ∧
   match ParseAccountID acct with
   | Err e => (run E (GetAccountBalance api_handler acct) w).1 =
       writeError StatusBadRequest "invalid_account_id" (Error e)
   | Ok a => (run E (GetAccountBalance api_handler acct) w).1 =
       match accounts (w_db w) !! AccountID_String a with
       | None => writeError StatusNotFound "account_not_found" "account not found"
       | Some r =>
           let b := balance (w_db w) a (acc_currency r) in
           if bool_decide (in_int64 b) then
             writeJSON StatusOK (Ok (balance_json acct (mkMoney b (acc_currency r))))
           else internal_error
       end
   end).
Proof.
  intros Hf Hwf Ha. split; (split; [|by first [apply get_transfer_answer | apply get_balance_answer]]).
  - apply run_reads. unfold GetTransfer, TransferRepo_FindByID. calls_tac; apply reads_query.
  - apply run_reads. unfold GetAccountBalance, AccountRepo_FindByID, LedgerRepo_GetBalance.
    calls_tac; apply reads_query.
Qed.

(** C34: when POST /v1/transfers answers 202, its body names a transfer that
    GET /v1/transfers/{id} then serves: PENDING, with the accounts, the amount
    and the padded currency that were asked for. *)
Theorem created_transfer_is_served E lim req body w ops w' :
  healthy E lim → fresh_ids E lim w → fresh_transfers E lim w → accounts_wf (w_db w) →
  (∀ n, redis_get (env_now E n) (prefixed (idempotencyKeyFromCtx (req_ctx req))) (w_redis w) = None) →
  decode_request (req_body req) = Ok body →
  run E (CreateTransfer api_handler req) w = (ops, w') →
  resp_status (answered ops) = StatusAccepted →
  (w_tick w' <= lim)%nat →
  ∃ t cur, Decode (resp_body (answered ops)) = Ok (result_json (result_of t)) ∧
    char3 (ctr_Currency body) = Some cur ∧
    ParseAccountID (ctr_SourceAccountID body) = Ok (t_SourceAccountID t) ∧
    ParseAccountID (ctr_DestAccountID body) = Ok (t_DestAccountID t) ∧
    t_Amount t = mkMoney (ctr_Amount body) (ctr_Currency body) ∧ t_State t = StatePending ∧
    ∀ E2 w2, (∀ n, env_fault E2 n = NoFault) → w_db w2 = w_db w' →
      (run E2 (GetTransfer api_handler (TransferID_String (t_ID t))) w2).1 =
        writeJSON StatusOK (transfer_json (stored (requested t cur))).
Proof.
  intros H Hf Hft Hwf Ha Hbody Hrun Hstatus Hl. revert Hrun. unfold CreateTransfer. rewrite Hbody, run_bind.
  set (cmd := mkCreateTransferCmd _ _ _ _ _).
  pose proof (wp_Handle E lim H cmd w Hf Hft Hwf Ha) as Hh. unfold wp in Hh.
  change (hd_createTransfer api_handler) with createTransferCmd.
  destruct (run E (Handle createTransferCmd cmd) w) as [[result|e] w1]; cbn [run]; intros [= <- <-].
  2:{ exfalso. revert Hstatus. unfold handleDomainError, internal_error. by repeat case_match. }
  destruct (Hh Hl) as (t & -> & Hct & _ & _ & Hc). destruct (cr_row _ _ _ _ Hc) as (cur & Hcur & Hrows).
  cbn [fst snd] in Hrows.
  destruct Hct as [_ Hsrc Hdst _ [Hamt _] [Hst _]]. exists t, cur. split_and!; try done.
  - apply (writeJSON_answer StatusAccepted); [done..|]. apply result_json_wf.
  - by rewrite Hamt in Hcur.
  - intros E2 w2 Hf2 Hd2. unfold GetTransfer. rewrite ParseTransferID_String, run_bind.
    change (tr_FindByID (hd_transfers api_handler)) with TransferRepo_FindByID.
    rewrite (run_FindByID E2 Hf2), Hd2, Hrows, lookup_insert_eq, scan_row; [done|].
    simpl. rewrite Hst. by constructor.
Qed.

(** C35: whatever the request, the state and the faults, the handler of POST
    /v1/transfers answers 200, 202, 400, 404 or 500, never the 422 of the
    documentation, and its answer is a JSON document with its content type: a
    result when the status is 200 or 202, an error with code and message
    otherwise. *)
Theorem create_answers_json E r w :
  resp_status (answered (run E (CreateTransfer api_handler r) w).1) ∈
    [StatusOK; StatusAccepted; StatusBadRequest; StatusNotFound; StatusInternalServerError] ∧
  json_answer (run E (CreateTransfer api_handler r) w).1.
Proof.
  split; [apply create_statuses|]. unfold CreateTransfer. destruct (decode_request _) as [req|e].
  - rewrite run_bind. destruct (run E (Handle _ _) w) as [[result|e] w']; cbn [run fst].
    + apply result_answer_json; destruct (r_Cached result); set_solver.
    + apply domain_error_json.
  - apply writeError_json; set_solver.
Qed.
End theorems.
