(* ===== verification/Retries.v ===== *)
(** * A retry whose cached response is gone

    The row of a transfer outlives the cached response of its creation, which
    expires, or was never written when the process died or Redis failed. *)
From S2P Require Import Prelude Uuid Money Account Transfer Ledger Json Database CircuitBreaker.
From S2P Require Import Observability Effects Ports Adapters AdapterSpecs Saga Command Http Worker.
From S2P Require Import Delivery Calls Concurrency System Guarantees Sequential Creation Middleware.

(** ** Keys in use *)
Definition key_taken (d : DB) (key : string) : Prop :=
  ∃ k r, transfers d !! k = Some r ∧ tr_idempotency_key r = key.

(** An error that the handler answers with 500. *)
Definition internal (e : error) : Prop := not_422 e ∧ errors_Is e ErrAccountNotFound = false.
Lemma internal_answer e : internal e → handleDomainError e = internal_error.
Proof. intros [[H1 H2] H3]. unfold handleDomainError. by rewrite H1, H2, H3. Qed.

Lemma insert_taken_key r d :
  key_taken d (tr_idempotency_key r) → ∃ m, insert_transfer r d = (Err (NewError m), d).
Proof.
  intros (k & r' & Hk & Hr). unfold insert_transfer. destruct (char3 _); [|by eexists].
  destruct (_ <=? _); [by eexists|]. destruct (negb _); [by eexists|]. destruct (negb _); [by eexists|].
  case_bool_decide; [by eexists|]. rewrite bool_decide_true; [by eexists|]. by exists k, r'.
Qed.

Section retries.
Context {U : UUIDLib} {L : UUIDLaws U} {R : RedisLib} {N : NatsLib} {M : MuxLib}.

Lemma key_taken_later d d' key : transfers_wf d → le_db d d' → key_taken d key → key_taken d' key.
Proof.
  intros Hwf Hle (k & r & Hk & Hr). destruct (Hwf _ _ Hk) as (t & -> & -> & Hw & _).
  destruct (le_transfers _ _ Hle t Hk Hw) as (t' & Ht' & _ & (_ & Ek & _) & _).
  eexists _, _. split; [exact Ht'|]. simpl in *. congruence.
Qed.

(** ** Programs that leave the world as it is, whatever fails *)
Context (E : Env) (w0 : World).
Definition still {A} (p : prog A) (Q : A → Prop) : Prop :=
  ∀ w, same_world w0 w → same_world w0 (run E p w).2 ∧ Q (run E p w).1.

Lemma still_ret {A} (a : A) (Q : A → Prop) : Q a → still (Ret a) Q.
Proof. by intros ? ?. Qed.
Lemma still_bind {A B} (p : prog A) (k : A → prog B) Q :
  still p (λ a, still (k a) Q) → still (bind p k) Q.
Proof.
  intros Hp w Hw. rewrite run_bind. destruct (Hp w Hw) as [Hw1 Hk].
  destruct (run E p w) as [a w1]. by apply Hk.
Qed.
Lemma still_mono {A} (p : prog A) (Q Q' : A → Prop) : still p Q → (∀ a, Q a → Q' a) → still p Q'.
Proof. intros Hp HQ w Hw. destruct (Hp w Hw). auto. Qed.
Lemma still_attempt {A B} f (p : prog (res A)) (k : A → prog (res B)) Q :
  still p (λ r, match r with Ok a => still (k a) Q | Err e => Q (Err (f e)) end) →
  still (attempt f p k) Q.
Proof.
  intros Hp. apply still_bind. eapply still_mono; [exact Hp|]. by intros [a|e]; [|apply still_ret].
Qed.
Lemma still_res {A B} f (r : res A) (k : A → prog (res B)) Q :
  (∀ a, r = Ok a → still (k a) Q) → (∀ e, r = Err e → Q (Err (f e))) → still (attempt f (Ret r) k) Q.
Proof. intros HO HE. apply still_attempt, still_ret. destruct r; auto. Qed.
Lemma still_draw {X} (c : Cmd X) : reads X c → still (call c) (λ _, True).
Proof. intros Hc w Hw. split; [|done]. cbn [call run]. pose proof (reads_exec E X c w0 w Hc Hw). by destruct (exec E c w). Qed.

(** A statement that changes nothing in this database: its result, or a fault. *)
Lemma still_sql {A} (f : DB → res A * DB) r (Q : res A → Prop) :
  f (w_db w0) = (r, w_db w0) → Q r → (∀ fl, Q (Err (fault_error fl))) → still (call (Sql f)) Q.
Proof.
  intros Hf HQ HE w Hw. pose proof Hw as (Hd & _). cbn [call run exec]. unfold lens.
  change (w_db (tick w)) with (w_db w). rewrite Hd.
  destruct (env_fault E (w_tick w)); cbn [with_fault]; rewrite ?Hf; cbn [fst snd];
    (split; [|first [exact HQ | exact (HE (FailBefore _)) | exact (HE (FailAfter _)) | exact (HE (ContextDone true))]]);
    unfold same_world in *; simpl; intuition congruence.
Qed.
Lemma still_Get key (Q : res (option string) → Prop) :
  (∀ n, redis_get (env_now E n) (prefixed key) (w_redis w0) = None) →
  Q (Ok None) → (∀ s fl, Q (Err (errorf_w s (fault_error fl)))) → still (IdempotencyStore_Get key) Q.
Proof.
  intros Hmiss HQ HE w Hw. pose proof Hw as (_ & Hr & _).
  unfold IdempotencyStore_Get. rewrite run_attempt. cbn [call run exec]. unfold lens.
  change (w_redis (tick w)) with (w_redis w). rewrite Hr.
  destruct (env_fault E (w_tick w)); cbn [with_fault run fst snd]; rewrite ?Hmiss;
    (split; [|first [exact HQ | exact (HE _ (FailBefore _)) | exact (HE _ (FailAfter _))
      | exact (HE _ (ContextDone true))]]); unfold same_world in *; simpl; intuition congruence.
Qed.

(** ** The command *)
Definition usable (id : AccountID) : Prop := accounts_wf (w_db w0) ∧ active_account (w_db w0) id.

(** The account found may transact if the one stored may. *)
Definition fetched (id : AccountID) (r : res Account) : Prop :=
  usable id → match r with Ok a => CanTransact a = Ok tt | Err e => internal e end.

Lemma still_FindByID id : still (AccountRepo_FindByID id) (fetched id).
Proof.
  unfold AccountRepo_FindByID. apply still_attempt.
  eapply still_sql; [done| |intros [] _; done].
  apply still_ret. intros [Hwf (r & Hr & Hs)]. unfold select_account. rewrite Hr. simpl.
  rewrite (Hwf _ _ Hr), ParseAccountID_String. simpl. by apply CanTransact_ok.
Qed.

Lemma still_validateAccounts src dst :
  still (validateAccounts createTransferCmd src dst)
    (λ r, ∀ e, r = Err e → usable src → usable dst → internal e).
Proof.
  unfold validateAccounts. apply still_attempt.
  eapply still_mono; [apply still_FindByID|]. intros [a1|e] H1; [|intros e' [= <-] Hu _; exact (H1 Hu)].
  apply still_res.
  2:{ intros e He e' [= <-] Hu _. specialize (H1 Hu). simpl in H1. congruence. }
  intros [] _. apply still_attempt.
  eapply still_mono; [apply still_FindByID|]. intros [a2|e] H2; [|intros e' [= <-] _ Hu; exact (H2 Hu)].
  apply still_ret. intros e He _ Hu. specialize (H2 Hu). simpl in H2. congruence.
Qed.

Lemma still_Save t :
  key_taken (w_db w0) (t_IdempotencyKey t) →
  still (TransferRepo_Save t) (λ r, ∃ e, r = Err e ∧ internal e).
Proof.
  intros Hk. destruct (insert_taken_key (transfer_to_row t) (w_db w0) Hk) as [m Hm].
  apply still_attempt. eapply still_sql; [exact Hm|..]; [|intros []]; by eexists.
Qed.

Lemma Transfer_New_internal now id key src dst amount e :
  Transfer_New now id key src dst amount = Err e → internal e.
Proof.
  intros He. split; [by eapply Transfer_New_not_422|]. revert He. unfold Transfer_New, Money.Validate.
  destruct (bool_decide _); [by intros [= <-]|].
  destruct (_ <? _); [by intros [= <-]|]. destruct (bool_decide _); [by intros [= <-]|].
  destruct (Money.IsZero _); [by intros [= <-]|]. destruct (bool_decide _); [by intros [= <-] | done].
Qed.

(** An error, and an internal one if both accounts are good. *)
Definition refused (cmd : CreateTransferCmd) (r : res CreateTransferResult) : Prop :=
  ∃ e, r = Err e ∧
    ∀ src dst, ParseAccountID (cmd_SourceAccountID cmd) = Ok src →
      ParseAccountID (cmd_DestAccountID cmd) = Ok dst → usable src → usable dst → internal e.

Lemma still_Handle cmd :
  key_taken (w_db w0) (cmd_IdempotencyKey cmd) →
  (∀ n, redis_get (env_now E n) (prefixed (cmd_IdempotencyKey cmd)) (w_redis w0) = None) →
  still (Handle createTransferCmd cmd) (refused cmd).
Proof.
  intros Htaken Hmiss. unfold Handle. apply still_attempt. unfold checkIdempotency. apply still_attempt.
  apply still_Get; [exact Hmiss | | intros s []; by eexists]. apply still_ret.
  apply still_res; [intros src Hsrc | intros e He; eexists; split; [done|]; congruence].
  apply still_res; [intros dst Hdst | intros e He; eexists; split; [done|]; congruence].
  apply still_attempt. eapply still_mono; [apply still_validateAccounts|]. intros [[]|e] Hv.
  2:{ eexists. split; [done|]. intros src' dst' Es Ed Hs Hd.
      rewrite Hsrc in Es. rewrite Hdst in Ed. simplify_eq. exact (Hv e eq_refl Hs Hd). }
  apply still_res; [intros amount [_ ->]%New_ok | intros e He; eexists; split; [done|]].
  2:{ intros _ _ _ _ _ _. revert He. unfold Money.New. destruct (_ <? _); [by intros [= <-] | done]. }
  apply still_bind. eapply still_mono; [by apply still_draw|]. intros fresh _.
  apply still_bind. eapply still_mono; [by apply still_draw|]. intros now _.
  apply still_res.
  2:{ intros e He. eexists. split; [done|]. intros _ _ _ _ _ _. exact (Transfer_New_internal _ _ _ _ _ _ _ He). }
  intros t (_ & _ & _ & _ & ->)%Transfer_New_ok. apply still_attempt.
  eapply still_mono; [by apply still_Save|]. intros r (e & -> & He). eexists. split; [done|].
  intros _ _ _ _ _ _. exact He.
Qed.
End retries.

Section theorems.
Context {U : UUIDLib} {L : UUIDLaws U} {R : RedisLib} {N : NatsLib} {M : MuxLib}.

(** C24: once a key belongs to a transfer, a request under it that finds no
    cached response, because that has expired or was never written, is answered
    with an error for ever after and has no effect; a well-formed one between
    active accounts gets 500, not the transfer that exists. *)
Theorem key_without_response_refused E w c c' E2 req :
  let key := idempotencyKeyFromCtx (req_ctx req) in
  transfers_wf (w_db w) → system_run E w c → reachable processes E c c' →
  key_taken (w_db (c_world c)) key →
  (∀ n, redis_get (env_now E2 n) (prefixed key) (w_redis (c_world c')) = None) →
  let '(ops, w') := run E2 (CreateTransfer api_handler req) (c_world c') in
  same_world (c_world c') w' ∧
  (resp_status (answered ops) ∉ [StatusOK; StatusAccepted]) ∧
  ∀ body src dst, decode_request (req_body req) = Ok body →
    ParseAccountID (ctr_SourceAccountID body) = Ok src →
    ParseAccountID (ctr_DestAccountID body) = Ok dst →
    usable (c_world c') src → usable (c_world c') dst → ops = internal_error.
Proof.
  intros key Hwf Hrun Hlater Htaken Hmiss.
  destruct (system_later E _ _ _ Hrun Hlater Hwf) as (Hwf1 & _ & Hle).
  apply (key_taken_later _ _ _ Hwf1 Hle) in Htaken.
  unfold CreateTransfer. destruct (decode_request (req_body req)) as [body|e]; cbn [run].
  2:{ split; [done|]. split; [|done]. simpl. set_solver. }
  rewrite run_bind. change (hd_createTransfer api_handler) with createTransferCmd.
  set (cmd := mkCreateTransferCmd _ _ _ _ _).
  destruct (still_Handle E2 (c_world c') cmd Htaken Hmiss (c_world c')) as [Hsame (e & He & Hint)]; [done|].
  destruct (run E2 (Handle createTransferCmd cmd) (c_world c')) as [r w'].
  cbn [fst snd] in *. subst r. cbn [run]. split; [done|]. split.
  - unfold handleDomainError, internal_error. repeat case_match; simpl; set_solver.
  - intros body' src dst [= <-] Hs Hd Hus Hud. by apply internal_answer, (Hint src dst).
Qed.
End theorems.
