(* ===== verification/Books.v ===== *)
(** * The ledger and the transfers agree

    What an account holds, less what the transfers have moved in their present
    states, is a constant of every history in which the programs run one after
    the other and no call fails: the ledger is a function of the transfers. *)
From S2P Require Import Prelude Uuid Money Account Transfer Ledger Json Database CircuitBreaker.
From S2P Require Import Effects Ports Adapters AdapterSpecs Saga Command Http Worker Delivery.
From S2P Require Import Calls Concurrency System Sequential Refinement.

(** ** Sums over a table *)
Definition sum_map {V} (f : V → Z) (m : gmap string V) : Z := sumZ (λ p, f p.2) (map_to_list m).

Lemma sum_map_new {V} (f : V → Z) (m : gmap string V) k x :
  m !! k = None → sum_map f (<[k := x]> m) = f x + sum_map f m.
Proof. intros Hk. unfold sum_map. by rewrite (map_to_list_insert m k x Hk). Qed.

Lemma sum_map_update {V} (f : V → Z) (m : gmap string V) k x0 x :
  m !! k = Some x0 → sum_map f (<[k := x]> m) = sum_map f m - f x0 + f x.
Proof.
  intros Hk.
  assert (∀ y, sum_map f (<[k := y]> m) = f y + sum_map f (delete k m)) as Hs.
  { intros y. rewrite <- insert_delete_eq. apply sum_map_new, lookup_delete_eq. }
  rewrite Hs. rewrite <- (insert_id m k x0) at 2 by done. rewrite Hs. lia.
Qed.

Section books.
Context {U : UUIDLib} {L : UUIDLaws U} {R : RedisLib} {N : NatsLib}.
Implicit Types (t : Transfer) (d : DB) (w : World).

(** What the transfers have moved on account [a]. *)
Definition row_net (a : AccountID) (cur : Currency) (r : transfer_row) : Z :=
  match scanTransfer (Some r) with Ok t => net (t_State t) t a cur | Err _ => 0 end.
Definition outstanding d (a : AccountID) (cur : Currency) : Z := sum_map (row_net a cur) (transfers d).

Lemma row_net_transfer a cur t :
  t_State t ∈ State_consts → row_net a cur (transfer_to_row t) = net (t_State t) t a cur.
Proof. intros Hs. unfold row_net. by rewrite scan_row. Qed.

(** The database of a serial history between two calls: [mv] has been posted
    and is not yet shown by the transfer it belongs to. *)
Definition books (base : AccountID → Currency → Z) (mv : option (AccountID * AccountID)) (m : Money)
    d : Prop :=
  transfers_wf d ∧
  ∀ a cur, char3 cur = Some cur →
    balance d a cur - outstanding d a cur = base a cur + moved_by mv m a cur.
Definition no_money : Money := mkMoney 0 "".
Abbreviation settled base := (books base None no_money).

Lemma books_none base m m' d : books base None m d → books base None m' d.
Proof. done. Qed.

Context (base : AccountID → Currency → Z).

Lemma books_core mv m d d' : same_core d d' → books base mv m d → books base mv m d'.
Proof.
  intros (Ha & Ht & Hl) [Hwf Hb]. split.
  - unfold transfers_wf. by rewrite Ha, Ht.
  - intros a cur Hc. rewrite <- Hb by done. unfold balance, sum_entries, outstanding. by rewrite Hl, Ht.
Qed.

Lemma books_posted src dst m rows d :
  moves src dst m rows → settled base d →
  books base (Some (src, dst)) m (set_ledger_entries (ledger_entries d ++ rows) d).
Proof.
  intros Hm [Hwf Hb]. split; [done|]. intros a cur Hc. rewrite (balance_moves _ _ _ _ _ _ _ Hm Hc).
  specialize (Hb a cur Hc). unfold outstanding in *. cbn [transfers set_ledger_entries moved_by] in *. lia.
Qed.

(** The row catches up with what was posted. *)
Lemma books_updated mv t t' d :
  holds d (stored t) → timestamptz (t_CreatedAt t) = t_CreatedAt t → transfer_wf t →
  next_version t t' →
  (∀ a cur, net (t_State t) t a cur + moved_by mv (t_Amount t) a cur = net (t_State t') t a cur) →
  books base mv (t_Amount t) d →
  settled base (set_transfers
    (<[TransferID_String (t_ID t) := transfer_to_row (stored t')]> (transfers d)) d).
Proof.
  intros Hh Hc Hw Hnv Hn [Hwf Hb].
  split; [by apply replaced_wf|].
  intros a cur Hcur. specialize (Hb a cur Hcur). specialize (Hn a cur).
  pose proof Hnv as (Hsr & _ & _ & Hlc'). pose proof Hw as [_ Hlc].
  unfold outstanding. cbn [transfers set_transfers]. unfold holds in Hh.
  rewrite (sum_map_update _ _ _ _ _ Hh), !row_net_transfer
    by (apply lifecycle_state; first [exact Hlc | exact Hlc']).
  change (balance (set_transfers _ d) a cur) with (balance d a cur).
  fold (outstanding d a cur). change (t_State (stored t')) with (t_State t').
  change (t_State (stored t)) with (t_State t).
  change (net (t_State t) (stored t) a cur) with (net (t_State t) t a cur).
  change (net (t_State t') (stored t') a cur) with (net (t_State t') t' a cur).
  rewrite (net_request _ t t') by done. cbn [moved_by] in *. lia.
Qed.

(** A new transfer has moved nothing. *)
Lemma books_inserted now id key src dst amount t d :
  Transfer_New now id key src dst amount = Ok t → m_Amount amount <= int64_max →
  settled base d → settled base (insert_transfer (transfer_to_row t) d).2.
Proof.
  intros Ht Hm [Hwf Hb]. pose proof (insert_transfer_new d _ _ _ _ _ _ _ Ht Hm Hwf) as Hwf'.
  rewrite (surjective_pairing (insert_transfer _ d)) in Hwf'. destruct Hwf' as [Hwf' _].
  split; [done|]. intros a cur Hc. rewrite <- Hb by done.
  destruct (insert_transfer_inv (transfer_to_row t) d) as [[e ->]|(c & -> & _ & Hnew & _)]; [done|].
  unfold outstanding. cbn [snd transfers set_transfers]. rewrite sum_map_new by done.
  apply Transfer_New_ok in Ht as (_ & _ & _ & _ & ->).
  assert (∀ r, tr_state r = State_text StatePending → row_net a cur r = 0) as ->; [|done|done].
  intros r Er. unfold row_net, scanTransfer, res_bind. repeat (case_match; try done).
  simplify_eq/=. by rewrite Er.
Qed.
End books.

(** ** Programs *)
Section programs.
Context {U : UUIDLib} {L : UUIDLaws U} {R : RedisLib} {N : NatsLib}.
Context (E : Env) (no_fault : ∀ n, env_fault E n = NoFault) (lim : nat).
Context (base : AccountID → Currency → Z).
Abbreviation wp := (Sequential.wp E lim).
Abbreviation settled := (books base None no_money).
Implicit Types (t : Transfer) (d : DB) (w : World).

(** Calls that leave accounts, transfers and ledger alone. *)
Definition core X (c : Cmd X) : Prop :=
  match c with Sql f => ∀ d, same_core d (f d).2 | _ => True end.

#[local] Instance same_core_preorder : PreOrder same_core.
Proof. unfold same_core. split; [done|]. intros d1 d2 d3 (?&?&?) (?&?&?). split_and!; congruence. Qed.

Lemma core_exec X (c : Cmd X) w0 w :
  core X c → same_core (w_db w0) (w_db w) → same_core (w_db w0) (w_db (exec E c w).2).
Proof.
  intros Hc Hw. destruct c as [| |A f|A request|request| | |]; simpl in *; unfold lens; try done.
  - simpl. rewrite no_fault. simpl. specialize (Hc (w_db w)). destruct (f (w_db w)). by etrans.
  - by destruct (with_fault _ _ _).
  - by destruct (with_fault _ _ _).
  - by destruct (CB.acquire _ _).
Qed.

Lemma wp_core {A} (p : prog A) (Q : A → World → Prop) w :
  all_calls core p → (∀ a w', same_core (w_db w) (w_db w') → Q a w') → wp p Q w.
Proof.
  intros Hp HQ _. apply HQ. apply (run_all_calls core (λ w', same_core (w_db w) (w_db w')) E); [|done..].
  intros X c w'. apply core_exec.
Qed.

Lemma wp_statement {A} (f : DB → res A * DB) (Q : res A → World → Prop) w :
  Q (f (w_db w)).1 (set_db (f (w_db w)).2 (tick w)) → wp (call (Sql f)) Q w.
Proof. unfold Sequential.wp. cbn [call run]. by rewrite (exec_sql E no_fault). Qed.

(** *** The programs around the postings *)
Lemma core_query {A} (q : DB → A) : core _ (query q).
Proof. done. Qed.
Lemma core_insert_event (r : event_row) : core _ (Sql (insert_event r)).
Proof. intros d. unfold insert_event. repeat case_match; done. Qed.
Lemma core_insert_outbox subject payload now : core _ (Sql (insert_outbox subject payload now)).
Proof. intros d. by destruct payload. Qed.
Create HintDb core_calls.
Hint Resolve core_query core_insert_event core_insert_outbox : core_calls.
Ltac core_tac := repeat first [solve [eauto with core_calls] | exact I | calls_step].

Lemma core_publishEvent t typ : all_calls core (publishEvent worker_deps t typ).
Proof. unfold publishEvent. core_tac. Qed.
Lemma core_new_posting src dst m desc : all_calls core (new_posting src dst m desc).
Proof. unfold new_posting. core_tac. Qed.
Lemma core_insert_entries pending es : all_calls core (insert_entries pending es).
Proof.
  revert pending. induction es as [|e es IH]; intros pending; cbn [insert_entries]; [done|].
  apply all_calls_attempt; [by apply all_calls_call | intros; apply IH].
Qed.
Lemma core_InitiateTransfer req : all_calls core (CircuitBreakerGateway_InitiateTransfer req).
Proof. unfold CircuitBreakerGateway_InitiateTransfer. core_tac. Qed.

(** *** Building and writing a posting *)
Lemma wp_inserted pending es (Q : res (list entry_row) → World → Prop) w :
  (∀ r w', same_core (w_db w) (w_db w') →
     (∀ rows, r = Ok rows → ∃ new, rows = pending ++ new ∧ Forall2 inserted es new) → Q r w') →
  wp (insert_entries pending es) Q w.
Proof.
  revert pending w. induction es as [|e es IH]; intros pending w HQ; cbn [insert_entries].
  - apply wp_ret, HQ; [done|]. intros rows [= <-]. exists []. by rewrite app_nil_r.
  - apply wp_attempt, wp_statement. cbn [fst snd].
    destruct (insert_entry pending (entry_to_row e) (w_db w)) as [row|er] eqn:Hr; [|by apply HQ].
    apply IH. intros r w' Hw' Hrows. apply HQ; [exact Hw'|].
    intros rows (new & -> & Hnew)%Hrows. exists (row :: new). rewrite <- app_assoc.
    split; [done|]. constructor; [|done]. by exists pending, (w_db w).
Qed.

Lemma posting_moves tx src dst m desc id1 id2 now rows :
  char3 (m_Currency m) = Some (m_Currency m) →
  Forall2 inserted (Entries (posting_of tx src dst m desc id1 id2 now)) rows → moves src dst m rows.
Proof.
  intros Hc (row1 & l1 & (p1 & d1 & H1) & H2 & ->)%Forall2_cons_inv_l.
  apply Forall2_cons_inv_l in H2 as (row2 & l2 & (p2 & d2 & H2) & ->%Forall2_nil_inv_l & ->).
  apply insert_entry_ok in H1 as (? & ? & ? & ? & Hc1).
  apply insert_entry_ok in H2 as (? & ? & ? & ? & Hc2). simpl in *.
  exists row1, row2. split_and!; congruence.
Qed.

Lemma wp_built src dst m desc (Q : res Posting → World → Prop) w :
  (∀ e w', same_core (w_db w) (w_db w') → Q (Err e) w') →
  (∀ tx id1 id2 now w', src ≠ dst → same_core (w_db w) (w_db w') →
     Q (Ok (posting_of tx src dst m desc id1 id2 now)) w') →
  wp (new_posting src dst m desc) Q w.
Proof.
  intros HE HQ. unfold new_posting. do 4 (apply wp_bind; intros _; cbn [call run fst snd]).
  apply wp_ret. destruct (NewPosting _ _ _ _ _ _ _ _) as [p|e] eqn:Hp; [|by apply HE].
  apply NewPosting_inv in Hp as (_ & _ & Hd & ->). by apply HQ.
Qed.

(** Either nothing is written, and an error returned, or the two rows are. *)
Lemma wp_written tx src dst m desc id1 id2 now (Q : res unit → World → Prop) w :
  char3 (m_Currency m) = Some (m_Currency m) →
  (∀ e w', same_core (w_db w) (w_db w') → Q (Err e) w') →
  (∀ rows w', moves src dst m rows →
     same_core (set_ledger_entries (ledger_entries (w_db w) ++ rows) (w_db w)) (w_db w') →
     Q (Ok tt) w') →
  wp (LedgerRepo_PostEntries (Entries (posting_of tx src dst m desc id1 id2 now))) Q w.
Proof.
  intros Hc HE HQ. unfold LedgerRepo_PostEntries.
  apply wp_attempt, wp_statement. cbn [fst snd]. apply wp_attempt, wp_inserted. cbn [w_db set_db].
  intros r w1 Hw1 Hrows. destruct r as [rows|e]; [|by apply HE].
  destruct (Hrows rows) as (new & -> & Hnew); [done|]. cbn [app].
  apply wp_statement. unfold commit_entries. case_bool_decide; cbn [fst snd]; [|by apply HE].
  destruct Hw1 as (Ha & Ht & Hl). apply (HQ new); [by eapply posting_moves|].
  unfold same_core. simpl in *. by rewrite Ha, Ht, Hl.
Qed.

(** *** Updating the transfer *)

(** The program's transfer is the row, and [mv] is posted for it. *)
Record at_row (mv : option (AccountID * AccountID)) t w : Prop := {
  at_holds : holds (w_db w) (stored t);
  at_created : timestamptz (t_CreatedAt t) = t_CreatedAt t;
  at_wf : transfer_wf t;
  at_books : books base mv (t_Amount t) (w_db w);
}.

Lemma at_row_core mv t w w' : same_core (w_db w) (w_db w') → at_row mv t w → at_row mv t w'.
Proof.
  intros Hc []. split; [|done|done|by eapply books_core].
  destruct Hc as (_ & Ht & _). unfold holds. by rewrite Ht.
Qed.
Lemma at_row_posted src dst rows t w w' :
  moves src dst (t_Amount t) rows →
  same_core (set_ledger_entries (ledger_entries (w_db w) ++ rows) (w_db w)) (w_db w') →
  at_row None t w → at_row (Some (src, dst)) t w'.
Proof.
  intros Hm Hc [Hh Hcr Hw Hb]. split; [|done|done|].
  - destruct Hc as (_ & Ht & _). unfold holds. by rewrite Ht.
  - eapply books_core; [exact Hc|]. by apply books_posted.
Qed.

Lemma wp_settle {B} f mv t t1 next (k : Transfer → unit → prog (res B)) (Q : res B → World → Prop) w :
  at_row mv t w → same_request t t1 → t_State t1 = t_State t → t_Version t1 = t_Version t →
  edge (t_State t) next → (∀ now, lifecycle (set_state next now (t_Version t + 1) t1)) →
  (∀ a cur, net (t_State t) t a cur + moved_by mv (t_Amount t) a cur = net next t a cur) →
  (∀ now w', let t' := set_state next now (t_Version t + 1) t1 in
     at_row None t' w' → wp (k t' tt) Q w') →
  wp (attempt id (transition t1 next) (λ t', attempt f (UpdateState worker_deps t') (k t'))) Q w.
Proof.
  intros [Hh Hc Hw Hb] Hsr Es Ev He Hlc Hn Hk. pose proof Hw as [Hrq Hlt].
  pose proof (lifecycle_version _ Hlt) as Hv. unfold transition.
  apply wp_attempt, wp_bind. intros _. cbn [call run exec fst snd]. apply wp_ret.
  rewrite Transition_edge by (by rewrite Es). rewrite Ev, wrap64_small by lia.
  set (t' := set_state next (env_now E (w_tick w)) (t_Version t + 1) t1).
  assert (next_version t t') as Hnv by (split_and!; [exact Hsr | exact He | done | apply Hlc]).
  apply wp_attempt, wp_attempt, wp_statement. cbn [w_db tick].
  rewrite (update_transfer_ok _ t) by done. cbn [fst snd]. apply wp_ret, Hk. fold t'.
  pose proof (books_updated base mv t t' _ Hh Hc Hw Hnv Hn Hb) as Hb'.
  split.
  - unfold holds. cbn [w_db set_db transfers set_transfers].
    change (t_ID (stored t')) with (t_ID t1). destruct Hsr as (-> & _). by apply lookup_insert_eq.
  - change (t_CreatedAt t') with (t_CreatedAt t1). by destruct Hsr as (_ & _ & _ & _ & _ & ->).
  - split; [by eapply same_request_wf | apply Hlc].
  - by eapply books_none.
Qed.

(** ** The steps keep the books *)
Definition keeps_books {A} (p : prog A) w : Prop := wp p (λ _ w', settled (w_db w')) w.

Lemma books_publishEvent t typ w : at_row None t w → keeps_books (publishEvent worker_deps t typ) w.
Proof.
  intros [_ _ _ Hb]. apply wp_core; [apply core_publishEvent|]. intros _ w' Hc. by eapply books_core.
Qed.

(** The end of a step: transition, update, announcement. *)
Lemma books_advance f mv t t1 next typ w :
  at_row mv t w → same_request t t1 → t_State t1 = t_State t → t_Version t1 = t_Version t →
  edge (t_State t) next → (∀ now, lifecycle (set_state next now (t_Version t + 1) t1)) →
  (∀ a cur, net (t_State t) t a cur + moved_by mv (t_Amount t) a cur = net next t a cur) →
  keeps_books (attempt id (transition t1 next) (λ t', attempt f (UpdateState worker_deps t')
    (λ _, publishEvent worker_deps t' typ))) w.
Proof.
  intros. eapply wp_settle; [done..|]. intros now w' t' Ht. by apply books_publishEvent.
Qed.

Lemma books_failWith mv t reason w :
  at_row mv t w → edge (t_State t) StateFailed → t_CreditPosted t = false →
  (∀ a cur, net (t_State t) t a cur + moved_by mv (t_Amount t) a cur = 0) →
  keeps_books (failWith worker_deps t reason) w.
Proof.
  intros Ht He Hcr Hn. unfold failWith. cbv zeta.
  rewrite bool_decide_false by (simpl; intros E0; rewrite E0 in He; by apply elem_of_nil in He).
  eapply books_advance; [exact Ht | done | done | done | done | | exact Hn].
  intros now. destruct Ht as [_ _ [_ Hlc] _]. unfold lifecycle, edge in *. simpl.
  destruct (t_State t); simpl in He; rewrite ?elem_of_cons, ?elem_of_nil in He;
    destruct_or?; try done; destruct Hlc as (-> & -> & ->); tauto.
Qed.

(** A posting, and what follows it. *)
Lemma books_post f src dst desc t (k : Posting → prog (res unit)) w :
  at_row None t w →
  (∀ tx id1 id2 now w', src ≠ dst → at_row None t w' →
     keeps_books (k (posting_of tx src dst (t_Amount t) desc id1 id2 now)) w') →
  keeps_books (attempt f (new_posting src dst (t_Amount t) desc) k) w.
Proof.
  intros Ht Hk. apply wp_attempt, wp_built.
  - intros e w' Hc. eapply books_core; [exact Hc | apply Ht].
  - intros. apply Hk; [done|]. by eapply at_row_core.
Qed.
Lemma books_write f src dst desc t tx id1 id2 now (k : unit → prog (res unit)) w :
  at_row None t w → (∀ w', at_row (Some (src, dst)) t w' → keeps_books (k tt) w') →
  keeps_books (attempt f (LedgerRepo_PostEntries
    (Entries (posting_of tx src dst (t_Amount t) desc id1 id2 now))) k) w.
Proof.
  intros Ht Hk. pose proof Ht as [_ _ [(_ & _ & _ & Hc) _] _]. apply wp_attempt, wp_written; [done|..].
  - intros e w' Hw'. eapply books_core; [exact Hw' | apply Ht].
  - intros rows w' Hm Hw'. apply Hk. by eapply at_row_posted.
Qed.

Lemma books_compensate t w :
  at_row None t w → t_State t = StateCompensating → keeps_books (compensate worker_deps t) w.
Proof.
  intros Ht Es. pose proof Ht as [_ _ [(_ & _ & _ & Hc) Hlc] _]. unfold compensate.
  assert (t_DebitPosted t = true ∧ t_CreditPosted t = false) as [Ed Ec].
  { unfold lifecycle in Hlc. rewrite Es in Hlc. tauto. }
  rewrite Ec. apply wp_pure_ok. rewrite Ed. unfold reverseDebit. apply wp_attempt, wp_attempt, wp_built.
  { intros e w' Hw'. eapply books_core; [exact Hw' | apply Ht]. }
  intros tx id1 id2 now w1 Hd Hw1. apply (at_row_core _ _ _ _ Hw1) in Ht.
  apply wp_written; [done|..].
  { intros e w' Hw'. eapply books_core; [exact Hw' | apply Ht]. }
  intros rows w2 Hm Hw2. eapply books_failWith; [by eapply at_row_posted | | done |].
  { rewrite Es. by eapply bool_decide_unpack. }
  intros a cur. rewrite Es. cbn [net]. unfold moved_by, movement, float_of. repeat case_bool_decide; lia.
Qed.

Lemma books_startCompensation t reason w :
  at_row None t w → t_State t = StateDebited → keeps_books (startCompensation worker_deps t reason) w.
Proof.
  intros Ht Es. pose proof Ht as [_ _ [_ Hlc] _]. unfold startCompensation. cbv zeta.
  unfold lifecycle in Hlc. rewrite Es in Hlc. destruct Hlc as (Ev & Ed & Ec).
  eapply (wp_settle _ None t); [done..| | | |].
  - rewrite Es. by eapply bool_decide_unpack.
  - intros now. unfold lifecycle. simpl. by rewrite Ev, Ed, Ec.
  - intros a cur. rewrite Es. cbn [net moved_by]. lia.
  - intros now w' t' Ht'. by apply books_compensate.
Qed.

Lemma books_core_then {A B} f (p : prog (res A)) (k : A → prog (res B)) t w :
  all_calls core p → at_row None t w → (∀ a w', at_row None t w' → keeps_books (k a) w') →
  keeps_books (attempt f p k) w.
Proof.
  intros Hp Ht Hk. apply wp_attempt, wp_core; [done|]. intros [a|e] w' Hc.
  - apply Hk. by eapply at_row_core.
  - eapply books_core; [exact Hc | apply Ht].
Qed.

Lemma books_reserveDebit t w :
  at_row None t w → t_State t = StatePending → keeps_books (reserveDebit worker_deps t) w.
Proof.
  intros Ht Es. pose proof Ht as [_ _ [_ Hlc] _]. unfold lifecycle in Hlc. rewrite Es in Hlc.
  destruct Hlc as (Ev & Ed & Ec).
  assert (∀ reason w', at_row None t w' → keeps_books (failWith worker_deps t reason) w') as Hfail.
  { intros reason w' Ht'. eapply books_failWith; [exact Ht' | | done |].
    - rewrite Es. by eapply bool_decide_unpack.
    - intros a cur. by rewrite Es. }
  apply books_core_then with (t := t); [unfold worker_deps; core_tac | done |]. intros src w1 Ht1.
  destruct (CanTransact src) as [_|e]; [|by apply Hfail].
  apply books_core_then with (t := t); [unfold LedgerRepo_GetBalance; core_tac | done |].
  intros bal w2 Ht2. destruct (_ <? _); [by apply Hfail|].
  apply books_post; [done|]. intros tx id1 id2 now w3 Hd Ht3. apply books_write; [done|].
  intros w4 Ht4. eapply books_advance; [exact Ht4 | done | done | done | | |].
  - rewrite Es. by eapply bool_decide_unpack.
  - intros now'. unfold lifecycle. simpl. by rewrite Ev, Ec.
  - intros a cur. by rewrite Es.
Qed.

Lemma books_callBank t w :
  at_row None t w → t_State t = StateDebited → keeps_books (callBank worker_deps t) w.
Proof.
  intros Ht Es. pose proof Ht as [_ _ [_ Hlc] _]. unfold lifecycle in Hlc. rewrite Es in Hlc.
  destruct Hlc as (Ev & Ed & Ec). unfold callBank. apply wp_bind, wp_core; [apply core_InitiateTransfer|].
  intros r w1 Hc. apply (at_row_core _ _ _ _ Hc) in Ht.
  destruct r as [ref|e]; [|by apply books_startCompensation].
  eapply (books_advance _ None t); [done..| | |].
  - rewrite Es. by eapply bool_decide_unpack.
  - intros now. unfold lifecycle. simpl. by rewrite Ev, Ed, Ec.
  - intros a cur. rewrite Es. cbn [net moved_by]. lia.
Qed.

Lemma books_postCredit t w :
  at_row None t w → t_State t = StateBankCalled → keeps_books (postCredit worker_deps t) w.
Proof.
  intros Ht Es. pose proof Ht as [_ _ [_ Hlc] _]. unfold lifecycle in Hlc. rewrite Es in Hlc.
  destruct Hlc as (Ev & Ed & Ec). apply books_post; [done|].
  intros tx id1 id2 now w1 Hd Ht1. apply books_write; [done|]. intros w2 Ht2.
  eapply books_advance; [exact Ht2 | done | done | done | | |].
  - rewrite Es. by eapply bool_decide_unpack.
  - intros now'. unfold lifecycle. simpl. by rewrite Ev, Ed.
  - intros a cur. rewrite Es. cbn [net]. unfold moved_by, movement, float_of.
    repeat case_bool_decide; lia.
Qed.

Lemma books_complete t w :
  at_row None t w → t_State t = StateCredited → keeps_books (complete worker_deps t) w.
Proof.
  intros Ht Es. pose proof Ht as [_ _ [_ Hlc] _]. unfold lifecycle in Hlc. rewrite Es in Hlc.
  destruct Hlc as (Ev & Ed & Ec). eapply (books_advance _ None t); [done..| | |].
  - rewrite Es. by eapply bool_decide_unpack.
  - intros now. unfold lifecycle. simpl. by rewrite Ev, Ed, Ec.
  - intros a cur. rewrite Es. cbn [net moved_by]. lia.
Qed.

Lemma books_Execute id w : settled (w_db w) → keeps_books (Execute worker_deps id) w.
Proof.
  intros Hb. unfold Execute. apply wp_attempt.
  change (tr_FindByID (trp_reader (dep_transfers worker_deps))) with TransferRepo_FindByID.
  apply wp_bind, wp_statement. cbn [fst snd res_bind]. unfold select_transfer.
  assert (settled (w_db (set_db (w_db w) (tick w)))) as Hb' by done.
  destruct (transfers (w_db w) !! TransferID_String id) as [r|] eqn:Hr.
  2:{ cbn [scanTransfer]. case_match; by apply wp_ret. }
  destruct Hb as [Hwf Hb]. destruct (Hwf _ _ Hr) as (t & -> & Eid & Hw & Hst & _).
  rewrite scan_row by (by apply lifecycle_state, Hw). apply wp_ret.
  assert (at_row None t (set_db (w_db w) (tick w))) as Ht.
  { split; [|by apply stored_created | done | by eapply books_none].
    rewrite Hst. unfold holds. by rewrite <- Eid. }
  destruct Hw as [_ Hlc]. unfold lifecycle in Hlc.
  destruct (t_State t) eqn:Es; cbn [steps step_execute]; try (by apply wp_ret).
  - by apply books_reserveDebit.
  - by apply books_callBank.
  - by apply books_postCredit.
  - by apply books_complete.
  - by apply books_compensate.
Qed.
End programs.

(** ** Every process, run to its end *)
Section serial.
Context {U : UUIDLib} {L : UUIDLaws U} {R : RedisLib} {N : NatsLib} {M : MuxLib}.
Context (E : Env) (no_fault : ∀ n, env_fault E n = NoFault).
Context (base : AccountID → Currency → Z).
Abbreviation settled := (books base None no_money).

(** Calls that keep the books by themselves. *)
Definition calm X (c : Cmd X) : Prop :=
  match c with Sql f => ∀ d, settled d → settled (f d).2 | _ => True end.

Lemma calm_core X (c : Cmd X) : core X c → calm X c.
Proof. destruct c; try done. intros Hf d. by apply books_core. Qed.

Lemma run_calm {A} (p : prog A) w : all_calls calm p → settled (w_db w) → settled (w_db (run E p w).2).
Proof.
  intros Hp. apply (run_all_calls calm (λ w, settled (w_db w)) E); [|exact Hp].
  intros X c w' Hc Hw. destruct c as [| |A' f|A' request|request| | |]; simpl in *; unfold lens; try done.
  - simpl. rewrite no_fault. simpl. specialize (Hc _ Hw). by destruct (f (w_db w')).
  - by destruct (with_fault _ _ _).
  - by destruct (with_fault _ _ _).
  - by destruct (CB.acquire _ _).
Qed.

Lemma calm_api : api_calls calm.
Proof.
  split; [done | done | | done | done | | |].
  - intros A q d Hd. exact Hd.
  - intros now id key src dst amount t Ht Ha d. by eapply books_inserted.
  - intros r. apply calm_core, core_insert_event.
  - intros subject payload now _. apply calm_core, core_insert_outbox.
Qed.

Lemma calm_relay batch : all_calls calm (relay batch).
Proof.
  unfold relay. apply all_calls_attempt; [split; [by intros d|done]|]. intros rows.
  apply all_calls_bind; [|done]. generalize 0%nat. induction rows as [|r rows IH]; intros n; cbn [relay_rows]; [done|].
  apply all_calls_bind; [|intros ok; apply IH]. unfold relay_row, Publisher_Publish.
  calls_tac. by apply calm_core.
Qed.

Lemma process_settled p w : process p → settled (w_db w) → settled (w_db (run E p w).2).
Proof.
  intros Hp Hw. destruct Hp as [r| |subject data| |].
  - apply run_calm; [|done]. apply all_calls_bind; [apply all_calls_api, calm_api | done].
  - apply run_calm; [|done]. unfold worker_setup, Consumer_EnsureStream. calls_tac.
  - rewrite run_bind. unfold consume. rewrite run_bind. unfold worker_handler. rewrite run_attempt.
    cbn [run]. destruct (message_transfer_id data) as [id|e]; [|done].
    pose proof (books_Execute E no_fault
      (w_tick (run E (Execute worker_deps id) w).2) base id w Hw (le_n _)) as H.
    by destruct (run E (Execute worker_deps id) w).
  - apply run_calm; [|done]. apply all_calls_bind; [apply calm_relay | done].
  - apply run_calm; [|done]. unfold reconcile, ledgerAuditor. cbn [la_GetAllEntries].
    unfold LedgerRepo_GetAllEntries. calls_tac. by intros d.
Qed.

Lemma serial_settled ps w : Forall process ps → settled (w_db w) → settled (w_db (serial E ps w)).
Proof.
  intros Hps. revert w. induction Hps as [|p ps Hp _ IH]; intros w Hw; [done|].
  apply IH. by apply process_settled.
Qed.
End serial.

Section theorems.
Context {U : UUIDLib} {L : UUIDLaws U} {R : RedisLib} {N : NatsLib} {M : MuxLib}.

(** C37: in every history of requests, deliveries (of any message, any number
    of times), polls and audits that run one after the other without faults,
    every account's balance is what it was plus what the transfers have moved
    since: the sum, over all transfers, of what a transfer in its present
    state has taken from or given to the account. *)
Theorem ledger_agrees_with_transfers E ps w a cur :
  (∀ n, env_fault E n = NoFault) → transfers_wf (w_db w) → Forall process ps →
  char3 cur = Some cur →
  balance (w_db (serial E ps w)) a cur =
    balance (w_db w) a cur +
      (outstanding (w_db (serial E ps w)) a cur - outstanding (w_db w) a cur).
Proof.
  intros Hf Hwf Hps Hc.
  destruct (serial_settled E Hf (λ a cur, balance (w_db w) a cur - outstanding (w_db w) a cur)
    ps w Hps) as [_ Hb].
  - split; [done|]. intros a' cur' _. cbn [moved_by]. lia.
  - specialize (Hb a cur Hc). cbn [moved_by] in Hb. lia.
Qed.
End theorems.
