(* ===== verification/Solvency.v ===== *)
(** * One process at a time, an account is never overdrawn

    Between the balance check of a debit and its posting no other process
    posts, so the check holds when the money leaves; every other posting takes
    money from a clearing account. Lost calls and crashes do not change that. *)
From S2P Require Import Prelude Uuid Money Account Transfer Ledger Json Database CircuitBreaker.
From S2P Require Import Effects Ports Adapters AdapterSpecs Saga Command Http Worker Delivery.
From S2P Require Import Calls Concurrency System Sequential Refinement Books.

(** ** An invariant of every prefix of a run *)
Section always.
Context {U : UUIDLib} {R : RedisLib} {N : NatsLib}.
Context (E : Env) (I : World → Prop).

Fixpoint always {A} (p : prog A) (Q : A → World → Prop) (w : World) : Prop :=
  I w ∧ match p with
        | Ret a => Q a w
        | Vis c k => always (k (exec E c w).1) Q (exec E c w).2
        end.

Lemma always_mono {A} (p : prog A) (Q Q' : A → World → Prop) w :
  always p Q w → (∀ a w', I w' → Q a w' → Q' a w') → always p Q' w.
Proof.
  intros Hp HQ. revert w Hp. induction p as [a|X c k IH]; intros w [Hi Hp]; (split; [done|]); auto.
Qed.

Lemma always_bind {A B} (p : prog A) (f : A → prog B) Q w :
  always p (λ a w', always (f a) Q w') w → always (bind p f) Q w.
Proof.
  revert w. induction p as [a|X c k IH]; intros w [Hi Hp]; [done|]. split; [done | by apply IH].
Qed.

Lemma always_attempt {A B} f (p : prog (res A)) (k : A → prog (res B)) Q w :
  always p (λ r w', match r with Ok a => always (k a) Q w' | Err e => Q (Err (f e)) w' end) w →
  always (attempt f p k) Q w.
Proof.
  intros Hp. apply always_bind. eapply always_mono; [exact Hp|]. by intros [a|e] w' Hi H.
Qed.

Lemma always_run_for {A} (p : prog A) Q w n : always p Q w → I (run_for E n p w).
Proof.
  revert p w. induction n as [|n IH]; intros [a|X c k] w [Hi Hp]; simpl; try done.
  destruct (exec E c w) as [x w']. by apply IH.
Qed.
End always.

(** ** The balance of one account *)
Section solvency.
Context {U : UUIDLib} {L : UUIDLaws U} {R : RedisLib} {N : NatsLib}.
Context (E : Env) (a : AccountID) (cur : Currency).
Context (char_cur : char3 cur = Some cur) (customer : ∀ c, a ≠ FloatAccount c).
Implicit Types (t : Transfer) (d : DB) (w : World).

Definition solvent w : Prop := 0 <= balance (w_db w) a cur.
Abbreviation always := (always E solvent).
(** The program keeps the account solvent wherever it stops. *)
Definition stays {A} (p : prog A) w : Prop := always p (λ _ _, True) w.

(** Calls that write nothing to the ledger. *)
Abbreviation off_ledger := (off ledger_entries).
Definition same_ledger w w' : Prop := ledger_entries (w_db w') = ledger_entries (w_db w).

Lemma same_ledger_balance w w' : same_ledger w w' → balance (w_db w') a cur = balance (w_db w) a cur.
Proof. unfold balance, sum_entries. by intros ->. Qed.
Lemma same_ledger_solvent w w' : same_ledger w w' → solvent w → solvent w'.
Proof. unfold solvent. by intros ->%same_ledger_balance. Qed.

Lemma always_off_ledger {A} (p : prog A) (Q : A → World → Prop) w :
  all_calls off_ledger p → solvent w → (∀ r w', same_ledger w w' → Q r w') → always p Q w.
Proof.
  revert w. induction p as [r|X c k IH]; intros w Hp Hw HQ; simpl; (split; [done|]); [by apply HQ|].
  destruct Hp as [Hc Hk]. pose proof (exec_off ledger_entries E X c w Hc) as Hs.
  apply IH; [done | by eapply same_ledger_solvent |].
  intros r w' Hw'. apply HQ. unfold same_ledger in *. by rewrite Hw'.
Qed.

Lemma stays_off_ledger {A} (p : prog A) w : all_calls off_ledger p → solvent w → stays p w.
Proof. intros Hp Hw. by apply always_off_ledger. Qed.

(** Such a program, then the rest. *)
Lemma stays_then {A B} f (p : prog (res A)) (k : A → prog (res B)) w :
  all_calls off_ledger p → solvent w → (∀ r w', solvent w' → same_ledger w w' → stays (k r) w') →
  stays (attempt f p k) w.
Proof.
  intros Hp Hw Hk. apply always_attempt, always_off_ledger; [done..|]. intros [r|e] w' Hs; [|done].
  apply Hk; [by eapply same_ledger_solvent | done].
Qed.

(** *** The programs around the postings *)
Lemma off_query {A} (q : DB → A) : off_ledger _ (query q).
Proof. done. Qed.
Lemma off_insert_event (r : event_row) : off_ledger _ (Sql (insert_event r)).
Proof. intros d. unfold insert_event. repeat case_match; done. Qed.
Lemma off_insert_outbox subject payload now : off_ledger _ (Sql (insert_outbox subject payload now)).
Proof. intros d. by destruct payload. Qed.
Lemma off_update_transfer u : off_ledger _ (Sql (update_transfer u)).
Proof. intros d. unfold update_transfer. repeat case_match; done. Qed.
Lemma off_insert_transfer r : off_ledger _ (Sql (insert_transfer r)).
Proof. intros d. unfold insert_transfer. repeat (case_match; try done). Qed.
Create HintDb off_ledger.
#[local] Hint Resolve off_query off_insert_event off_insert_outbox off_update_transfer
  off_insert_transfer : off_ledger.
Ltac off_tac := repeat first [solve [eauto with off_ledger] | exact I | calls_step].

Lemma off_publishEvent t typ : all_calls off_ledger (publishEvent worker_deps t typ).
Proof. unfold publishEvent. off_tac. Qed.
Lemma off_UpdateState t : all_calls off_ledger (UpdateState worker_deps t).
Proof. unfold UpdateState. cbn [worker_deps dep_transfers transferRepo trp_writer tw_UpdateState].
  unfold TransferRepo_UpdateState. off_tac. Qed.
Lemma off_transition t next : all_calls off_ledger (transition t next).
Proof. unfold transition. off_tac. Qed.
Lemma off_advance f t next typ :
  all_calls off_ledger (attempt id (transition t next) (λ t',
    attempt f (UpdateState worker_deps t') (λ _, publishEvent worker_deps t' typ))).
Proof.
  apply all_calls_attempt; [apply off_transition|]. intros t'.
  apply all_calls_attempt; [apply off_UpdateState|]. intros _. apply off_publishEvent.
Qed.
Lemma off_failWith t reason : all_calls off_ledger (failWith worker_deps t reason).
Proof. unfold failWith. cbv zeta. case_bool_decide; [done | apply off_advance]. Qed.
Lemma off_InitiateTransfer req : all_calls off_ledger (CircuitBreakerGateway_InitiateTransfer req).
Proof. unfold CircuitBreakerGateway_InitiateTransfer. off_tac. Qed.

(** *** Building and writing a posting *)
Lemma always_new_posting src dst m desc (Q : res Posting → World → Prop) w :
  solvent w →
  (∀ r w', same_ledger w w' →
     (∀ p, r = Ok p → 0 < m_Amount m ∧
        ∃ id1 id2 now tx, p = posting_of tx src dst m desc id1 id2 now) → Q r w') →
  always (new_posting src dst m desc) Q w.
Proof.
  intros Hw HQ. unfold new_posting. do 4 (apply always_bind; split; [done|]; split; [done|]; cbn [fst snd exec]).
  split; [done|]. apply HQ; [done|]. intros p (Ha & _ & _ & ->)%NewPosting_inv. eauto 10.
Qed.

Lemma always_read {A} (f : DB → res A) (Q : res A → World → Prop) w :
  solvent w → (∀ w', same_ledger w w' → Q (f (w_db w)) w') →
  (∀ fl w', same_ledger w w' → Q (Err (fault_error fl)) w') →
  always (call (Sql (λ d, (f d, d)))) Q w.
Proof.
  intros Hw HQ HE. split; [done|]. cbn [exec]. unfold lens. cbn [w_db tick].
  destruct (env_fault E (w_tick w)); cbn [with_fault fst snd]; (split; [done|]).
  - by apply HQ.
  - by apply (HE (FailBefore _)).
  - by apply (HE (FailAfter _)).
  - by apply (HE (ContextDone late)).
Qed.

Lemma always_insert_entries es pending (Q : res (list entry_row) → World → Prop) w :
  solvent w →
  (∀ r w', same_ledger w w' →
     (∀ rows, r = Ok rows → ∃ new, rows = pending ++ new ∧ Forall2 inserted es new) → Q r w') →
  always (insert_entries pending es) Q w.
Proof.
  revert pending w. induction es as [|e es IH]; intros pending w Hw HQ; cbn [insert_entries].
  - split; [done|]. apply HQ; [done|]. intros rows [= <-]. exists []. by rewrite app_nil_r.
  - apply always_attempt, always_read; [done| |by intros m w' Hs; apply HQ].
    intros w1 Hs1. destruct (insert_entry pending (entry_to_row e) (w_db w)) as [row|er] eqn:Hr;
      [|by apply HQ].
    apply IH; [by eapply same_ledger_solvent|]. intros r w2 Hs2 Hrows. apply HQ.
    { unfold same_ledger in *. congruence. }
    intros rows (new & -> & Hnew)%Hrows. exists (row :: new). rewrite <- app_assoc.
    split; [done|]. constructor; [|done]. by exists pending, (w_db w).
Qed.

(** What a posting may take from the account. *)
Definition affordable (src : AccountID) (m : Money) w : Prop :=
  a = src → m_Currency m = cur → m_Amount m <= balance (w_db w) a cur.

Lemma posted_solvent src dst m rows d :
  moves src dst m rows → 0 < m_Amount m → 0 <= balance d a cur →
  (a = src → m_Currency m = cur → m_Amount m <= balance d a cur) →
  0 <= balance (set_ledger_entries (ledger_entries d ++ rows) d) a cur.
Proof.
  intros Hm Ha Hb Hsrc. rewrite (balance_moves _ _ _ _ _ _ _ Hm char_cur).
  unfold movement. repeat case_bool_decide; subst; try lia.
Qed.

Lemma stays_PostEntries src dst m tx id1 id2 now desc w :
  char3 (m_Currency m) = Some (m_Currency m) → 0 < m_Amount m → solvent w → affordable src m w →
  stays (LedgerRepo_PostEntries (Entries (posting_of tx src dst m desc id1 id2 now))) w.
Proof.
  intros Hc Ha Hw Hsrc. unfold LedgerRepo_PostEntries.
  apply stays_then; [by apply all_calls_call, off_query | done |]. intros _ w1 Hw1 Hs1.
  apply always_attempt, always_insert_entries; [done|]. intros r w2 Hs2 Hrows.
  destruct r as [rows|e]; [|done]. destruct (Hrows rows) as (new & -> & Hnew); [done|]. cbn [app].
  apply posting_moves in Hnew; [|done].
  assert (same_ledger w w2) as Hs by (unfold same_ledger in *; congruence).
  pose proof (same_ledger_solvent _ _ Hs Hw) as Hw2.
  assert (0 <= balance (set_ledger_entries (ledger_entries (w_db w2) ++ new) (w_db w2)) a cur) as Hp.
  { eapply posted_solvent; [done..|]. intros E1 E2. rewrite (same_ledger_balance _ _ Hs). by apply Hsrc. }
  split; [done|]. split; [|done]. cbn [exec]. unfold lens, commit_entries, solvent. cbn [w_db tick].
  destruct (env_fault E (w_tick w2)); cbn [with_fault]; try case_bool_decide; done.
Qed.

(** A posting that is affordable, and what follows it. *)
Lemma stays_post {B} f g src dst m desc (k : unit → prog (res B)) w :
  char3 (m_Currency m) = Some (m_Currency m) → solvent w → affordable src m w →
  (∀ w', solvent w' → stays (k tt) w') →
  stays (attempt f (new_posting src dst m desc) (λ p,
    attempt g (LedgerRepo_PostEntries (Entries p)) k)) w.
Proof.
  intros Hc Hw Hsrc Hk. apply always_attempt, always_new_posting; [done|]. intros r w1 Hs Hr.
  destruct r as [p|e]; [|done]. destruct (Hr p) as (Ha & id1 & id2 & now & tx & ->); [done|].
  apply always_attempt. eapply always_mono.
  - apply stays_PostEntries; [done | done | by eapply same_ledger_solvent |].
    intros E1 E2. rewrite (same_ledger_balance _ _ Hs). by apply Hsrc.
  - intros [[]|e] w2 Hw2 _; [by apply Hk | done].
Qed.

Lemma stays_post_last f src dst m desc w :
  char3 (m_Currency m) = Some (m_Currency m) → solvent w → affordable src m w →
  stays (attempt f (new_posting src dst m desc) (λ p, LedgerRepo_PostEntries (Entries p))) w.
Proof.
  intros Hc Hw Hsrc. apply always_attempt, always_new_posting; [done|]. intros r w1 Hs Hr.
  destruct r as [p|e]; [|done]. destruct (Hr p) as (Ha & id1 & id2 & now & tx & ->); [done|].
  apply stays_PostEntries; [done | done | by eapply same_ledger_solvent |].
  intros E1 E2. rewrite (same_ledger_balance _ _ Hs). by apply Hsrc.
Qed.

(** A clearing account can always pay. *)
Lemma float_affordable c m w : affordable (FloatAccount c) m w.
Proof. intros E1. by destruct (customer c). Qed.

(** *** The saga *)

(** What the check reads is the balance. *)
Lemma always_GetBalance acct c (Q : res Money → World → Prop) w :
  solvent w →
  (∀ r w', same_ledger w w' → (∀ b, r = Ok b → m_Amount b = balance (w_db w') acct c) → Q r w') →
  always (LedgerRepo_GetBalance acct c) Q w.
Proof.
  intros Hw HQ. apply always_bind, always_read; [done| |].
  - intros w' Hs. cbn [res_bind]. unfold scan_int64.
    destruct (bool_decide _); (split; [by eapply same_ledger_solvent|]); apply HQ; [done| |done|done].
    intros b [= <-]. cbn [m_Amount]. unfold balance, sum_entries. by rewrite Hs.
  - intros m w' Hs. split; [by eapply same_ledger_solvent|]. by apply HQ.
Qed.

Lemma stays_compensate t w :
  char3 (m_Currency (t_Amount t)) = Some (m_Currency (t_Amount t)) → t_CreditPosted t = false →
  solvent w → stays (compensate worker_deps t) w.
Proof.
  intros Hc Ecr Hw. unfold compensate. rewrite Ecr.
  apply stays_then; [done..|]. intros _ w1 Hw1 _. destruct (t_DebitPosted t).
  - apply always_attempt. eapply always_mono; [by apply stays_post_last, float_affordable|].
    intros [[]|e] w2 Hw2 _; [|done]. apply stays_off_ledger; [apply off_failWith | done].
  - apply stays_then; [done..|]. intros _ w2 Hw2 _. apply stays_off_ledger; [apply off_failWith | done].
Qed.

Lemma stays_reserveDebit t w :
  char3 (m_Currency (t_Amount t)) = Some (m_Currency (t_Amount t)) →
  solvent w → stays (reserveDebit worker_deps t) w.
Proof.
  intros Hc Hw. unfold reserveDebit. apply stays_then; [|done|].
  { cbn [worker_deps dep_accounts accountRepo arp_locker al_LockForUpdate].
    unfold AccountRepo_LockForUpdate. off_tac. }
  intros src w1 Hw1 _. destruct (CanTransact src) as [_|e];
    [|apply stays_off_ledger; [apply off_failWith | done]].
  apply always_attempt, always_GetBalance; [done|]. intros r w2 Hs2 Hr.
  pose proof (same_ledger_solvent _ _ Hs2 Hw1) as Hw2. destruct r as [bal|e]; [|done].
  destruct (Z.ltb_spec (m_Amount bal) (m_Amount (t_Amount t)));
    [apply stays_off_ledger; [apply off_failWith | done]|].
  apply stays_post; [done | done | |].
  - intros -> <-. by rewrite <- (Hr bal).
  - intros w3 Hw3. apply stays_off_ledger; [apply off_advance | done].
Qed.

Lemma stays_callBank t w :
  char3 (m_Currency (t_Amount t)) = Some (m_Currency (t_Amount t)) → t_CreditPosted t = false →
  solvent w → stays (callBank worker_deps t) w.
Proof.
  intros Hc Ecr Hw. unfold callBank. apply always_bind, always_off_ledger;
    [apply off_InitiateTransfer | done |]. intros r w1 Hs1.
  apply (same_ledger_solvent _ _ Hs1) in Hw. destruct r as [ref|e].
  { apply stays_off_ledger; [apply off_advance | done]. }
  unfold startCompensation. cbv zeta. apply always_attempt. unfold transition.
  apply always_bind. split; [done|]. cbn [exec fst snd]. split; [done|]. split; [done|].
  match goal with |- context [Transition ?now ?t1 _] =>
    destruct (Transition now t1 StateCompensating) as [t'|e'] eqn:Ht; [|done] end.
  apply Transition_ok in Ht as [_ ->].
  apply stays_then; [apply off_UpdateState | done |]. intros _ w2 Hw2 _. by apply stays_compensate.
Qed.

Lemma stays_postCredit t w :
  char3 (m_Currency (t_Amount t)) = Some (m_Currency (t_Amount t)) →
  solvent w → stays (postCredit worker_deps t) w.
Proof.
  intros Hc Hw. apply stays_post; [done | done | apply float_affordable |].
  intros w1 Hw1. apply stays_off_ledger; [apply off_advance | done].
Qed.

Lemma stays_Execute id w :
  transfers_wf (w_db w) → solvent w → stays (Execute worker_deps id) w.
Proof.
  intros Hwf Hw. unfold Execute. apply always_attempt.
  change (tr_FindByID (trp_reader (dep_transfers worker_deps))) with TransferRepo_FindByID.
  apply always_bind, always_read; [done| |].
  2:{ intros [] w' Hs; (split; [by eapply same_ledger_solvent | done]). }
  intros w1 Hs1. pose proof (same_ledger_solvent _ _ Hs1 Hw) as Hw1. unfold res_bind, select_transfer.
  destruct (transfers (w_db w) !! TransferID_String id) as [r|] eqn:Hr.
  2:{ by split. }
  destruct (Hwf _ _ Hr) as (t & -> & _ & [(_ & _ & _ & Hc) Hlc] & _).
  rewrite scan_row by (by apply lifecycle_state). split; [done|]. unfold lifecycle in Hlc.
  destruct (t_State t) eqn:Es; cbn [steps step_execute]; try done.
  - by apply stays_reserveDebit.
  - apply stays_callBank; tauto.
  - by apply stays_postCredit.
  - apply stays_off_ledger; [apply off_advance | done].
  - apply stays_compensate; tauto.
Qed.
End solvency.

(** ** Every process *)
Section serial.
Context {U : UUIDLib} {L : UUIDLaws U} {R : RedisLib} {N : NatsLib} {M : MuxLib}.
Abbreviation off_ledger := (off ledger_entries).
Context (E : Env) (a : AccountID) (cur : Currency).
Context (char_cur : char3 cur = Some cur) (customer : ∀ c, a ≠ FloatAccount c).
Abbreviation solvent := (solvent a cur).
Abbreviation stays := (stays E a cur).

Lemma off_ledger_api : api_calls off_ledger.
Proof.
  split; [done | done | | done | done | | |].
  - done.
  - intros. apply off_insert_transfer.
  - intros r. apply off_insert_event.
  - intros subject payload now _. apply off_insert_outbox.
Qed.

Lemma off_relay batch : all_calls off_ledger (relay batch).
Proof.
  unfold relay. apply all_calls_attempt; [apply all_calls_call, off_query|]. intros rows.
  apply all_calls_bind; [|done]. generalize 0%nat. induction rows as [|r rows IH]; intros n; cbn [relay_rows]; [done|].
  apply all_calls_bind; [|intros ok; apply IH]. unfold relay_row, Publisher_Publish. by calls_tac.
Qed.

Lemma stays_process p w : process p → transfers_wf (w_db w) → solvent w → stays p w.
Proof.
  intros Hp Hwf Hw. destruct Hp as [r| |subject data| |].
  - apply stays_off_ledger; [|done]. apply all_calls_bind; [apply all_calls_api, off_ledger_api | done].
  - apply stays_off_ledger; [|done]. unfold worker_setup, Consumer_EnsureStream. calls_tac.
  - apply always_bind. eapply always_mono with (Q := λ _ _, True); [|by split].
    apply always_bind. eapply always_mono with (Q := λ _ _, True); [|by split].
    unfold worker_handler. apply always_attempt. split; [done|].
    destruct (message_transfer_id data); [by apply stays_Execute | done].
  - apply stays_off_ledger; [|done]. apply all_calls_bind; [apply off_relay | done].
  - apply stays_off_ledger; [|done]. unfold reconcile, ledgerAuditor. cbn [la_GetAllEntries].
    unfold LedgerRepo_GetAllEntries. by calls_tac.
Qed.

Lemma serial_crashing_solvent h w :
  Forall (λ x, process x.1) h → transfers_wf (w_db w) → solvent w →
  solvent (serial_crashing E h w).
Proof.
  intros Hh. revert w. induction Hh as [|[p n] h Hp _ IH]; intros w Hwf Hw; [done|]. apply IH.
  - apply (safe_run_for E inv le p (λ _ _, True)); [by apply process_safe | done].
  - eapply always_run_for. by apply stays_process.
Qed.
End serial.

Section theorems.
Context {U : UUIDLib} {L : UUIDLaws U} {R : RedisLib} {N : NatsLib} {M : MuxLib}.

(** C21: when the processes run one after the other, no account but a clearing
    account is ever overdrawn: whatever the requests, deliveries, polls and
    audits, whichever calls are lost before or after their effect, and
    wherever each process dies, a balance that is not negative stays so, in
    every currency. Overdrawing takes two processes at once. *)
Theorem serial_never_overdraws E h w a cur :
  transfers_wf (w_db w) → Forall (λ x, process x.1) h →
  char3 cur = Some cur → (∀ c, a ≠ FloatAccount c) → 0 <= balance (w_db w) a cur →
  0 <= balance (w_db (serial_crashing E h w)) a cur.
Proof. intros Hwf Hh Hc Ha Hb. by apply serial_crashing_solvent. Qed.
End theorems.
