(* ===== verification/Acks.v ===== *)
(** * What an acknowledgement means

    A delivery is acknowledged when the saga returned nil. Then every call that
    matters has succeeded: the transfer has moved on, and the message of its
    new state is in the outbox. A delivery that lost a call is not acknowledged
    and comes again. *)
From S2P Require Import Prelude Uuid Money Account Transfer Ledger Json Database CircuitBreaker.
From S2P Require Import Effects Ports Adapters AdapterSpecs Saga Command Http Worker Delivery.
From S2P Require Import Calls Concurrency System.

(** ** What holds when a program returns without an error *)
Section yields.
Context {U : UUIDLib} {R : RedisLib} {N : NatsLib} (E : Env).

Definition yields {A} (p : prog (res A)) (Q : A → World → Prop) (w : World) : Prop :=
  ∀ a, (run E p w).1 = Ok a → Q a (run E p w).2.

Lemma yields_ok {A} (a : A) (Q : A → World → Prop) w : Q a w → yields (Ret (Ok a)) Q w.
Proof. by intros HQ a' [= <-]. Qed.
Lemma yields_err {A} e (Q : A → World → Prop) w : yields (Ret (Err e)) Q w.
Proof. by intros a. Qed.
Lemma yields_bind {A B} (p : prog A) (k : A → prog (res B)) Q w :
  (∀ x w', run E p w = (x, w') → yields (k x) Q w') → yields (bind p k) Q w.
Proof.
  unfold yields. rewrite run_bind. destruct (run E p w) as [x w']. intros Hk. by apply Hk.
Qed.
Lemma yields_attempt {A B} f (p : prog (res A)) (k : A → prog (res B)) Q w :
  yields p (λ a w', yields (k a) Q w') w → yields (attempt f p k) Q w.
Proof.
  intros Hp. apply yields_bind. intros [a|e] w' Hr; [|apply yields_err].
  unfold yields in Hp at 1. rewrite Hr in Hp. by apply Hp.
Qed.

(** A lost statement is an error; one that is not lost has run. *)
Lemma yields_sql {A} (f : DB → res A * DB) (Q : A → World → Prop) w :
  (∀ a w', f (w_db w) = (Ok a, w_db w') → Q a w') → yields (call (Sql f)) Q w.
Proof.
  intros HQ a. cbn [call run exec]. unfold lens. cbn [w_db tick].
  destruct (env_fault E (w_tick w)); cbn [with_fault fst snd]; try done.
  destruct (f (w_db w)) as [r d] eqn:Hf. cbn [fst snd]. intros ->. by apply HQ.
Qed.

(** A program that leaves a part of the database alone. *)
Lemma yields_off {A B C} (part : DB → C) f (p : prog (res A)) (k : A → prog (res B)) Q w :
  all_calls (off part) p →
  (∀ a w', part (w_db w') = part (w_db w) → yields (k a) Q w') → yields (attempt f p k) Q w.
Proof.
  intros Hp Hk. apply yields_attempt. intros a Ha. apply Hk. by apply run_off.
Qed.
Lemma yields_free {X B} (c : Cmd X) (k : X → prog (res B)) Q w :
  db_free c → (∀ x w', w_db w' = w_db w → yields (k x) Q w') → yields (bind (call c) k) Q w.
Proof.
  intros Hc Hk. apply yields_bind. intros x w'. cbn [call run].
  destruct (exec E c w) as [x' w1] eqn:He. intros [= <- <-]. eapply Hk, exec_db_free; [exact Hc | exact He].
Qed.
End yields.

(** ** The saga, from what it read to its last message *)
Section acks.
Context {U : UUIDLib} {L : UUIDLaws U} {R : RedisLib} {N : NatsLib}.
Context (E : Env) (t0 : Transfer) (rows : list outbox_row).
Implicit Types (t : Transfer) (d : DB) (w : World).
Abbreviation yields := (yields E).
Abbreviation off_rows := (off (λ d, (transfers d, outbox d))).

(** The program holds the row as [t]; nothing has been announced since [t0]. *)
Record abreast t w : Prop := {
  ab_holds : holds (w_db w) (stored t);
  ab_outbox : outbox (w_db w) = rows;
  ab_created : timestamptz (t_CreatedAt t) = t_CreatedAt t;
  ab_wf : transfer_wf t;
  ab_id : t_ID t = t_ID t0;
  ab_version : t_Version t0 <= t_Version t;
}.

(** The transfer has moved on and its new state is announced. *)
Definition passed_on d : Prop :=
  ∃ t typ ob, holds d t ∧ t_ID t = t_ID t0 ∧ t_State t ∈ State_consts ∧ t_Version t0 < t_Version t ∧
    announces (t_State t) = Some typ ∧ outbox d = rows ++ [ob] ∧ ob_status ob = PENDING ∧
    ob_subject ob = EventType_text typ ∧ message_transfer_id (ob_payload ob) = Ok (t_ID t0).
Definition passes_on (p : prog (res unit)) w : Prop := yields p (λ _ w', passed_on (w_db w')) w.

Lemma abreast_same t w w' :
  (transfers (w_db w'), outbox (w_db w')) = (transfers (w_db w), outbox (w_db w)) →
  abreast t w → abreast t w'.
Proof. intros [= Ht Ho] []. split; try done; [unfold holds; by rewrite Ht | congruence]. Qed.
Lemma abreast_db t w w' : w_db w' = w_db w → abreast t w → abreast t w'.
Proof. intros Hd. apply abreast_same. by rewrite Hd. Qed.

(** Calls that touch neither. *)
Lemma off_rows_query {A} (q : DB → A) : off_rows _ (query q).
Proof. done. Qed.
Lemma off_rows_insert_event (r : event_row) : off_rows _ (Sql (insert_event r)).
Proof. intros d. unfold insert_event. repeat case_match; done. Qed.
Lemma off_rows_commit es : off_rows _ (Sql (commit_entries es)).
Proof. intros d. unfold commit_entries. by case_bool_decide. Qed.
Create HintDb off_rows.
#[local] Hint Resolve off_rows_query off_rows_insert_event off_rows_commit : off_rows.
Ltac off_tac := repeat first [solve [eauto with off_rows] | exact I | calls_step].

Lemma off_rows_insert_entries pending es : all_calls off_rows (insert_entries pending es).
Proof.
  revert pending. induction es as [|e es IH]; intros pending; cbn [insert_entries]; [done|].
  apply all_calls_attempt; [by apply all_calls_call | intros; apply IH].
Qed.
Lemma off_rows_PostEntries es : all_calls off_rows (LedgerRepo_PostEntries es).
Proof.
  unfold LedgerRepo_PostEntries. apply all_calls_attempt; [off_tac|]. intros _.
  apply all_calls_attempt; [apply off_rows_insert_entries|]. intros pending. off_tac.
Qed.
Lemma off_rows_post f src dst m desc :
  all_calls off_rows (attempt f (new_posting src dst m desc) (λ p, LedgerRepo_PostEntries (Entries p))).
Proof.
  apply all_calls_attempt; [unfold new_posting; off_tac|]. intros p. apply off_rows_PostEntries.
Qed.

(** A program that touches neither, then the rest. *)
Lemma passes_then {A} f (p : prog (res A)) (k : A → prog (res unit)) t w :
  all_calls off_rows p → abreast t w → (∀ a w', abreast t w' → passes_on (k a) w') →
  passes_on (attempt f p k) w.
Proof.
  intros Hp Ht Hk. apply (yields_off E (λ d, (transfers d, outbox d))); [done|].
  intros a w' Hs. apply Hk. by eapply abreast_same.
Qed.

Lemma passes_publishEvent t typ w :
  abreast t w → t_Version t0 < t_Version t → announces (t_State t) = Some typ →
  passes_on (publishEvent worker_deps t typ) w.
Proof.
  intros Ht Hv Ha. unfold publishEvent. apply yields_free; [done|]. intros u w1 Hd1.
  apply yields_free; [done|]. intros now w2 Hd2.
  apply passes_then with (t := t); [off_tac | by do 2 (eapply abreast_db; [done|]) |]. intros _ w3 Ht3.
  apply yields_free; [done|]. intros now' w4 Hd4. apply (abreast_db _ _ _ Hd4) in Ht3.
  apply yields_attempt. intros payload Hp. cbn [run fst snd] in *. apply message_of_saga in Hp.
  cbn [worker_deps dep_outbox outboxWriter ow_Write]. unfold OutboxWriter_Write.
  apply yields_free; [done|]. intros now'' w5 Hd5. apply (abreast_db _ _ _ Hd5) in Ht3.
  apply yields_attempt, yields_sql. intros [] w6 [= Hd6]. apply yields_ok.
  destruct Ht3 as [Hh Ho Hc [Hrq Hlc] Hid _]. unfold passed_on. rewrite <- Hd6.
  eexists (stored t), typ, _. cbn [outbox set_outbox]. rewrite Ho. split_and!; try done.
  - by apply lifecycle_state.
  - by rewrite <- Hid.
Qed.

(** A transition and its update, whatever follows. *)
Lemma passes_transition f t t1 next (k : Transfer → unit → prog (res unit)) w :
  abreast t w → same_request t t1 → t_State t1 = t_State t → t_Version t1 = t_Version t →
  (∀ now, edge (t_State t) next → lifecycle (set_state next now (t_Version t + 1) t1)) →
  (∀ now w', let t' := set_state next now (t_Version t + 1) t1 in
     abreast t' w' → t_Version t0 < t_Version t' → passes_on (k t' tt) w') →
  passes_on (attempt id (transition t1 next) (λ t', attempt f (UpdateState worker_deps t') (k t'))) w.
Proof.
  intros Ht Hsr Es Ev Hlc Hk. apply yields_attempt. unfold transition.
  apply yields_free; [done|]. intros now w1 Hd1. apply (abreast_db _ _ _ Hd1) in Ht.
  intros t' Htr. cbn [run fst snd] in *. apply Transition_ok in Htr as [He Et']. rewrite Es in He.
  destruct Ht as [Hh Ho Hc [Hrq Hlt] Hid Hv]. pose proof (lifecycle_version _ Hlt) as Hb.
  rewrite Ev, wrap64_small in Et' by lia. subst t'.
  assert (next_version t (set_state next now (t_Version t + 1) t1)) as Hnv
    by (split_and!; [exact Hsr | exact He | done | by apply Hlc]).
  apply yields_attempt. unfold UpdateState.
  cbn [worker_deps dep_transfers transferRepo trp_writer tw_UpdateState]. unfold TransferRepo_UpdateState.
  apply yields_attempt, yields_sql. intros n w2 Hup.
  rewrite (update_transfer_ok _ t) in Hup by done. injection Hup as <- Hd2.
  apply yields_ok, Hk; [|simpl; lia]. pose proof Hsr as (Ei & _ & _ & _ & _ & Ec).
  split; rewrite <- ?Hd2; cbn; try done; try congruence; try lia.
  - unfold holds. simpl. rewrite Ei. by apply lookup_insert_eq.
  - split; [by eapply same_request_wf | by apply Hlc].
Qed.

(** A transition, its update and its announcement. *)
Lemma passes_advance f t t1 next typ w :
  abreast t w → same_request t t1 → t_State t1 = t_State t → t_Version t1 = t_Version t →
  (∀ now, edge (t_State t) next → lifecycle (set_state next now (t_Version t + 1) t1)) →
  announces next = Some typ →
  passes_on (attempt id (transition t1 next) (λ t', attempt f (UpdateState worker_deps t')
    (λ _, publishEvent worker_deps t' typ))) w.
Proof.
  intros. eapply passes_transition; [done..|]. intros now w' t' Ht' Hv'. by apply passes_publishEvent.
Qed.

(** *** The steps *)
Lemma passes_failWith t reason w :
  abreast t w → t_State t ≠ StateFailed → passes_on (failWith worker_deps t reason) w.
Proof.
  intros Ht Hs. unfold failWith. cbv zeta. rewrite bool_decide_false by done.
  apply (passes_advance _ t); [done..| |done].
  intros now He. destruct Ht as [_ _ _ [_ Hlc] _ _]. unfold lifecycle, edge in *. simpl.
  destruct (t_State t); simpl in He; rewrite ?elem_of_cons, ?elem_of_nil in He;
    destruct_or?; try done; destruct Hlc as (-> & -> & ->); tauto.
Qed.

Lemma passes_compensate t w :
  abreast t w → t_State t ≠ StateFailed → passes_on (compensate worker_deps t) w.
Proof.
  intros Ht Hs. unfold compensate. apply passes_then with (t := t); [|done|].
  { destruct (t_CreditPosted t); [apply off_rows_post | done]. }
  intros _ w1 Ht1. apply passes_then with (t := t); [|done|].
  { destruct (t_DebitPosted t); [apply off_rows_post | done]. }
  intros _ w2 Ht2. by apply passes_failWith.
Qed.

Lemma passes_reserveDebit t w :
  abreast t w → t_State t = StatePending → passes_on (reserveDebit worker_deps t) w.
Proof.
  intros Ht Es. assert (t_State t ≠ StateFailed) as Hs by (by rewrite Es).
  apply passes_then with (t := t); [|done|].
  { cbn [worker_deps dep_accounts accountRepo arp_locker al_LockForUpdate].
    unfold AccountRepo_LockForUpdate. off_tac. }
  intros src w1 Ht1. destruct (CanTransact src) as [_|e]; [|by apply passes_failWith].
  apply passes_then with (t := t); [unfold LedgerRepo_GetBalance; off_tac | done |]. intros bal w2 Ht2.
  destruct (_ <? _); [by apply passes_failWith|].
  apply passes_then with (t := t); [unfold new_posting; off_tac | done |]. intros p w3 Ht3.
  apply passes_then with (t := t); [apply off_rows_PostEntries | done |].
  intros _ w4 Ht4. apply (passes_advance _ t); [done..| |done]. intros now _.
  destruct Ht4 as [_ _ _ [_ Hlc] _ _]. unfold lifecycle in *. rewrite Es in Hlc. simpl.
  by destruct Hlc as (-> & _ & ->).
Qed.

Lemma passes_callBank t w :
  abreast t w → t_State t = StateDebited → passes_on (callBank worker_deps t) w.
Proof.
  intros Ht Es. pose proof Ht as [_ _ _ [_ Hlc] _ _]. unfold lifecycle in Hlc. rewrite Es in Hlc.
  destruct Hlc as (Ev & Ed & Ec). unfold callBank. apply yields_bind. intros r w1 Hr.
  assert (abreast t w1) as Ht1.
  { eapply abreast_same; [|exact Ht].
    match type of Hr with run E ?p w = _ => 
      assert (all_calls off_rows p) as Hp;
        [|pose proof (run_off (λ d, (transfers d, outbox d)) E p w Hp) as Ho] end.
    - cbn [worker_deps dep_bank bankGW bg_InitiateTransfer].
      unfold CircuitBreakerGateway_InitiateTransfer. off_tac.
    - by rewrite Hr in Ho. }
  destruct r as [ref|e].
  - apply (passes_advance _ t); [done..| |done]. intros now _. unfold lifecycle. simpl. by rewrite Ev, Ed, Ec.
  - unfold startCompensation. cbv zeta. apply (passes_transition _ t); [done..| |].
    + intros now _. unfold lifecycle. simpl. by rewrite Ev, Ed, Ec.
    + intros now w2 t' Ht2 _. by apply passes_compensate.
Qed.

Lemma passes_postCredit t w :
  abreast t w → t_State t = StateBankCalled → passes_on (postCredit worker_deps t) w.
Proof.
  intros Ht Es. apply passes_then with (t := t); [unfold new_posting; off_tac | done |]. intros p w1 Ht1.
  apply passes_then with (t := t); [apply off_rows_PostEntries | done |].
  intros _ w2 Ht2. apply (passes_advance _ t); [done..| |done]. intros now _.
  destruct Ht2 as [_ _ _ [_ Hlc] _ _]. unfold lifecycle in *. rewrite Es in Hlc. simpl.
  by destruct Hlc as (-> & -> & _).
Qed.

Lemma passes_complete t w :
  abreast t w → t_State t = StateCredited → passes_on (complete worker_deps t) w.
Proof.
  intros Ht Es. apply (passes_advance _ t); [done..| |done]. intros now _.
  destruct Ht as [_ _ _ [_ Hlc] _ _]. unfold lifecycle in *. rewrite Es in Hlc. simpl.
  by destruct Hlc as (-> & -> & ->).
Qed.

Lemma passes_Execute w :
  transfers_wf (w_db w) → holds (w_db w) t0 → t_State t0 ∈ State_consts →
  terminal (t_State t0) = false → outbox (w_db w) = rows →
  passes_on (Execute worker_deps (t_ID t0)) w.
Proof.
  intros Hwf Hh Hs Hterm Ho. destruct (holds_wf _ _ Hs Hwf Hh) as (Hw & Hst & _).
  unfold Execute. apply yields_attempt.
  change (tr_FindByID (trp_reader (dep_transfers worker_deps))) with TransferRepo_FindByID.
  apply yields_bind. intros q w1 Hq. unfold query, select_transfer in Hq.
  cbn [call run exec] in Hq. unfold lens in Hq. cbn [w_db tick] in Hq.
  assert (w_db w1 = w_db w ∧ (q = Ok (Some (transfer_to_row t0)) ∨ ∃ e, q = Err e)) as [Hd Hres].
  { unfold holds in Hh. destruct (env_fault E (w_tick w)); cbn [with_fault fst snd] in Hq; rewrite ?Hh in Hq;
      injection Hq as <- <-; eauto. }
  destruct Hres as [->|[e ->]]; [|cbn [res_bind]; destruct (errors_Is e ErrNoRows); apply yields_err].
  cbn [res_bind]. rewrite scan_row by done.
  apply yields_ok. assert (abreast t0 w1) as Ht.
  { split; rewrite ?Hd, ?Hst; try done. by apply stored_created. }
  destruct (t_State t0) eqn:Es; cbn [steps step_execute]; try done.
  - by apply passes_reserveDebit.
  - by apply passes_callBank.
  - by apply passes_postCredit.
  - by apply passes_complete.
  - apply passes_compensate; [done | by rewrite Es].
Qed.
End acks.

Section theorems.
Context {U : UUIDLib} {L : UUIDLaws U} {R : RedisLib} {N : NatsLib} {M : MuxLib}.

(** C33: a delivery is acknowledged only when its work is done, whatever calls
    are lost on the way. If the worker, no other process running meanwhile, acks
    a message for a transfer that is not terminal, the transfer has moved along
    the machine to a later version, and the one row the outbox has gained is
    the message of its new state, waiting to be relayed: the chain of messages
    is never broken by an ack. *)
Theorem ack_means_done E w t subject data :
  transfers_wf (w_db w) → holds (w_db w) t → t_State t ∈ State_consts →
  terminal (t_State t) = false → message_transfer_id data = Ok (t_ID t) →
  let '(acked, w') := run E (consume subject data) w in
  acked = true →
  ∃ t' typ ob, holds (w_db w') t' ∧ evolves t t' ∧ t_Version t < t_Version t' ∧
    announces (t_State t') = Some typ ∧ outbox (w_db w') = outbox (w_db w) ++ [ob] ∧
    ob_status ob = PENDING ∧ ob_subject ob = EventType_text typ ∧
    message_transfer_id (ob_payload ob) = Ok (t_ID t).
Proof.
  intros Hwf Hh Hs Hterm Hm.
  assert (le_db (w_db w) (w_db (run E (consume subject data) w).2)) as Hle.
  { by apply (run_ok E inv le (consume subject data) (λ _ _, True)); [apply keeps_consume|]. }
  pose proof (passes_Execute E t (outbox (w_db w)) w Hwf Hh Hs Hterm eq_refl) as Hp.
  unfold consume, worker_handler in *. rewrite run_bind, run_attempt in *. cbn [run] in *. rewrite Hm in *.
  unfold passes_on, yields in Hp. destruct (run E (Execute worker_deps (t_ID t)) w) as [[[]|e] w']; [|done].
  cbn [run fst snd] in *. intros _.
  destruct (Hp tt eq_refl) as (t1 & typ & ob & Hh1 & Eid & Hs1 & Hv & Ha & Ho & Hst & Hsub & Hmsg).
  destruct (holds_wf _ _ Hs Hwf Hh) as (Hw & _). destruct (le_transfers _ _ Hle t Hh Hw) as (t' & Hh' & Hw' & Hev).
  assert (t' = t1) as ->.
  { unfold holds in Hh1, Hh'. rewrite Eid in Hh1. destruct (proj1 Hev) as (Eid' & _). rewrite Eid' in Hh'.
    apply transfer_to_row_inj; [by apply lifecycle_state, Hw' | done | congruence]. }
  exists t1, typ, ob. by split_and!.
Qed.
End theorems.
