(* ===== verification/Balances.v ===== *)
(** * Balances: SQL against the domain

    The [CASE] sum of the balance query against [SignedAmount] over the entries
    read back. *)
From S2P Require Import Prelude Uuid Money Account Transfer Ledger Json Database CircuitBreaker.
From S2P Require Import Effects Ports Adapters AdapterSpecs Saga Command Http Worker Delivery.
From S2P Require Import Concurrency System Auditing Sequential Queries.

Section theorems.
Context {U : UUIDLib} {L : UUIDLaws U} {R : RedisLib} {N : NatsLib} {M : MuxLib}.

(** The rows that the program can have written. *)
Definition row_wf (r : entry_row) : Prop :=
  typed r ∧ 0 <= ent_amount r <= int64_max ∧ ∃ a, ent_account_id r = AccountID_String a.

Lemma scanned_balance a cur (rows : list entry_row) :
  Forall row_wf rows →
  entries_balance a cur (map scan_entry rows) = sumZ (row_balance (AccountID_String a) (Some cur)) rows.
Proof.
  unfold entries_balance. induction 1 as [|r rows (Ht & Ha & a' & Ea) _ IH]; [done|].
  cbn [map sumZ]. rewrite IH. f_equal. unfold entry_for, row_balance, row_for.
  assert (le_AccountID (scan_entry r) = a') as ->.
  { unfold scan_entry. simpl. by rewrite Ea, ParseAccountID_String. }
  assert (SignedAmount (scan_entry r) = row_signed r) as ->.
  { unfold typed, entry_type_texts in Ht. rewrite !elem_of_cons, elem_of_nil in Ht.
    unfold SignedAmount, row_signed, scan_entry. simpl.
    destruct Ht as [->|[->|[]]]; simpl; [|done]. apply wrap64_small. unfold int64_max in Ha. lia. }
  simpl. rewrite Ea, (bool_decide_ext (Some (ent_currency r) = Some cur) (ent_currency r = cur))
    by naive_solver.
  rewrite (bool_decide_ext (AccountID_String a' = AccountID_String a) (a' = a))
    by (split; [by intros ?%(inj _) | by intros ->]).
  repeat case_bool_decide; simpl; tauto.
Qed.

(** C36: the balance that the SQL query computes is the sum of [SignedAmount]
    over the account's entries of the currency, as [GetAllEntries] reads them. *)
Theorem sql_balance_equals_entries E a cur w :
  (∀ n, env_fault E n = NoFault) → Forall row_wf (ledger_entries (w_db w)) →
  char3 cur = Some cur → in_int64 (balance (w_db w) a cur) →
  ∃ es, (run E LedgerRepo_GetAllEntries w).1 = Ok es ∧
    (run E (LedgerRepo_GetBalance a cur) w).1 = Ok (mkMoney (entries_balance a cur es) cur).
Proof.
  intros Hf Hrows Hc Hb. exists (map scan_entry (select_all_entries (w_db w))). split.
  - unfold LedgerRepo_GetAllEntries. rewrite run_attempt, (run_query E Hf). done.
  - rewrite (run_GetBalance E Hf). unfold scan_int64. rewrite bool_decide_true by done.
    cbn [fst]. do 2 f_equal. rewrite scanned_balance by (by rewrite select_all_perm).
    rewrite select_all_perm. unfold balance, sum_entries. by rewrite Hc.
Qed.
End theorems.
