(* ===== verification/Bank.v ===== *)
(** * The bank behind its breaker

    An open breaker keeps the saga from the bank and makes it compensate; and
    how a flaky bank and a breaker answer a burst of calls. *)
From S2P Require Import Prelude Uuid Money Account Transfer Ledger Json Database CircuitBreaker.
From S2P Require Import Effects Ports Adapters AdapterSpecs Saga Command Http Worker Delivery.
From S2P Require Import Calls Concurrency System Guarantees Sequential Refinement Creation Queries.

Section bank.
Context {U : UUIDLib} {L : UUIDLaws U} {R : RedisLib} {N : NatsLib} {M : MuxLib}.

(** ** Calls that are not for the bank *)
Definition bank_free X (c : Cmd X) : Prop :=
  match c with BreakerAcquire | BreakerRelease _ | BankCall _ => False | _ => True end.
Definition same_bank (w w' : World) : Prop := w_breaker w' = w_breaker w ∧ w_bank w' = w_bank w.

Lemma bank_free_exec E X (c : Cmd X) w0 w :
  bank_free X c → same_bank w0 w → same_bank w0 (exec E c w).2.
Proof.
  intros Hc Hw. destruct c; simpl in *; try done; unfold lens; by destruct (with_fault _ _ _).
Qed.
Lemma run_bank_free E {A} (p : prog A) w : all_calls bank_free p → same_bank w (run E p w).2.
Proof.
  intros Hp. apply (run_all_calls bank_free (same_bank w)); [|exact Hp | done].
  intros X c w'. apply bank_free_exec.
Qed.

Create HintDb bank.
Ltac bank_tac := repeat first [solve [eauto with bank] | exact I | calls_step].

Lemma bank_free_insert_entries es pending : all_calls bank_free (insert_entries pending es).
Proof.
  revert pending. induction es as [|e es IH]; intros pending; cbn [insert_entries]; [done|].
  apply all_calls_attempt; [done|]. intros; apply IH.
Qed.
Hint Resolve bank_free_insert_entries : bank.
Lemma bank_free_failWith t reason : all_calls bank_free (failWith worker_deps t reason).
Proof. unfold failWith, transition. bank_tac. Qed.
Hint Resolve bank_free_failWith : bank.
Lemma bank_free_startCompensation t reason : all_calls bank_free (startCompensation worker_deps t reason).
Proof.
  unfold startCompensation, compensate, reverseDebit, reverseCredit, transition, new_posting.
  unfold LedgerRepo_PostEntries. bank_tac; apply bank_free_insert_entries.
Qed.

(** ** The gateway of an open breaker *)
Definition refusal : error := errorf_w "bank gateway: " (Sentinel ErrCircuitOpen).

Lemma run_refused E req w :
  CB.acquire (env_now E (w_tick w)) (w_breaker w) = (false, w_breaker w) →
  ∃ w', run E (CircuitBreakerGateway_InitiateTransfer req) w = (Err refusal, w') ∧ same_bank w w'.
Proof.
  intros Ha. unfold CircuitBreakerGateway_InitiateTransfer. rewrite run_bind. cbn [call run exec].
  unfold lens. cbn [w_breaker tick]. rewrite Ha. eexists. split; [reflexivity|]. done.
Qed.

Lemma run_Execute_refused E t w :
  (∀ n, env_fault E n = NoFault) → holds (w_db w) t → t_State t = StateDebited →
  CB.acquire (env_now E (S (w_tick w))) (w_breaker w) = (false, w_breaker w) →
  same_bank w (run E (Execute worker_deps (t_ID t)) w).2.
Proof.
  intros Hf Hh Hs Ha. unfold Execute. rewrite run_attempt.
  change (tr_FindByID (trp_reader (dep_transfers worker_deps))) with TransferRepo_FindByID.
  rewrite (run_FindByID E Hf). unfold holds in Hh.
  rewrite Hh, scan_row, Hs by (rewrite Hs; by eapply bool_decide_unpack).
  cbn [steps step_execute]. unfold callBank. rewrite run_bind.
  change (bg_InitiateTransfer (dep_bank worker_deps)) with CircuitBreakerGateway_InitiateTransfer.
  destruct (run_refused E (bank_request t) (set_db (w_db w) (tick w)) Ha) as (w' & Hr & Hb).
  unfold bank_request in Hr. rewrite Hr.
  pose proof (run_bank_free E _ w' (bank_free_startCompensation t (Error refusal))) as Hb'.
  unfold same_bank in *. simpl in Hb. intuition congruence.
Qed.

(** ** The flaky bank *)
Definition after_calls (reqs : list (CtxStatus * BankCallRequest)) (g : Gateway) : Gateway :=
  fold_left (λ g p, (Gateway_InitiateTransfer p.1 p.2 g).2) reqs g.

Lemma after_calls_flaky reqs g :
  g_mode (after_calls reqs g) = g_mode g ∧ g_flakyLimit (after_calls reqs g) = g_flakyLimit g ∧
  (0 <= g_callCount g → g_callCount g + Z.of_nat (length reqs) < 2 ^ 31 →
     g_callCount (after_calls reqs g) = g_callCount g + Z.of_nat (length reqs)).
Proof.
  revert g. induction reqs as [|[ended req] reqs IH]; intros g; simpl; [split_and!; (done || lia)|].
  destruct (IH (Gateway_InitiateTransfer ended req g).2) as (H1 & H2 & H3).
  simpl in H1, H2, H3. split_and!; [done..|]. intros H0 Hlt.
  assert (wrap32 (g_callCount g + 1) = g_callCount g + 1) as Hw.
  { unfold wrap32. rewrite Z.mod_small; lia. }
  rewrite H3; rewrite ?Hw; lia.
Qed.

(** Past its latency, a flaky bank does not look at the context. *)
Lemma flaky_in_time ctx req lim n :
  ctx ≠ CtxEndsInLatency →
  Gateway_InitiateTransfer ctx req (mkGateway ModeFlaky lim n) =
    Gateway_InitiateTransfer CtxLive req (mkGateway ModeFlaky lim n).
Proof. by destruct ctx. Qed.

(** ** The flaky bank behind the breaker *)
Fixpoint gateway_calls E (reqs : list BankCallRequest) w : list (res string) * World :=
  match reqs with
  | [] => ([], w)
  | req :: reqs =>
      let '(r, w1) := run E (CircuitBreakerGateway_InitiateTransfer req) w in
      let '(rs, w2) := gateway_calls E reqs w1 in
      (r :: rs, w2)
  end.
Definition bank_ref (req : BankCallRequest) : string :=
  "BANK-REF-" +:+ TransferID_String (req_TransferID req).

Section outage.
Context (E : Env) (n max : nat) (reset : Z).
Context (in_time : ∀ k, ctx_status (env_fault E k) ≠ CtxEndsInLatency).
Context (burst : ∀ j k, env_now E j < env_now E k + reset).
Context (max_ok : (0 < max)%nat ∧ Z.of_nat max <= int64_max) (reset_ok : 0 <= reset <= int64_max).

(** After [c] calls of the bank, with [f] failures behind a closed breaker. *)
Definition outage (c f : nat) w : Prop :=
  w_bank w = mkGateway ModeFlaky (Z.of_nat n) (Z.of_nat c) ∧
  ∃ o, w_breaker w = CB.mkCB CB.StateClosed (Z.of_nat f) (Z.of_nat max) reset o.
Definition tripped_at (c : nat) w : Prop :=
  w_bank w = mkGateway ModeFlaky (Z.of_nat n) (Z.of_nat c) ∧
  ∃ k, w_breaker w = CB.mkCB CB.StateOpen 0 (Z.of_nat max) reset (env_now E k).

Lemma outage_call c f req w :
  outage c f w → (f < max)%nat → Z.of_nat (S c) < 2 ^ 31 →
  ∃ r w', run E (CircuitBreakerGateway_InitiateTransfer req) w = (r, w') ∧
    if (c <? n)%nat then is_ok r = false ∧
      if (S f <? max)%nat then outage (S c) (S f) w' else tripped_at (S c) w'
    else r = Ok (bank_ref req) ∧ outage (S c) 0 w'.
Proof.
  intros [Hb [o Hc]] Hf Hn. unfold CircuitBreakerGateway_InitiateTransfer.
  rewrite run_bind. cbn [call run exec]. unfold lens. cbn [w_breaker tick]. rewrite Hc.
  cbn [CB.acquire CB.state]. rewrite run_bind. cbn [call run exec]. unfold lens.
  cbn [w_bank w_tick set_breaker tick]. rewrite Hb, flaky_in_time by apply in_time.
  unfold Gateway_InitiateTransfer. cbn [g_mode g_flakyLimit g_callCount].
  assert (wrap32 (Z.of_nat c + 1) = Z.of_nat (S c)) as ->.
  { unfold wrap32. rewrite Z.mod_small; lia. }
  destruct (Z.leb_spec (Z.of_nat (S c)) (Z.of_nat n)) as [Hle|Hle].
  - rewrite (proj2 (Nat.ltb_lt c n)) by lia. cbn [from_option id].
    rewrite run_bind. cbn [call run exec is_ok]. unfold lens.
    cbn [w_breaker set_bank set_breaker tick w_tick CB.release]. unfold CB.onFailure.
    cbn [CB.consecutiveFails CB.maxFailures CB.state CB.resetTimeout CB.openedAt].
    rewrite wrap64_small by (unfold int64_max in *; lia).
    eexists _, _. split; [reflexivity|]. split; [done|].
    destruct (Nat.ltb_spec (S f) max), (Z.leb_spec (Z.of_nat max) (Z.of_nat f + 1)); simpl; try lia.
    + split; [done|]. eexists. simpl. f_equal. lia.
    + split; [done|]. by eexists.
  - rewrite (proj2 (Nat.ltb_ge c n)) by lia. cbn [from_option id].
    rewrite run_bind. cbn [call run exec is_ok]. unfold lens.
    eexists _, _. split; [reflexivity|]. split; [done|]. split; [done|]. by eexists.
Qed.

Lemma tripped_call c req w :
  tripped_at c w →
  ∃ w', run E (CircuitBreakerGateway_InitiateTransfer req) w = (Err refusal, w') ∧ tripped_at c w'.
Proof.
  intros [Hb [k Hc]]. destruct (run_refused E req w) as (w' & Hr & Ek & Eb).
  { rewrite Hc. by apply CB.open_rejects; [|apply burst|]. }
  exists w'. split; [done|]. split; [by rewrite Eb | exists k; by rewrite Ek].
Qed.

Lemma tripped_calls c reqs w :
  tripped_at c w →
  ∃ w', gateway_calls E reqs w = (map (λ _, Err refusal) reqs, w') ∧ tripped_at c w'.
Proof.
  revert w. induction reqs as [|req reqs IH]; intros w Hw; cbn [gateway_calls]; [by eexists|].
  destruct (tripped_call c req w Hw) as (w1 & -> & Hw1). destruct (IH w1 Hw1) as (w2 & -> & Hw2). eauto.
Qed.

Lemma recovered_calls c f reqs w :
  outage c f w → (f < max)%nat → (n <= c)%nat → Z.of_nat (c + length reqs) < 2 ^ 31 →
  ∃ w' f', gateway_calls E reqs w = (map (λ req, Ok (bank_ref req)) reqs, w') ∧
    outage (c + length reqs) f' w'.
Proof.
  revert c f w. induction reqs as [|req reqs IH]; intros c f w Hw Hf Hc Hn; cbn [gateway_calls].
  { exists w, f. by rewrite Nat.add_0_r. }
  cbn [length] in *. destruct (outage_call c f req w Hw Hf) as (r & w1 & -> & H); [lia|].
  rewrite (proj2 (Nat.ltb_ge c n)) in H by lia. destruct H as [-> Hw1].
  destruct (IH (S c) 0%nat w1 Hw1) as (w2 & f' & -> & Hw2); [lia..|].
  exists w2, f'. rewrite Nat.add_succ_r. done.
Qed.

(** What the calls after the [c]-th answer. *)
Lemma outage_calls c reqs w :
  outage c c w → (c < max)%nat → (c <= n)%nat → Z.of_nat (c + length reqs) < 2 ^ 31 →
  let k := (n `min` max - c)%nat in
  ∃ fails w', gateway_calls E reqs w =
      (fails ++ (if (n <? max)%nat then map (λ req, Ok (bank_ref req)) (drop k reqs)
                 else map (λ _, Err refusal) (drop k reqs)), w') ∧
    length fails = (length reqs `min` k)%nat ∧ Forall (λ r, is_ok r = false) fails ∧
    CallCount (w_bank w') =
      Z.of_nat (c + if (n <? max)%nat then length reqs else length reqs `min` k)%nat.
Proof.
  revert c w. induction reqs as [|req reqs IH]; intros c w Hw Hc Hcn Hlen k; cbn [gateway_calls].
  { exists [], w. rewrite drop_nil. destruct Hw as [Hb _].
    destruct (n <? max)%nat; (split_and!; [done | simpl; lia | done |]); rewrite Hb; simpl; lia. }
  cbn [length] in Hlen. destruct (outage_call c c req w Hw Hc) as (r & w1 & Hr & H); [lia|].
  destruct (Nat.ltb_spec c n) as [Hlt|Hge].
  2:{ (* recovered *)
    assert (k = 0)%nat as -> by lia. rewrite drop_0, (proj2 (Nat.ltb_lt n max)) by lia.
    destruct (recovered_calls c c (req :: reqs) w Hw Hc) as (w' & f' & Hg & [Hb _]); [simpl; lia..|].
    cbn [gateway_calls] in Hg. exists [], w'. rewrite Hg, Hb. split_and!; [done | simpl; lia | done | done]. }
  rewrite Hr. destruct H as [Hfail H].
  assert (∃ k', k = S k') as [k' Ek] by (exists (k - 1)%nat; lia).
  destruct (Nat.ltb_spec (S c) max) as [Hm|Hm].
  - destruct (IH (S c) w1 H Hm) as (fails & w' & -> & Hl & Hf & Hcc); [lia..|].
    replace (n `min` max - S c)%nat with k' in * by lia.
    exists (r :: fails), w'. rewrite Ek. split_and!; [done | simpl; lia | by constructor |].
    rewrite Hcc. destruct (n <? max)%nat; simpl; lia.
  - assert (k = 1)%nat as Ek1 by lia. rewrite Ek1. rewrite (proj2 (Nat.ltb_ge n max)) by lia.
    destruct (tripped_calls (S c) reqs w1 H) as (w' & -> & [Hb _]).
    exists [r], w'. split_and!; [done | simpl; lia | by constructor |]. rewrite Hb. simpl. lia.
Qed.
End outage.
End bank.

Section theorems.
Context {U : UUIDLib} {L : UUIDLaws U} {R : RedisLib} {N : NatsLib}.

(** C38: while the breaker is open and its timeout has not passed, a debited
    transfer that is executed without faults fails with the breaker's error
    and its source gets the amount back, and neither the bank is called nor
    the breaker changed. *)
Theorem open_breaker_spares_bank E lim w t :
  healthy E lim → ready E lim w t → t_State t = StateDebited →
  CB.wf (w_breaker w) → CB.state (w_breaker w) = CB.StateOpen →
  env_now E (S (w_tick w)) < CB.openedAt (w_breaker w) + CB.resetTimeout (w_breaker w) →
  (w_tick (run E (Execute worker_deps (t_ID t)) w).2 <= lim)%nat →
  ∃ w' now, run E (Execute worker_deps (t_ID t)) w = (Ok tt, w') ∧
    w_bank w' = w_bank w ∧ w_breaker w' = w_breaker w ∧
    effect E lim t (Some (float_of t, t_SourceAccountID t))
      (stored (set_state StateFailed now (t_Version t + 2) (set_failure_reason (Error refusal) t)))
      [EventTransferFailed] w w'.
Proof.
  intros H Hr Hs Hwf Ho Hn Hl.
  assert (CB.acquire (env_now E (S (w_tick w))) (w_breaker w) = (false, w_breaker w)) as Ha.
  { apply CB.open_rejects; [done | done | apply Hwf]. }
  pose proof (run_Execute_refused E t w (no_fault E lim H) (rd_holds _ _ _ _ Hr) Hs Ha) as [Hb Hk].
  assert (bank_answer E (tick w) t = Some (Err refusal)) as Hans.
  { unfold bank_answer. change (env_now E (w_tick (tick w))) with (env_now E (S (w_tick w))).
    change (w_breaker (tick w)) with (w_breaker w). by rewrite Ha. }
  assert (bank_answered E w t) as Hans' by (intros _; by rewrite Hans).
  destruct (wp_Execute E lim H t w Hr Hans' Hl) as [Hok [now Heff]].
  destruct (run E (Execute worker_deps (t_ID t)) w) as [r w']. cbn [fst snd] in *. subst r.
  assert (v_bank (verdict_of E w t) = Err refusal) as Hv.
  { unfold verdict_of. by rewrite Hans. }
  unfold spec_move, spec_transfer, spec_events, spec_transfer in Heff. rewrite Hs, Hv in Heff.
  replace (t_Version t + 1 + 1) with (t_Version t + 2) in Heff by lia.
  exists w', now. split_and!; [done..|]. exact Heff.
Qed.

(** C39: behind a fresh breaker that opens after [max] failures, a bank made by
    [NewFlaky(n)], called any number of times in one burst shorter than the
    timeout, with contexts that outlive its latency, fails its first calls. If [n < max], these are the first [n], and
    every later one succeeds with its transfer's reference; otherwise they are
    the first [max], every later one is refused with the breaker's error, and
    the bank is not called again. *)
Theorem flaky_bank_behind_breaker E (n max : nat) reset reqs w :
  (∀ k, ctx_status (env_fault E k) ≠ CtxEndsInLatency) → (∀ j k, env_now E j < env_now E k + reset) →
  (0 < max)%nat ∧ Z.of_nat max <= int64_max → 0 <= reset <= int64_max →
  Z.of_nat n < 2 ^ 31 → Z.of_nat (length reqs) < 2 ^ 31 →
  w_breaker w = CB.New (Z.of_nat max) reset → w_bank w = Gateway_NewFlaky (Z.of_nat n) →
  let '(results, w') := gateway_calls E reqs w in
  ∃ fails rest, results = fails ++ rest ∧ Forall (λ r, is_ok r = false) fails ∧
    length fails = (length reqs `min` (n `min` max))%nat ∧
    if (n <? max)%nat then
      rest = map (λ req, Ok (bank_ref req)) (drop n reqs) ∧
      CallCount (w_bank w') = Z.of_nat (length reqs)
    else
      rest = map (λ _, Err refusal) (drop max reqs) ∧
      CallCount (w_bank w') = Z.of_nat (length reqs `min` max).
Proof.
  intros Ht Hb Hmax Hreset Hn Hlen Hcb Hg.
  assert (outage n max reset 0 0 w) as Hw.
  { split; [|by eexists]. rewrite Hg. unfold Gateway_NewFlaky. f_equal. unfold wrap32.
    rewrite Z.mod_small; lia. }
  destruct (outage_calls E n max reset Ht Hb Hmax Hreset 0 reqs w Hw) as (fails & w' & -> & Hl & Hf & Hc);
    [lia | lia | simpl; lia |]. rewrite Nat.sub_0_r in *.
  eexists fails, _. split; [reflexivity|]. split; [done|]. split; [done|].
  destruct (Nat.ltb_spec n max); (split; [by f_equal; f_equal; lia|]); rewrite Hc; lia.
Qed.

(** A bank made by [NewFlaky(n)], called by anyone, fails its first [n]
    calls and then succeeds with the transfer's reference, up to the last
    value of its 32-bit counter; the call after that counts as negative, and
    fails. *)
Lemma flaky_bank_recovers n reqs req :
  0 <= n < 2 ^ 31 →
  let k := Z.of_nat (length reqs) + 1 in
  let result := (Gateway_InitiateTransfer CtxLive req (after_calls reqs (Gateway_NewFlaky n))).1 in
  (k < 2 ^ 31 → if k <=? n then ∃ e, result = Some (Err e)
     else result = Some (Ok ("BANK-REF-" +:+ TransferID_String (req_TransferID req)))) ∧
  (k = 2 ^ 31 → ∃ e, result = Some (Err e)).
Proof.
  intros Hn k result. subst result.
  assert (wrap32 n = n) as Hw by (unfold wrap32; rewrite Z.mod_small; lia).
  destruct (after_calls_flaky reqs (Gateway_NewFlaky n)) as (Hm & Hf & Hc).
  unfold Gateway_NewFlaky in *. simpl in Hm, Hf, Hc. rewrite Hw in *.
  unfold Gateway_InitiateTransfer. cbn [fst]. rewrite Hm, Hf. split.
  - intros Hk. rewrite Hc, Z.add_0_l by lia. replace (wrap32 (Z.of_nat (length reqs) + 1)) with k.
    2:{ unfold wrap32. rewrite Z.mod_small; lia. }
    destruct (k <=? n); eauto.
  - intros Hk. rewrite Hc, Z.add_0_l by lia. replace (wrap32 (Z.of_nat (length reqs) + 1)) with (- 2 ^ 31).
    2:{ unfold k in Hk. replace (Z.of_nat (length reqs) + 1) with (2 ^ 31) by lia. reflexivity. }
    destruct (Z.leb_spec (- 2 ^ 31) n); [eauto | lia].
Qed.
End theorems.
