(* ===== verification/Testbed.v ===== *)
(** * Concrete services and a small world, on which the theorems' hypotheses
    are shown to hold *)
From S2P Require Import Prelude Uuid Money Account Transfer Ledger Json Database CircuitBreaker.
From S2P Require Import Effects Ports Adapters AdapterSpecs Saga Command Http Worker Delivery.
From S2P Require Import Concurrency System Auditing Guarantees Sequential Refinement Creation.

(** ** Redis: a map from keys to values and expiry times *)
Definition test_redis : RedisLib := {|
  redis_state := gmap string (string * Z);
  redis_get now k s :=
    match s !! k with
    | Some (v, expiry) => if now <? expiry then Some v else None
    | None => None
    end;
  redis_setnx now k v ttl s :=
    match s !! k with
    | Some (_, expiry) => if now <? expiry then (false, s) else (true, <[k := (v, now + ttl)]> s)
    | None => (true, <[k := (v, now + ttl)]> s)
    end;
|}.

Lemma test_redis_laws : RedisLaws test_redis.
Proof.
  split; simpl; intros.
  - assert (∀ now', now <= now' < now + ttl →
      match <[k := (v, now + ttl)]> s !! k with
      | Some (v, expiry) => if now' <? expiry then Some v else None
      | None => None
      end = Some v) as Hnew.
    { intros now' Hn. rewrite lookup_insert_eq. by destruct (Z.ltb_spec now' (now + ttl)); [|lia]. }
    destruct (s !! k) as [[v0 e0]|]; [destruct (now <? e0)|]; simplify_eq; by split.
  - repeat case_match; by simplify_eq.
  - destruct (s !! k) as [[v0 e0]|]; [destruct (now <? e0)|]; simpl; by rewrite ?lookup_insert_ne by done.
Qed.

(** ** NATS: the bound subjects and the captured messages *)
Definition test_nats : NatsLib := {|
  nats_state := list string * list (string * string);
  nats_subjects s := s.1;
  nats_log s := s.2;
  nats_publish subj payload s :=
    if bool_decide (subj ∈ s.1) then (Ok tt, (s.1, s.2 ++ [(subj, payload)]))
    else (Err (NewError "nats: no response from stream"), s);
  nats_ensure subjs s := (Ok tt, (subjs, s.2));
|}.

Lemma test_nats_laws : NatsLaws test_nats.
Proof.
  split; simpl.
  - intros subj payload s Hs. by rewrite bool_decide_true.
  - intros subj payload s Hs. rewrite bool_decide_false by done. eauto.
  - done.
Qed.

#[export] Existing Instance canon_uuid.
#[export] Existing Instance canon_uuid_laws.
#[export] Existing Instance test_redis.
#[export] Existing Instance test_redis_laws.
#[export] Existing Instance test_nats.
#[export] Existing Instance test_nats_laws.

(** ** A world with two customers, Alice holding 1000 rupiah, and one
    pending transfer of 100 from Alice to Bob *)
Definition alice : AccountID := mkAccountID (test_uuid 1001).
Definition bob : AccountID := mkAccountID (test_uuid 1002).
Definition transfer1 : TransferID := mkTransferID (test_uuid 2001).

Definition account_row_of (id : AccountID) (name status : string) : account_row :=
  mkAccountRow (AccountID_String id) name "IDR" status 0 0.
Definition test_accounts : Datatypes.list account_row :=
  [account_row_of alice "Alice" "ACTIVE"; account_row_of bob "Bob" "ACTIVE";
   account_row_of (FloatAccount CurrencyIDR) "float" "ACTIVE"].

Definition transfer_row1 : transfer_row :=
  mkTransferRow (TransferID_String transfer1) "key-1" (AccountID_String alice)
    (AccountID_String bob) 100 "IDR" "PENDING" "" "" false false 0 0 1.

Definition seed_entry : entry_row :=
  mkEntryRow (uuid_String (test_uuid 3001)) (uuid_String (test_uuid 3002))
    (AccountID_String alice) "CREDIT" 1000 "IDR" "test seed" 0.

Definition test_db : DB :=
  mkDB (list_to_map (map (λ r, (acc_id r, r)) test_accounts)) [seed_entry]
    (<[tr_id transfer_row1 := transfer_row1]> ∅) [] [] 0.

Definition test_subjects : Datatypes.list string :=
  ["transfer.requested"; "transfer.debited"; "transfer.bank_called"; "transfer.credited"].

Definition world_with (mode : FailureMode) (db : DB) : World :=
  mkWorld db ∅ (test_subjects, []) (CB.New 5 30000000000) (Gateway_New mode) 0.
Definition test_world : World := world_with ModeSuccess test_db.

(** No faults; the clock advances by a microsecond at every call (and starts
    again after a million), and a new UUID is drawn at every call. *)
Definition test_env : Env :=
  mkEnv (λ n, 1750000000000000000 + 1000 * (Z.of_nat n mod 1000000)) test_uuid (λ _, NoFault)
    (λ _, Err (NewError "")).

(** ** The hypotheses of the theorems hold here *)
Definition test_transfer : Transfer :=
  mkTransfer transfer1 "key-1" alice bob (mkMoney 100 "IDR") StatePending "" "" false false 0 0 1.

Definition test_lim : nat := 200.

Lemma test_clock n : ∃ s, time_json (env_now test_env n) = Ok (JStr s).
Proof.
  unfold time_json. assert (env_now test_env n / 1000000000 = 1750000000) as ->.
  { simpl. pose proof (Z.mod_pos_bound (Z.of_nat n) 1000000). symmetry.
    apply (Z.div_unique _ _ _ (1000 * (Z.of_nat n mod 1000000))); lia. }
  change (civil_from_days (1750000000 / 86400)) with (2025, 6, 15). simpl. eauto.
Qed.

Lemma test_uuids n m :
  (n < test_lim)%nat → (m < test_lim)%nat → test_uuid n = test_uuid m → n = m.
Proof.
  intros Hn Hm He.
  assert (NoDup (map (λ n, uuid_String (test_uuid n)) (seq 0 test_lim))) as Hd
    by decide_vm.
  apply (NoDup_map_inj _ _ n m Hd); [by apply elem_of_seq; lia..|]. by rewrite He.
Qed.

Lemma test_healthy : healthy test_env test_lim.
Proof. split; [done | apply test_clock | apply test_uuids]. Qed.

Lemma test_fresh mode : fresh_ids test_env test_lim (world_with mode test_db).
Proof.
  assert (Forall (λ n, ¬ uuid_String (test_uuid n) ∈ map ent_id (ledger_entries test_db))
            (seq 0 test_lim)) as Hf
    by decide_vm.
  intros n Hn. split; [|exact (not_elem_of_nil _)].
  rewrite Forall_forall in Hf. specialize (Hf n). unfold world_with, test_env.
  cbn [w_db env_uuid]. apply Hf, elem_of_seq. lia.
Qed.

Lemma test_fresh_transfers mode : fresh_transfers test_env test_lim (world_with mode test_db).
Proof.
  assert (Forall (λ n, ¬ uuid_String (test_uuid n) = tr_id transfer_row1) (seq 0 test_lim)) as Hf
    by decide_vm.
  intros n Hn. rewrite Forall_forall in Hf. unfold world_with, test_env.
  cbn [w_db env_uuid test_db transfers]. rewrite lookup_insert_ne; [apply lookup_empty|].
  intros E. symmetry in E. revert E. apply Hf, elem_of_seq. lia.
Qed.

Lemma test_accounts_lookup id r :
  accounts test_db !! id = Some r → id = acc_id r ∧ r ∈ test_accounts.
Proof.
  intros Hr%elem_of_list_to_map_2%list_elem_of_fmap_1. destruct Hr as (r' & [= -> ->] & Hr). done.
Qed.
Lemma test_accounts_wf : accounts_wf test_db.
Proof. intros id r Hr%test_accounts_lookup. by destruct Hr as [-> _]. Qed.

Lemma test_db_wf : transfers_wf test_db.
Proof.
  intros k r Hr. simpl in Hr. apply lookup_insert_Some in Hr as [[<- <-]|[_ Hr]].
  - exists test_transfer. split_and!; try done.
  - by rewrite lookup_empty in Hr.
Qed.

Lemma test_keys : keys_unique test_db.
Proof.
  intros k1 k2 r1 r2 H1 H2 _. simpl in *.
  apply lookup_insert_Some in H1 as [[<- _]|[_ H1]]; [|by rewrite lookup_empty in H1].
  apply lookup_insert_Some in H2 as [[<- _]|[_ H2]]; [done | by rewrite lookup_empty in H2].
Qed.

Lemma test_outbox mode : outbox_inv (world_with mode test_db).
Proof.
  split; [split; [constructor|]|]; intros r Hr; by apply elem_of_nil in Hr.
Qed.

Lemma test_accounts_ready mode : accounts_ready (world_with mode test_db) test_transfer.
Proof.
  split; [exact test_accounts_wf | by eexists | by eexists | by eexists | by decide_vm | by decide_vm].
Qed.

Lemma test_ready mode : ready test_env test_lim (world_with mode test_db) test_transfer.
Proof.
  split.
  - apply test_fresh.
  - done.
  - done.
  - by apply (holds_wf test_db); [decide_vm | apply test_db_wf |].
  - apply test_accounts_ready.
  - intros _. decide_vm.
Qed.
