(* ===== verification/Races.v ===== *)
(** * An executable scheduler, and what it finds

    [schedule] plays a list of actions; whatever it reaches is reachable. *)
From S2P Require Import Prelude Uuid Money Account Transfer Ledger Json Database CircuitBreaker.
From S2P Require Import Effects Ports Adapters AdapterSpecs Saga Command Http Worker Delivery.
From S2P Require Import Concurrency System Testbed.

Section scheduler.
Context {U : UUIDLib} {R : RedisLib} {N : NatsLib}.

(** A call of one process; its calls up to the [n]-th; a new process; a crash. *)
Inductive action := ACalls (i n : nat) | ASpawn (p : prog unit) | ACrash (i : nat).

Definition call_thread (E : Env) (i : nat) (c : Config) : Config :=
  match c_threads c !! i with
  | Some (Vis cmd k) =>
      if waits E cmd (c_world c) then c else
      let '(x, w') := exec E cmd (c_world c) in mkConfig w' (<[i := k x]> (c_threads c))
  | _ => c
  end.
Definition play (E : Env) (a : action) (c : Config) : Config :=
  match a with
  | ACalls i n => Nat.iter n (call_thread E i) c
  | ASpawn p => mkConfig (c_world c) (c_threads c ++ [p])
  | ACrash i => mkConfig (c_world c) (delete i (c_threads c))
  end.
Definition schedule (E : Env) (l : list action) (c : Config) : Config :=
  fold_left (λ c a, play E a c) l c.

Definition spawns_only (spawnable : World → prog unit → Prop) (a : action) : Prop :=
  match a with ASpawn p => ∀ w, spawnable w p | _ => True end.

Lemma call_thread_reachable spawnable E i c : reachable spawnable E c (call_thread E i c).
Proof.
  unfold call_thread. destruct c as [w ts]. simpl.
  destruct (ts !! i) as [[a|X cmd k]|] eqn:Hi; [reflexivity | | reflexivity].
  destruct (waits E cmd w) eqn:Hw; [reflexivity|].
  destruct (exec E cmd w) as [x w'] eqn:He. apply rtc_once. by econstructor.
Qed.

Lemma schedule_reachable spawnable E l c :
  Forall (spawns_only spawnable) l → reachable spawnable E c (schedule E l c).
Proof.
  intros Hl. revert c. induction Hl as [|a l Ha _ IH]; intros c; [reflexivity|].
  simpl. etrans; [|apply IH]. destruct a as [i n|p|i]; simpl in *.
  - induction n as [|n IHn]; simpl; [reflexivity|]. etrans; [exact IHn|].
    apply call_thread_reachable.
  - destruct c. apply rtc_once. by constructor.
  - destruct c. apply rtc_once. constructor.
Qed.
End scheduler.

(** ** Messages for [transfer1] and for a second transfer *)
Definition message_for (id : TransferID) : string :=
  render (JObj [("transfer_id", JStr (TransferID_String id))]).
Definition deliver (id : TransferID) : prog unit :=
  (do! _ := consume "transfer.requested" (message_for id) in Ret tt)%prog.

Definition balance_of (a : AccountID) (w : World) : Z :=
  sum_entries (AccountID_String a) "IDR" (w_db w).
Definition state_of (id : TransferID) (w : World) : string :=
  match transfers (w_db w) !! TransferID_String id with Some r => tr_state r | None => "" end.

(** Two pending transfers of 600 from Alice, who has 1000. *)
Definition transfer2 : TransferID := mkTransferID (test_uuid 2002).
Definition pending_row (id : TransferID) (key : string) (amount : Z) : transfer_row :=
  mkTransferRow (TransferID_String id) key (AccountID_String alice) (AccountID_String bob)
    amount "IDR" "PENDING" "" "" false false 0 0 1.
Definition two_transfers : DB :=
  set_transfers (<[TransferID_String transfer1 := pending_row transfer1 "key-1" 600]>
                (<[TransferID_String transfer2 := pending_row transfer2 "key-2" 600]> ∅)) test_db.

(** Calls of a delivery up to the balance check, and up to the commit of the
    posting in [reserveDebit]. *)
Definition to_balance : nat := 3.
Definition to_commit : nat := 11.
Definition to_end : nat := 40.

(** Both workers read the balance before either posts. *)
Definition overdraft_schedule : list action :=
  [ASpawn (deliver transfer1); ASpawn (deliver transfer2);
   ACalls 0 to_balance; ACalls 1 to_balance; ACalls 0 to_end; ACalls 1 to_end].

(** The worker dies after the commit of a posting and before the update of the
    transfer's state; the message is delivered again. *)
Definition redelivery_schedule : list action :=
  [ASpawn (deliver transfer1); ACalls 0 to_commit; ACrash 0;
   ASpawn (deliver transfer1); ACalls 0 to_end].

(** The same during compensation: state DEBITED, the bank refuses, the worker
    dies once the reversal is committed. *)
Definition to_reversal : nat := 14.
Definition compensation_schedule : list action :=
  [ASpawn (deliver transfer1); ACalls 0 to_end; ASpawn (deliver transfer1); ACalls 1 to_reversal;
   ACrash 1; ASpawn (deliver transfer1); ACalls 1 to_end].

(** The worker dies once the transfer is DEBITED; three redeliveries complete
    the transfer. *)
Definition lost_event_schedule : list action :=
  [ASpawn (deliver transfer1); ACalls 0 (to_commit + 2); ACrash 0;
   ASpawn (deliver transfer1); ACalls 0 to_end; ASpawn (deliver transfer1); ACalls 1 to_end;
   ASpawn (deliver transfer1); ACalls 2 to_end].
Definition announced : list string :=
  ["transfer.bank_called"; "transfer.credited"; "transfer.completed"].

(** The worker dies when the bank has accepted the transfer. *)
Definition to_bank : nat := 4.
Definition bank_twice_schedule : list action :=
  [ASpawn (deliver transfer1); ACalls 0 to_end; ASpawn (deliver transfer1); ACalls 1 to_bank; ACrash 1;
   ASpawn (deliver transfer1); ACalls 1 to_end].

(** Both relays select the row before either marks it. *)
Definition relay_process : prog unit := (do! _ := relay batchSize in Ret tt)%prog.
Definition two_relays_schedule : list action :=
  [ASpawn (deliver transfer1); ACalls 0 to_end; ASpawn relay_process; ASpawn relay_process;
   ACalls 1 1; ACalls 2 1; ACalls 1 to_end; ACalls 2 to_end].

Section races.
Context {M : MuxLib}.

Lemma deliver_process id : process (deliver id).
Proof. exact (process_worker _ _). Qed.
Lemma relay_process_process : process relay_process.
Proof. apply process_relay. Qed.
Lemma system_schedule E l w :
  Forall (spawns_only processes) l → system_run E w (schedule E l (mkConfig w [])).
Proof. apply (schedule_reachable processes). Qed.

Lemma message_for_parses id : message_transfer_id (message_for id) = Ok id.
Proof.
  unfold message_transfer_id, message_for. rewrite Unmarshal_render by (repeat constructor).
  cbn [res_bind]. field_step. by rewrite ParseTransferID_String.
Qed.
End races.

(** A schedule of processes of the system. *)
Ltac spawns_tac :=
  repeat first [ apply Forall_nil | apply Forall_cons; split
               | match goal with
                 | |- spawns_only _ (ASpawn _) =>
                     intros ?; first [exact (deliver_process _) | exact relay_process_process
                                     | constructor]
                 | |- _ => exact I
                 end ].

Section findings.
Context {M : MuxLib}.

(** C18: the row lock taken outside a transaction protects nothing: two
    workers each find 1000 on Alice's account, both post a debit of 600, and
    her balance is -200, with both transfers on their way. *)
Theorem concurrent_debits_overdraw :
  let w := world_with ModeSuccess two_transfers in
  ∃ c, system_run test_env w c ∧
    balance_of alice w = 1000 ∧ balance_of alice (c_world c) = -200 ∧
    state_of transfer1 (c_world c) = "DEBITED" ∧ state_of transfer2 (c_world c) = "DEBITED".
Proof.
  exists (schedule test_env overdraft_schedule (mkConfig (world_with ModeSuccess two_transfers) [])).
  split.
  - apply system_schedule. unfold overdraft_schedule. spawns_tac.
  - vm_compute. repeat split.
Qed.

(** C19: what a crash between two of a step's transactions, or a second relay,
    does. A worker that dies between the commit of a posting and the update of
    the transfer posts again when the message is redelivered: a transfer of 100
    debits 200, and a failed one gives Alice back more than was taken. One that
    dies after the bank has accepted makes the bank be called again. One that
    dies right after the update leaves a transfer that completes without its
    DEBITED event and message. And two relays that poll at the same time send
    the same row twice. *)
Theorem separate_transactions_anomalies :
  (∃ c, system_run test_env (world_with ModeSuccess test_db) c ∧
     balance_of alice (c_world c) = 1000 - 2 * 100 ∧ state_of transfer1 (c_world c) = "DEBITED") ∧
  (∃ c, system_run test_env (world_with ModePermanentErr test_db) c ∧
     balance_of alice (c_world c) = 1000 + 100 ∧ state_of transfer1 (c_world c) = "FAILED") ∧
  (∃ c, system_run test_env (world_with ModeSuccess test_db) c ∧
     CallCount (w_bank (c_world c)) = 2 ∧ state_of transfer1 (c_world c) = "BANK_CALLED") ∧
  (∃ c, system_run test_env (world_with ModeSuccess test_db) c ∧
     state_of transfer1 (c_world c) = "COMPLETED" ∧
     map ev_event_type (transfer_events (w_db (c_world c))) = announced ∧
     map ob_subject (outbox (w_db (c_world c))) = announced) ∧
  (∃ c m, system_run test_env (world_with ModeSuccess test_db) c ∧
     map message (outbox (w_db (c_world c))) = [m] ∧ nats_log (w_nats (c_world c)) = [m; m]).
Proof.
  split_and!.
  - exists (schedule test_env redelivery_schedule (mkConfig (world_with ModeSuccess test_db) [])).
    split; [apply system_schedule; unfold redelivery_schedule; spawns_tac|].
    vm_compute. repeat split.
  - exists (schedule test_env compensation_schedule (mkConfig (world_with ModePermanentErr test_db) [])).
    split; [apply system_schedule; unfold compensation_schedule; spawns_tac|].
    vm_compute. repeat split.
  - exists (schedule test_env bank_twice_schedule (mkConfig (world_with ModeSuccess test_db) [])).
    split; [apply system_schedule; unfold bank_twice_schedule; spawns_tac|].
    vm_compute. repeat split.
  - exists (schedule test_env lost_event_schedule (mkConfig (world_with ModeSuccess test_db) [])).
    split; [apply system_schedule; unfold lost_event_schedule; spawns_tac|].
    vm_compute. repeat split.
  - exists (schedule test_env two_relays_schedule (mkConfig (world_with ModeSuccess test_db) [])).
    eexists. split; [apply system_schedule; unfold two_relays_schedule; spawns_tac|].
    vm_compute. repeat split.
Qed.
End findings.
