(* ===== verification/Witnesses.v ===== *)
(** * The theorems applied

    For every theorem with hypotheses, the same theorem on concrete data where
    the hypotheses hold: the test world and environment of [Testbed]. *)
From stdpp Require Import sorting.
From S2P Require Import Prelude Uuid Money Account Transfer Ledger Json Database CircuitBreaker.
From S2P Require Import Observability Effects Ports Adapters AdapterSpecs Saga Command Http Worker Delivery.
From S2P Require Import EventLog Concurrency System Auditing Guarantees Sequential Refinement.
From S2P Require Import Closed Recovery Pipeline Drain Creation Middleware Queries Retries Books Solvency Acks Balances Bank Testbed Races.

(** A pattern ending in a star matches any path of its prefix, another one itself. *)
#[local] Instance test_mux : MuxLib := {|
  mux_match pattern path :=
    if bool_decide (pattern = path) then Some (λ _, "")
    else if bool_decide (pattern = "/v1/*") && String.prefix "/v1/" path then Some (λ _, "")
    else None;
  mux_NotFound := writeError 404 "not_found" "";
  mux_MethodNotAllowed := writeError 405 "method_not_allowed" "";
  prom_Handler := [OpHeader "Content-Type" "text/plain"; OpWrite "# metrics"];
|}.
Lemma test_mux_laws : MuxLaws.
Proof. split; reflexivity. Qed.

(** ** The saga *)
Definition after_saga : World := execute_n test_env 4 transfer1 test_world.

Lemma saga_all_or_nothing_witness :
  ∃ t', holds (w_db after_saga) t' ∧ same_request test_transfer t' ∧
    (t_State t' = StateCompleted ∧ source_status test_world test_transfer = Ok tt ∧
       covers test_world test_transfer = true ∧
       (∀ a cur, char3 cur = Some cur →
          balance (w_db after_saga) a cur = balance (w_db test_world) a cur +
            if bool_decide ("IDR" = cur) then movement alice bob a 100 else 0)
     ∨ t_State t' = StateFailed ∧
       (∀ a cur, char3 cur = Some cur →
          balance (w_db after_saga) a cur = balance (w_db test_world) a cur)).
Proof.
  apply (saga_all_or_nothing test_env test_lim test_world test_transfer).
  - apply test_healthy.
  - apply test_ready.
  - discriminate.
  - reflexivity.
  - apply Nat.leb_le. vm_compute. reflexivity.
Defined.

(** ** The system: a delivery of [transfer1], then a second one *)
Definition first_step : list action := [ASpawn (deliver transfer1); ACalls 0 to_end].
Definition later_step : list action := [ASpawn (deliver transfer1); ACalls 1 to_end].
Definition config1 : Config := schedule test_env first_step (mkConfig test_world []).
Definition config2 : Config := schedule test_env later_step config1.

Lemma config1_run : system_run test_env test_world config1.
Proof. apply system_schedule. unfold first_step. spawns_tac. Qed.
Lemma config2_later : reachable processes test_env config1 config2.
Proof. apply (schedule_reachable processes). unfold later_step. spawns_tac. Qed.

Lemma ledger_conserved_witness :
  (∃ posted, ledger_entries (w_db (c_world config1)) = ledger_entries test_db ++ posted ∧
     postings posted) ∧
  ∀ cur, currency_sum cur (ledger_entries (w_db (c_world config1))) =
         currency_sum cur (ledger_entries test_db).
Proof.
  apply (ledger_conserved test_env test_world config1).
  - apply test_db_wf.
  - apply config1_run.
Defined.

Lemma event_log_tells_the_truth_witness :
  ∃ new, transfer_events (w_db (c_world config2)) = transfer_events (w_db (c_world config1)) ++ new ∧
    Forall (told (w_db (c_world config2))) new.
Proof.
  apply (event_log_tells_the_truth test_env test_world config1 config2).
  - apply test_db_wf.
  - apply config1_run.
  - apply config2_later.
Defined.
(** One event per delivery. *)
Lemma config2_events :
  map ev_event_type (transfer_events (w_db (c_world config2))) =
    map ev_event_type (transfer_events test_db) ++ ["transfer.debited"; "transfer.bank_called"].
Proof. vm_compute. reflexivity. Qed.

(** The transfer after the first delivery. *)
Definition debited : Transfer :=
  match scanTransfer (transfers (w_db (c_world config1)) !! TransferID_String transfer1) with
  | Ok t => t
  | Err _ => test_transfer
  end.

Lemma debited_holds : holds (w_db (c_world config1)) debited ∧ t_State debited ∈ State_consts.
Proof. split; [vm_compute; reflexivity | decide_vm]. Qed.

Lemma transfers_follow_the_machine_witness :
  ∃ t', holds (w_db (c_world config2)) t' ∧ evolves debited t' ∧ transfer_wf t' ∧
    (acknowledged (t_State debited) = true → acknowledged (t_State t') = true) ∧
    (terminal (t_State debited) = true → t' = debited).
Proof.
  apply (transfers_follow_the_machine test_env test_world config1 config2 debited).
  - apply test_db_wf.
  - apply config1_run.
  - apply config2_later.
  - apply debited_holds.
  - apply debited_holds.
Defined.

(** A transfer to the clearing account itself: two deliveries take it to
    BANK_CALLED, where a third one leaves it. *)
Definition clearing_row : transfer_row :=
  mkTransferRow (TransferID_String transfer1) "key-1" (AccountID_String alice)
    (AccountID_String (FloatAccount "IDR")) 100 "IDR" "PENDING" "" "" false false 0 0 1.
Definition clearing_db : DB := set_transfers {[tr_id clearing_row := clearing_row]} test_db.
Definition clearing_world : World := world_with ModeSuccess clearing_db.
Definition clearing_config1 : Config :=
  schedule test_env (first_step ++ later_step) (mkConfig clearing_world []).
Definition clearing_config2 : Config :=
  schedule test_env [ASpawn (deliver transfer1); ACalls 2 to_end] clearing_config1.
Definition stuck : Transfer :=
  match scanTransfer (transfers (w_db (c_world clearing_config1)) !! TransferID_String transfer1) with
  | Ok t => t
  | Err _ => test_transfer
  end.
Lemma clearing_db_wf : transfers_wf clearing_db.
Proof.
  intros k r Hr. cbn [transfers clearing_db set_transfers] in Hr.
  apply lookup_singleton_Some in Hr as [<- <-].
  exists (mkTransfer transfer1 "key-1" alice (FloatAccount "IDR") (mkMoney 100 "IDR") StatePending
    "" "" false false 0 0 1).
  split_and!; done.
Qed.
Lemma stuck_holds :
  holds (w_db (c_world clearing_config1)) stuck ∧ t_State stuck = StateBankCalled ∧
  FloatAccount (m_Currency (t_Amount stuck)) = t_DestAccountID stuck.
Proof. split; [vm_compute; reflexivity | split; decide_vm]. Qed.

Lemma clearing_transfer_never_credited_witness :
  ∃ t', holds (w_db (c_world clearing_config2)) t' ∧ same_request stuck t' ∧
    credited (t_State t') = false ∧ (t_State stuck = StateBankCalled → t' = stuck).
Proof.
  apply (clearing_transfer_never_credited test_env clearing_world clearing_config1).
  - apply clearing_db_wf.
  - apply system_schedule. unfold first_step, later_step. spawns_tac.
  - apply (schedule_reachable processes). spawns_tac.
  - apply stuck_holds.
  - destruct stuck_holds as (_ & -> & _). by apply edge_consts with (s' := StateCredited), list_elem_of_here.
  - apply stuck_holds.
  - destruct stuck_holds as (_ & -> & _). reflexivity.
Defined.

Lemma one_transfer_per_key_witness :
  transfers_wf (w_db (c_world config1)) ∧ keys_unique (w_db (c_world config1)).
Proof.
  apply (one_transfer_per_key test_env test_world config1).
  - apply test_db_wf.
  - apply test_keys.
  - apply config1_run.
Defined.

(** After the first delivery the outbox holds one message; the relay sends it. *)
Definition config3 : Config :=
  schedule test_env [ASpawn relay_process; ACalls 1 to_end] config1.
Lemma config3_run : system_run test_env test_world config3.
Proof.
  unfold system_run. etrans; [apply config1_run|]. apply (schedule_reachable processes). spawns_tac.
Qed.
Definition sent_row : outbox_row :=
  default (mkOutboxRow 0 "" "" PENDING 0) (head (outbox (w_db (c_world config3)))).
Lemma sent_row_in : sent_row ∈ outbox (w_db (c_world config3)) ∧ ob_status sent_row = PUBLISHED.
Proof.
  split; [|vm_compute; reflexivity].
  apply (list_elem_of_lookup_2 _ 0). vm_compute. reflexivity.
Qed.

Lemma published_means_sent_witness :
  (ob_status sent_row = PUBLISHED → message sent_row ∈ nats_log (w_nats (c_world config3))) ∧
  ∃ r', r' ∈ outbox (w_db (c_world config3)) ∧ ob_id r' = ob_id sent_row ∧
    message r' = message sent_row.
Proof.
  apply (published_means_sent test_env test_world config3 config3 sent_row).
  - apply test_outbox.
  - apply config3_run.
  - reflexivity.
  - apply sent_row_in.
Defined.

(** ** The audit, of a ledger without the seed entry *)
Definition audited_world : World :=
  world_with ModeSuccess (set_ledger_entries [] test_db).
Definition audited_config : Config := schedule test_env first_step (mkConfig audited_world []).

Lemma audit_passes_after_any_run_witness :
  (run test_env (reconcile ledgerAuditor) (c_world audited_config)).1 =
    Ok (ReconciliationOK (length (ledger_entries (w_db (c_world audited_config))))).
Proof.
  apply (audit_passes_after_any_run test_env audited_world audited_config).
  - apply test_db_wf.
  - apply postings_nil.
  - apply system_schedule. unfold first_step. spawns_tac.
  - reflexivity.
Defined.

(** The seed entry is unbalanced: the reconciler reports its currency. *)
Lemma reconcile_correct_witness :
  ∃ report, run test_env (reconcile ledgerAuditor) test_world = (Ok report, tick test_world) ∧
    match report with
    | ReconciliationOK n => n = 1%nat ∧ ∀ c, (2 ^ 64 | currency_sum c [seed_entry])
    | LedgerDrift drifts =>
        drifts ≠ ∅ ∧ ∀ c z, drifts !! c = Some z ↔ z ≠ 0 ∧ z = wrap64 (currency_sum c [seed_entry])
    end.
Proof.
  apply (reconcile_correct test_env test_world).
  - reflexivity.
  - repeat constructor.
Defined.

(** ** Creation *)
Definition test_cmd : CreateTransferCmd :=
  mkCreateTransferCmd "key-2" (AccountID_String alice) (AccountID_String bob) 250 "IDR".
Definition empty_redis_absent n :
  redis_get (env_now test_env n) (prefixed (cmd_IdempotencyKey test_cmd)) (w_redis test_world) = None :=
  eq_refl.


Definition created_result : res CreateTransferResult * World :=
  run test_env (Handle createTransferCmd test_cmd) test_world.
Definition result2 : CreateTransferResult :=
  mkCreateTransferResult (uuid_String (test_uuid 3)) StatePending false.

Lemma created_result_ok : created_result = (Ok result2, created_result.2).
Proof.
  assert (created_result.1 = Ok result2) as Hr by (vm_compute; reflexivity).
  revert Hr. destruct created_result as [r w]. cbn [fst snd]. by intros ->.
Qed.

(** ** The domain *)
Definition rupiah : Money := mkMoney 100 "IDR".
Definition test_new : Transfer :=
  mkTransfer transfer1 "k" alice bob rupiah StatePending "" "" false false 7 7 1.
Definition test_debited : Transfer := set_state StateDebited 8 2 test_new.

Lemma transfer_lifecycle_witness :
  (1 <= 5)%nat ∧ t_Version test_debited = 1 + Z.of_nat 1 ∧ same_request test_new test_debited ∧
  t_State test_debited ∈ State_consts ∧
  (terminal (t_State test_debited) = true ↔
     t_State test_debited = StateCompleted ∨ t_State test_debited = StateFailed) ∧
  (∀ now' next, terminal (t_State test_debited) = true →
     ∃ e, Transition now' test_debited next = Err e ∧ errors_Is e ErrInvalidStateTransition = true).
Proof.
  apply (transfer_lifecycle 7 transfer1 "k" alice bob rupiah test_new 1 test_debited).
  - apply Transfer_New_ok. split_and!; [done | simpl; lia | done | decide_vm | done].
  - apply nsteps_once. exists 8, StateDebited. reflexivity.
Defined.

Definition test_tx : TransactionID := mkTransactionID (test_uuid 9).
Definition test_posting : Posting :=
  posting_of test_tx alice bob rupiah "d" (test_uuid 1) (test_uuid 2) 7.
Lemma rupiah_wf : money_wf rupiah.
Proof. unfold money_wf, int64_max. simpl. lia. Qed.

Lemma NewPosting_correct_witness :
  match NewPosting (test_uuid 1) (test_uuid 2) 7 test_tx alice bob rupiah "d" with
  | Ok p =>
      (0 < 100 ∧ "IDR" ≠ "" ∧ alice ≠ bob) ∧
      (∀ c, currency_total c (Entries p) = 0) ∧
      (∀ a c, entries_balance a c (Entries p) =
         if bool_decide ("IDR" = c) then movement alice bob a 100 else 0)
  | Err e =>
      (100 = 0 ∨ "IDR" = "" ∨ alice = bob) ∧ errors_Is e ErrDoubleEntryViolation = false
  end.
Proof.
  apply (NewPosting_correct (test_uuid 1) (test_uuid 2) 7 test_tx alice bob rupiah "d").
  apply rupiah_wf.
Defined.

Lemma Reversal_undoes_witness :
  ∃ r, Reversal (test_uuid 3) (test_uuid 4) 8 test_posting (mkTransactionID (test_uuid 5)) = Ok r ∧
    le_AccountID (p_Debit r) = bob ∧ le_AccountID (p_Credit r) = alice ∧
    ∀ a c, entries_balance a c (Entries test_posting ++ Entries r) = 0.
Proof.
  apply (Reversal_undoes (test_uuid 1) (test_uuid 2) 7 test_tx alice bob rupiah "d").
  - apply rupiah_wf.
  - apply NewPosting_valid; [apply rupiah_wf | simpl; lia | done | decide_vm].
Defined.

Lemma Add_Sub_cancel_witness :
  (m_Amount rupiah + m_Amount rupiah <= int64_max ∧ money_wf (mkMoney 200 "IDR") ∧
     Money.Sub (mkMoney 200 "IDR") rupiah = Ok rupiah)
  ∨ (int64_max < m_Amount rupiah + m_Amount rupiah ∧ m_Amount (mkMoney 200 "IDR") < 0).
Proof.
  apply (Add_Sub_cancel rupiah rupiah (mkMoney 200 "IDR")).
  - apply rupiah_wf.
  - apply rupiah_wf.
  - reflexivity.
Defined.

(** ** The event log *)
Definition test_event : TransferEvent :=
  NewEvent (test_uuid 7) 1750000000000000999 test_transfer EventTransferRequested.
Lemma event_log_read_back_witness :
  ∃ l' w', run test_env (append_and_find test_event) test_world = (Ok l', w') ∧
    l' ≡ₚ logged test_event :: [] ∧
    Sorted Z.le (map e_OccurredAt l') ∧
    ∀ id, id ≠ transfer1 →
      (run test_env (EventStore_FindByTransferID id) w').1 =
      (run test_env (EventStore_FindByTransferID id) test_world).1.
Proof.
  apply (event_log_read_back test_env (test_uuid 7) 1750000000000000999 test_transfer
           EventTransferRequested test_world []).
  - reflexivity.
  - unfold EventType_consts. constructor.
  - destruct (test_ready ModeSuccess) as [_ _ _ Hwf _ _]. exact Hwf.
  - reflexivity.
  - apply not_elem_of_nil.
  - reflexivity.
Defined.

(** ** The circuit breaker *)
Definition overlapping : list CB.event :=
  [CB.Acquire 0; CB.Acquire 1; CB.Release 2 true; CB.Acquire 3; CB.Release 4 false].
Lemma opens_after_max_failures_witness :
  let cb := CB.run (overlapping ++ [CB.Release 5 false]) (CB.New 2 30) in
  (∀ now, (CB.acquire now (CB.run overlapping (CB.New 2 30))).1 = true) ∧
  (1 + 1 < 2 → CB.state cb = CB.StateClosed ∧ ∀ now, (CB.acquire now cb).1 = true) ∧
  (1 + 1 = 2 →
     CB.state cb = CB.StateOpen ∧
     ∀ es' now, Forall (CB.quiet 5 (5 + 30)) es' → now < 5 + 30 →
       (CB.acquire now (CB.run es' cb)).1 = false).
Proof.
  apply (CB.opens_after_max_failures 2 30 overlapping 5).
  - unfold int64_max. lia.
  - unfold int64_max. lia.
  - intros [|[|[|[|[|[|n]]]]]]; vm_compute; reflexivity.
Defined.

Definition open_cb : CB.CircuitBreaker := CB.mkCB CB.StateOpen 0 5 30 100.
Lemma open_call_outcome_witness :
  CB.Call 110 120 (Ok tt) open_cb = (Err (Sentinel ErrCircuitOpen), open_cb) ∧
  (CB.acquire 130 open_cb).1 = true ∧
  (CB.acquire 133 (CB.run [CB.Acquire 131; CB.Acquire 132] (CB.acquire 130 open_cb).2)).1 = true.
Proof.
  assert (CB.wf open_cb) as Hwf by (unfold CB.wf, int64_max; simpl; split_and!; (done || lia)).
  split; [apply (CB.open_call_outcome 110 120 (Ok tt) open_cb Hwf eq_refl)|].
  destruct (CB.open_call_outcome 130 140 (Ok tt) open_cb Hwf eq_refl) as [_ H].
  destruct H as [H1 H2]; [discriminate|]. split; [exact H1 | apply (H2 [131; 132])].
Defined.

(** ** Delivery *)
(** One undeliverable row at the head, a batch of one: the second row waits
    for ever. *)
Definition blocked_rows : DB :=
  set_outbox [mkOutboxRow 1 "transfer.completed" "b" PENDING 0;
              mkOutboxRow 2 "transfer.debited" "a" PENDING 0] 2 test_db.
Lemma relay_starves_witness :
  w_db (Nat.iter 1000 (relay_poll test_env 1) (world_with ModeSuccess blocked_rows)) = blocked_rows ∧
  w_nats (Nat.iter 1000 (relay_poll test_env 1) (world_with ModeSuccess blocked_rows)) =
    (test_subjects, []).
Proof.
  apply (relay_starves test_env 1 (world_with ModeSuccess blocked_rows) 1000).
  - reflexivity.
  - decide_vm.
Defined.

(** ** Reads *)
Definition test_get : Request := mkRequest "GET" "/v1/accounts/{id}/balance" ∅ "" [].
Lemma get_only_reads_witness :
  same_world test_world (run test_env (NewRouter api_handler test_get) test_world).2.
Proof. apply (get_only_reads test_env test_get test_world). reflexivity. Defined.

(** ** The closed system: a transfer is created and its message published *)
Definition create_request (key : string) : Request :=
  mkRequest "POST" "/v1/transfers" {["Idempotency-Key" := key]}
    (render (JObj [("source_account_id", JStr (AccountID_String alice));
                   ("dest_account_id", JStr (AccountID_String bob));
                   ("amount", JNum "250"); ("currency", JStr "IDR")])) [].
Definition api_process (r : Request) : prog unit :=
  (do! _ := NewRouter api_handler r in Ret tt)%prog.
Definition created_config : Config :=
  schedule test_env [ASpawn (api_process (create_request "key-2")); ACalls 0 to_end;
                     ASpawn relay_process; ACalls 1 to_end] (mkConfig test_world []).
Lemma created_config_run : reachable closed_process test_env (mkConfig test_world []) created_config.
Proof. apply schedule_reachable. spawns_tac. Qed.
(** Both happened. *)
Lemma created_config_published :
  size (transfers (w_db (c_world created_config))) = 2%nat ∧
  map fst (nats_log (w_nats (c_world created_config))) = ["transfer.requested"].
Proof. vm_compute. split; reflexivity. Qed.

Lemma created_transfers_never_start_witness :
  ledger_entries (w_db (c_world created_config)) = ledger_entries test_db ∧
  transfers test_db ⊆ transfers (w_db (c_world created_config)) ∧
  ∀ k r, transfers (w_db (c_world created_config)) !! k = Some r →
    tr_state r = State_text StatePending.
Proof.
  apply (created_transfers_never_start test_env test_world created_config).
  - split; [split|]; [|apply Forall_nil; exact I|apply Forall_nil; exact I].
    intros k r Hr. simpl in Hr. apply lookup_insert_Some in Hr as [[_ <-]|[_ Hr]]; [reflexivity|].
    by rewrite lookup_empty in Hr.
  - apply created_config_run.
Defined.

(** ** A retry, after another transfer was created under another key *)
Definition busy_config : Config :=
  schedule test_env [ASpawn (api_process (create_request "key-3")); ACalls 0 to_end]
    (mkConfig created_result.2 []).
Lemma busy_config_ticks : (w_tick created_result.2 <= w_tick (c_world busy_config) < 1000)%nat.
Proof. split; [apply Nat.leb_le | apply Nat.ltb_lt]; vm_compute; reflexivity. Qed.
Lemma busy_config_cached :
  size (transfers (w_db (c_world busy_config))) = 3%nat ∧
  is_Some (redis_get (env_now test_env (w_tick (c_world busy_config))) (prefixed "key-3")
    (w_redis (c_world busy_config))).
Proof. split; [vm_compute; reflexivity | by eexists; vm_compute; reflexivity]. Qed.
Lemma retry_is_replayed_witness :
  run test_env (idempotencyMiddleware idempotencyStore (λ _, Ret []) (create_request "key-2"))
    (c_world busy_config) =
    ([OpHeader "Content-Type" "application/json"; OpHeader "X-Idempotent-Replayed" "true";
      OpWriteHeader StatusOK; OpWrite (render (result_json result2))], tick (c_world busy_config)).
Proof.
  destruct (retry_is_replayed test_env test_lim test_world test_cmd result2 created_result.2)
    as (n & Hn & H).
  - apply test_healthy.
  - apply test_fresh.
  - apply test_fresh_transfers.
  - apply test_accounts_wf.
  - apply empty_redis_absent.
  - apply created_result_ok.
  - apply Nat.leb_le. vm_compute. reflexivity.
  - apply (H test_env [] busy_config).
    + exists test_env, test_world, test_world. apply rtc_refl.
    + apply (schedule_reachable processes). spawns_tac.
    + intros k Hk. pose proof busy_config_ticks as Ht. unfold test_env, idempotencyTTL. cbn [env_now].
      rewrite !Z.mod_small by lia. lia.
    + reflexivity.
    + discriminate.
    + reflexivity.
Defined.

(** ** Recovery: the worker dies once the transfer is DEBITED, before the event
    of that is written *)
Definition crashed : Config :=
  schedule test_env [ASpawn (deliver transfer1); ACalls 0 (to_commit + 2); ACrash 0]
    (mkConfig test_world []).
Lemma crashed_run : system_run test_env test_world crashed.
Proof. apply system_schedule. spawns_tac. Qed.
Definition crash_transfer : Transfer :=
  match scanTransfer (transfers (w_db (c_world crashed)) !! TransferID_String transfer1) with
  | Ok t => t
  | Err _ => test_transfer
  end.
Definition recovered : World := execute_n test_env 4 transfer1 (c_world crashed).

Lemma crashed_fresh : fresh_ids test_env test_lim (c_world crashed).
Proof.
  assert (Forall (λ n, ¬ uuid_String (test_uuid n) ∈ map ent_id (ledger_entries (w_db (c_world crashed))))
            (seq (w_tick (c_world crashed)) test_lim)) as Hf by decide_vm.
  intros n Hn. split.
  - rewrite Forall_forall in Hf. apply (Hf n), elem_of_seq. lia.
  - assert (transfer_events (w_db (c_world crashed)) = []) as -> by (vm_compute; reflexivity).
    apply not_elem_of_nil.
Qed.
Lemma crash_transfer_parties :
  t_ID crash_transfer = transfer1 ∧ t_SourceAccountID crash_transfer = alice ∧
  t_DestAccountID crash_transfer = bob ∧ m_Currency (t_Amount crash_transfer) = "IDR".
Proof. split_and!; decide_vm. Qed.
Lemma crash_transfer_ready : accounts_ready (c_world crashed) crash_transfer.
Proof.
  assert (accounts (w_db (c_world crashed)) = accounts test_db) as Ha by (vm_compute; reflexivity).
  destruct (test_accounts_ready ModeSuccess) as [Hw Hs Hd Hf Hfs Hfd].
  destruct crash_transfer_parties as (_ & Es & Ed & Ec).
  assert (float_of crash_transfer = float_of test_transfer) as Ef by (unfold float_of; by rewrite Ec).
  split; rewrite ?Ef, ?Es, ?Ed; unfold accounts_wf; rewrite ?Ha; assumption.
Qed.

Lemma recovers_from_any_crash_witness :
  ∃ t', holds (w_db recovered) t' ∧ same_request crash_transfer t' ∧
    (t_State t' = StateCompleted ∨ t_State t' = StateFailed) ∧
    ∀ a cur, char3 cur = Some cur →
      balance (w_db recovered) a cur = balance (w_db (c_world crashed)) a cur +
        (net (t_State t') crash_transfer a cur - net (t_State crash_transfer) crash_transfer a cur).
Proof.
  unfold recovered. rewrite <- (proj1 crash_transfer_parties).
  apply (recovers_from_any_crash test_env test_world crashed test_env test_lim crash_transfer).
  - apply test_db_wf.
  - apply crashed_run.
  - vm_compute. reflexivity.
  - decide_vm.
  - apply test_healthy.
  - apply crashed_fresh.
  - apply crash_transfer_ready.
  - intros _. decide_vm.
  - assert (g_mode (w_bank (c_world crashed)) = ModeSuccess) as -> by (vm_compute; reflexivity). discriminate.
  - rewrite (proj1 crash_transfer_parties). apply Nat.leb_le. vm_compute. reflexivity.
Defined.

(** ** The pipeline: two transfers of 600 from Alice's 1000, their messages
    around one that is never sent. The overdraft of [Races] does not happen: the
    second transfer is refused. *)
Definition start_rows : list outbox_row :=
  [mkOutboxRow 2 "transfer.requested" (message_for transfer1) PENDING 0;
   mkOutboxRow 1 "transfer.completed" "b" PENDING 0;
   mkOutboxRow 3 "transfer.requested" (message_for transfer2) PENDING 0].
Definition queued_world : World := world_with ModeSuccess (set_outbox start_rows 3 two_transfers).
Definition piped_world : World := Nat.iter 4 (round test_env) queued_world.
Definition of_600 (id : TransferID) (key : string) : Transfer :=
  mkTransfer id key alice bob (mkMoney 600 "IDR") StatePending "" "" false false 0 0 1.
Definition fleet_of_two : list Transfer := [of_600 transfer1 "key-1"; of_600 transfer2 "key-2"].

Lemma queued_ready : Forall (ready test_env test_lim queued_world) fleet_of_two.
Proof.
  pose proof (test_fresh ModeSuccess) as Hf. pose proof (test_accounts_ready ModeSuccess) as [H1 H2 H3 H4 H5 H6].
  assert (∀ key id, holds (w_db queued_world) (of_600 id key) → key ≠ "" →
    ready test_env test_lim queued_world (of_600 id key)) as Hr.
  { intros key id Hh Hk. split.
    - exact Hf.
    - exact Hh.
    - reflexivity.
    - split; [|done]. unfold request_wf. cbn. split_and!; (done || decide_vm).
    - split; [exact H1 | exact H2 | exact H3 | exact H4 | exact H5 | exact H6].
    - intros _. decide_vm. }
  constructor; [|constructor; [|constructor]]; apply Hr; (done || (vm_compute; reflexivity)).
Qed.
Lemma queued_margin : margin queued_world fleet_of_two.
Proof.
  intros t Ht.
  assert (balance (w_db queued_world) alice "IDR" = 1000) as Hb by (vm_compute; reflexivity).
  assert (t_SourceAccountID t = alice ∧ m_Currency (t_Amount t) = "IDR") as [-> ->].
  { unfold fleet_of_two in Ht. rewrite !elem_of_cons, elem_of_nil in Ht. destruct Ht as [->|[->|[]]]; split; reflexivity. }
  cbv zeta. rewrite Hb. split; decide_vm.
Qed.
Lemma queued_outbox : outbox_inv queued_world.
Proof.
  split; [split|].
  - decide_vm.
  - intros r [->|[->|[->|[]%elem_of_nil]%elem_of_cons]%elem_of_cons]%elem_of_cons; simpl; lia.
  - by intros r [->|[->|[->|[]%elem_of_nil]%elem_of_cons]%elem_of_cons]%elem_of_cons.
Qed.
Lemma queued_awaits : awaits (w_db queued_world) fleet_of_two.
Proof.
  unfold awaits.
  assert (live (w_db queued_world) =
    [mkOutboxRow 2 "transfer.requested" (message_for transfer1) PENDING 0;
     mkOutboxRow 3 "transfer.requested" (message_for transfer2) PENDING 0]) as -> by (vm_compute; reflexivity).
  cbn [map ob_payload]. by rewrite !message_for_parses.
Qed.
Lemma pipeline_completes_witness :
  ∃ ts', Forall2 (λ t t', holds (w_db piped_world) t' ∧ same_request t t' ∧
              (t_State t' = StateCompleted ∨ t_State t' = StateFailed)) fleet_of_two ts' ∧
    (∀ a cur, char3 cur = Some cur →
      balance (w_db piped_world) a cur =
        balance (w_db queued_world) a cur + sumZ (shift a cur) (zip fleet_of_two ts')) ∧
    live (w_db piped_world) = [].
Proof.
  apply (pipeline_completes test_env test_lim queued_world fleet_of_two).
  - apply test_healthy.
  - apply queued_ready.
  - decide_vm.
  - apply queued_margin.
  - apply queued_outbox.
  - reflexivity.
  - apply Nat.leb_le. reflexivity.
  - by repeat constructor.
  - apply queued_awaits.
  - discriminate.
  - apply Nat.leb_le. vm_compute. reflexivity.
Defined.
(** One completes, one is refused, and 400 are left. *)
Lemma piped_ends :
  balance_of alice piped_world = 400 ∧
  state_of transfer1 piped_world = "COMPLETED" ∧ state_of transfer2 piped_world = "FAILED".
Proof. split_and!; vm_compute; reflexivity. Qed.

(** ** Draining: two polls of one message each *)
Definition sendable_rows : DB :=
  set_outbox [mkOutboxRow 1 "transfer.debited" "a" PENDING 0;
              mkOutboxRow 2 "transfer.credited" "b" PENDING 0] 2 test_db.
Definition drained_world : World :=
  Nat.iter 2 (relay_poll test_env 1) (world_with ModeSuccess sendable_rows).
Lemma relay_drains_outbox_witness :
  nats_log (w_nats drained_world) = [] ++ [("transfer.debited", "a"); ("transfer.credited", "b")] ∧
  pending (w_db drained_world) = [] ∧
  map ob_id (outbox (w_db drained_world)) = [1; 2] ∧
  map message (outbox (w_db drained_world)) = [("transfer.debited", "a"); ("transfer.credited", "b")].
Proof.
  apply (relay_drains_outbox test_env (λ _, eq_refl) 1 2 (world_with ModeSuccess sendable_rows)).
  - decide_vm.
  - decide_vm.
  - apply Nat.leb_le. reflexivity.
Defined.

(** ** The HTTP interface *)
(** The body of [create_request], and what the command answers to it. *)
Definition create_body : createTransferRequest :=
  mkCreateTransferRequest (AccountID_String alice) (AccountID_String bob) 250 "IDR".
Definition create_answer : Answer * World :=
  run test_env (CreateTransfer api_handler (keyed "key-2" (create_request "key-2"))) test_world.

Lemma access_log_matches_witness :
  let '(resp, line) := (run test_env (serve api_handler (create_request "key-2")) test_world).1 in
  al_method line = "POST" ∧ al_path line = "/v1/transfers" ∧ al_status line = resp_status resp ∧
  al_trace_id line = trace_of test_env (create_request "key-2") test_world ∧
  resp_header resp !! "X-Request-Id" = Some (al_trace_id line).
Proof.
  apply (access_log_matches test_mux_laws api_handler test_env (create_request "key-2") test_world).
Defined.

(** Without a key. *)
Lemma idempotency_gate_witness :
  let '(resp, w') := run test_env (NewRouter api_handler (create_request "")) test_world in
  same_world test_world w' ∧ resp_status resp = StatusBadRequest ∧
  Decode (resp_body resp) = Ok (errorResponse_json "idempotency_key_required"
    "Idempotency-Key header is required").
Proof.
  apply (idempotency_gate test_env (create_request "") test_world).
  - split; [reflexivity | split; [reflexivity | eexists; reflexivity]].
  - done.
Defined.

(** The key of [transfer1] is not in the cache. *)
Definition retry_request : Request := keyed "key-1" (create_request "key-1").
Lemma parties_usable w :
  accounts (w_db w) = accounts test_db → usable w alice ∧ usable w bob.
Proof.
  intros E. unfold usable, accounts_wf, active_account. rewrite E.
  split; (split; [apply test_accounts_wf|]).
  - exists (account_row_of alice "Alice" "ACTIVE"). split; vm_compute; reflexivity.
  - exists (account_row_of bob "Bob" "ACTIVE"). split; vm_compute; reflexivity.
Qed.
Lemma key_without_response_refused_witness :
  let '(ops, w') := run test_env (CreateTransfer api_handler retry_request) (c_world config2) in
  same_world (c_world config2) w' ∧ ops = internal_error.
Proof.
  pose proof (key_without_response_refused test_env test_world config1 config2 test_env retry_request
    test_db_wf config1_run config2_later) as H.
  destruct (run test_env (CreateTransfer api_handler retry_request) (c_world config2)) as [ops w'].
  destruct H as (Hs & _ & Hr).
  - eexists _, _. split; [apply debited_holds | vm_compute; reflexivity].
  - intros n. assert (w_redis (c_world config2) = ∅) as -> by (vm_compute; reflexivity). reflexivity.
  - split; [exact Hs|].
    assert (accounts (w_db (c_world config2)) = accounts test_db) as Ha by (vm_compute; reflexivity).
    apply (Hr create_body alice bob); [vm_compute; reflexivity | apply ParseAccountID_String
      | apply ParseAccountID_String | apply (parties_usable _ Ha)..].
Defined.

(** The transfer is found; Alice's balance is the seed entry. *)
Lemma queries_answered_witness :
  (same_world test_world
     (run test_env (GetTransfer api_handler (TransferID_String transfer1)) test_world).2 ∧
   ((∃ t, t_ID t = transfer1 ∧ holds test_db t ∧ transfer_wf t ∧
      (run test_env (GetTransfer api_handler (TransferID_String transfer1)) test_world).1 =
        writeJSON StatusOK (transfer_json t)) ∨
    (transfers test_db !! TransferID_String transfer1 = None ∧
      (run test_env (GetTransfer api_handler (TransferID_String transfer1)) test_world).1 =
        writeError StatusNotFound "transfer_not_found" "transfer not found"))) ∧
  same_world test_world
    (run test_env (GetAccountBalance api_handler (AccountID_String alice)) test_world).2 ∧
  (run test_env (GetAccountBalance api_handler (AccountID_String alice)) test_world).1 =
    writeJSON StatusOK (Ok (balance_json (AccountID_String alice) (mkMoney 1000 "IDR"))).
Proof.
  destruct (queries_answered test_env (TransferID_String transfer1) (AccountID_String alice) test_world
    (λ _, eq_refl) test_db_wf test_accounts_wf) as [Ht [Hw Hr]].
  rewrite ParseTransferID_String in Ht. split; [exact Ht|]. split; [exact Hw|].
  rewrite ParseAccountID_String in Hr. rewrite Hr. vm_compute. reflexivity.
Defined.

Lemma created_transfer_is_served_witness :
  ∃ t cur, Decode (resp_body (answered create_answer.1)) = Ok (result_json (result_of t)) ∧
    char3 "IDR" = Some cur ∧
    ParseAccountID (AccountID_String alice) = Ok (t_SourceAccountID t) ∧
    ParseAccountID (AccountID_String bob) = Ok (t_DestAccountID t) ∧
    t_Amount t = mkMoney 250 "IDR" ∧ t_State t = StatePending ∧
    ∀ E2 w2, (∀ n, env_fault E2 n = NoFault) → w_db w2 = w_db create_answer.2 →
      (run E2 (GetTransfer api_handler (TransferID_String (t_ID t))) w2).1 =
        writeJSON StatusOK (transfer_json (stored (requested t cur))).
Proof.
  apply (created_transfer_is_served test_env test_lim (keyed "key-2" (create_request "key-2")) create_body
           test_world create_answer.1 create_answer.2).
  - apply test_healthy.
  - apply test_fresh.
  - apply test_fresh_transfers.
  - apply test_accounts_wf.
  - reflexivity.
  - vm_compute. reflexivity.
  - apply surjective_pairing.
  - vm_compute. reflexivity.
  - apply Nat.leb_le. vm_compute. reflexivity.
Defined.

Lemma create_answers_json_witness :
  resp_status (answered
    (run test_env (CreateTransfer api_handler (create_request "key-2")) test_world).1) ∈
    [StatusOK; StatusAccepted; StatusBadRequest; StatusNotFound; StatusInternalServerError] ∧
  json_answer (run test_env (CreateTransfer api_handler (create_request "key-2")) test_world).1.
Proof. apply (create_answers_json test_env (create_request "key-2") test_world). Defined.

(** ** Balances *)
Lemma seed_rows_wf : Forall row_wf (ledger_entries (w_db test_world)).
Proof.
  apply Forall_cons. split; [|apply Forall_nil; exact I]. split; [|split; [|by exists alice]].
  - apply list_elem_of_further, list_elem_of_here.
  - split; discriminate.
Qed.
Lemma sql_balance_equals_entries_witness :
  ∃ es, (run test_env LedgerRepo_GetAllEntries test_world).1 = Ok es ∧
    (run test_env (LedgerRepo_GetBalance alice "IDR") test_world).1 =
      Ok (mkMoney (entries_balance alice "IDR" es) "IDR").
Proof.
  apply (sql_balance_equals_entries test_env alice "IDR" test_world).
  - reflexivity.
  - apply seed_rows_wf.
  - reflexivity.
  - decide_vm.
Defined.

(** A delivery, the saga's message relayed, a transfer posted and an audit. *)
Definition serial_day : list (prog unit) :=
  [deliver transfer1; relay_process; api_process (create_request "key-2");
   (do! _ := reconcile ledgerAuditor in Ret tt)%prog].
Lemma ledger_agrees_with_transfers_witness :
  balance (w_db (serial test_env serial_day test_world)) alice "IDR" =
    balance test_db alice "IDR" +
      (outstanding (w_db (serial test_env serial_day test_world)) alice "IDR" -
       outstanding test_db alice "IDR").
Proof.
  apply (ledger_agrees_with_transfers test_env serial_day test_world alice "IDR").
  - reflexivity.
  - apply test_db_wf.
  - repeat constructor.
  - reflexivity.
Defined.
(** The debit of the delivery shows on both sides. *)
Lemma serial_day_debits :
  balance (w_db (serial test_env serial_day test_world)) alice "IDR" = 900 ∧
  outstanding (w_db (serial test_env serial_day test_world)) alice "IDR" = -100.
Proof. split; vm_compute; reflexivity. Qed.

(** A delivery of [transfer1] is acknowledged. *)
Lemma ack_means_done_witness :
  let '(acked, w') := run test_env (consume "transfer.requested" (message_for transfer1)) test_world in
  acked = true →
  ∃ t' typ ob, holds (w_db w') t' ∧ evolves test_transfer t' ∧ 1 < t_Version t' ∧
    Concurrency.announces (t_State t') = Some typ ∧ outbox (w_db w') = [] ++ [ob] ∧
    ob_status ob = PENDING ∧ ob_subject ob = EventType_text typ ∧
    message_transfer_id (ob_payload ob) = Ok transfer1.
Proof.
  apply (ack_means_done test_env test_world test_transfer "transfer.requested" (message_for transfer1)).
  - apply test_db_wf.
  - reflexivity.
  - left.
  - reflexivity.
  - apply message_for_parses.
Defined.
Lemma first_delivery_acked :
  (run test_env (consume "transfer.requested" (message_for transfer1)) test_world).1 = true.
Proof. vm_compute. reflexivity. Qed.

(** Twelve deliveries of the same message that all die right after their
    posting: the debit is repeated until the balance check refuses it. *)
Definition crashing_day : list (prog unit * nat) :=
  replicate 12 (deliver transfer1, 11%nat).
Lemma serial_never_overdraws_witness :
  0 <= balance (w_db (serial_crashing test_env crashing_day test_world)) alice "IDR".
Proof.
  apply (serial_never_overdraws test_env crashing_day test_world alice "IDR").
  - apply test_db_wf.
  - apply Forall_replicate. constructor.
  - reflexivity.
  - intros c. unfold FloatAccount. destruct (FloatAccounts !! c) as [f|] eqn:Hf; [|discriminate].
    unfold FloatAccounts in Hf. revert Hf. rewrite !lookup_insert_Some, lookup_empty. naive_solver.
  - vm_compute. discriminate.
Defined.
Lemma crashing_day_exhausts :
  balance (w_db (serial_crashing test_env crashing_day test_world)) alice "IDR" = 0 ∧
  length (ledger_entries (w_db (serial_crashing test_env crashing_day test_world))) = 21%nat.
Proof. split; vm_compute; reflexivity. Qed.

(** ** The bank *)
(** The same data, behind a breaker that has just opened. *)
Definition trip (w : World) : World :=
  mkWorld (w_db w) (w_redis w) (w_nats w)
    (CB.mkCB CB.StateOpen 0 5 30000000000 1750000000000000000) (w_bank w) (w_tick w).
Lemma trip_wf w : CB.wf (w_breaker (trip w)).
Proof. unfold CB.wf, int64_max. simpl. split_and!; (done || lia). Qed.
Lemma ready_trip E lim w t : ready E lim w t → ready E lim (trip w) t.
Proof. intros [Hf Hh Hs Hw [H1 H2 H3 H4 H5 H6] Hb]. by split. Qed.
Definition tripped : World := trip (c_world crashed).
Lemma crashed_ready : ready test_env test_lim (c_world crashed) crash_transfer.
Proof.
  apply (reachable_ready test_env test_world).
  - apply test_db_wf.
  - apply crashed_run.
  - vm_compute. reflexivity.
  - decide_vm.
  - apply crashed_fresh.
  - apply crash_transfer_ready.
  - intros _. decide_vm.
Qed.
Lemma tripped_ready : ready test_env test_lim tripped crash_transfer.
Proof. apply ready_trip, crashed_ready. Qed.
(** The first step of [test_transfer]; and [crash_transfer] before a bank that
    does not answer. *)
Definition silent : World := set_bank (Gateway_New ModeTimeout) (c_world crashed).
Lemma ready_set_bank E lim w t g : ready E lim w t → ready E lim (set_bank g w) t.
Proof. intros [Hf Hh Hs Hw [H1 H2 H3 H4 H5 H6] Hb]. by split. Qed.
Lemma silent_ready : ready test_env test_lim silent crash_transfer.
Proof. apply ready_set_bank, crashed_ready. Qed.
Lemma execute_implements_spec_witness :
  (∃ w' now, run test_env (Execute worker_deps transfer1) test_world = (Ok tt, w') ∧
    effect test_env test_lim test_transfer (Some (alice, FloatAccount "IDR"))
      (stored (set_state StateDebited now 2 (set_debit_posted true test_transfer)))
      [EventTransferDebited] test_world w') ∧
  hangs test_env (Execute worker_deps (t_ID crash_transfer)) silent = true ∧
  ∃ e w', run (ended_from (S (S (w_tick silent))) test_env) (Execute worker_deps (t_ID crash_transfer))
    silent = (Err e, w') ∧ w_db w' = w_db silent.
Proof.
  split.
  - apply (execute_implements_spec test_env test_lim test_world test_transfer).
    + apply test_healthy.
    + apply test_ready.
    + discriminate.
    + apply Nat.leb_le. vm_compute. reflexivity.
  - destruct (execute_implements_spec test_env test_lim silent crash_transfer) as [_ H].
    + apply test_healthy.
    + apply silent_ready.
    + destruct H as (Hh & _ & He); [|exact (conj Hh He)]. intros Ha.
      assert (t_State crash_transfer = StateDebited) as Hs by (vm_compute; reflexivity).
      assert (bank_answer test_env (tick silent) crash_transfer = None) as Hb by (vm_compute; reflexivity).
      exact (proj1 (eq_None_not_Some _) Hb (Ha Hs)).
Defined.

Lemma open_breaker_spares_bank_witness :
  ∃ w' now, run test_env (Execute worker_deps (t_ID crash_transfer)) tripped = (Ok tt, w') ∧
    w_bank w' = w_bank tripped ∧ w_breaker w' = w_breaker tripped ∧
    effect test_env test_lim crash_transfer
      (Some (float_of crash_transfer, t_SourceAccountID crash_transfer))
      (stored (set_state StateFailed now (t_Version crash_transfer + 2)
         (set_failure_reason (Error refusal) crash_transfer)))
      [EventTransferFailed] tripped w'.
Proof.
  apply (open_breaker_spares_bank test_env test_lim tripped crash_transfer).
  - apply test_healthy.
  - apply tripped_ready.
  - vm_compute. reflexivity.
  - apply trip_wf.
  - reflexivity.
  - reflexivity.
  - apply Nat.leb_le. vm_compute. reflexivity.
Defined.

(** Four calls of a bank that fails twice. *)
Definition flaky_world : World := set_bank (Gateway_NewFlaky 2) test_world.
Definition bank_calls : list BankCallRequest := repeat (bank_request test_transfer) 4.
Lemma flaky_bank_behind_breaker_witness :
  let '(results, w') := gateway_calls test_env bank_calls flaky_world in
  ∃ fails rest, results = fails ++ rest ∧ Forall (λ r, is_ok r = false) fails ∧ length fails = 2%nat ∧
    rest = repeat (Ok (bank_ref (bank_request test_transfer))) 2 ∧ CallCount (w_bank w') = 4.
Proof.
  pose proof (flaky_bank_behind_breaker test_env 2 5 30000000000 bank_calls flaky_world) as H.
  destruct (gateway_calls test_env bank_calls flaky_world) as [results w'].
  destruct H as (fails & rest & Hr & Hf & Hl & Hrest); try reflexivity.
  - discriminate.
  - intros j k. unfold test_env. cbn [env_now].
    pose proof (Z.mod_pos_bound (Z.of_nat j) 1000000). pose proof (Z.mod_pos_bound (Z.of_nat k) 1000000). lia.
  - unfold int64_max. lia.
  - unfold int64_max. lia.
  - exists fails, rest. split; [exact Hr|]. split; [exact Hf|]. split; [exact Hl | exact Hrest].
Defined.
